(* ===== verification/_CoqProject ===== *)
-Q . S2P
Prelude.v
Tail.v
Errors.v
Utf8.v
GoTime.v
Json.v
KernelId.v
Kernel.v
EventStore.v
MemoryStore.v
Registry.v
Checkpoint.v
Repository.v
Broker.v
BrokerTest.v
Envelope.v
Cqrs.v
Consumer.v
Relay.v
Saga.v
Backlog.v
Inbox.v
Projection.v
Flat.v
Contracts.v
Services.v
Billing.v
Inventory.v
Shipping.v
Order.v
Ordering.v
Fulfillment.v
Wiring.v
Causality.v
System.v
Choreography.v
Postgres.v
PgTables.v
PgStore.v
PgInbox.v
ReadModel.v
OrderSummary.v
Views.v
Tracing.v
Traces.v
Telemetry.v
Notifier.v
SagaRun.v
Goroutines.v
Process.v
HttpApi.v
Conformance.v
Kafka.v
