(* ===== verification/Prelude.v ===== *)
(** * gohex: a verification of the event-sourcing framework and its example

    gohex is a Go library for event-sourced services in hexagonal form, with
    an example of four services on top of it. This library models the
    framework, its adapters and the example's services, and proves what makes
    them correct together: a fact is stored once, is published at least once
    and in order, reaches every read model and workflow exactly once in
    effect, and nothing a crash, a failure, a redelivery or a concurrent writer
    does changes that - with the exceptions found, listed below.

    ** How the program runs

    A command arrives at the REST edge or in a broker message, is dispatched on
    the command bus (middleware, retries) to a handler, which loads an
    aggregate from the event store through the repository, lets it raise
    events, and saves them at the expected version. The relay tails the store
    and publishes translations of the stored events as integration events. On
    the other side inbox writers keep foreign messages, projections fold the
    own store and the inbox into read models, and the saga runner folds
    messages into an event-sourced workflow whose decided commands are again
    stored events, routed by the relay. The ordering service also works a list
    of pending notifications. Trace contexts travel in metadata along all of
    these.

    ** The files, in the order they build on each other

    - Prelude (this file): strings, decimal text, quoting, Go interface types,
      lists; the automation. Tail: sequenced logs and cursors, what tailing a
      log by pages means; shared by every reader and every log.
    - Errors (kernel/errors.go), Utf8, GoTime, Json: Go's errors, text, time
      and encoding/json as far as the program uses them. [res] is the result
      of a call that returns, fails or panics.
    - KernelId, Kernel (kernel/id.go, aggregate.go): identifiers; aggregates
      with [Raise], [Rehydrate], [TakeUncommitted].
    - EventStore, MemoryStore, Registry, Checkpoint, Repository (eventstore/):
      the store port [Store] with its contract [StoreSpec], its in-memory
      implementation, the registry with upcasters, checkpoints, positions and
      contexts, the generic repository.
    - Broker, BrokerTest (broker/brokertest/), Envelope (broker/), Cqrs, Consumer (cqrs/), Relay (relay/), Saga
      (saga/), Inbox, Projection (projection/): messaging, the buses, commands
      on the wire, the relay, workflows and read models. Loops that interleave
      with the rest of the world are machines: one call, or one wait, per step.
      BrokerTest is the broker port's conformance suite, programs that run
      among the subscriptions they start.
    - Backlog (o11y/backlog.go): the gauges that sample how far a worker
      trails its log.
    - Flat, Contracts, Services, Billing, Inventory, Shipping, Order, Ordering,
      Fulfillment (gohex-example/): the contract catalog, the four services'
      aggregates and handlers, the fulfillment workflow.
    - Wiring (the services' cmd/*/main.go): what [run] builds of them -
      registries, buses, relay, saga runner - and how it waits for its
      database. Causality, System, Choreography: the four services as wired,
      each over a store of its own and the broker between them, as one step
      relation; what their logs owe each other, and that every step keeps it.
    - Postgres, PgTables, PgStore, PgInbox (eventstore-postgres/,
      cqrs-postgres/, projection-postgres/): the adapters' statements as
      functions of their tables, with round trips that may fail before or
      after a statement took effect; [Append] and the inbox's INSERT as
      interleaved machines.
    - ReadModel, OrderSummary, Notifier, HttpApi (gohex-example/ordering/): the
      read-model ports with their Postgres adapters, the projection, the
      worklist worker, the REST edge. Views: the order summary among the four
      services, what it can show of them in every run.
    - SagaRun (saga/runner.go): a workflow's subscriptions, one per topic, as
      a group. Goroutines (the services' cmd/*/main.go): the errgroup, each
      goroutine in its steps, with the client a Kafka subscription opens and
      closes. Process (the same): [run] from the first signal registration to
      the exit status - telemetry, pool, migrations, broker, goroutines, what
      is deferred - and the HTTP server's life.
    - Tracing, Traces (o11y/): what is injected, extracted, linked and stamped,
      and the wrappers; the theorems about them. Telemetry (o11y/log.go,
      o11y.go): the log handlers, [Init] and the shutdown it returns.
    - Conformance (eventstore/storetest/): the suites of the store and
      checkpoint ports as programs over a testing.T.
    - Kafka (broker-kafka/): records, publishing, subscriptions.

    Ports are typeclasses with a second class for their contract
    ([Store]/[StoreSpec], [Publisher]/[PublisherSpec], [CheckpointStore],
    [Deduplicator], [Inbox], [SummaryStore], [NotificationQueue], [Producer]).
    Clients are proved against the contract; the in-memory and the Postgres
    implementations are instances of it.

    ** What the theorems show

    - Storage: the in-memory store refines the append-only log; a stale save is
      refused; saving and loading is the identity; the Postgres [Append],
      interleaved and crashing at will, honours the same contract and never
      lets a reader skip an event, and ends within a bounded number of trips.
    - Delivery: the relay has published, at every moment of every run, all that
      is owed up to its checkpoint, in commit order; a group accepts its topic
      in order; Kafka records are the envelopes they were made of, keep the
      order of their key, and a live subscription commits exactly what it
      handled.
    - Effect: projections and inboxes are folds of their log up to the
      checkpoint; read-your-writes waits are right; acknowledged commands never
      run again; a saga reacts once to each envelope and stores its decisions
      atomically; the fulfillment saga follows its workflow.
    - The whole: in every run of the four services, with any interleaving of
      requests, relays, deliveries, redeliveries, conflicts and failures, what
      is stored about an order is causally right - a payment was asked for by
      the saga of a placed order, stock is reserved and refunds are made only
      for a captured payment, goods leave only with stock reserved, no order
      is both refunded and shipped; and every message states a fact of its
      sender's log. What the order summary shows is true of those logs, with
      the placement's columns once it was projected, and an outcome it has
      shown stays; a customer is told only of a payment that failed or a
      shipment that left.
    - The example: payments, orders, reservations and shipments have one life
      under any interleaving; their handlers refine their specifications; the
      order summary depends on the set of facts alone; the notifier loses no
      milestone; POST /orders answers what became of the order, on any store,
      among others and through the services' middleware.
    - Around it: an adapter that keeps what a suite relies on passes it (store,
      checkpoints, broker), and a careless one is refused; a service's [run]
      gives back all it and its goroutines took however it ends, and starts
      them only fully set up; a backlog gauge is an upper bound of the records
      past the checkpoint, zero exactly when there is none; a log record
      reaches every enabled sink, and a failed [Init] or a shutdown leaves no
      provider running.
    - Foundations: identifiers, value objects, aggregates, upcasters, error
      matching, retry policies, trace contexts.

    Liveness is stated as such: a runner left alone reaches its idle wait with
    everything done.

    ** Findings

    [PgInbox.pg_inbox_can_skip]: two inbox writers can make a reader miss a
    message. [OrderSummary.oversized_order_never_summarized]: an accepted order
    can be too large for its read model. [Notifier.refused_rows_starve_the_rest]:
    rejected rows are retried for ever and can stop the worklist.
    [Kafka.kafka_cancelled_retry_skips_record]: a cancelled subscription lets a
    later record pass a failed one. [Order.currency_is_three_bytes]: any three
    bytes are a currency. [Process.serveHTTP_does_not_wait]: a service may exit
    while its server still drains requests.
    [BrokerTest.Subtests.duplicating_refused]: the broker suite refuses an
    adapter that redelivers an accepted message, which the port allows.

    ** Fuel and bounds

    Loops of the program are structural recursions, or machines without fuel
    whose theorems quantify over every run; where a run has a length (the
    liveness theorems, [PgStore.pg_append_completes]) it is computed from the
    work to do. [Projection.wait_loop] takes the number of polls, and its
    theorem says how many are enough. [System.play] runs a schedule, a list of
    moves, by recursion on it, and [System.play_steps] says that its run is one
    of the relation's. Integers are mathematical where the
    program cannot overflow them and are wrapped or range-checked where it can
    ([add64], [in_int32], [in_int64]); sequences stay below the maximum of int64
    by hypothesis or by the database's own check.

    ** What is assumed

    Code that is no part of the repository is a parameter: the case table of
    unicode, random bytes, clocks, what jsonb keeps of a document, the
    OpenTelemetry parser and the identity of its spans ([Traces.sdk_laws]), the
    Kafka client ([Kafka.ProducerSpec], [GroupClient], [Goroutines.library_ok]), the environment's
    choices (failures, timers, cancellations, interleavings). Each theorem with
    such a hypothesis comes with an instance where it holds. A JSON text is
    the document it denotes; where the code compares the bytes (the conformance
    suites), the text of a document is a parameter. A critical section, and a
    database statement, is one step. [PublisherSpec] has one order per topic,
    as the in-memory broker does; the port promises one per key.

    ** Not modelled

    What the goroutines' loops do inside [Process]: there they take, give back
    and answer, and each loop is a machine of its own component. The DDL's text, beyond the columns' types and constraints; span attributes,
    the text of log lines, the SDK behind meters and exporters; router, net/http
    beyond the calls [serveHTTP] makes, and drivers, which are libraries. The
    notifier's dispatch is proved on its own, over any worklist and bus; in
    Views it is the calls it makes on the worklist. The broker suite is proved
    to refuse no adapter that delivers in order and again only after a failure,
    and run to its end on the in-memory one. *)

From stdpp Require Export base tactics list gmap strings fin_maps pretty relations sorting.
From Stdlib Require Export ZArith Lia.
From Stdlib Require Import Ascii.

#[global] Open Scope Z_scope.

(** The notations of the development live in a scope of their own. *)
Declare Scope go_scope.
Delimit Scope go_scope with go.

(** ** Fixed-width integers

    Go's [int64] (and [int] on the 64-bit platforms the services run on) is a
    [Z] kept in range by an explicit wrap-around. *)

Definition int64_min : Z := - 2 ^ 63.
Definition int64_max : Z := 2 ^ 63 - 1.
Definition in_int64 (z : Z) : Prop := int64_min <= z <= int64_max.
Definition wrap64 (z : Z) : Z := (z + 2 ^ 63) mod 2 ^ 64 - 2 ^ 63.
Definition add64 (x y : Z) : Z := wrap64 (x + y).
Definition sub64 (x y : Z) : Z := wrap64 (x - y).

#[export] Instance in_int64_dec z : Decision (in_int64 z).
Proof. unfold in_int64. apply _. Defined.

Lemma wrap64_range (z : Z) : in_int64 (wrap64 z).
Proof.
  unfold in_int64, wrap64, int64_min, int64_max.
  pose proof (Z.mod_pos_bound (z + 2 ^ 63) (2 ^ 64) ltac:(lia)). lia.
Qed.

Lemma wrap64_id (z : Z) : in_int64 z -> wrap64 z = z.
Proof.
  unfold in_int64, wrap64, int64_min, int64_max. intros H.
  rewrite Z.mod_small; lia.
Qed.

Lemma add64_id (x y : Z) : in_int64 (x + y) -> add64 x y = x + y.
Proof. apply wrap64_id. Qed.

(** Wrapping addition of a positive int64 moves every value. *)
Lemma add64_moves (v n : Z) : in_int64 v -> 0 < n <= int64_max -> add64 v n <> v.
Proof.
  unfold in_int64, add64, wrap64, int64_min, int64_max. intros Hv Hn Heq.
  destruct (decide (v + n < 2 ^ 63)) as [Hlt|Hge].
  - rewrite Z.mod_small in Heq; lia.
  - replace (v + n + 2 ^ 63) with ((v + n - 2 ^ 63) + 1 * 2 ^ 64) in Heq by lia.
    rewrite Z.mod_add, Z.mod_small in Heq; lia.
Qed.

(** [len(l)] converted to [int64], for a list that fits in memory. *)
Definition zlen {A} (l : list A) : Z := Z.of_nat (length l).
Arguments zlen : simpl never.

Lemma zlen_nil {A} : zlen (@nil A) = 0.
Proof. done. Qed.
Lemma zlen_cons {A} (x : A) l : zlen (x :: l) = zlen l + 1.
Proof. unfold zlen. simpl. lia. Qed.
Lemma zlen_app {A} (l k : list A) : zlen (l ++ k) = zlen l + zlen k.
Proof. unfold zlen. rewrite length_app. lia. Qed.
Lemma zlen_nonneg {A} (l : list A) : 0 <= zlen l.
Proof. unfold zlen. lia. Qed.
Lemma zlen_zero {A} (l : list A) : zlen l = 0 <-> l = [].
Proof. unfold zlen. destruct l; simpl; split; intros; try done; lia. Qed.

Create HintDb gohex.
Create Rewrite HintDb gohex.
#[export] Hint Rewrite @zlen_nil @zlen_cons @zlen_app : gohex.
#[export] Hint Rewrite @length_app @app_nil_r @fmap_app @length_fmap : gohex.

(** ** Lists *)

(** Elements of [l] at the positions named by [ixs] (Go: [for _, i := range ixs
    { ... l[i] }]). *)
Definition select {A} (l : list A) (ixs : list nat) : list A :=
  omap (fun i => l !! i) ixs.

Lemma select_app_l {A} (l k : list A) (ixs : list nat) :
  Forall (fun i => (i < length l)%nat) ixs -> select (l ++ k) ixs = select l ixs.
Proof.
  induction 1 as [|i ixs Hi _ IH]; [done|].
  unfold select in *. csimpl. by rewrite lookup_app_l, IH by done.
Qed.

(** The positions, counted from [k], of the elements that satisfy [P]. *)
Fixpoint positions {A} (P : A -> Prop) `{forall x, Decision (P x)} (k : nat) (l : list A) : list nat :=
  match l with
  | [] => []
  | x :: l' => if decide (P x) then k :: positions P (S k) l' else positions P (S k) l'
  end.

Section positions.
Context {A : Type} (P : A -> Prop) `{forall x, Decision (P x)}.

Lemma positions_app k (l l' : list A) :
  positions P k (l ++ l') = positions P k l ++ positions P (k + length l) l'.
Proof.
  revert k. induction l as [|x l IH]; intros k; simpl.
  { by rewrite Nat.add_0_r. }
  rewrite !IH, Nat.add_succ_r. by case_decide.
Qed.

Lemma positions_bound k (l : list A) :
  Forall (fun i => (k <= i < k + length l)%nat) (positions P k l).
Proof.
  revert k. induction l as [|x l IH]; intros k; simpl; [constructor|].
  assert (Forall (fun i => (k <= i < k + S (length l))%nat) (positions P (S k) l)).
  { eapply Forall_impl; [apply IH|]. simpl. lia. }
  case_decide; [constructor; [lia|done] | done].
Qed.

Lemma length_positions k (l : list A) :
  length (positions P k l) = length (filter P l).
Proof.
  revert k. induction l as [|x l IH]; intros k; simpl; [done|].
  rewrite filter_cons. case_decide; simpl; by rewrite IH.
Qed.

Lemma select_positions (pre l : list A) :
  select (pre ++ l) (positions P (length pre) l) = filter P l.
Proof.
  revert pre. induction l as [|x l IH]; intros pre; simpl; [done|].
  specialize (IH (pre ++ [x])). rewrite length_app, <-app_assoc in IH.
  rewrite Nat.add_1_r in IH. simpl in IH. rewrite filter_cons.
  case_decide; [|done]. unfold select in *. csimpl.
  rewrite list_lookup_middle by done. by rewrite IH.
Qed.
End positions.

Lemma filter_all {A} (P : A -> Prop) `{forall x, Decision (P x)} (l : list A) :
  Forall P l -> filter P l = l.
Proof.
  induction 1; [done|]. by rewrite filter_cons_True, IHForall by done.
Qed.

Lemma filter_none {A} (P : A -> Prop) `{forall x, Decision (P x)} (l : list A) :
  Forall (fun x => ~ P x) l -> filter P l = [].
Proof.
  induction 1; [done|]. by rewrite filter_cons_False.
Qed.

Lemma last_snoc_app {A} (l k : list A) (x : A) :
  last k = Some x -> last (l ++ k) = Some x.
Proof. intros H. by rewrite last_app, H. Qed.

(** Go's [if limit > 0 && len(out) == limit { break }]. *)
Definition limited {A} (limit : Z) (l : list A) : list A :=
  if decide (0 < limit) then take (Z.to_nat limit) l else l.

Lemma limited_prefix {A} (limit : Z) (l : list A) : limited limit l `prefix_of` l.
Proof.
  unfold limited. case_decide; [|done].
  exists (drop (Z.to_nat limit) l). by rewrite take_drop.
Qed.

Lemma limited_nil {A} (limit : Z) (l : list A) : limited limit l = [] <-> l = [].
Proof.
  unfold limited. case_decide; [|done]. destruct l; [by rewrite take_nil|].
  destruct (Z.to_nat limit) eqn:E; [lia|done].
Qed.

Lemma StronglySorted_seqZ (a n : Z) : StronglySorted Z.lt (seqZ a n).
Proof.
  destruct (decide (n <= 0)); [rewrite seqZ_nil by lia; constructor|].
  replace n with (Z.of_nat (Z.to_nat n)) by lia. generalize (Z.to_nat n). clear.
  intros n. revert a. induction n as [|n IH]; intros a; [constructor|].
  rewrite seqZ_cons by lia. constructor.
  - replace (Z.pred _) with (Z.of_nat n) by lia. apply IH.
  - rewrite Forall_forall. intros x Hx%elem_of_seqZ. lia.
Qed.

Lemma seqZ_snoc (a n : Z) : 0 <= n -> seqZ a n ++ [a + n] = seqZ a (n + 1).
Proof. intros Hn. rewrite seqZ_app by lia. done. Qed.

(** ** Strings *)

Lemma str_app_assoc (s t u : string) : (s +:+ t) +:+ u = s +:+ (t +:+ u).
Proof.
  induction s as [|a s IH]; [done|].
  change (String a ((s +:+ t) +:+ u) = String a (s +:+ (t +:+ u))). by rewrite IH.
Qed.

Lemma str_app_nil_r (s : string) : s +:+ "" = s.
Proof. induction s as [|a s IH]; [done|]. change (String a (s +:+ "") = String a s). by rewrite IH. Qed.

(** Does byte [c] occur in [s]? *)
Fixpoint str_contains (c : ascii) (s : string) : bool :=
  match s with
  | EmptyString => false
  | String a s' => bool_decide (a = c) || str_contains c s'
  end.

Lemma str_contains_app c s t :
  str_contains c (s +:+ t) = str_contains c s || str_contains c t.
Proof.
  induction s as [|a s IH]; [done|].
  change (bool_decide (a = c) || str_contains c (s +:+ t)
          = bool_decide (a = c) || str_contains c s || str_contains c t).
  by rewrite IH, orb_assoc.
Qed.

(** Cutting at the first separator is unambiguous when the left parts do not
    contain it. *)
Lemma str_cut_first (c : ascii) (s1 s2 t1 t2 : string) :
  str_contains c s1 = false -> str_contains c s2 = false ->
  s1 +:+ String c t1 = s2 +:+ String c t2 -> s1 = s2 /\ t1 = t2.
Proof.
  revert s2. induction s1 as [|a s1 IH]; intros [|b s2] H1 H2 E.
  - by injection E.
  - injection E as -> _. simpl in H2. by rewrite bool_decide_true in H2.
  - injection E as -> _. simpl in H1. by rewrite bool_decide_true in H1.
  - injection E as -> E. apply orb_false_iff in H1 as [_ H1], H2 as [_ H2].
    destruct (IH s2 H1 H2 E) as [-> ->]. done.
Qed.

(** Cutting at the last separator, when the right parts do not contain it. *)
Lemma str_cut_last (c : ascii) (s1 s2 t1 t2 : string) :
  str_contains c t1 = false -> str_contains c t2 = false ->
  s1 +:+ String c t1 = s2 +:+ String c t2 -> s1 = s2 /\ t1 = t2.
Proof.
  assert (Haux : forall s t t', str_contains c t = false ->
            t = s +:+ String c t' -> False).
  { intros s t t' Ht ->. rewrite str_contains_app in Ht.
    apply orb_false_iff in Ht as [_ Ht]. simpl in Ht.
    by rewrite bool_decide_true in Ht. }
  revert s2. induction s1 as [|a s1 IH]; intros [|b s2] H1 H2 E.
  - injection E as E. done.
  - injection E as -> E. exfalso. exact (Haux _ _ _ H1 E).
  - injection E as <- E. exfalso. exact (Haux _ _ _ H2 (eq_sym E)).
  - injection E as -> E. destruct (IH s2 H1 H2 E) as [-> ->]. done.
Qed.

(** *** Decimal rendering ([strconv.Itoa], [strconv.FormatInt(_, 10)]) *)

Definition FormatInt (z : Z) : string := pretty z.

Definition is_digit (c : ascii) : bool :=
  (48 <=? N_of_ascii c)%N && (N_of_ascii c <=? 57)%N.

Lemma pretty_N_char_digit (n : N) : is_digit (pretty_N_char n) = true.
Proof. destruct n as [|p]; [done|]. by repeat (destruct p as [p|p|]; try done). Qed.

Lemma pretty_N_go_contains (c : ascii) (x : N) (s : string) :
  is_digit c = false ->
  str_contains c (pretty_N_go x s) = str_contains c s.
Proof.
  intros Hc. revert s. induction (N.lt_wf_0 x) as [x _ IH]; intros s.
  destruct (decide (x = 0)%N) as [->|Hx]; [by rewrite pretty_N_go_0|].
  rewrite pretty_N_go_step by lia. rewrite IH by (apply N.div_lt; lia).
  simpl. rewrite bool_decide_false; [done|].
  intros <-. by rewrite pretty_N_char_digit in Hc.
Qed.

Lemma pretty_N_contains (c : ascii) (x : N) :
  is_digit c = false -> str_contains c (pretty x) = false.
Proof.
  intros Hc. unfold pretty, pretty_N. case_decide.
  - simpl. rewrite bool_decide_false; [done|]. by intros <-.
  - by rewrite pretty_N_go_contains.
Qed.

Lemma FormatInt_contains (c : ascii) (z : Z) :
  is_digit c = false -> c <> "-"%char -> str_contains c (FormatInt z) = false.
Proof.
  intros Hc Hd. unfold FormatInt, pretty, pretty_Z. destruct z as [|p|p].
  - simpl. rewrite bool_decide_false; [done|]. by intros <-.
  - by apply pretty_N_contains.
  - rewrite str_contains_app. apply orb_false_iff. split; [|by apply pretty_N_contains].
    simpl. rewrite bool_decide_false; [done|]. by intros <-.
Qed.

Lemma FormatInt_inj (x y : Z) : FormatInt x = FormatInt y -> x = y.
Proof. apply (inj pretty). Qed.

(** *** Decimal reading ([strconv.Atoi], the value it returns with its error ignored)

    [ParseUint] stops at the first byte that is no digit, and at the first
    digit that takes it past 64 bits. *)

Inductive uint_scan := Uint (n : Z) | Uint_syntax | Uint_range.

Fixpoint scan_uint (acc : Z) (s : string) : uint_scan :=
  match s with
  | EmptyString => Uint acc
  | String c rest =>
    if negb (is_digit c) then Uint_syntax else
    let n := acc * 10 + (Z.of_N (N_of_ascii c) - 48) in
    if decide (2 ^ 64 <= n) then Uint_range else scan_uint n rest
  end.

Definition Atoi (s : string) : Z :=
  let '(neg, digits) :=
    match s with
    | String c rest => if decide (c = "-"%char) then (true, rest) else if decide (c = "+"%char) then (false, rest) else (false, s)
    | EmptyString => (false, s)
    end in
  if decide (digits = "") then 0 else
  match scan_uint 0 digits with
  | Uint_syntax => 0
  | Uint_range => if neg then - 2 ^ 63 else 2 ^ 63 - 1
  | Uint n => if neg : bool then Z.max (- n) (- 2 ^ 63) else Z.min n (2 ^ 63 - 1)
  end.

Lemma pretty_N_char_value (d : N) : (d < 10)%N -> N_of_ascii (pretty_N_char d) = (48 + d)%N.
Proof. intros Hd. destruct d as [|p]; [done|]. do 4 (destruct p as [p|p|]; try done; try lia). Qed.

Lemma scan_pretty_go (x : N) : forall s, (Z.of_N x < 2 ^ 64) -> (x <> 0)%N ->
  scan_uint 0 (pretty_N_go x s) = scan_uint (Z.of_N x) s.
Proof.
  induction (N.lt_wf_0 x) as [x _ IH]. intros s Hx Hx0. rewrite pretty_N_go_step by lia.
  assert (forall acc, acc * 10 + Z.of_N (x mod 10) = Z.of_N x ->
            scan_uint acc (String (pretty_N_char (x mod 10)) s) = scan_uint (Z.of_N x) s) as Hstep.
  { intros acc Hacc. cbn [scan_uint]. rewrite pretty_N_char_digit. simpl negb. cbn iota.
    rewrite pretty_N_char_value by (apply N.mod_lt; lia).
    replace (acc * 10 + (Z.of_N (48 + x mod 10) - 48)) with (Z.of_N x) by lia. by rewrite decide_False by lia. }
  pose proof (N.div_mod x 10 ltac:(lia)) as Hdm. pose proof (N.div_lt x 10 ltac:(lia) ltac:(lia)) as Hlt.
  revert Hstep Hdm Hlt IH. generalize (x / 10)%N (x mod 10)%N. intros q r Hstep Hdm Hlt IH.
  destruct (decide (q = 0)%N) as [->|Hnz].
  - rewrite pretty_N_go_0. apply Hstep. lia.
  - rewrite IH; [|done | lia | done]. apply Hstep. lia.
Qed.

Lemma scan_pretty (x : N) : (Z.of_N x < 2 ^ 64) -> scan_uint 0 (pretty x) = Uint (Z.of_N x).
Proof.
  intros Hx. unfold pretty, pretty_N. case_decide as H0; [by rewrite H0|]. by rewrite scan_pretty_go.
Qed.

Lemma pretty_unsigned (n : N) : Z.of_N n < 2 ^ 64 ->
  exists c rest, pretty n = String c rest /\ c <> "-"%char /\ c <> "+"%char.
Proof.
  intros Hn. destruct (pretty n) as [|c rest] eqn:Hp.
  - pose proof (scan_pretty n Hn) as Hs. rewrite Hp in Hs. injection Hs as Hz. by assert (n = 0)%N as -> by lia.
  - exists c, rest. split; [done|]. pose proof (pretty_N_contains "-" n eq_refl) as H1. pose proof (pretty_N_contains "+" n eq_refl) as H2.
    rewrite Hp in H1, H2. cbn [str_contains] in H1, H2. apply orb_false_iff in H1 as [H1 _], H2 as [H2 _].
    apply bool_decide_eq_false in H1, H2. done.
Qed.

Lemma Atoi_FormatInt (z : Z) : - 2 ^ 63 <= z < 2 ^ 63 -> Atoi (FormatInt z) = z.
Proof.
  intros Hz. destruct z as [|p|p]; [done| |];
    (destruct (pretty_unsigned (N.pos p)) as (c & rest & Hc & H1 & H2); [lia|]);
    pose proof (scan_pretty (N.pos p) ltac:(lia)) as Hs.
  - change (FormatInt (Z.pos p)) with (pretty (N.pos p)). rewrite Hc in Hs |- *. unfold Atoi.
    rewrite !decide_False by done. rewrite Hs. lia.
  - change (FormatInt (Z.neg p)) with ("-" +:+ pretty (N.pos p)). rewrite Hc in Hs |- *. change ("-" +:+ String c rest) with (String "-" (String c rest)). unfold Atoi. 
    rewrite decide_True by done. rewrite decide_False by done. rewrite Hs. lia.
Qed.

(** *** Quoting ([fmt]'s [%q], [strconv.Quote])

    Exact on ASCII text; a byte beyond ASCII is copied, which is what Quote
    does with the bytes of a printable rune. *)

Definition hex_lower (n : N) : ascii :=
  ascii_of_N (if (n <? 10)%N then 48 + n else 87 + n)%N.

Definition quote_byte (c : ascii) : string :=
  let n := N_of_ascii c in
  let escape (e : ascii) := String "092" (String e "") in
  if (n =? 34)%N || (n =? 92)%N then escape c
  else if (n =? 7)%N then escape "a"%char else if (n =? 8)%N then escape "b"%char
  else if (n =? 9)%N then escape "t"%char else if (n =? 10)%N then escape "n"%char
  else if (n =? 11)%N then escape "v"%char else if (n =? 12)%N then escape "f"%char
  else if (n =? 13)%N then escape "r"%char
  else if (n <? 32)%N || (n =? 127)%N
    then String "092" (String "x" (String (hex_lower (n / 16)) (String (hex_lower (n mod 16)) "")))
  else String c "".

Fixpoint quote_bytes (s : string) : string :=
  match s with
  | EmptyString => ""
  | String c s' => quote_byte c +:+ quote_bytes s'
  end.

Definition Quote (s : string) : string := String "034" (quote_bytes s +:+ String "034" "").

(** ** Interface values

    A Go interface type [I] is modelled by the sum [I] of the concrete types
    that implement it in a program; a concrete type is its carrier with the
    conversion to the interface and the type assertion [i.(T)]. *)

Record GoType (I : Type) := mkGoType {
  carrier : Type;
  zero_value : carrier;
  to_interface : carrier -> I;
  type_assert : I -> option carrier;
}.
Arguments carrier {I} _.
Arguments zero_value {I} _.
Arguments to_interface {I} _ _.
Arguments type_assert {I} _ _.

Class GoTypeOk {I} (T : GoType I) := {
  assert_to_interface x : type_assert T (to_interface T x) = Some x;
  to_interface_assert i x : type_assert T i = Some x -> to_interface T x = i;
}.

(** ** Step relations *)

Lemma rtc_invariant {S} (R : S -> S -> Prop) (I : S -> Prop) (s s' : S) :
  (forall x y, I x -> R x y -> I y) -> I s -> rtc R s s' -> I s'.
Proof. intros Hpres Hs Hr. induction Hr; eauto. Qed.

(** ** Case analysis on the scrutinee of a [match] or [decide] in the goal or
    a hypothesis. *)
Ltac case_all :=
  repeat first [progress simplify_eq/= | case_decide | case_match].
