(* ===== verification/Tail.v ===== *)
(** * Tailing a sequenced log

    What the event store, the inbox and their readers share: a log whose items
    carry positive, strictly increasing positions, pages of it read after a
    position, and cursors that move from page to page. *)

From S2P Require Import Prelude.

Section tail.
Context {X : Type} (seq : X -> Z).
Implicit Types (l k page : list X) (x : X).

Definition increasing l : Prop := StronglySorted Z.lt (0 :: (seq <$> l)).

(** The position of the last item, 0 for an empty log. *)
Definition head_of l : Z := default 0 (seq <$> last l).

(** The items up to a position, and those after it. *)
Definition upto (p : Z) l : list X := filter (fun x => seq x <= p) l.
Definition beyond (p : Z) l : list X := filter (fun x => p < seq x) l.

(** What reading after a position with a limit returns. *)
Definition read_page (after limit : Z) l : list X := limited limit (beyond after l).

(** The loop of the in-memory [ReadAll]s, with [n] items collected so far. *)
Fixpoint readall_loop (after limit n : Z) l : list X :=
  match l with
  | [] => []
  | x :: rest =>
    if decide (seq x <= after) then readall_loop after limit n rest
    else if decide (0 < limit /\ n + 1 = limit) then [x]
    else x :: readall_loop after limit (n + 1) rest
  end.

Lemma readall_loop_limited after limit n l :
  0 <= n -> (0 < limit -> n < limit) ->
  readall_loop after limit n l = limited (limit - (if decide (0 < limit) then n else 0)) (beyond after l).
Proof.
  unfold beyond. revert n. induction l as [|r l IH]; intros n Hn Hl; simpl.
  { unfold limited. rewrite filter_nil, take_nil. by case_decide. }
  rewrite filter_cons. destruct (decide (seq r <= after)) as [Hle|Hgt].
  { destruct (decide (after < seq r)); [lia|]. by apply IH. }
  destruct (decide (after < seq r)); [|lia].
  destruct (decide (0 < limit)) as [Hpos|Hnpos].
  - destruct (decide (0 < limit /\ n + 1 = limit)) as [[_ <-]|Hne].
    + unfold limited. rewrite decide_True by lia.
      replace (Z.to_nat (n + 1 - n)) with 1%nat by lia. simpl. by rewrite take_0.
    + rewrite IH by lia. unfold limited. rewrite !decide_True by lia.
      replace (Z.to_nat (limit - n)) with (S (Z.to_nat (limit - (n + 1)))) by lia. done.
  - rewrite decide_False by tauto. rewrite IH by lia.
    unfold limited. by rewrite !decide_False by lia.
Qed.

Lemma readall_loop_page after limit l : readall_loop after limit 0 l = read_page after limit l.
Proof. rewrite readall_loop_limited by lia. unfold read_page. f_equal. case_decide; lia. Qed.

Lemma read_page_nil after limit l : read_page after limit l = [] -> beyond after l = [].
Proof. apply limited_nil. Qed.

Lemma elem_of_read_page after limit l x : x ∈ read_page after limit l -> x ∈ l /\ after < seq x.
Proof.
  intros Hx. destruct (limited_prefix limit (beyond after l)) as [rest Hrest].
  assert (x ∈ beyond after l) as Hb by (rewrite Hrest; apply elem_of_app; by left).
  apply list_elem_of_filter in Hb. tauto.
Qed.

Lemma increasing_sorted l : increasing l -> StronglySorted Z.lt (seq <$> l).
Proof. by intros [? _]%StronglySorted_inv. Qed.

Lemma increasing_positive l x : increasing l -> x ∈ l -> 0 < seq x.
Proof.
  intros [_ Hall]%StronglySorted_inv Hx. rewrite Forall_fmap, Forall_forall in Hall. by apply Hall.
Qed.

Lemma head_of_snoc l x : head_of (l ++ [x]) = seq x.
Proof. unfold head_of. by rewrite last_snoc. Qed.

Lemma head_of_nonneg l : increasing l -> 0 <= head_of l.
Proof.
  intros Hs. unfold head_of. destruct (last l) as [x|] eqn:E; [|done]. simpl.
  apply last_Some in E as [l' ->].
  assert (0 < seq x) by (apply (increasing_positive (l' ++ [x])); [done | set_solver]). lia.
Qed.

Lemma sorted_split p l :
  StronglySorted Z.lt (seq <$> l) -> l = upto p l ++ beyond p l.
Proof.
  induction l as [|x l IH]; [done|]. rewrite fmap_cons.
  intros [Hs Hx]%StronglySorted_inv. unfold upto, beyond in *. rewrite !filter_cons.
  destruct (decide (seq x <= p)).
  - rewrite decide_False by lia. simpl. by rewrite <-IH.
  - rewrite decide_True by lia. rewrite Forall_fmap in Hx. rewrite filter_none, filter_all; [done| |];
      (eapply Forall_impl; [exact Hx|]; simpl; lia).
Qed.

Lemma upto_beyond p l : increasing l -> l = upto p l ++ beyond p l.
Proof. intros H. by apply sorted_split, increasing_sorted. Qed.

(** Later items lie beyond the head. *)
Lemma increasing_app_later l k : increasing (l ++ k) -> Forall (fun x => head_of l < seq x) k.
Proof.
  intros Hs. unfold head_of. destruct l as [|x l _] using rev_ind.
  - apply StronglySorted_inv in Hs as [_ Hx]. by rewrite Forall_fmap in Hx.
  - rewrite last_snoc. simpl. apply increasing_sorted in Hs.
    rewrite <-app_assoc, fmap_app in Hs. simpl in Hs. clear -Hs.
    induction l as [|y l IH]; simpl in Hs; apply StronglySorted_inv in Hs as [Hs Hx]; [|by apply IH].
    by rewrite Forall_fmap in Hx.
Qed.

(** Growth does not change what lies up to a position of the log. *)
Lemma upto_app p l k : increasing (l ++ k) -> p <= head_of l -> upto p (l ++ k) = upto p l.
Proof.
  intros Hok Hle. unfold upto. rewrite filter_app, (filter_none _ k), app_nil_r; [done|].
  eapply Forall_impl; [by apply increasing_app_later|]. simpl. lia.
Qed.

Lemma head_of_app l k : increasing (l ++ k) -> head_of l <= head_of (l ++ k).
Proof.
  intros Hok. apply increasing_app_later in Hok. destruct k as [|x k _] using rev_ind; [by rewrite app_nil_r|].
  rewrite app_assoc, head_of_snoc. rewrite Forall_app, Forall_singleton in Hok. lia.
Qed.

Lemma increasing_le_head l x : increasing l -> x ∈ l -> seq x <= head_of l.
Proof.
  intros Hs Hx. destruct l as [|y l _] using rev_ind; [by apply elem_of_nil in Hx|]. rewrite head_of_snoc.
  apply elem_of_app in Hx as [Hx|Hx%list_elem_of_singleton]; [|subst; lia].
  apply increasing_sorted in Hs. rewrite fmap_app in Hs.
  pose proof (StronglySorted_app_1_elem_of _ _ _ (seq x) (seq y) Hs) as Hlt.
  specialize (Hlt ltac:(by apply list_elem_of_fmap_2) ltac:(by left)). lia.
Qed.

Lemma increasing_extend l k :
  increasing l -> StronglySorted Z.lt (head_of l :: (seq <$> k)) -> increasing (l ++ k).
Proof.
  intros Hl [Hk Hlt]%StronglySorted_inv. unfold increasing. rewrite fmap_app, app_comm_cons.
  apply StronglySorted_app_2; [|exact Hl | exact Hk]. intros a b Ha Hb.
  rewrite Forall_forall in Hlt. specialize (Hlt b Hb). pose proof (head_of_nonneg l Hl).
  apply elem_of_cons in Ha as [->|Ha]; [lia|]. apply list_elem_of_fmap in Ha as (x & -> & Hx).
  pose proof (increasing_le_head l x Hl Hx). lia.
Qed.

(** Positive increasing positions outrun the number of items. *)
Lemma length_le_head l : increasing l -> zlen l <= head_of l.
Proof.
  induction l as [|x l IH] using rev_ind; [done|]. intros Hok.
  pose proof (increasing_app_later _ _ Hok) as Hlater. rewrite Forall_singleton in Hlater.
  assert (increasing l) as Hl.
  { unfold increasing in *. rewrite fmap_app, app_comm_cons in Hok. by apply StronglySorted_app_1_l in Hok. }
  specialize (IH Hl). rewrite head_of_snoc, zlen_app, zlen_cons, zlen_nil. lia.
Qed.

Lemma upto_zero l : increasing l -> upto 0 l = [].
Proof.
  intros Hs. apply filter_none. rewrite Forall_forall. intros x Hx.
  pose proof (increasing_positive _ _ Hs Hx). lia.
Qed.

Lemma upto_all p l : increasing l -> beyond p l = [] -> upto p l = l.
Proof. intros Hs Hn. rewrite (upto_beyond p l) at 2 by done. by rewrite Hn, app_nil_r. Qed.

Lemma upto_mono p q l : increasing l -> p <= q -> exists k, upto q l = upto p l ++ k.
Proof.
  intros Hinc Hle. exists (upto q (beyond p l)).
  rewrite (upto_beyond p l) at 1 by done. unfold upto at 1. rewrite filter_app. f_equal.
  apply filter_all. rewrite Forall_forall. intros x [Hx _]%list_elem_of_filter. lia.
Qed.

Lemma elem_of_beyond p l x : x ∈ beyond p l -> x ∈ l.
Proof. by intros [_ ?]%list_elem_of_filter. Qed.

(** *** Reading a page and moving to its last item skips and repeats nothing *)

Lemma sorted_suffix l x k :
  StronglySorted Z.lt (seq <$> (l ++ x :: k)) -> beyond (seq x) (l ++ x :: k) = k.
Proof.
  unfold beyond. rewrite fmap_app, fmap_cons. induction l as [|y l IH]; simpl; intros Hs.
  - rewrite filter_cons_False by lia. apply filter_all.
    apply StronglySorted_inv in Hs as [_ Hk]. by rewrite Forall_fmap in Hk.
  - apply StronglySorted_inv in Hs as [Hs Hx]. rewrite filter_cons_False; [by apply IH|].
    rewrite Forall_app, Forall_cons in Hx. lia.
Qed.

Lemma sorted_filter (P : X -> Prop) `{forall x, Decision (P x)} l :
  StronglySorted Z.lt (seq <$> l) -> StronglySorted Z.lt (seq <$> filter P l).
Proof.
  induction l as [|x l IH]; [constructor|]. rewrite fmap_cons.
  intros [Hs Hx]%StronglySorted_inv. rewrite filter_cons. case_decide; [|by apply IH].
  rewrite fmap_cons. constructor; [by apply IH|].
  rewrite Forall_fmap in *. rewrite Forall_forall in *. intros y [_ Hy]%list_elem_of_filter. by apply Hx.
Qed.

Lemma beyond_beyond p q l : p <= q -> beyond q (beyond p l) = beyond q l.
Proof. intros Hle. unfold beyond. apply list_filter_filter_l. intros x. lia. Qed.

Lemma page_next after limit l page x :
  increasing l -> page = read_page after limit l -> last page = Some x ->
  beyond after l = page ++ beyond (seq x) l.
Proof.
  intros Hs Hp Hx. unfold read_page in Hp. subst page.
  destruct (limited_prefix limit (beyond after l)) as [rest Hrest]. rewrite Hrest at 1. f_equal.
  apply last_Some in Hx as [page' Hp]. rewrite Hp, <-app_assoc in Hrest. simpl in Hrest.
  assert (x ∈ beyond after l) as [Ha _]%list_elem_of_filter by (rewrite Hrest; set_solver).
  rewrite <-(beyond_beyond after) by lia. rewrite Hrest. symmetry. apply sorted_suffix.
  rewrite <-Hrest. by apply sorted_filter, increasing_sorted.
Qed.

Lemma upto_page after limit l page x :
  increasing l -> page = read_page after limit l -> last page = Some x ->
  upto (seq x) l = upto after l ++ page /\ seq x <= head_of l.
Proof.
  intros Hok Hp Hx. pose proof (page_next _ _ _ _ _ Hok Hp Hx) as Hnext. split.
  - apply (app_inv_tail (beyond (seq x) l)).
    rewrite <-upto_beyond, <-app_assoc, <-Hnext by done. by apply upto_beyond.
  - assert (x ∈ l) as (l1 & l2 & ->)%list_elem_of_split.
    { apply last_Some in Hx as [pre ->]. apply (elem_of_beyond after). rewrite Hnext. set_solver. }
    rewrite cons_middle, app_assoc in Hok |- *.
    transitivity (head_of (l1 ++ [x])); [by rewrite head_of_snoc | by apply head_of_app].
Qed.
End tail.
