(* ===== verification/Errors.v ===== *)
(** * kernel/errors.go: domain errors, error matching and results

    The error values the program builds, Go's [errors.Is]/[errors.As] on them
    with the [Is] method of [DomainError], and the results of fallible
    calls. *)

From S2P Require Import Prelude.

(** ** Error values

    An [error] is a tree: a leaf is a [*kernel.DomainError], a package-level
    sentinel made by [errors.New] (compared by identity, so it carries a
    unique name) or an anonymous message; inner nodes are the values made by
    [fmt.Errorf] with [%w] (the text before and after the wrapped error) and
    by [errors.Join] (n errors as nested pairs: the traversal order of
    [errors.Is] and [errors.As] is the same). *)

Record DomainError := mkDomainError { Code : string; Message : string }.

Inductive error :=
  | EDomain (d : DomainError)
  | ESentinel (name : string)
  | EText (text : string)
  | EWrap (before : string) (inner : error) (after : string)
  | EJoin (left right : error).

#[export] Instance DomainError_eq_dec : EqDecision DomainError.
Proof. solve_decision. Defined.
#[export] Instance error_eq_dec : EqDecision error.
Proof. solve_decision. Defined.

Definition NewDomainError (code message : string) : DomainError :=
  mkDomainError code message.

(** [func (e *DomainError) Error() string] *)
Definition DomainError_Error (e : DomainError) : string := Code e +:+ ": " +:+ Message e.

(** The message of any error value. *)
Fixpoint Error (e : error) : string :=
  match e with
  | EDomain d => DomainError_Error d
  | ESentinel name => name
  | EText t => t
  | EWrap b i a => b +:+ Error i +:+ a
  | EJoin l r => Error l +:+ String (Ascii.ascii_of_nat 10) (Error r)
  end.

(** The nodes [errors.Is] and [errors.As] visit, in their pre-order,
    depth-first traversal of [Unwrap]. *)
Fixpoint chain (e : error) : list error :=
  e :: match e with
       | EWrap _ i _ => chain i
       | EJoin l r => chain l ++ chain r
       | _ => []
       end.

Definition as_domain (e : error) : option DomainError :=
  match e with EDomain d => Some d | _ => None end.

(** [AsDomainError]: [errors.As] with a [*DomainError] target finds the first
    domain error of the traversal. *)
Definition AsDomainError (e : error) : option DomainError := head (omap as_domain (chain e)).

(** [func (e *DomainError) Is(target error) bool] *)
Definition DomainError_Is (e : DomainError) (target : error) : bool :=
  match AsDomainError target with
  | Some t => bool_decide (Code t = Code e)
  | None => false
  end.

(** One node of [errors.Is]: identity (which only sentinels and domain errors
    can have in common with a target), or the node's [Is] method. *)
Definition is_node (target node : error) : bool :=
  match node with
  | ESentinel n => bool_decide (target = ESentinel n)
  | EDomain d => DomainError_Is d target
  | _ => false
  end.

Definition errors_Is (e target : error) : bool := existsb (is_node target) (chain e).

(** ** Results

    A Go call returns a value, returns a non-nil error, or panics. A function
    whose only result is an [error] has type [res unit]. *)

Inductive res (A : Type) :=
  | Ok (a : A)
  | Err (e : error)
  | Panic (msg : string).
Arguments Ok {A} a.
Arguments Err {A} e.
Arguments Panic {A} msg.

#[export] Instance res_eq_dec {A} `{EqDecision A} : EqDecision (res A).
Proof. solve_decision. Defined.

Definition res_bind {A B} (r : res A) (k : A -> res B) : res B :=
  match r with Ok a => k a | Err e => Err e | Panic m => Panic m end.

(** [fmt.Errorf("before%wafter", err)] applied to the error of a result. *)
Definition res_wrap {A} (before after : string) (r : res A) : res A :=
  match r with Err e => Err (EWrap before e after) | _ => r end.

Definition is_ok {A} (r : res A) : bool :=
  match r with Ok _ => true | _ => false end.

Notation "'try' x ':=' r 'in' k" := (res_bind r (fun x => k))
  (at level 10, x name, r at level 100, k at level 200) : go_scope.
#[global] Open Scope go_scope.

Section res_laws.
Context {A B : Type}.
Implicit Types (r : res A) (k : A -> res B).

Lemma res_bind_ok r k (b : B) :
  res_bind r k = Ok b <-> exists a, r = Ok a /\ k a = Ok b.
Proof. destruct r; simpl; split; try done; [by eauto | | |]; by intros (? & [=] & ?); subst. Qed.

Lemma res_bind_err r k (e : error) :
  res_bind r k = Err e <-> r = Err e \/ exists a, r = Ok a /\ k a = Err e.
Proof.
  destruct r; simpl; split; try done; [by eauto | | by intros [= ->]; eauto | |];
    try (by intros [[=]|(? & [=] & ?)]; subst); done.
Qed.

Lemma res_wrap_ok (b a : string) r (x : A) : res_wrap b a r = Ok x <-> r = Ok x.
Proof. by destruct r. Qed.

Lemma res_bind_assoc {C} r k (g : B -> res C) :
  res_bind (res_bind r k) g = res_bind r (fun a => res_bind (k a) g).
Proof. by destruct r. Qed.
End res_laws.

(** Map a fallible function over a list, stopping at the first failure: the
    shape of every [for i, x := range xs { if out[i], err = f(x); err != nil
    { return err } }] loop of the program. *)
Fixpoint res_mapM {A B} (f : A -> res B) (l : list A) : res (list B) :=
  match l with
  | [] => Ok []
  | x :: l' => try y := f x in try ys := res_mapM f l' in Ok (y :: ys)
  end.

Lemma res_mapM_ok {A B} (f : A -> res B) (l : list A) (ys : list B) :
  res_mapM f l = Ok ys <-> Forall2 (fun x y => f x = Ok y) l ys.
Proof.
  revert ys. induction l as [|x l IH]; intros ys; simpl.
  - split; [by intros [= <-] | by inversion 1].
  - rewrite res_bind_ok. split.
    + intros (y & Hy & Hys). apply res_bind_ok in Hys as (ys' & Hys' & [= <-]).
      constructor; [done | by apply IH].
    + inversion 1; subst. eexists; split; [done|].
      apply res_bind_ok. eexists; split; [by apply IH | done].
Qed.

Lemma res_mapM_length {A B} (f : A -> res B) (l : list A) (ys : list B) :
  res_mapM f l = Ok ys -> length ys = length l.
Proof. rewrite res_mapM_ok. intros H. symmetry. by eapply Forall2_length. Qed.

Lemma res_mapM_map {A B C} (f : B -> res C) (g : A -> B) (l : list A) :
  res_mapM f (g <$> l) = res_mapM (fun x => f (g x)) l.
Proof. induction l as [|x l IH]; [done | csimpl; by rewrite IH]. Qed.

Lemma res_mapM_total {A B} (f : A -> res B) (g : A -> B) (l : list A) :
  (forall x, x ∈ l -> f x = Ok (g x)) -> res_mapM f l = Ok (g <$> l).
Proof.
  induction l as [|x l IH]; intros H; [done|]. csimpl.
  rewrite (H x) by set_solver. simpl. rewrite IH; [done|]. set_solver.
Qed.

(** Case analysis on the successful result of binds and wraps. *)
Ltac res_inv :=
  repeat match goal with
  | H : res_bind _ _ = Ok _ |- _ => apply res_bind_ok in H as (? & ? & ?)
  | H : res_wrap _ _ _ = Ok _ |- _ => apply res_wrap_ok in H
  end; simplify_eq/=.

(** ** Matching survives wrapping *)

Lemma AsDomainError_wrap (b a : string) (e : error) :
  AsDomainError (EWrap b e a) = AsDomainError e.
Proof. done. Qed.

Lemma AsDomainError_domain (d : DomainError) : AsDomainError (EDomain d) = Some d.
Proof. done. Qed.

Lemma AsDomainError_in_chain (e : error) (d : DomainError) :
  AsDomainError e = Some d -> EDomain d ∈ chain e.
Proof.
  unfold AsDomainError. rewrite head_Some. intros [l Hl].
  assert (Hd : d ∈ omap as_domain (chain e)) by (rewrite Hl; set_solver).
  apply list_elem_of_omap in Hd as (x & Hx & Hd). by destruct x; simplify_eq/=.
Qed.

Lemma errors_Is_wrap (b a : string) (e t : error) :
  errors_Is (EWrap b e a) t = errors_Is e t.
Proof. done. Qed.

Lemma errors_Is_join (l r t : error) :
  errors_Is (EJoin l r) t = errors_Is l t || errors_Is r t.
Proof. unfold errors_Is. simpl. by rewrite existsb_app. Qed.

Lemma errors_Is_domain (e : error) (d : DomainError) :
  errors_Is e (EDomain d) = true <-> exists d', EDomain d' ∈ chain e /\ Code d' = Code d.
Proof.
  unfold errors_Is. rewrite existsb_exists. split.
  - intros (x & Hx & Hd). apply list_elem_of_In in Hx. destruct x; simpl in Hd; try done.
    apply bool_decide_eq_true in Hd. eauto.
  - intros (d' & Hx & Hd). apply list_elem_of_In in Hx. eexists; split; [done|].
    simpl. unfold DomainError_Is. simpl. by rewrite bool_decide_eq_true.
Qed.

Lemma errors_Is_sentinel (e : error) (n : string) :
  errors_Is e (ESentinel n) = true <-> ESentinel n ∈ chain e.
Proof.
  unfold errors_Is. rewrite existsb_exists. split.
  - intros (x & Hx & Hd). apply list_elem_of_In in Hx. destruct x; simpl in Hd; try done.
    apply bool_decide_eq_true in Hd. by simplify_eq.
  - intros Hx. apply list_elem_of_In in Hx. eexists; split; [done|].
    simpl. by apply bool_decide_eq_true.
Qed.

Lemma AsDomainError_Is (e : error) (d : DomainError) :
  AsDomainError e = Some d -> errors_Is e (EDomain d) = true.
Proof. intros H. apply errors_Is_domain. eauto using AsDomainError_in_chain. Qed.

Lemma not_domain_chain (e : error) :
  AsDomainError e = None <-> forall d, EDomain d ∉ chain e.
Proof.
  unfold AsDomainError. rewrite head_None. split.
  - intros Hn d Hd.
    assert (d ∈ omap as_domain (chain e)) as H by (apply list_elem_of_omap; eauto).
    rewrite Hn in H. set_solver.
  - intros Hall. destruct (omap as_domain (chain e)) as [|d l] eqn:E; [done|].
    assert (Hd : d ∈ omap as_domain (chain e)) by (rewrite E; set_solver).
    apply list_elem_of_omap in Hd as (x & Hx & Hd). destruct x; simplify_eq/=.
    by destruct (Hall d).
Qed.

#[export] Hint Rewrite AsDomainError_wrap errors_Is_wrap errors_Is_join : gohex.
#[export] Hint Resolve AsDomainError_Is : gohex.

(** The error split is decided by the rule's code alone, whatever wraps the
    error: [fmt.Errorf] with [%w] changes neither what [AsDomainError] answers
    nor what [errors.Is] matches; an error carrying a domain error anywhere is
    matched by every sentinel with the same code (the message plays no part),
    and by no sentinel when it carries none. *)
Theorem domain_error_matching (b a : string) (e : error) (d : DomainError) :
  AsDomainError (EWrap b e a) = AsDomainError e
  /\ errors_Is (EWrap b e a) (EDomain d) = errors_Is e (EDomain d)
  /\ (AsDomainError e = None -> errors_Is e (EDomain d) = false)
  /\ (forall d', AsDomainError e = Some d' -> Code d' = Code d -> errors_Is e (EDomain d) = true).
Proof.
  split_and!; [done|done| |].
  - intros Hn. apply not_true_is_false. rewrite errors_Is_domain.
    intros (d' & Hd & _). by apply (proj1 (not_domain_chain e) Hn d').
  - intros d' Hd Hc. apply errors_Is_domain. eauto using AsDomainError_in_chain.
Qed.
