(* ===== verification/Utf8.v ===== *)
(** * UTF-8 as Go's standard library treats it

    The rune decoding of [for _, r := range s] (an invalid byte decodes to
    U+FFFD and one byte is consumed), the encoding of a rune, and the two
    standard functions the program builds on them: [strings.ToLower] and the
    replacement of invalid bytes [encoding/json] applies to strings. *)

From S2P Require Import Prelude.
From Stdlib Require Import Ascii NArith.

Local Open Scope N_scope.

Definition RuneError : N := 65533.

Definition byte_in (lo hi x : N) : bool := (lo <=? x) && (x <=? hi).
Definition cont (x : N) : bool := byte_in 128 191 x.

Definition valid2 (x y : N) : bool := byte_in 194 223 x && cont y.
Definition valid3 (x y z : N) : bool :=
  ((x =? 224) && byte_in 160 191 y
   || (byte_in 225 236 x || byte_in 238 239 x) && cont y
   || (x =? 237) && byte_in 128 159 y) && cont z.
Definition valid4 (x y z w : N) : bool :=
  ((x =? 240) && byte_in 144 191 y
   || byte_in 241 243 x && cont y
   || (x =? 244) && byte_in 128 143 y) && cont z && cont w.

Definition rune2 (x y : N) : N := (x - 192) * 64 + (y - 128).
Definition rune3 (x y z : N) : N := (x - 224) * 4096 + (y - 128) * 64 + (z - 128).
Definition rune4 (x y z w : N) : N :=
  (x - 240) * 262144 + (y - 128) * 4096 + (z - 128) * 64 + (w - 128).

(** [[]rune(s)] *)
Fixpoint decode_runes (s : string) : list N :=
  match s with
  | EmptyString => []
  | String a s1 =>
    let x := N_of_ascii a in
    if x <? 128 then x :: decode_runes s1 else
    match s1 with
    | EmptyString => RuneError :: decode_runes s1
    | String b s2 =>
      let y := N_of_ascii b in
      if valid2 x y then rune2 x y :: decode_runes s2 else
      match s2 with
      | EmptyString => RuneError :: decode_runes s1
      | String c s3 =>
        let z := N_of_ascii c in
        if valid3 x y z then rune3 x y z :: decode_runes s3 else
        match s3 with
        | EmptyString => RuneError :: decode_runes s1
        | String d s4 =>
          let w := N_of_ascii d in
          if valid4 x y z w then rune4 x y z w :: decode_runes s4
          else RuneError :: decode_runes s1
        end
      end
    end
  end.

(** [string(r)] *)
Definition encode_rune (r : N) : string :=
  let b n := String (ascii_of_N n) in
  if r <? 128 then b r ""
  else if r <? 2048 then b (192 + r / 64) (b (128 + r mod 64) "")
  else if byte_in 55296 57343 r || (1114111 <? r) then b 239 (b 191 (b 189 ""))
  else if r <? 65536 then b (224 + r / 4096) (b (128 + r / 64 mod 64) (b (128 + r mod 64) ""))
  else b (240 + r / 262144) (b (128 + r / 4096 mod 64) (b (128 + r / 64 mod 64) (b (128 + r mod 64) ""))).

Fixpoint encode_runes (l : list N) : string :=
  match l with
  | [] => ""
  | r :: l' => encode_rune r +:+ encode_runes l'
  end.

(** What [json.Marshal] writes for a Go string, once decoded again: every byte
    that is not part of a valid encoding becomes U+FFFD. *)
Definition sanitize (s : string) : string := encode_runes (decode_runes s).

Definition is_ascii (c : ascii) : bool := N_of_ascii c <? 128.

Fixpoint all_chars (f : ascii -> bool) (s : string) : bool :=
  match s with
  | EmptyString => true
  | String c s' => f c && all_chars f s'
  end.

Fixpoint map_chars (f : ascii -> ascii) (s : string) : string :=
  match s with
  | EmptyString => ""
  | String c s' => String (f c) (map_chars f s')
  end.

(** [strings.ToLower], over the Unicode case table [unicode.ToLower]. *)
Definition ToLower (unicode_ToLower : N -> N) (s : string) : string :=
  encode_runes (unicode_ToLower <$> decode_runes s).

(** The ASCII part of the table, on runes and on bytes. *)
Definition ascii_lower_rune (r : N) : N := if byte_in 65 90 r then r + 32 else r.
Definition ascii_lower (c : ascii) : ascii := ascii_of_N (ascii_lower_rune (N_of_ascii c)).

(** ** Facts *)

Lemma N_of_ascii_lt (c : ascii) : N_of_ascii c < 256.
Proof. apply N_ascii_bounded. Qed.

Lemma length_map_chars f s : String.length (map_chars f s) = String.length s.
Proof. induction s; simpl; congruence. Qed.

Lemma map_chars_id f s : (forall c, f c = c) -> map_chars f s = s.
Proof. intros Hf. induction s; simpl; by rewrite ?Hf, ?IHs. Qed.

Lemma str_length_app (s t : string) :
  String.length (s +:+ t) = (String.length s + String.length t)%nat.
Proof.
  induction s as [|a s IH]; [done|].
  change (S (String.length (s +:+ t)) = S (String.length s + String.length t)). by rewrite IH.
Qed.

Lemma all_chars_app f s t : all_chars f (s +:+ t) = all_chars f s && all_chars f t.
Proof.
  induction s as [|a s IH]; [done|].
  change (f a && all_chars f (s +:+ t) = f a && all_chars f s && all_chars f t).
  by rewrite IH, andb_assoc.
Qed.

(** Decoding a non-ASCII byte yields a non-ASCII rune. *)
Lemma decode_runes_nonascii (a : ascii) (s : string) :
  is_ascii a = false -> exists r l, decode_runes (String a s) = r :: l /\ 128 <= r.
Proof.
  unfold is_ascii. intros Ha. pose proof (N_of_ascii_lt a) as Hb.
  simpl. rewrite Ha. apply N.ltb_ge in Ha.
  unfold valid2, valid3, valid4, cont, byte_in, rune2, rune3, rune4, RuneError.
  repeat case_match; eexists _, _; (split; [done|]);
    repeat match goal with
    | H : _ && _ = true |- _ => apply andb_prop in H as [??]
    | H : _ || _ = true |- _ => apply orb_prop in H as [?|?]
    | H : (_ <=? _) = true |- _ => apply N.leb_le in H
    | H : (_ =? _) = true |- _ => apply N.eqb_eq in H
    end; lia.
Qed.

Lemma decode_runes_ascii (s : string) :
  all_chars is_ascii s = true -> decode_runes s = N_of_ascii <$> String.list_ascii_of_string s.
Proof.
  induction s as [|a s IH]; [done|]. intros H. apply andb_prop in H as [Ha Hs].
  simpl. unfold is_ascii in Ha. by rewrite Ha, IH.
Qed.

Lemma encode_rune_ascii (c : ascii) : is_ascii c = true -> encode_rune (N_of_ascii c) = String c "".
Proof. unfold is_ascii, encode_rune. intros ->. by rewrite ascii_N_embedding. Qed.

Lemma sanitize_ascii (s : string) : all_chars is_ascii s = true -> sanitize s = s.
Proof.
  unfold sanitize. intros H. rewrite decode_runes_ascii by done.
  induction s as [|a s IH]; [done|]. apply andb_prop in H as [Ha Hs].
  csimpl. rewrite encode_rune_ascii, IH by done. done.
Qed.

(** Encoding a non-ASCII rune starts with a non-ASCII byte. *)
Lemma encode_rune_head (r : N) :
  exists c t, encode_rune r = String c t /\ (if r <? 128 then c = ascii_of_N r else is_ascii c = false).
Proof.
  assert (Hb : forall n, 128 <= n < 256 -> is_ascii (ascii_of_N n) = false).
  { intros n Hn. unfold is_ascii. rewrite N_ascii_embedding by lia. apply N.ltb_ge. lia. }
  unfold encode_rune. destruct (r <? 128) eqn:E1; [by eauto|].
  apply N.ltb_ge in E1.
  destruct (r <? 2048) eqn:E2.
  { apply N.ltb_lt in E2. eexists _, _. split; [done|]. apply Hb.
    pose proof (N.Div0.div_lt_upper_bound r 64 32 ltac:(lia)). generalize dependent (r / 64). lia. }
  destruct (_ || _) eqn:E3; [by eexists _, _|].
  apply orb_false_iff in E3 as [_ E3]. apply N.ltb_ge in E3.
  destruct (r <? 65536) eqn:E4; eexists _, _; (split; [done|]); apply Hb.
  - apply N.ltb_lt in E4. pose proof (N.Div0.div_lt_upper_bound r 4096 16 ltac:(lia)). generalize dependent (r / 4096). lia.
  - pose proof (N.Div0.div_lt_upper_bound r 262144 5 ltac:(lia)). generalize dependent (r / 262144). lia.
Qed.
