(* ===== verification/GoTime.v ===== *)
(** * time.Time

    A time is what RFC 3339 writes of it: the civil date and clock reading in
    some zone, and the zone's offset from UTC in minutes. Clock readings are
    inputs of the model; the program only copies, formats and parses them.
    [MarshalJSON] writes RFC 3339 with nanoseconds, trailing zeros dropped;
    [UnmarshalJSON] reads it back strictly. *)

From S2P Require Import Prelude.
From Stdlib Require Import Ascii.

Record Time := mkTime {
  year : Z; month : Z; day : Z;
  hour : Z; minute : Z; second : Z; nanosecond : Z;
  offset : Z;
}.

#[export] Instance Time_eq_dec : EqDecision Time.
Proof. solve_decision. Defined.

(** The zero [time.Time]. *)
Definition zero_time : Time := mkTime 1 1 1 0 0 0 0 0.

(** ** Writing *)

Definition digit (d : Z) : ascii := ascii_of_nat (Z.to_nat (48 + d)).

(** [n] zero-padded to two and to four digits. *)
Definition put2 (n : Z) (s : string) : string := String (digit (n / 10)) (String (digit (n mod 10)) s).
Definition put4 (n : Z) (s : string) : string := put2 (n / 100) (put2 (n mod 100) s).

(** The digits of a fraction of [k] places, weight [w] first, without trailing
    zeros. *)
Fixpoint put_fraction (k : nat) (w n : Z) (s : string) : string :=
  match k with
  | O => s
  | S k' => if decide (n = 0) then s else String (digit (n / w)) (put_fraction k' (w / 10) (n mod w) s)
  end.

Definition put_nanos (n : Z) (s : string) : string :=
  if decide (n = 0) then s else String "." (put_fraction 9 (10 ^ 8) n s).

Definition put_zone (off : Z) : string :=
  if decide (off = 0) then "Z" else
  String (if decide (off < 0) then "-" else "+")%char
    (put2 (Z.abs off / 60) (String ":" (put2 (Z.abs off mod 60) ""))).

Definition FormatRFC3339Nano (t : Time) : string :=
  put4 (year t) (String "-" (put2 (month t) (String "-" (put2 (day t) (String "T"
    (put2 (hour t) (String ":" (put2 (minute t) (String ":" (put2 (second t)
      (put_nanos (nanosecond t) (put_zone (offset t))))))))))))).

(** ** Reading *)

Definition digit_value (c : ascii) : option Z :=
  let n := Z.of_nat (nat_of_ascii c) in
  if decide (48 <= n <= 57) then Some (n - 48) else None.

Definition get_digit (s : string) : option (Z * string) :=
  match s with String c s' => d ← digit_value c; Some (d, s') | EmptyString => None end.

Definition get2 (s : string) : option (Z * string) :=
  '(a, s1) ← get_digit s; '(b, s2) ← get_digit s1; Some (10 * a + b, s2).
Definition get4 (s : string) : option (Z * string) :=
  '(a, s1) ← get2 s; '(b, s2) ← get2 s1; Some (100 * a + b, s2).

Definition get_char (c : ascii) (s : string) : option string :=
  match s with String c' s' => if decide (c' = c) then Some s' else None | EmptyString => None end.

(** The digits of a fraction; those past the ninth count for nothing. *)
Fixpoint get_fraction (w acc : Z) (s : string) : Z * string :=
  match s with
  | String c s' =>
    match digit_value c with
    | Some d => get_fraction (w / 10) (acc + d * w) s'
    | None => (acc, s)
    end
  | EmptyString => (acc, s)
  end.

Definition get_nanos (s : string) : Z * string :=
  match s with
  | String c s' =>
    if decide (c = "."%char /\ is_Some (get_digit s')) then get_fraction (10 ^ 8) 0 s' else (0, s)
  | EmptyString => (0, s)
  end.

(** The zone must end the text. *)
Definition get_zone (s : string) : option Z :=
  match s with
  | EmptyString => None
  | String c s' =>
    if decide (c = "Z"%char) then (if decide (s' = "") then Some 0 else None) else
    if decide (c = "+"%char \/ c = "-"%char) then
      '(h, s1) ← get2 s'; s2 ← get_char ":" s1; '(m, s3) ← get2 s2;
      if decide (s3 = "" /\ h <= 23 /\ m <= 59)
      then Some (if decide (c = "-"%char) then - (60 * h + m) else 60 * h + m) else None
    else None
  end.

Definition is_leap (y : Z) : bool :=
  bool_decide (y mod 4 = 0) && (negb (bool_decide (y mod 100 = 0)) || bool_decide (y mod 400 = 0)).

Definition daysIn (m y : Z) : Z :=
  if decide (m = 2) then (if is_leap y then 29 else 28)
  else if decide (m ∈ [4; 6; 9; 11]) then 30 else 31.

(** The civil fields are those of a real date and clock reading. *)
Definition civil_ok (y mo d h mi s : Z) : bool :=
  bool_decide (1 <= mo <= 12) && bool_decide (1 <= d <= daysIn mo y)
  && bool_decide (0 <= h <= 23) && bool_decide (0 <= mi <= 59) && bool_decide (0 <= s <= 59).

Definition ParseRFC3339 (s : string) : option Time :=
  '(y, s) ← get4 s; s ← get_char "-" s; '(mo, s) ← get2 s; s ← get_char "-" s; '(d, s) ← get2 s;
  s ← get_char "T" s; '(h, s) ← get2 s; s ← get_char ":" s; '(mi, s) ← get2 s; s ← get_char ":" s;
  '(sec, s) ← get2 s;
  let '(ns, s) := get_nanos s in
  off ← get_zone s;
  if civil_ok y mo d h mi sec then Some (mkTime y mo d h mi sec ns off) else None.

(** ** Round trip *)

Record time_valid (t : Time) : Prop := {
  tv_year : 0 <= year t <= 9999;
  tv_civil : civil_ok (year t) (month t) (day t) (hour t) (minute t) (second t) = true;
  tv_nanos : 0 <= nanosecond t < 10 ^ 9;
  tv_offset : Z.abs (offset t) < 24 * 60;
}.

(** The years [MarshalJSON] writes. *)
Definition json_year (t : Time) : bool := bool_decide (0 <= year t <= 9999).

Lemma digit_value_digit d : 0 <= d <= 9 -> digit_value (digit d) = Some d.
Proof.
  intros Hd. unfold digit_value, digit. rewrite nat_ascii_embedding by lia.
  rewrite decide_True by lia. f_equal. lia.
Qed.

Lemma get_put2 n s : 0 <= n <= 99 -> get2 (put2 n s) = Some (n, s).
Proof.
  intros Hn. unfold get2, put2, get_digit.
  pose proof (Z.div_mod n 10 ltac:(lia)). pose proof (Z.mod_pos_bound n 10 ltac:(lia)).
  assert (0 <= n / 10 <= 9) by (split; [apply Z.div_pos | apply Z.lt_succ_r, Z.div_lt_upper_bound]; lia).
  rewrite digit_value_digit by lia. simpl. rewrite digit_value_digit by lia. simpl. do 2 f_equal. lia.
Qed.

Lemma get_put4 n s : 0 <= n <= 9999 -> get4 (put4 n s) = Some (n, s).
Proof.
  intros Hn. unfold get4, put4.
  pose proof (Z.div_mod n 100 ltac:(lia)). pose proof (Z.mod_pos_bound n 100 ltac:(lia)).
  assert (0 <= n / 100 <= 99) by (split; [apply Z.div_pos | apply Z.lt_succ_r, Z.div_lt_upper_bound]; lia).
  rewrite get_put2 by lia. simpl. rewrite get_put2 by lia. simpl. do 2 f_equal. lia.
Qed.

Lemma get_put_char c s : get_char c (String c s) = Some s.
Proof. simpl. by rewrite decide_True. Qed.

(** The zone does not start with a digit or a point. *)
Lemma zone_start off : exists c s, put_zone off = String c s /\ digit_value c = None /\ c <> "."%char.
Proof.
  unfold put_zone. case_decide; [by eexists _, _|]. eexists _, _. split; [done|].
  by case_decide.
Qed.

Lemma get_put_fraction k w n acc off :
  w = 10 ^ (Z.of_nat k - 1) -> 0 <= n < 10 ^ Z.of_nat k ->
  get_fraction w acc (put_fraction k w n (put_zone off)) = (acc + n, put_zone off).
Proof.
  destruct (zone_start off) as (c & s & Hz & Hc & _).
  assert (forall w acc, get_fraction w acc (put_zone off) = (acc, put_zone off)) as Hstop.
  { intros w' acc'. rewrite Hz. simpl. by rewrite Hc. }
  revert w n acc. induction k as [|k IH]; intros w n acc Hw Hn; cbn [put_fraction].
  { rewrite Hstop. f_equal. simpl in Hn. lia. }
  case_decide as H0; [subst n; rewrite Hstop; f_equal; lia|].
  replace (Z.of_nat (S k) - 1) with (Z.of_nat k) in Hw by lia.
  assert (0 < w) as Hpos by (subst w; apply Z.pow_pos_nonneg; lia).
  assert (10 ^ Z.of_nat (S k) = 10 * w) as H10
    by (subst w; rewrite Nat2Z.inj_succ, Z.pow_succ_r by lia; done).
  pose proof (Z.div_mod n w ltac:(lia)). pose proof (Z.mod_pos_bound n w ltac:(lia)).
  assert (0 <= n / w <= 9) by (split; [apply Z.div_pos; lia | apply Z.lt_succ_r, Z.div_lt_upper_bound; lia]).
  cbn [get_fraction]. rewrite digit_value_digit by lia.
  rewrite IH; [f_equal; lia | | subst w; lia].
  subst w. destruct k as [|k]; [done|]. replace (Z.of_nat (S k)) with (Z.succ (Z.of_nat (S k) - 1)) at 1 by lia.
  rewrite Z.pow_succ_r by lia. rewrite Z.mul_comm, Z.div_mul by lia. done.
Qed.

Lemma get_put_nanos n off : 0 <= n < 10 ^ 9 -> get_nanos (put_nanos n (put_zone off)) = (n, put_zone off).
Proof.
  intros Hn. unfold put_nanos. case_decide as H0.
  - subst n. destruct (zone_start off) as (c & s & -> & _ & Hc). simpl. rewrite decide_False; [done|]. naive_solver.
  - unfold get_nanos. rewrite decide_True.
    + apply (get_put_fraction 9); [done|]. done.
    + split; [done|]. cbn [put_fraction]. rewrite decide_False by done. unfold get_digit.
      assert (0 <= n / 10 ^ 8 <= 9)
        by (split; [apply Z.div_pos; lia | apply Z.lt_succ_r, Z.div_lt_upper_bound; lia]).
      rewrite digit_value_digit by lia. done.
Qed.

Lemma get_put_zone off : Z.abs off < 24 * 60 -> get_zone (put_zone off) = Some off.
Proof.
  intros Hoff. unfold put_zone. case_decide as H0; [by subst off|]. unfold get_zone.
  pose proof (Z.div_mod (Z.abs off) 60 ltac:(lia)). pose proof (Z.mod_pos_bound (Z.abs off) 60 ltac:(lia)).
  assert (0 <= Z.abs off / 60 <= 23) by (split; [apply Z.div_pos; lia | apply Z.lt_succ_r, Z.div_lt_upper_bound; lia]).
  rewrite decide_False by (by case_decide). rewrite decide_True by (case_decide; [by right | by left]).
  rewrite get_put2 by lia. cbn [mbind option_bind]. rewrite get_put_char. cbn [mbind option_bind].
  rewrite get_put2 by lia. cbn [mbind option_bind]. rewrite decide_True by (split_and!; [done | lia | lia]).
  destruct (decide (off < 0)); [rewrite decide_True by done | rewrite decide_False by done]; f_equal; lia.
Qed.

Lemma civil_ok_bounds y mo d h mi s :
  civil_ok y mo d h mi s = true ->
  1 <= mo <= 12 /\ 1 <= d <= 31 /\ 0 <= h <= 23 /\ 0 <= mi <= 59 /\ 0 <= s <= 59.
Proof.
  unfold civil_ok. rewrite !andb_true_iff, !bool_decide_eq_true. intros ((((? & Hd) & ?) & ?) & ?).
  assert (daysIn mo y <= 31) by (unfold daysIn; repeat case_decide; try case_match; lia). lia.
Qed.

Lemma Parse_Format t : time_valid t -> ParseRFC3339 (FormatRFC3339Nano t) = Some t.
Proof.
  intros [Hy Hc Hn Ho]. pose proof (civil_ok_bounds _ _ _ _ _ _ Hc) as (? & ? & ? & ? & ?).
  unfold ParseRFC3339, FormatRFC3339Nano.
  rewrite get_put4 by done. cbn [mbind option_bind]. rewrite get_put_char. cbn [mbind option_bind].
  rewrite get_put2 by lia. cbn [mbind option_bind]. rewrite get_put_char. cbn [mbind option_bind].
  rewrite get_put2 by lia. cbn [mbind option_bind]. rewrite get_put_char. cbn [mbind option_bind].
  rewrite get_put2 by lia. cbn [mbind option_bind]. rewrite get_put_char. cbn [mbind option_bind].
  rewrite get_put2 by lia. cbn [mbind option_bind]. rewrite get_put_char. cbn [mbind option_bind].
  rewrite get_put2 by lia. cbn [mbind option_bind]. rewrite get_put_nanos by done. cbn beta iota.
  rewrite get_put_zone by done. cbn [mbind option_bind]. rewrite Hc. by destruct t.
Qed.
#[export] Hint Resolve Parse_Format : gohex.

(** The text is plain ASCII, so JSON carries it as it is. *)
Lemma zero_time_valid : time_valid zero_time.
Proof. split; simpl; try lia; done. Qed.

(** ** [UTC]

    The same instant on a clock of offset zero: the offset moves the reading by
    less than a day. *)

Definition next_day (y mo d : Z) : Z * Z * Z :=
  if decide (d < daysIn mo y) then (y, mo, d + 1) else
  if decide (mo < 12) then (y, mo + 1, 1) else (y + 1, 1, 1).

Definition prev_day (y mo d : Z) : Z * Z * Z :=
  if decide (1 < d) then (y, mo, d - 1) else
  if decide (1 < mo) then (y, mo - 1, daysIn (mo - 1) y) else (y - 1, 12, 31).

Definition UTC (t : Time) : Time :=
  let m := hour t * 60 + minute t - offset t in
  let '(y, mo, d) :=
    if decide (m < 0) then prev_day (year t) (month t) (day t)
    else if decide (24 * 60 <= m) then next_day (year t) (month t) (day t)
    else (year t, month t, day t) in
  let m := m mod (24 * 60) in
  mkTime y mo d (m / 60) (m mod 60) (second t) (nanosecond t) 0.

(** The number of a day, counted from the first of January of year 1. *)
Definition days_before_year (y : Z) : Z := let p := y - 1 in 365 * p + p / 4 - p / 100 + p / 400.
Definition days_before_month (mo y : Z) : Z :=
  default 0 ([0; 31; 59; 90; 120; 151; 181; 212; 243; 273; 304; 334] !! Z.to_nat (mo - 1))
  + (if decide (2 < mo) then if is_leap y then 1 else 0 else 0).
Definition day_number (y mo d : Z) : Z := days_before_year y + days_before_month mo y + (d - 1).

(** The minute of an instant. *)
Definition instant_minute (t : Time) : Z :=
  day_number (year t) (month t) (day t) * (24 * 60) + hour t * 60 + minute t - offset t.

Lemma days_in_year y : days_before_year (y + 1) = days_before_year y + (if is_leap y then 366 else 365).
Proof.
  unfold days_before_year, is_leap. replace (y + 1 - 1) with y by lia.
  repeat case_bool_decide; simpl; Z.to_euclidean_division_equations; lia.
Qed.

Lemma month_step mo y : 1 <= mo < 12 -> days_before_month (mo + 1) y = days_before_month mo y + daysIn mo y.
Proof.
  intros Hmo. unfold days_before_month.
  assert (mo = 1 \/ mo = 2 \/ mo = 3 \/ mo = 4 \/ mo = 5 \/ mo = 6 \/ mo = 7 \/ mo = 8 \/ mo = 9 \/ mo = 10 \/ mo = 11) as Hcases by lia.
  destruct Hcases as [->|[->|[->|[->|[->|[->|[->|[->|[->|[->| ->]]]]]]]]]]; unfold daysIn; simpl; destruct (is_leap y); reflexivity.
Qed.

Lemma year_days y : days_before_month 12 y + 31 = (if is_leap y then 366 else 365).
Proof. unfold days_before_month. simpl. by destruct (is_leap y). Qed.

Lemma next_day_number y mo d :
  1 <= mo <= 12 -> 1 <= d <= daysIn mo y ->
  let '(y', mo', d') := next_day y mo d in
  day_number y' mo' d' = day_number y mo d + 1 /\ 1 <= mo' <= 12 /\ 1 <= d' <= daysIn mo' y'.
Proof.
  intros Hmo Hd. unfold next_day, day_number. case_decide as Hlast; [split; [lia | lia]|].
  assert (forall m y', 28 <= daysIn m y') as H28 by (intros m y'; unfold daysIn; repeat case_decide; try case_match; lia).
  case_decide as Hm.
  - rewrite month_step by lia. specialize (H28 (mo + 1) y). lia.
  - assert (mo = 12) as -> by lia. rewrite days_in_year. pose proof (year_days y). change (daysIn 12 y) with 31 in *.
    change (days_before_month 1 (y + 1)) with 0. specialize (H28 1 (y + 1)). lia.
Qed.

Lemma prev_day_number y mo d :
  1 <= mo <= 12 -> 1 <= d <= daysIn mo y ->
  let '(y', mo', d') := prev_day y mo d in
  day_number y' mo' d' = day_number y mo d - 1 /\ 1 <= mo' <= 12 /\ 1 <= d' <= daysIn mo' y'.
Proof.
  intros Hmo Hd. unfold prev_day, day_number. case_decide as Hfirst; [split; [lia | lia]|].
  assert (forall m y', 28 <= daysIn m y') as H28 by (intros m y'; unfold daysIn; repeat case_decide; try case_match; lia).
  case_decide as Hm.
  - pose proof (month_step (mo - 1) y ltac:(lia)) as Hs. rewrite Z.sub_add in Hs. specialize (H28 (mo - 1) y). lia.
  - assert (mo = 1) as -> by lia. pose proof (days_in_year (y - 1)) as Hy. rewrite Z.sub_add in Hy. pose proof (year_days (y - 1)).
    change (daysIn 12 (y - 1)) with 31. change (days_before_month 1 y) with 0. lia.
Qed.

(** [UTC] denotes the same instant, to the nanosecond, on a valid clock. *)
Lemma UTC_instant t :
  time_valid t ->
  instant_minute (UTC t) = instant_minute t /\ second (UTC t) = second t /\ nanosecond (UTC t) = nanosecond t
  /\ offset (UTC t) = 0 /\ (0 <= year (UTC t) <= 9999 -> time_valid (UTC t)).
Proof.
  intros [Hy Hc Hn Ho]. unfold civil_ok in Hc. rewrite !andb_true_iff, !bool_decide_eq_true in Hc.
  destruct Hc as ((((Hmo & Hd) & Hh) & Hmi) & Hs). unfold UTC, instant_minute.
  set (m := hour t * 60 + minute t - offset t) in *.
  assert (exists k, let '(y, mo, d) := (if decide (m < 0) then prev_day (year t) (month t) (day t)
            else if decide (24 * 60 <= m) then next_day (year t) (month t) (day t) else (year t, month t, day t)) in
          day_number y mo d = day_number (year t) (month t) (day t) + k /\ 0 <= m - k * (24 * 60) < 24 * 60
          /\ 1 <= mo <= 12 /\ 1 <= d <= daysIn mo y) as [k Hday].
  { case_decide as H0; [exists (-1) | case_decide as H1; [exists 1 | exists 0]].
    - pose proof (prev_day_number _ _ _ Hmo Hd) as Hp. destruct (prev_day _ _ _) as [[y mo] d]. lia.
    - pose proof (next_day_number _ _ _ Hmo Hd) as Hp. destruct (next_day _ _ _) as [[y mo] d]. lia.
    - lia. }
  destruct (if decide (m < 0) then _ else _) as [[y mo] d]. destruct Hday as (Hday & Hm & Hmo' & Hd').
  assert (m mod (24 * 60) = m - k * (24 * 60)) as Hmod by (symmetry; apply (Z.mod_unique_pos _ _ k); lia).
  simpl year. simpl month. simpl day. simpl hour. simpl minute. simpl offset. simpl second. simpl nanosecond.
  pose proof (Z.div_mod (m mod (24 * 60)) 60 ltac:(lia)) as Hdm. pose proof (Z.mod_pos_bound (m mod (24 * 60)) 60 ltac:(lia)).
  rewrite Hmod in *. split; [lia|]. split_and!; [done..|].
  intros Hy'. split; simpl; [done| |done|done]. unfold civil_ok. rewrite !andb_true_iff, !bool_decide_eq_true.
  split_and!; lia.
Qed.

Lemma UTC_id t : time_valid t -> offset t = 0 -> UTC t = t.
Proof.
  intros [Hy Hc Hn _] Ho. pose proof (civil_ok_bounds _ _ _ _ _ _ Hc) as (? & ? & ? & ? & ?).
  unfold UTC. rewrite Ho, Z.sub_0_r. rewrite !decide_False by lia. rewrite (Z.mod_small (_ + _)) by lia.
  destruct t; simpl in *. subst. f_equal; Z.to_euclidean_division_equations; lia.
Qed.
