(* ===== verification/Json.v ===== *)
(** * encoding/json, as far as the program uses it

    A JSON text is modelled by the document it denotes. [json.Marshal] of a
    type and [json.Unmarshal] into a zero value of it are the two operations
    of the class [JsonCodec]; the combinators below are what the struct
    encoder and decoder do with one field: the key match (exact, else
    case-folded), [null] leaving a value unchanged, unknown keys skipped, the
    last duplicate winning, integers out of range refused, and strings
    cleaned of invalid UTF-8. *)

From S2P Require Import Prelude Errors Utf8 GoTime.
From Stdlib Require Import Ascii NArith.

#[warnings="-register-all"]
Inductive json :=
  | JNull
  | JBool (b : bool)
  | JInt (z : Z)                       (* a number literal without fraction or exponent *)
  | JNumber (literal : string)         (* any other number literal *)
  | JStr (s : string)
  | JArr (elements : list json)
  | JObj (members : list (string * json)).

(** [json.RawMessage] or a [[]byte] payload: nil, bytes that are no JSON text,
    or a text. *)
Inductive RawMessage :=
  | RawNil
  | RawInvalid (text : string)
  | RawJSON (doc : json).

Class JsonCodec (T : Type) := {
  Marshal : T -> res json;
  Unmarshal : json -> res T;
}.

(** [json.Unmarshal(payload, &v)] on a byte payload. *)
Definition Unmarshal_raw {T} `{JsonCodec T} (r : RawMessage) : res T :=
  match r with
  | RawJSON doc => Unmarshal doc
  | RawNil | RawInvalid _ => Err (EText "invalid JSON")
  end.

(** [json.Marshal(v)] as the payload bytes. *)
Definition Marshal_raw {T} `{JsonCodec T} (v : T) : res RawMessage :=
  try doc := Marshal v in Ok (RawJSON doc).

(** [json.Marshal] of an interface value: the encoding of its dynamic type. *)
Class MarshalEvent (Ev : Type) := marshal_event : Ev -> res json.

(** The values a codec carries faithfully. *)
Class JsonRoundtrip (T : Type) `{JsonCodec T} (valid : T -> Prop) :=
  json_roundtrip v : valid v -> exists doc, Marshal v = Ok doc /\ Unmarshal doc = Ok v.

Definition type_mismatch : error := EText "json: cannot unmarshal value".

(** ** Strings, integers, string maps, raw messages *)

Definition enc_string (s : string) : json := JStr (sanitize s).
Definition dec_string (old : string) (j : json) : res string :=
  match j with JStr s => Ok s | JNull => Ok old | _ => Err type_mismatch end.

Definition enc_int (z : Z) : json := JInt z.
Definition dec_int (old : Z) (j : json) : res Z :=
  match j with
  | JInt z => if decide (in_int64 z) then Ok z else Err type_mismatch
  | JNull => Ok old
  | _ => Err type_mismatch
  end.

Definition enc_raw (r : RawMessage) : res json :=
  match r with
  | RawNil => Ok JNull
  | RawInvalid _ => Err (EText "json: error calling MarshalJSON for type json.RawMessage")
  | RawJSON doc => Ok doc
  end.
Definition dec_raw (_ : RawMessage) (j : json) : res RawMessage := Ok (RawJSON j).

(** [time.Time]. *)
Definition enc_time (t : Time) : res json :=
  if json_year t then Ok (JStr (FormatRFC3339Nano t))
  else Err (EText "Time.MarshalJSON: year outside of range [0,9999]").
Definition dec_time (old : Time) (j : json) : res Time :=
  match j with
  | JNull => Ok old
  | JStr s => match ParseRFC3339 s with Some t => Ok t | None => Err (EText "parsing time") end
  | _ => Err (EText "Time.UnmarshalJSON: input is not a JSON string")
  end.

(** A [map[string]string]: nil, or a map. The encoder sorts the keys; the
    order of an object's members is not observable here. *)
Abbreviation strmap := (option (gmap string string)).

Definition enc_map (m : strmap) : json :=
  match m with
  | None => JNull
  | Some m => JObj (prod_map sanitize enc_string <$> map_to_list m)
  end.
Definition dec_map (old : strmap) (j : json) : res strmap :=
  match j with
  | JNull => Ok None
  | JObj ms =>
    try kvs := res_mapM (fun '(k, v) => try s := dec_string "" v in Ok (k, s)) ms in
    Ok (Some (foldl (fun m '(k, v) => <[k := v]> m) (default ∅ old) kvs))
  | _ => Err type_mismatch
  end.

(** ** Structs *)

(** [foldName]: ASCII letters upper-cased, and the two other runes that fold to
    an ASCII letter. *)
Definition fold_rune (r : N) : N :=
  (if byte_in 97 122 r then r - 32 else if r =? 8490 then 75 else if r =? 383 then 83 else r)%N.
Definition fold_name (s : string) : list N := fold_rune <$> decode_runes s.

Definition is_field (name key : string) : bool :=
  bool_decide (key = name) || bool_decide (fold_name key = fold_name name).

(** Decode the members of an object into a struct: [set key v t] stores one. *)
Fixpoint dec_members {T} (set : string -> json -> T -> res T) (ms : list (string * json)) (t : T) : res T :=
  match ms with
  | [] => Ok t
  | (k, v) :: rest => try t' := set k v t in dec_members set rest t'
  end.

Definition dec_struct {T} (set : string -> json -> T -> res T) (zero : T) (j : json) : res T :=
  match j with
  | JNull => Ok zero
  | JObj ms => dec_members set ms zero
  | _ => Err type_mismatch
  end.

(** One [case] of [set]: if the key names the field, decode and store it. *)
Definition on_field {T A} (name : string) (dec : json -> res A) (store : A -> T)
    (key : string) (v : json) (otherwise : res T) : res T :=
  if is_field name key then try a := dec v in Ok (store a) else otherwise.

(** ** Facts *)

Definition utf8_valid (s : string) : Prop := sanitize s = s.
#[export] Instance utf8_valid_dec s : Decision (utf8_valid s).
Proof. unfold utf8_valid. apply _. Defined.

Lemma utf8_valid_ascii s : all_chars is_ascii s = true -> utf8_valid s.
Proof. apply sanitize_ascii. Qed.

Lemma dec_enc_string old s : utf8_valid s -> dec_string old (enc_string s) = Ok s.
Proof. unfold utf8_valid, enc_string. by intros ->. Qed.

Lemma dec_enc_int old z : in_int64 z -> dec_int old (enc_int z) = Ok z.
Proof. intros Hz. simpl. by rewrite decide_True. Qed.

Lemma dec_enc_raw old doc : dec_raw old doc = Ok (RawJSON doc).
Proof. done. Qed.

Lemma enc_time_valid t : time_valid t -> enc_time t = Ok (JStr (FormatRFC3339Nano t)).
Proof. intros [Hy _ _ _]. unfold enc_time, json_year. by rewrite bool_decide_true. Qed.

Lemma dec_enc_time old t : time_valid t -> dec_time old (JStr (FormatRFC3339Nano t)) = Ok t.
Proof. intros Ht. simpl. by rewrite Parse_Format. Qed.

Definition map_valid (m : gmap string string) : Prop :=
  map_Forall (fun k v => utf8_valid k /\ utf8_valid v) m.

Lemma foldl_insert_map (l : list (string * string)) (m : gmap string string) :
  foldl (fun m '(k, v) => <[k := v]> m) m l = list_to_map (reverse l) ∪ m.
Proof.
  induction l as [|[k v] l IH] using rev_ind; simpl; [by rewrite (left_id_L ∅ (∪))|].
  rewrite foldl_app, IH, reverse_app. simpl. by rewrite insert_union_l.
Qed.

Lemma dec_enc_map (m : gmap string string) :
  map_valid m -> dec_map None (enc_map (Some m)) = Ok (Some m).
Proof.
  intros Hm. unfold enc_map, dec_map. rewrite res_mapM_map.
  rewrite (res_mapM_total _ id).
  2:{ intros [k v] Hkv. apply elem_of_map_to_list in Hkv.
      destruct (Hm k v Hkv) as [Hk Hx]. unfold utf8_valid in *. simpl. by rewrite Hk, Hx. }
  rewrite list_fmap_id. cbn [res_bind default]. do 2 f_equal.
  rewrite foldl_insert_map, (right_id_L ∅ (∪)).
  rewrite <-(list_to_map_proper (map_to_list m)); [by rewrite list_to_map_to_list | |].
  - apply NoDup_fst_map_to_list.
  - by rewrite reverse_Permutation.
Qed.

(** [omitempty] on a map: the member is written for a non-empty map only. *)
Definition omit_empty (name : string) (m : strmap) : list (string * json) :=
  match m with
  | Some md => if decide (md = ∅) then [] else [(name, enc_map m)]
  | None => []
  end.

(** A map an optional member carries faithfully. *)
Definition optional_map_valid (m : strmap) : Prop :=
  match m with Some md => md <> ∅ /\ map_valid md | None => True end.

(** Decode one member with a literal key: evaluate the field matches. *)
Ltac member_step :=
  lazymatch goal with
  | |- context [dec_members ?set ((?k, ?v) :: ?rest) ?t] =>
    change (dec_members set ((k, v) :: rest) t) with (res_bind (set k v t) (dec_members set rest));
    let e := eval red in (set k v t) in change (set k v t) with e
  end;
  unfold on_field;
  repeat match goal with
  | |- context [is_field ?a ?b] =>
    let x := eval vm_compute in (is_field a b) in
    let H := fresh in assert (is_field a b = x) as H by (vm_compute; reflexivity); rewrite H; clear H
  end;
  cbn beta iota.

#[export] Hint Resolve utf8_valid_ascii : gohex.
