(* ===== verification/KernelId.v ===== *)
(** * kernel/id.go: typed identifiers

    [ParseID], [NewID], [formatUUID] and the text (un)marshalling of
    [ID[T]]. A Go string is a [string] of bytes; [strings.ToLower] is the
    rune-wise mapping of Utf8.v over the standard library's case table. *)

From S2P Require Import Prelude Errors Utf8.
From Stdlib Require Import Ascii NArith.

Definition ErrInvalidID : DomainError := NewDomainError "invalid_id" "malformed identifier".

(** [ID[T any]]: the type parameter is a phantom. *)
Record ID (T : Type) := mkID { value : string }.
Arguments mkID {T} value.
Arguments value {T} _.

#[export] Instance ID_eq_dec T : EqDecision (ID T).
Proof. solve_decision. Defined.

Definition zero_ID {T} : ID T := mkID "".

(** [fmt.Errorf("%w: %q", ErrInvalidID, s)] *)
Definition invalid_id (s : string) : error :=
  EWrap "" (EDomain ErrInvalidID) (": " +:+ Quote s).

(** The [switch i] of [ParseID]: may byte [c] stand at index [i]? *)
Definition id_separator (i : nat) : bool :=
  (i =? 8)%nat || (i =? 13)%nat || (i =? 18)%nat || (i =? 23)%nat.

Definition is_hex (c : ascii) : bool :=
  let n := N_of_ascii c in
  ((48 <=? n) && (n <=? 57) || (97 <=? n) && (n <=? 102))%N.

Definition id_char_ok (i : nat) (c : ascii) : bool :=
  if id_separator i then bool_decide (c = "-"%char) else is_hex c.

(** [for i := range 36 { c := s[i]; ... }] from index [i], with [n] iterations
    left and [t] what is left of [s] from [i]; reading past the end panics. *)
Fixpoint scan_id (n i : nat) (t : string) (whole : string) : res unit :=
  match n with
  | O => Ok tt
  | S n' =>
    match t with
    | EmptyString => Panic "index out of range"
    | String c t' =>
      if id_char_ok i c then scan_id n' (S i) t' whole else Err (invalid_id whole)
    end
  end.

Section ParseID.
(** [unicode.ToLower]: the case table of the standard library. *)
Variable unicode_ToLower : N -> N.

Definition ParseID {T} (s : string) : res (ID T) :=
  if negb (String.length s =? 36)%nat then Err (invalid_id s) else
  let s := ToLower unicode_ToLower s in
  try _ := scan_id 36 0 s s in
  Ok (mkID s).

Definition IsZero {T} (id : ID T) : bool := bool_decide (value id = "").

Definition MarshalText {T} (id : ID T) : res string :=
  if IsZero id then Err (EWrap "" (EDomain ErrInvalidID) ": zero ID") else Ok (value id).

(** [func (id *ID[T]) UnmarshalText]: the receiver after the call, and the
    error. *)
Definition UnmarshalText {T} (id : ID T) (text : string) : ID T * res unit :=
  match ParseID text with
  | Ok parsed => (parsed, Ok tt)
  | Err e => (id, Err e)
  | Panic m => (id, Panic m)
  end.
End ParseID.

(** [hextable[x]] and [hex.Encode]. *)
Definition hex_digit (n : N) : ascii :=
  ascii_of_N (if n <? 10 then 48 + n else 87 + n)%N.

Definition hex_byte (b : ascii) : list ascii :=
  [hex_digit (N_of_ascii b / 16); hex_digit (N_of_ascii b mod 16)].

Definition hex_Encode (bs : list ascii) : list ascii := bs ≫= hex_byte.

Definition slice {A} (lo hi : nat) (l : list A) : list A := take (hi - lo) (drop lo l).

(** [func formatUUID(b [16]byte) string] *)
Definition formatUUID (b : list ascii) : string :=
  String.string_of_list_ascii
    (hex_Encode (slice 0 4 b) ++ ["-"%char] ++
     hex_Encode (slice 4 6 b) ++ ["-"%char] ++
     hex_Encode (slice 6 8 b) ++ ["-"%char] ++
     hex_Encode (slice 8 10 b) ++ ["-"%char] ++
     hex_Encode (slice 10 16 b)).

Definition set_bits (mask or : N) (b : ascii) : ascii :=
  ascii_of_N (N.lor (N.land (N_of_ascii b) mask) or).

(** [NewID], given the 16 bytes [rand.Read] fills. *)
Definition NewID {T} (random : list ascii) : ID T :=
  let b := alter (set_bits 15 64) 6%nat random in  (* b[6]&0x0f | 0x40 *)
  let b := alter (set_bits 63 128) 8%nat b in      (* b[8]&0x3f | 0x80 *)
  mkID (formatUUID b).

(** ** The canonical form *)

Fixpoint id_chars_ok (i : nat) (s : string) : bool :=
  match s with
  | EmptyString => true
  | String c s' => id_char_ok i c && id_chars_ok (S i) s'
  end.

Definition canonical (s : string) : bool :=
  (String.length s =? 36)%nat && id_chars_ok 0 s.

Lemma id_char_ok_ascii i c : id_char_ok i c = true -> is_ascii c = true.
Proof.
  unfold id_char_ok, is_hex, is_ascii. intros H.
  destruct (id_separator i).
  - apply bool_decide_eq_true in H as ->. done.
  - apply N.ltb_lt. apply orb_prop in H as [H|H]; apply andb_prop in H as [_ H];
      apply N.leb_le in H; lia.
Qed.

Lemma id_chars_ok_ascii i s : id_chars_ok i s = true -> all_chars is_ascii s = true.
Proof.
  revert i. induction s as [|c s IH]; intros i; simpl; [done|].
  intros [Hc Hs]%andb_prop. by rewrite (id_char_ok_ascii _ _ Hc), (IH _ Hs).
Qed.

Lemma scan_id_ok i s w :
  scan_id (String.length s) i s w = if id_chars_ok i s then Ok tt else Err (invalid_id w).
Proof.
  revert i. induction s as [|c s IH]; intros i; simpl; [done|].
  destruct (id_char_ok i c); [apply IH | done].
Qed.

(** Lower-casing bytes changes neither the dashes nor the lower-case digits. *)
Lemma ascii_lower_char_ok i c : id_char_ok i c = true -> ascii_lower c = c.
Proof.
  assert (Hnot : forall n, (n < 256 -> byte_in 65 90 n = false -> ascii_lower_rune n = n)%N).
  { intros n _ Hn. unfold ascii_lower_rune. by rewrite Hn. }
  unfold id_char_ok, is_hex, ascii_lower. intros H. destruct (id_separator i).
  - apply bool_decide_eq_true in H as ->. done.
  - rewrite Hnot; [apply ascii_N_embedding | apply N_of_ascii_lt |].
    unfold byte_in. apply andb_false_iff.
    apply orb_prop in H as [H|H]; apply andb_prop in H as [H1 H2];
      apply N.leb_le in H1, H2; [left|right]; apply N.leb_gt; lia.
Qed.

Lemma lower_chars_ok i s : id_chars_ok i s = true -> map_chars ascii_lower s = s.
Proof.
  revert i. induction s as [|c s IH]; intros i; simpl; [done|].
  intros [Hc Hs]%andb_prop. by rewrite (ascii_lower_char_ok _ _ Hc), (IH _ Hs).
Qed.

(** ** Facts about hexadecimal digits *)

Lemma hex_digit_code (n : N) :
  (n < 16)%N -> N_of_ascii (hex_digit n) = (if n <? 10 then 48 + n else 87 + n)%N.
Proof. intros Hn. apply N_ascii_embedding. case_match; lia. Qed.

Lemma hex_digit_ok (n : N) : (n < 16)%N -> is_hex (hex_digit n) = true.
Proof.
  intros Hn. unfold is_hex. rewrite hex_digit_code by done.
  apply orb_true_iff. rewrite !andb_true_iff, !N.leb_le.
  destruct (N.ltb_spec n 10); lia.
Qed.

Lemma hex_digit_inj (m n : N) :
  (m < 16)%N -> (n < 16)%N -> hex_digit m = hex_digit n -> m = n.
Proof.
  intros Hm Hn H. apply (f_equal N_of_ascii) in H. revert H.
  rewrite !hex_digit_code by done.
  destruct (N.ltb_spec m 10), (N.ltb_spec n 10); lia.
Qed.

Lemma hi_nibble (b : ascii) : (N_of_ascii b / 16 < 16)%N.
Proof. apply N.Div0.div_lt_upper_bound. pose proof (N_of_ascii_lt b). lia. Qed.
Lemma lo_nibble (b : ascii) : (N_of_ascii b mod 16 < 16)%N.
Proof. by apply N.mod_lt. Qed.

Lemma hex_byte_inj (a b : ascii) : hex_byte a = hex_byte b -> a = b.
Proof.
  unfold hex_byte. intros [= H1 H2].
  apply hex_digit_inj in H1; [|apply hi_nibble..].
  apply hex_digit_inj in H2; [|apply lo_nibble..].
  rewrite <-(ascii_N_embedding a), <-(ascii_N_embedding b). f_equal.
  rewrite (N.Div0.div_mod (N_of_ascii a) 16), (N.Div0.div_mod (N_of_ascii b) 16). congruence.
Qed.

#[export] Hint Resolve hex_digit_ok hi_nibble lo_nibble : gohex.

(** Name the 16 bytes of a [16]byte. *)
Ltac bytes16 b :=
  do 16 (destruct b as [|? b]; [done|]); destruct b; [|done].

Lemma formatUUID_canonical (b : list ascii) :
  length b = 16%nat -> canonical (formatUUID b) = true.
Proof.
  intros Hb. bytes16 b. unfold canonical. apply andb_true_iff. split; [done|].
  unfold formatUUID. simpl. unfold id_char_ok. simpl.
  rewrite !hex_digit_ok by auto with gohex. done.
Qed.

Lemma formatUUID_inj (b b' : list ascii) :
  length b = 16%nat -> length b' = 16%nat -> formatUUID b = formatUUID b' -> b = b'.
Proof.
  intros Hb Hb' H. bytes16 b. bytes16 b'. unfold formatUUID in H. simpl in H.
  injection H as; repeat f_equal; apply hex_byte_inj; unfold hex_byte; congruence.
Qed.

Section ParseID_spec.
Context (u : N -> N).
(** The standard table maps ASCII letters as ASCII does, and of the other
    runes only U+0130 and U+212A to ASCII, namely to [i] and [k]. *)
Context (u_ascii : forall r, (r < 128)%N -> u r = ascii_lower_rune r).
Context (u_other : forall r, (128 <= r)%N -> (128 <= u r)%N \/ u r = 105%N \/ u r = 107%N).

Lemma scan_ToLower s i w :
  scan_id (String.length s) i (ToLower u s) w
  = scan_id (String.length s) i (map_chars ascii_lower s) w.
Proof.
  unfold ToLower. revert i. induction s as [|c s IH]; intros i; [done|].
  destruct (is_ascii c) eqn:Hc.
  - replace (decode_runes (String c s)) with (N_of_ascii c :: decode_runes s)
      by (simpl; unfold is_ascii in Hc; by rewrite Hc).
    csimpl. unfold is_ascii in Hc. apply N.ltb_lt in Hc.
    rewrite u_ascii by done.
    assert (encode_rune (ascii_lower_rune (N_of_ascii c)) = String (ascii_lower c) "") as ->.
    { unfold encode_rune, ascii_lower, ascii_lower_rune, byte_in.
      rewrite (proj2 (N.ltb_lt _ _)); [done|].
      case_match; [|done]. rewrite andb_true_iff, !N.leb_le in *. lia. }
    simpl. destruct (id_char_ok i (ascii_lower c)); [apply IH|done].
  - destruct (decode_runes_nonascii c s Hc) as (r & l & -> & Hr). csimpl.
    destruct (encode_rune_head (u r)) as (h & t & -> & Hh).
    assert (id_char_ok i h = false) as Hih.
    { destruct (u r <? 128)%N eqn:E.
      - subst h. apply N.ltb_lt in E.
        destruct (u_other r Hr) as [?|[->| ->]]; [lia|..];
          unfold id_char_ok; by destruct (id_separator i).
      - apply not_true_is_false. intros ?%id_char_ok_ascii. congruence. }
    assert (id_char_ok i (ascii_lower c) = false) as Hic.
    { apply not_true_is_false. intros H. pose proof (id_char_ok_ascii _ _ H) as Ha.
      unfold ascii_lower, ascii_lower_rune in Ha. unfold is_ascii in Hc, Ha.
      apply N.ltb_ge in Hc. unfold byte_in in Ha.
      rewrite (proj2 (N.leb_gt (N_of_ascii c) 90)), andb_false_r in Ha by lia.
      rewrite ascii_N_embedding in Ha. apply N.ltb_lt in Ha. lia. }
    cbn [scan_id map_chars String.length].
    change (String h t +:+ encode_runes (u <$> l)) with (String h (t +:+ encode_runes (u <$> l))).
    cbn [scan_id]. by rewrite Hih, Hic.
Qed.

Lemma ToLower_ascii s :
  all_chars is_ascii s = true -> ToLower u s = map_chars ascii_lower s.
Proof.
  unfold ToLower. intros H. rewrite decode_runes_ascii by done.
  induction s as [|c s IH]; [done|]. apply andb_prop in H as [Hc Hs].
  csimpl. rewrite IH by done. unfold is_ascii in Hc. apply N.ltb_lt in Hc.
  rewrite u_ascii by done. unfold ascii_lower.
  assert (ascii_lower_rune (N_of_ascii c) < 128)%N as Hl.
  { unfold ascii_lower_rune, byte_in. case_match; [|done].
    rewrite andb_true_iff, !N.leb_le in *. lia. }
  unfold encode_rune. by rewrite (proj2 (N.ltb_lt _ _) Hl).
Qed.

(** A byte string whose lower-cased bytes are fine is ASCII. *)
Lemma lower_ok_ascii i s :
  id_chars_ok i (map_chars ascii_lower s) = true -> all_chars is_ascii s = true.
Proof.
  revert i. induction s as [|c s IH]; intros i; simpl; [done|].
  intros [Hc Hs]%andb_prop. rewrite (IH _ Hs), andb_true_r.
  apply id_char_ok_ascii in Hc. revert Hc. unfold is_ascii, ascii_lower, ascii_lower_rune, byte_in.
  case_match; [|by rewrite ascii_N_embedding].
  rewrite andb_true_iff, !N.leb_le in *. intros _. apply N.ltb_lt. lia.
Qed.

(** [ParseID] as a specification: exactly the 36-byte strings whose
    ASCII-lower-cased form is canonical parse, to that form. *)
Lemma ParseID_unfold {T} s :
  @ParseID u T s =
    if canonical (map_chars ascii_lower s) then Ok (mkID (map_chars ascii_lower s))
    else Err (if (String.length s =? 36)%nat then invalid_id (ToLower u s) else invalid_id s).
Proof.
  unfold ParseID, canonical. rewrite length_map_chars.
  destruct (Nat.eqb_spec (String.length s) 36) as [Hl|Hl]; [|done]. cbn [negb andb].
  rewrite <-Hl, scan_ToLower, <-(length_map_chars ascii_lower s), scan_id_ok.
  destruct (id_chars_ok 0 _) eqn:Hok; [|done]. simpl.
  by rewrite ToLower_ascii by (by eapply lower_ok_ascii).
Qed.

Lemma ParseID_canonical {T} s : canonical s = true -> @ParseID u T s = Ok (mkID s).
Proof.
  intros Hs. rewrite ParseID_unfold.
  assert (map_chars ascii_lower s = s) as ->; [|by rewrite Hs].
  apply andb_prop in Hs as [_ Hs]. by eapply lower_chars_ok.
Qed.

Lemma ParseID_value {T} s (i : ID T) : ParseID u s = Ok i -> canonical (value i) = true.
Proof. rewrite ParseID_unfold. case_match; [|done]. by intros [= <-]. Qed.

Lemma ParseID_fails {T} s :
  (forall m, @ParseID u T s <> Panic m) /\ forall e, @ParseID u T s = Err e -> exists s', e = invalid_id s'.
Proof.
  rewrite ParseID_unfold. split; [intros m; by case_match|].
  intros e. case_match; [done|]. intros [= <-]. case_match; by eexists.
Qed.
End ParseID_spec.

(** The version and variant bits [NewID] sets, as hexadecimal digits. *)
Lemma version_digit (b : ascii) :
  hex_digit (N_of_ascii (set_bits 15 64 b) / 16) = "4"%char.
Proof. by destruct b as [[] [] [] [] [] [] [] []]. Qed.

Lemma variant_digit (b : ascii) :
  hex_digit (N_of_ascii (set_bits 63 128 b) / 16) ∈ ["8"; "9"; "a"; "b"]%char.
Proof.
  assert (bool_decide (hex_digit (N_of_ascii (set_bits 63 128 b) / 16)
          ∈ ["8"; "9"; "a"; "b"]%char) = true) as H; [|by apply bool_decide_eq_true in H].
  by destruct b as [[] [] [] [] [] [] [] []].
Qed.

Lemma MarshalText_canonical {T} (i : ID T) :
  canonical (value i) = true -> MarshalText i = Ok (value i).
Proof.
  intros Hc. unfold MarshalText, IsZero. rewrite bool_decide_false; [done|].
  intros H. by rewrite H in Hc.
Qed.

Lemma NewID_canonical {T} (random : list ascii) :
  length random = 16%nat -> canonical (value (@NewID T random)) = true.
Proof. intros H. apply formatUUID_canonical. by rewrite !length_alter. Qed.

(** A case table with the two exceptional runes of the Unicode table. *)
Definition sample_ToLower (r : N) : N :=
  (if r =? 304 then 105 else if r =? 8490 then 107 else ascii_lower_rune r)%N.

Lemma sample_ToLower_ascii r : (r < 128)%N -> sample_ToLower r = ascii_lower_rune r.
Proof.
  intros Hr. unfold sample_ToLower.
  by destruct (N.eqb_spec r 304), (N.eqb_spec r 8490); [lia..|].
Qed.
Lemma sample_ToLower_other r :
  (128 <= r)%N -> (128 <= sample_ToLower r)%N \/ sample_ToLower r = 105%N \/ sample_ToLower r = 107%N.
Proof.
  intros Hr. unfold sample_ToLower, ascii_lower_rune, byte_in.
  destruct (N.eqb_spec r 304), (N.eqb_spec r 8490); auto.
  destruct (N.leb_spec r 90); [lia|]. rewrite andb_false_r. auto.
Qed.

(** [ParseID] accepts exactly the 36-byte strings that are a UUID in the
    8-4-4-4-12 layout once lower-cased, and the identifier is that lower-case
    form; it never indexes past the end of the lower-cased string, although
    [strings.ToLower] may shorten it; and every rejection is [ErrInvalidID]. *)
Theorem ParseID_accepts_uuids (u : N -> N)
    (u_ascii : forall r, (r < 128)%N -> u r = ascii_lower_rune r)
    (u_other : forall r, (128 <= r)%N -> (128 <= u r)%N \/ u r = 105%N \/ u r = 107%N)
    (T : Type) (s : string) :
  (forall i : ID T, ParseID u s = Ok i <->
     canonical (map_chars ascii_lower s) = true /\ value i = map_chars ascii_lower s)
  /\ (forall m, @ParseID u T s <> Panic m)
  /\ (forall e, @ParseID u T s = Err e -> errors_Is e (EDomain ErrInvalidID) = true).
Proof.
  rewrite ParseID_unfold by done. split_and!.
  - intros [v]. simpl. case_match; naive_solver.
  - by case_match.
  - intros e. case_match; [done|]. by intros [= <-]; case_match.
Qed.

Lemma ParseID_accepts_uuids_witness :
  @ParseID sample_ToLower unit "0123ABCD-4567-89ab-CDEF-0123456789ab"
  = Ok (mkID "0123abcd-4567-89ab-cdef-0123456789ab").
Proof.
  refine (proj2 (proj1 (ParseID_accepts_uuids sample_ToLower sample_ToLower_ascii
    sample_ToLower_other unit "0123ABCD-4567-89ab-CDEF-0123456789ab") (mkID _)) _).
  by split.
Defined.

(** A generated identifier is a version-4 RFC 4122 UUID, is never the zero
    value, and marshals to a text that unmarshals to the same identifier
    whatever the receiver held; two draws of the 16 random bytes yield the
    same identifier only if they agree after the version and variant bits are
    set. *)
Theorem NewID_roundtrip (u : N -> N)
    (u_ascii : forall r, (r < 128)%N -> u r = ascii_lower_rune r)
    (u_other : forall r, (128 <= r)%N -> (128 <= u r)%N \/ u r = 105%N \/ u r = 107%N)
    (T : Type) (random random' : list ascii)
    (Hlen : length random = 16%nat) (Hlen' : length random' = 16%nat) :
  let id := @NewID T random in
  MarshalText id = Ok (value id)
  /\ (forall old : ID T, UnmarshalText u old (value id) = (id, Ok tt))
  /\ String.get 14 (value id) = Some "4"%char
  /\ (exists c, String.get 19 (value id) = Some c /\ c ∈ ["8"; "9"; "a"; "b"]%char)
  /\ (@NewID T random' = id ->
      alter (set_bits 63 128) 8%nat (alter (set_bits 15 64) 6%nat random')
      = alter (set_bits 63 128) 8%nat (alter (set_bits 15 64) 6%nat random)).
Proof.
  intros id. pose proof (NewID_canonical (T:=T) _ Hlen) as Hc. fold id in Hc.
  split_and!.
  - by apply MarshalText_canonical.
  - intros old. unfold UnmarshalText. by rewrite ParseID_canonical; [destruct id|..].
  - bytes16 random. simpl. by rewrite version_digit.
  - bytes16 random. eexists. split; [done|]. apply variant_digit.
  - intros [= H]. apply formatUUID_inj in H; by rewrite ?length_alter.
Qed.

Lemma NewID_roundtrip_witness :
  let bytes := repeat "255"%char 16 in
  @MarshalText unit (NewID bytes) = Ok "ffffffff-ffff-4fff-bfff-ffffffffffff".
Proof.
  exact (proj1 (NewID_roundtrip sample_ToLower sample_ToLower_ascii sample_ToLower_other
    unit (repeat "255"%char 16) (repeat "255"%char 16) eq_refl eq_refl)).
Defined.
