(* ===== verification/Kernel.v ===== *)
(** * kernel/aggregate.go: event-sourced aggregates

    The [Aggregate] interface as a typeclass ([Apply]), the embeddable [Root],
    and the three operations [Raise], [Rehydrate] and [TakeUncommitted]. An
    aggregate is its [Root] together with the state its [Apply] assigns; a
    method that mutates the receiver returns the receiver it leaves behind,
    also when it fails. *)

From S2P Require Import Prelude Errors.

(** [kernel.DomainEvent]: the interface values of one service. *)
Class DomainEvent (Ev : Type) := EventName : Ev -> string.

(** The [Apply] method of [kernel.Aggregate]. *)
Class Aggregate (S Ev : Type) := Apply : S -> Ev -> S * res unit.

Record Root (Ev : Type) := mkRoot { version : Z; pending : list Ev }.
Arguments mkRoot {Ev} version pending.
Arguments version {Ev} _.
Arguments pending {Ev} _.

(** A concrete aggregate: [struct { kernel.Root; ...state... }]. *)
Record Agg (S Ev : Type) := mkAgg { root : Root Ev; state : S }.
Arguments mkAgg {S Ev} root state.
Arguments root {S Ev} _.
Arguments state {S Ev} _.

Section aggregate.
Context {S Ev : Type} `{DomainEvent Ev} `{Aggregate S Ev}.
Implicit Types (a : Agg S Ev) (e : Ev) (s : S) (history stream : list Ev).

(** The zero value of the struct, with the zero value of its state. *)
Definition new_agg (s0 : S) : Agg S Ev := mkAgg (mkRoot 0 []) s0.

Definition Version a : Z := version (root a).
Definition UncommittedEvents a : list Ev := pending (root a).

Definition Raise a e : Agg S Ev * res unit :=
  let '(s', err) := Apply (state a) e in
  match err with
  | Err cause => (mkAgg (root a) s', Err (EWrap ("raise " +:+ EventName e +:+ ": ") cause ""))
  | Panic m => (mkAgg (root a) s', Panic m)
  | Ok _ => (mkAgg (mkRoot (version (root a)) (pending (root a) ++ [e])) s', Ok tt)
  end.

(** The loop of [Rehydrate], from index [i]. *)
Fixpoint rehydrate_loop (i : nat) s history : S * res unit :=
  match history with
  | [] => (s, Ok tt)
  | e :: rest =>
    let '(s', err) := Apply s e in
    match err with
    | Err cause =>
      (s', Err (EWrap ("rehydrate: event " +:+ FormatInt (Z.of_nat i) +:+
                       " (" +:+ EventName e +:+ "): ") cause ""))
    | Panic m => (s', Panic m)
    | Ok _ => rehydrate_loop (i + 1) s' rest
    end
  end.

Definition Rehydrate a history : Agg S Ev * res unit :=
  let '(s', err) := rehydrate_loop 0 (state a) history in
  match err with
  | Ok _ => (mkAgg (mkRoot (add64 (version (root a)) (zlen history)) (pending (root a))) s', Ok tt)
  | _ => (mkAgg (root a) s', err)
  end.

Definition TakeUncommitted a : list Ev * Agg S Ev :=
  let events := pending (root a) in
  (events, mkAgg (mkRoot (add64 (version (root a)) (zlen events)) []) (state a)).

(** ** Replay *)

(** The state a list of events leads to, if every one applies. *)
Fixpoint replay s history : option S :=
  match history with
  | [] => Some s
  | e :: rest => match Apply s e with (s', Ok _) => replay s' rest | _ => None end
  end.

Lemma replay_app s h1 h2 :
  replay s (h1 ++ h2) = match replay s h1 with Some s' => replay s' h2 | None => None end.
Proof.
  revert s. induction h1 as [|e h1 IH]; intros s; simpl; [done|].
  destruct (Apply s e) as [s' []]; [apply IH | done..].
Qed.

Lemma rehydrate_loop_replay i s h s' :
  replay s h = Some s' -> rehydrate_loop i s h = (s', Ok tt).
Proof.
  revert i s. induction h as [|e h IH]; intros i s; simpl; [by intros [= ->]|].
  destruct (Apply s e) as [s1 []]; [apply IH | done..].
Qed.

Lemma rehydrate_loop_ok i s h s' :
  rehydrate_loop i s h = (s', Ok tt) -> replay s h = Some s'.
Proof.
  revert i s. induction h as [|e h IH]; intros i s; simpl; [by intros [= ->]|].
  destruct (Apply s e) as [s1 []]; [apply IH | done..].
Qed.

Lemma rehydrate_loop_err i s h s' err :
  rehydrate_loop i s h = (s', Err err) ->
  exists j e s1 cause,
    h !! j = Some e /\ replay s (take j h) = Some s1 /\ Apply s1 e = (s', Err cause)
    /\ err = EWrap ("rehydrate: event " +:+ FormatInt (Z.of_nat (i + j)) +:+
                    " (" +:+ EventName e +:+ "): ") cause "".
Proof.
  revert i s. induction h as [|e h IH]; intros i s; simpl; [done|].
  destruct (Apply s e) as [s1 [[]|c|]] eqn:Ha; [| |done].
  - intros (j & e' & s2 & c & Hj & Hr & Happ & ->)%IH.
    exists (Datatypes.S j), e', s2, c. simpl. rewrite Ha.
    split_and!; [done..|]. do 4 f_equal. lia.
  - intros [= <- <-]. exists 0%nat, e, s, c. rewrite Nat.add_0_r. done.
Qed.

(** [a] is consistent with the committed [stream] of an aggregate whose zero
    state is [s0]: its state is the replay of the stream and the events it
    has raised since, its version the length of the stream. *)
Definition tracks (s0 : S) stream a : Prop :=
  replay s0 (stream ++ pending (root a)) = Some (state a)
  /\ version (root a) = wrap64 (zlen stream).

Lemma tracks_new (s0 : S) : tracks s0 [] (new_agg s0).
Proof. done. Qed.

Lemma Raise_ok_inv a e a' r :
  Raise a e = (a', Ok r) ->
  Apply (state a) e = (state a', Ok tt)
  /\ root a' = mkRoot (version (root a)) (pending (root a) ++ [e]).
Proof.
  unfold Raise. destruct (Apply _ _) as [s' [[]| |]]; [|done..]. by intros [= <- <-].
Qed.

Lemma Raise_apply a e s' :
  Apply (state a) e = (s', Ok tt) ->
  Raise a e = (mkAgg (mkRoot (version (root a)) (pending (root a) ++ [e])) s', Ok tt).
Proof. unfold Raise. by intros ->. Qed.

Lemma Raise_failed_root a e a' r :
  Raise a e = (a', r) -> r <> Ok tt -> root a' = root a.
Proof.
  unfold Raise. destruct (Apply _ _) as [s' [[]| |]]; intros [= <- <-]; done.
Qed.

Lemma Raise_tracks (s0 : S) stream a e a' :
  tracks s0 stream a -> Raise a e = (a', Ok tt) -> tracks s0 stream a'.
Proof.
  intros [Hs Hv] (Happ & Hr)%Raise_ok_inv. split; rewrite Hr; [|done].
  simpl. rewrite app_assoc, replay_app, Hs. simpl. by rewrite Happ.
Qed.

Lemma wrap64_add (x y : Z) : add64 (wrap64 x) y = wrap64 (x + y).
Proof.
  unfold add64, wrap64. f_equal.
  rewrite (Z.add_comm (_ - _) y), <-!Z.add_assoc.
  replace (y + ((x + 2 ^ 63) mod 2 ^ 64 - 2 ^ 63 + 2 ^ 63))
    with (y + (x + 2 ^ 63) mod 2 ^ 64) by lia.
  rewrite Zplus_mod_idemp_r. f_equal. lia.
Qed.

Lemma TakeUncommitted_tracks (s0 : S) stream a :
  tracks s0 stream a ->
  tracks s0 (stream ++ UncommittedEvents a) (snd (TakeUncommitted a)).
Proof.
  intros [Hs Hv]. split; simpl.
  - by rewrite app_nil_r.
  - by rewrite Hv, wrap64_add, zlen_app.
Qed.

Lemma Rehydrate_tracks (s0 : S) stream a :
  tracks s0 stream a -> UncommittedEvents a = [] ->
  Rehydrate (new_agg s0) stream = (a, Ok tt).
Proof.
  unfold tracks, UncommittedEvents, Rehydrate. intros [Hs Hv] Hp.
  rewrite Hp, app_nil_r in Hs. rewrite (rehydrate_loop_replay _ _ _ _ Hs). simpl.
  destruct a as [[v p] s]; simpl in *. subst. do 3 f_equal.
Qed.

Lemma Rehydrate_ok_tracks (s0 : S) stream a :
  Rehydrate (new_agg s0) stream = (a, Ok tt) ->
  tracks s0 stream a /\ UncommittedEvents a = [].
Proof.
  unfold Rehydrate. destruct (rehydrate_loop 0 _ _) as [s' [[]| |]] eqn:E; [|done..].
  intros [= <-]. apply rehydrate_loop_ok in E. split; [split; simpl|done].
  - by rewrite app_nil_r.
  - unfold add64. f_equal.
Qed.
End aggregate.

#[export] Hint Resolve tracks_new Raise_tracks TakeUncommitted_tracks : gohex.

(** Raising several events in a row, as a behaviour method does. *)
Fixpoint raise_all {S Ev} `{DomainEvent Ev} `{Aggregate S Ev}
    (a : Agg S Ev) (es : list Ev) : Agg S Ev * res unit :=
  match es with
  | [] => (a, Ok tt)
  | e :: rest =>
    match Raise a e with
    | (a', Ok _) => raise_all a' rest
    | (a', r) => (a', r)
    end
  end.

Section raise_all.
Context {S Ev : Type} `{DomainEvent Ev} `{Aggregate S Ev}.

Lemma raise_all_root (a a' : Agg S Ev) es :
  raise_all a es = (a', Ok tt) ->
  root a' = mkRoot (version (root a)) (pending (root a) ++ es).
Proof.
  revert a. induction es as [|e es IH]; intros a; simpl.
  - intros [= <-]. rewrite app_nil_r. by destruct (root a).
  - destruct (Raise a e) as [a1 [[]| |]] eqn:E; [|done..].
    intros ->%IH. apply Raise_ok_inv in E as [_ ->]. simpl. by rewrite <-app_assoc.
Qed.

Lemma raise_all_replay (a a' : Agg S Ev) es :
  raise_all a es = (a', Ok tt) -> replay (state a) es = Some (state a').
Proof.
  revert a. induction es as [|e es IH]; intros a; simpl; [by intros [= <-]|].
  destruct (Raise a e) as [a1 [[]| |]] eqn:E; [|done..].
  apply Raise_ok_inv in E as [-> _]. apply IH.
Qed.

Lemma raise_all_tracks (s0 : S) stream (a a' : Agg S Ev) es :
  tracks s0 stream a -> raise_all a es = (a', Ok tt) -> tracks s0 stream a'.
Proof.
  revert a. induction es as [|e es IH]; intros a Ht; simpl; [by intros [= <-]|].
  destruct (Raise a e) as [a1 [[]| |]] eqn:E; [|done..].
  apply IH. eauto with gohex.
Qed.
End raise_all.

(** ** Properties *)

(** C22: An aggregate's state exists only as the replay of its events: load an
    aggregate from its stream, let a behaviour raise events, take them as a
    repository does; rehydrating a fresh aggregate from the stream extended
    with exactly those events yields the very same aggregate, version
    included, and nothing stays uncommitted. *)
Theorem aggregate_is_replay {S Ev} `{DomainEvent Ev} `{Aggregate S Ev}
    (s0 : S) (stream es : list Ev) (loaded acted : Agg S Ev)
    (Hload : Rehydrate (new_agg s0) stream = (loaded, Ok tt))
    (Hraise : raise_all loaded es = (acted, Ok tt)) :
  UncommittedEvents acted = es
  /\ Version acted = Version loaded
  /\ fst (TakeUncommitted acted) = es
  /\ UncommittedEvents (snd (TakeUncommitted acted)) = []
  /\ Rehydrate (new_agg s0) (stream ++ es) = (snd (TakeUncommitted acted), Ok tt).
Proof.
  apply Rehydrate_ok_tracks in Hload as [Ht Hp].
  pose proof (raise_all_root _ _ _ Hraise) as Hr.
  assert (UncommittedEvents acted = es) as Hes.
  { unfold UncommittedEvents in *. by rewrite Hr, Hp. }
  split_and!; [done | unfold Version; by rewrite Hr | done | done |].
  apply Rehydrate_tracks; [|done].
  rewrite <-Hes at 1. eauto using raise_all_tracks with gohex.
Qed.

(** Rehydration stops at the first event that cannot be applied and says
    which: the events before it replay, it does not, the version and the
    uncommitted events are untouched, and a domain error in the cause is
    still seen by [AsDomainError]. *)
Theorem rehydrate_failure {S Ev} `{DomainEvent Ev} `{Aggregate S Ev}
    (a a' : Agg S Ev) (history : list Ev) (err : error)
    (Hfail : Rehydrate a history = (a', Err err)) :
  root a' = root a
  /\ exists i e s cause,
       history !! i = Some e
       /\ replay (state a) (take i history) = Some s
       /\ Apply s e = (state a', Err cause)
       /\ err = EWrap ("rehydrate: event " +:+ FormatInt (Z.of_nat i) +:+
                       " (" +:+ EventName e +:+ "): ") cause ""
       /\ AsDomainError err = AsDomainError cause.
Proof.
  unfold Rehydrate in Hfail. destruct (rehydrate_loop 0 _ _) as [s' [[]|c|]] eqn:E; [done| |done].
  injection Hfail as <- <-.
  apply rehydrate_loop_err in E as (j & e & s1 & cause & Hj & Hr & Ha & ->).
  split; [done|]. exists j, e, s1, cause. done.
Qed.

Module Sample.
(** A counter that accepts increments and rejects everything else. *)
Inductive event := Incremented (n : Z) | Other.
#[export] Instance event_name : DomainEvent event :=
  fun e => match e with Incremented _ => "sample.incremented" | Other => "sample.other" end.
#[export] Instance counter : Aggregate Z event :=
  fun s e => match e with
             | Incremented n => (s + n, Ok tt)
             | Other => (s, Err (EText "unknown event"))
             end.
End Sample.
Import Sample.

Lemma aggregate_is_replay_witness :
  Rehydrate (new_agg 0) [Incremented 1; Incremented 2; Incremented 3]
  = (mkAgg (mkRoot 3 []) 6, Ok tt).
Proof.
  refine (proj2 (proj2 (proj2 (proj2 (aggregate_is_replay 0
    [Incremented 1] [Incremented 2; Incremented 3]
    (mkAgg (mkRoot 1 []) 1)
    (mkAgg (mkRoot 1 [Incremented 2; Incremented 3]) 6) _ _)))));
    reflexivity.
Defined.

Lemma rehydrate_failure_witness :
  exists i e s cause, [Incremented 1; Other] !! i = Some e
    /\ replay 0 (take i [Incremented 1; Other]) = Some s
    /\ Apply s e = (1, Err cause)
    /\ EWrap "rehydrate: event 1 (sample.other): " (EText "unknown event") ""
       = EWrap ("rehydrate: event " +:+ FormatInt (Z.of_nat i) +:+ " (" +:+ EventName e +:+ "): ") cause ""
    /\ AsDomainError (EWrap "rehydrate: event 1 (sample.other): " (EText "unknown event") "")
       = AsDomainError cause.
Proof.
  exact (proj2 (rehydrate_failure (new_agg 0) (mkAgg (mkRoot 0 []) 1)
    [Incremented 1; Other] _ eq_refl)).
Defined.
