(* ===== verification/EventStore.v ===== *)
(** * eventstore/store.go: the event store port

    The event store port as a typeclass with its contract ([Store],
    [StoreSpec]) and the append-only log the contract speaks about. *)

From S2P Require Import Prelude Tail Errors GoTime Json.

Definition ErrVersionConflict : error := ESentinel "eventstore: version conflict".
Definition ErrNotFound : DomainError := NewDomainError "not_found" "aggregate does not exist".

Record StreamID := mkStreamID { Category : string; StreamKey : string }.

#[export] Instance StreamID_eq_dec : EqDecision StreamID.
Proof. solve_decision. Defined.
#[export] Instance StreamID_countable : Countable StreamID.
Proof.
  apply (inj_countable' (fun s => (Category s, StreamKey s)) (fun p => mkStreamID p.1 p.2)).
  by intros [].
Defined.

Record EventData := mkEventData {
  ed_EventName : string;
  ed_SchemaVersion : Z;
  ed_Payload : RawMessage;
  ed_Metadata : strmap;
}.

Record RecordedEvent := mkRecordedEvent {
  GlobalSeq : Z;
  Stream : StreamID;
  rec_Version : Z;
  rec_EventName : string;
  rec_SchemaVersion : Z;
  rec_Payload : RawMessage;
  rec_Metadata : strmap;
  OccurredAt : Time;
}.

(** The event data a record carries. *)
Definition rec_data (r : RecordedEvent) : EventData :=
  mkEventData (rec_EventName r) (rec_SchemaVersion r) (rec_Payload r) (rec_Metadata r).

(** ** The port

    The four methods. A store may fail for reasons of its own (a database),
    so every method can return an error and leave a changed store. *)
Class Store (W : Type) := {
  Append : Time -> StreamID -> Z -> list EventData -> W -> res Z * W;
  Load : StreamID -> Z -> W -> res (list RecordedEvent) * W;
  ReadAll : Z -> Z -> W -> res (list RecordedEvent) * W;
  Head : W -> res Z * W;
}.

(** *** The log the contract is about *)

Abbreviation in_stream s := (fun r => Stream r = s).

Definition stream_of (s : StreamID) (log : list RecordedEvent) : list RecordedEvent :=
  filter (in_stream s) log.

(** The stream's version: its number of events. *)
Definition stream_version (s : StreamID) (log : list RecordedEvent) : Z := zlen (stream_of s log).

Definition last_seq (log : list RecordedEvent) : Z := head_of GlobalSeq log.

(** GlobalSeq positive and strictly increasing; versions 1, 2, ... within each
    stream. *)
Definition log_ok (log : list RecordedEvent) : Prop :=
  increasing GlobalSeq log
  /\ forall s, rec_Version <$> stream_of s log = seqZ 1 (stream_version s log).

(** [recs] is what an append of [es] to [s] at version [v] stores. *)
Definition stored (s : StreamID) (v : Z) (es : list EventData) (recs : list RecordedEvent) : Prop :=
  rec_data <$> recs = es
  /\ Forall (in_stream s) recs
  /\ rec_Version <$> recs = seqZ (v + 1) (zlen es).

Definition appended s v es (log log' : list RecordedEvent) : Prop :=
  exists recs, log' = log ++ recs /\ stored s v es recs.

(** The contract of [Append]: on success the events are at the end of the log,
    in order, under consecutive versions, and the answer is the last one's
    GlobalSeq; a version conflict stores nothing and happens only when the
    stream is elsewhere; any other error stores everything or nothing. *)
Definition append_post s v es (log : list RecordedEvent) (r : res Z) (log' : list RecordedEvent) : Prop :=
  match r with
  | Ok seq =>
    (es = [] /\ seq = 0 /\ log' = log)
    \/ (es <> [] /\ v = stream_version s log /\ appended s v es log log' /\ seq = last_seq log')
  | Err e =>
    if errors_Is e ErrVersionConflict then log' = log /\ v <> stream_version s log
    else log' = log \/ (v = stream_version s log /\ appended s v es log log')
  | Panic _ => False
  end.

Definition load_result (s : StreamID) (after : Z) (log : list RecordedEvent) : list RecordedEvent :=
  filter (fun r => after < rec_Version r) (stream_of s log).

Definition readall_result (after limit : Z) (log : list RecordedEvent) : list RecordedEvent :=
  read_page GlobalSeq after limit log.

(** The contract: an abstraction of the store to its log that every operation
    respects. *)
Class StoreSpec (W : Type) `{Store W} := {
  log_of : W -> list RecordedEvent;
  store_inv : W -> Prop;
  store_log_ok w : store_inv w -> log_ok (log_of w);
  Append_spec now s v es w r w' :
    store_inv w -> last_seq (log_of w) + zlen es <= int64_max ->
    Append now s v es w = (r, w') ->
    store_inv w' /\ append_post s v es (log_of w) r (log_of w');
  Load_spec s after w r w' :
    store_inv w -> Load s after w = (r, w') ->
    store_inv w' /\ log_of w' = log_of w
    /\ (forall recs, r = Ok recs -> recs = load_result s after (log_of w))
    /\ (forall e, r = Err e -> errors_Is e ErrVersionConflict = false /\ AsDomainError e = None);
  ReadAll_spec after limit w r w' :
    store_inv w -> ReadAll after limit w = (r, w') ->
    store_inv w' /\ log_of w' = log_of w
    /\ (forall recs, r = Ok recs -> recs = readall_result after limit (log_of w));
  Head_spec w r w' :
    store_inv w -> Head w = (r, w') ->
    store_inv w' /\ log_of w' = log_of w
    /\ (forall seq, r = Ok seq -> seq = last_seq (log_of w));
}.

(** ** Facts about logs *)

Lemma stream_of_app s l k : stream_of s (l ++ k) = stream_of s l ++ stream_of s k.
Proof. apply filter_app. Qed.

Lemma stream_version_app s l k :
  stream_version s (l ++ k) = stream_version s l + stream_version s k.
Proof. unfold stream_version. by rewrite stream_of_app, zlen_app. Qed.

Lemma stream_version_nonneg s l : 0 <= stream_version s l.
Proof. apply zlen_nonneg. Qed.

Lemma last_seq_snoc l r : last_seq (l ++ [r]) = GlobalSeq r.
Proof. apply head_of_snoc. Qed.

Lemma stored_length s v es recs : stored s v es recs -> length recs = length es.
Proof. intros [<- _]. by rewrite length_fmap. Qed.

Lemma stored_stream s v es recs : stored s v es recs -> stream_of s recs = recs.
Proof. intros (_ & H & _). by apply filter_all. Qed.

Lemma stored_other s s' v es recs : stored s v es recs -> s <> s' -> stream_of s' recs = [].
Proof.
  intros (_ & H & _) Hne. apply filter_none. eapply Forall_impl; [done|]. simpl. congruence.
Qed.

Lemma stored_version s v es recs : stored s v es recs -> stream_version s recs = zlen es.
Proof.
  intros H. unfold stream_version. rewrite (stored_stream _ _ _ _ H).
  unfold zlen. by rewrite (stored_length _ _ _ _ H).
Qed.

Lemma log_ok_nil : log_ok [].
Proof. split; [by repeat constructor | done]. Qed.

(** The versions of every stream stay 1, 2, ... when an append is stored. *)
Lemma versions_appended s v es l l' s' :
  rec_Version <$> stream_of s' l = seqZ 1 (stream_version s' l) ->
  v = stream_version s l -> appended s v es l l' ->
  rec_Version <$> stream_of s' l' = seqZ 1 (stream_version s' l').
Proof.
  intros Hok -> (recs & -> & Hst). rewrite stream_version_app, stream_of_app, fmap_app, Hok.
  destruct (decide (s = s')) as [<-|Hne].
  - rewrite (stored_stream _ _ _ _ Hst), (stored_version _ _ _ _ Hst).
    destruct Hst as (_ & _ & ->).
    pose proof (stream_version_nonneg s l). pose proof (zlen_nonneg es).
    rewrite (seqZ_app 1) by lia. do 2 f_equal. lia.
  - rewrite (stored_other _ _ _ _ _ Hst Hne). unfold stream_version at 3.
    by rewrite (stored_other _ _ _ _ _ Hst Hne), zlen_nil, Z.add_0_r, app_nil_r.
Qed.

Lemma last_seq_nonneg l : log_ok l -> 0 <= last_seq l.
Proof. intros [Hs _]. by apply head_of_nonneg. Qed.

(** A stream that is as long as before an append is as it was. *)
Lemma stream_prefix_same (s : StreamID) (log recs : list RecordedEvent) :
  stream_version s (log ++ recs) = stream_version s log -> stream_of s (log ++ recs) = stream_of s log.
Proof.
  rewrite stream_version_app, stream_of_app. intros Hv.
  assert (stream_of s recs = []) as ->; [|by rewrite app_nil_r].
  apply zlen_zero. unfold stream_version in Hv. lia.
Qed.


Lemma stream_version_le_last s l : log_ok l -> stream_version s l <= last_seq l.
Proof.
  intros [Hs _]. pose proof (length_le_head _ _ Hs). unfold last_seq, stream_version, stream_of, zlen in *.
  pose proof (length_filter (in_stream s) l). lia.
Qed.

Lemma load_result_all s l : log_ok l -> load_result s 0 l = stream_of s l.
Proof.
  intros [_ Hv]. apply filter_all. rewrite Forall_forall. intros r Hr.
  assert (rec_Version r ∈ rec_Version <$> stream_of s l) as Hin by (by apply list_elem_of_fmap_2).
  rewrite Hv in Hin. apply elem_of_seqZ in Hin. lia.
Qed.

(** ** Tailing *)

Lemma log_ok_increasing log : log_ok log -> increasing GlobalSeq log.
Proof. by intros [H _]. Qed.
#[export] Hint Resolve log_ok_increasing : gohex.

(** Under the contract, of two writers that expect the same version at most one
    stores anything. *)
Lemma append_race_lost {W} `{StoreSpec W} now now' s v es es' w w1 w2 seq r :
  store_inv w -> es <> [] -> es' <> [] ->
  last_seq (log_of w) + zlen es <= int64_max -> last_seq (log_of w1) + zlen es' <= int64_max ->
  Append now s v es w = (Ok seq, w1) -> Append now' s v es' w1 = (r, w2) ->
  is_ok r = false /\ log_of w2 = log_of w1.
Proof.
  intros Hinv Hes Hes' Hsz Hsz' E1 E2.
  apply Append_spec in E1 as [Hinv1 H1]; [|done..].
  apply Append_spec in E2 as [_ H2]; [|done..].
  destruct H1 as [(? & _)|(_ & Hv & (recs & Hl & Hst) & _)]; [done|].
  assert (v <> stream_version s (log_of w1)) as Hne.
  { rewrite Hl, stream_version_app, (stored_version _ _ _ _ Hst), <-Hv.
    pose proof (zlen_nonneg es). assert (zlen es <> 0) by (by rewrite zlen_zero). lia. }
  destruct r as [seq'|e|m]; simpl in H2; [naive_solver | | done].
  split; [done|]. destruct (errors_Is e ErrVersionConflict); naive_solver.
Qed.
