(* ===== verification/MemoryStore.v ===== *)
(** * eventstore/memory.go: the in-memory event store

    [MemoryStore] with its index [streams], the refinement of the abstract
    log, and the instance of the port's contract. *)

From S2P Require Import Prelude Tail Errors GoTime Json EventStore.

Record MemoryStore := mkMemoryStore {
  all : list RecordedEvent;
  streams : gmap StreamID (list nat); (* indexes into all, in version order *)
}.

Definition NewMemoryStore : MemoryStore := mkMemoryStore [] ∅.

(** [s.streams[stream]]: nil when absent. *)
Definition stream_index (w : MemoryStore) (s : StreamID) : list nat :=
  default [] (streams w !! s).

Definition version_conflict (s : StreamID) (current expected : Z) : error :=
  EWrap "" ErrVersionConflict
    (": stream " +:+ Category s +:+ "/" +:+ StreamKey s +:+ " at version " +:+
     FormatInt current +:+ ", expected " +:+ FormatInt expected).

(** [slices.Clone] and [maps.Clone] make fresh copies of the payload and the
    metadata; values have no identity here, so a copy is the value. *)
Definition mem_record (w : MemoryStore) (now : Time) (s : StreamID) (expected : Z)
    (i : nat) (e : EventData) : RecordedEvent :=
  {| GlobalSeq := add64 (zlen (all w)) 1;
     Stream := s;
     rec_Version := add64 (add64 expected (Z.of_nat i)) 1;
     rec_EventName := ed_EventName e;
     rec_SchemaVersion := ed_SchemaVersion e;
     rec_Payload := ed_Payload e;
     rec_Metadata := ed_Metadata e;
     OccurredAt := now |}.

(** The loop of [Append], from index [i]. *)
Fixpoint append_loop (now : Time) (s : StreamID) (expected : Z) (i : nat)
    (es : list EventData) (w : MemoryStore) : MemoryStore :=
  match es with
  | [] => w
  | e :: rest =>
    let w' := {| all := all w ++ [mem_record w now s expected i e];
                 streams := <[s := stream_index w s ++ [length (all w)]]> (streams w) |} in
    append_loop now s expected (i + 1) rest w'
  end.

Definition mem_Append (now : Time) (s : StreamID) (expected : Z) (es : list EventData)
    (w : MemoryStore) : res Z * MemoryStore :=
  if decide (es = []) then (Ok 0, w) else
  let current := zlen (stream_index w s) in
  if decide (current <> expected) then (Err (version_conflict s current expected), w) else
  let w' := append_loop now s expected 0 es w in
  match last (all w') with
  | Some r => (Ok (GlobalSeq r), w')
  | None => (Panic "index out of range", w')
  end.

(** [Load]: walk the stream's indexes; [s.all[idx]] panics out of range. *)
Fixpoint load_loop (all : list RecordedEvent) (ixs : list nat) (after : Z) : res (list RecordedEvent) :=
  match ixs with
  | [] => Ok []
  | i :: rest =>
    match all !! i with
    | None => Panic "index out of range"
    | Some r =>
      try out := load_loop all rest after in
      Ok (if decide (rec_Version r > after) then r :: out else out)
    end
  end.

Definition mem_Load (s : StreamID) (after : Z) (w : MemoryStore) : res (list RecordedEvent) * MemoryStore :=
  (load_loop (all w) (stream_index w s) after, w).

Definition mem_ReadAll (after limit : Z) (w : MemoryStore) : res (list RecordedEvent) * MemoryStore :=
  (Ok (readall_loop GlobalSeq after limit 0 (all w)), w).

Definition mem_Head (w : MemoryStore) : res Z * MemoryStore :=
  match last (all w) with
  | None => (Ok 0, w)
  | Some r => (Ok (GlobalSeq r), w)
  end.

Arguments mem_Append : simpl never.
Arguments mem_Load : simpl never.
Arguments mem_ReadAll : simpl never.
Arguments mem_Head : simpl never.

#[export] Instance MemoryStore_store : Store MemoryStore := {
  Append := mem_Append; Load := mem_Load; ReadAll := mem_ReadAll; Head := mem_Head;
}.

(** ** Invariant

    The n-th record has GlobalSeq n+1, the index of a stream lists exactly its
    records' positions, versions are consecutive, and the log's length is an
    int64. *)
Record mem_inv (w : MemoryStore) : Prop := {
  inv_seq : GlobalSeq <$> all w = seqZ 1 (zlen (all w));
  inv_index s : stream_index w s = positions (in_stream s) 0 (all w);
  inv_version s : rec_Version <$> stream_of s (all w) = seqZ 1 (stream_version s (all w));
  inv_size : zlen (all w) <= int64_max;
}.

Lemma mem_inv_new : mem_inv NewMemoryStore.
Proof. split; [done | intros s; by unfold stream_index | done | done]. Qed.

Lemma mem_log_ok w : mem_inv w -> log_ok (all w).
Proof.
  intros H. split; [|apply (inv_version _ H)]. unfold increasing. rewrite (inv_seq _ H).
  constructor; [apply StronglySorted_seqZ|].
  rewrite Forall_forall. intros x Hx%elem_of_seqZ. lia.
Qed.

Lemma mem_last_seq w : mem_inv w -> last_seq (all w) = zlen (all w).
Proof.
  intros H. pose proof (inv_seq _ H) as Hs. unfold last_seq, head_of.
  destruct (all w) as [|r l _] using rev_ind; [done|].
  rewrite last_snoc. simpl. rewrite zlen_app, zlen_cons, zlen_nil in *.
  rewrite fmap_app, <-seqZ_snoc in Hs by apply zlen_nonneg.
  apply app_inj_2 in Hs as [_ [= ->]]; [lia | done].
Qed.

Lemma stream_index_length w s : mem_inv w -> zlen (stream_index w s) = stream_version s (all w).
Proof.
  intros H. unfold stream_version, zlen, stream_of.
  by rewrite (inv_index _ H), length_positions.
Qed.

Lemma stream_version_le_all s l : stream_version s l <= zlen l.
Proof.
  unfold stream_version, zlen, stream_of.
  pose proof (length_filter (in_stream s) l). lia.
Qed.

(** ** Append *)

Lemma in_int64_between z : 0 <= z <= int64_max -> in_int64 z.
Proof. unfold in_int64, int64_min. lia. Qed.

(** One iteration of the append loop. *)
Lemma append_one now s v i e w :
  mem_inv w -> v + Z.of_nat i = stream_version s (all w) -> zlen (all w) + 1 <= int64_max ->
  let r := mem_record w now s v i e in
  let w' := {| all := all w ++ [r];
               streams := <[s := stream_index w s ++ [length (all w)]]> (streams w) |} in
  stored s (v + Z.of_nat i) [e] [r] /\ mem_inv w'.
Proof.
  intros H Hv Hsize r w'.
  pose proof (stream_version_le_all s (all w)) as Hle.
  pose proof (stream_version_nonneg s (all w)) as Hnn.
  assert (stored s (v + Z.of_nat i) [e] [r]) as Hst.
  { split_and!; [by destruct e | by repeat constructor |].
    simpl. f_equal. unfold add64 at 2. rewrite (wrap64_id (v + _)), add64_id
      by (apply in_int64_between; lia). done. }
  split; [done|]. split; simpl.
  - rewrite fmap_app, (inv_seq _ H), zlen_app, <-seqZ_snoc by apply zlen_nonneg.
    simpl. do 2 f_equal. rewrite add64_id; [lia|].
    apply in_int64_between. pose proof (zlen_nonneg (all w)). lia.
  - intros s'. unfold stream_index. simpl. rewrite positions_app. simpl.
    pose proof (inv_index _ H) as Hix. unfold stream_index in Hix.
    destruct (decide (s = s')) as [<-|Hne].
    + rewrite lookup_insert_eq. simpl. unfold stream_index.
      rewrite Hix. by destruct (decide (Stream r = s)).
    + rewrite lookup_insert_ne, Hix by done. subst r. simpl.
      destruct (decide (s = s')); [done|]. by rewrite app_nil_r.
  - intros s'. eapply versions_appended; [apply (inv_version _ H) | exact Hv |].
    by exists [r].
  - rewrite zlen_app, zlen_cons, zlen_nil. lia.
Qed.

Lemma appended_cons s v e es l l1 l2 :
  appended s v [e] l l1 -> appended s (v + 1) es l1 l2 -> appended s v (e :: es) l l2.
Proof.
  intros (r1 & -> & Hd1 & Hs1 & Hv1) (r2 & -> & Hd2 & Hs2 & Hv2).
  exists (r1 ++ r2). split; [by rewrite app_assoc|]. split_and!.
  - by rewrite fmap_app, Hd1, Hd2.
  - by apply Forall_app.
  - rewrite fmap_app, Hv1, Hv2. change (e :: es) with ([e] ++ es).
    rewrite zlen_app, seqZ_app by apply zlen_nonneg. done.
Qed.

Lemma append_loop_spec now s v i es w :
  mem_inv w -> v + Z.of_nat i = stream_version s (all w) ->
  zlen (all w) + zlen es <= int64_max ->
  mem_inv (append_loop now s v i es w)
  /\ appended s (v + Z.of_nat i) es (all w) (all (append_loop now s v i es w)).
Proof.
  revert i w. induction es as [|e es IH]; intros i w H Hv Hsize; cbn [append_loop].
  { split; [done|]. exists []. rewrite app_nil_r. done. }
  rewrite zlen_cons in Hsize. pose proof (zlen_nonneg es).
  destruct (append_one now s v i e w H Hv ltac:(lia)) as [Hst Hinv].
  destruct (IH (i + 1)%nat _ Hinv) as [Hinv' Happ]; cbn [all].
  - rewrite stream_version_app, (stored_version _ _ _ _ Hst), zlen_cons, zlen_nil. lia.
  - rewrite zlen_app, zlen_cons, zlen_nil. lia.
  - split; [done|]. eapply appended_cons; [by eexists|].
    replace (v + Z.of_nat i + 1) with (v + Z.of_nat (i + 1)) by lia. done.
Qed.

Lemma appended_last s v es l l' :
  es <> [] -> appended s v es l l' -> exists r, last l' = Some r.
Proof.
  intros Hes (recs & -> & Hst). pose proof (stored_length _ _ _ _ Hst) as Hlen.
  destruct recs as [|r recs _] using rev_ind; [by destruct es|].
  exists r. by rewrite app_assoc, last_snoc.
Qed.

Lemma version_conflict_is s c v : errors_Is (version_conflict s c v) ErrVersionConflict = true.
Proof. done. Qed.

Lemma mem_Append_spec now s v es w r w' :
  mem_inv w -> last_seq (all w) + zlen es <= int64_max ->
  mem_Append now s v es w = (r, w') ->
  mem_inv w' /\ append_post s v es (all w) r (all w').
Proof.
  unfold mem_Append. intros H Hsize. rewrite mem_last_seq in Hsize by done.
  case_decide as Hes; [intros [= <- <-]; split; [done | by left]|].
  rewrite (stream_index_length w s H). case_decide as Hv.
  - intros [= <- <-]. split; [done|]. simpl. auto.
  - destruct (append_loop_spec now s v 0 es w H ltac:(lia) Hsize) as [Hinv Happ].
    rewrite Z.add_0_r in Happ. destruct (appended_last _ _ _ _ _ Hes Happ) as [x Hx].
    rewrite Hx. intros [= <- <-]. split; [done|]. right.
    split_and!; [done | lia | done |]. unfold last_seq, head_of. by rewrite Hx.
Qed.

(** ** Reads *)

Lemma load_loop_select l ixs after :
  Forall (fun i => (i < length l)%nat) ixs ->
  load_loop l ixs after = Ok (filter (fun r => after < rec_Version r) (select l ixs)).
Proof.
  induction 1 as [|i ixs Hi _ IH]; [done|]. simpl.
  apply lookup_lt_is_Some in Hi as [r Hr]. unfold select in *. csimpl. rewrite Hr, IH.
  simpl. rewrite filter_cons. f_equal. repeat case_decide; (done || lia).
Qed.

Lemma mem_Load_spec s after w :
  mem_inv w -> mem_Load s after w = (Ok (load_result s after (all w)), w).
Proof.
  intros H. unfold mem_Load, load_result. do 2 f_equal. rewrite (inv_index _ H).
  rewrite load_loop_select.
  - do 2 f_equal. apply (select_positions (in_stream s) [] (all w)).
  - eapply Forall_impl; [apply positions_bound|]. simpl. lia.
Qed.

Lemma mem_ReadAll_spec after limit w :
  mem_ReadAll after limit w = (Ok (readall_result after limit (all w)), w).
Proof.
  unfold mem_ReadAll. by rewrite readall_loop_page.
Qed.

Lemma mem_Head_spec w : mem_Head w = (Ok (last_seq (all w)), w).
Proof. unfold mem_Head, last_seq, head_of. by destruct (last (all w)). Qed.

(** The in-memory store honours the port's contract. *)
#[export] Program Instance MemoryStore_spec : StoreSpec MemoryStore := {
  log_of := all; store_inv := mem_inv;
}.
Next Obligation. apply mem_log_ok. Qed.
Next Obligation. intros. by eapply mem_Append_spec. Qed.
Next Obligation.
  intros s after w r w' H E. simpl in E. rewrite mem_Load_spec in E by done.
  injection E as <- <-. naive_solver.
Qed.
Next Obligation.
  intros after limit w r w' H E. simpl in E. rewrite mem_ReadAll_spec in E.
  injection E as <- <-. naive_solver.
Qed.
Next Obligation.
  intros w r w' H E. simpl in E. rewrite mem_Head_spec in E.
  injection E as <- <-. naive_solver.
Qed.

(** ** Refinement of the abstract log

    What the port promises, as a state machine over a plain list: no index, no
    running counters. *)

Definition stamp (now : Time) (s : StreamID) (v : Z) (log : list RecordedEvent)
    (es : list EventData) : list RecordedEvent :=
  imap (fun i e =>
    {| GlobalSeq := zlen log + Z.of_nat i + 1; Stream := s; rec_Version := v + Z.of_nat i + 1;
       rec_EventName := ed_EventName e; rec_SchemaVersion := ed_SchemaVersion e;
       rec_Payload := ed_Payload e; rec_Metadata := ed_Metadata e; OccurredAt := now |}) es.

Inductive operation :=
  | OpAppend (now : Time) (s : StreamID) (expected : Z) (es : list EventData)
  | OpLoad (s : StreamID) (after : Z)
  | OpReadAll (after limit : Z)
  | OpHead.

Inductive answer :=
  | AnsSeq (r : res Z)
  | AnsRecords (r : res (list RecordedEvent)).

Definition spec_step (o : operation) (log : list RecordedEvent) : answer * list RecordedEvent :=
  match o with
  | OpAppend now s v es =>
    if decide (es = []) then (AnsSeq (Ok 0), log)
    else if decide (v = stream_version s log)
    then (AnsSeq (Ok (zlen log + zlen es)), log ++ stamp now s v log es)
    else (AnsSeq (Err (version_conflict s (stream_version s log) v)), log)
  | OpLoad s after => (AnsRecords (Ok (load_result s after log)), log)
  | OpReadAll after limit => (AnsRecords (Ok (readall_result after limit log)), log)
  | OpHead => (AnsSeq (Ok (zlen log)), log)
  end.

Definition store_step {W} `{Store W} (o : operation) (w : W) : answer * W :=
  match o with
  | OpAppend now s v es => let '(r, w') := Append now s v es w in (AnsSeq r, w')
  | OpLoad s after => let '(r, w') := Load s after w in (AnsRecords r, w')
  | OpReadAll after limit => let '(r, w') := ReadAll after limit w in (AnsRecords r, w')
  | OpHead => let '(r, w') := Head w in (AnsSeq r, w')
  end.

Fixpoint run {S} (step : operation -> S -> answer * S) (ops : list operation) (s : S) : list answer * S :=
  match ops with
  | [] => ([], s)
  | o :: rest => let '(a, s1) := step o s in let '(l, s2) := run step rest s1 in (a :: l, s2)
  end.

(** The events a list of operations tries to append. *)
Fixpoint op_events (ops : list operation) : Z :=
  match ops with
  | [] => 0
  | OpAppend _ _ _ es :: rest => zlen es + op_events rest
  | _ :: rest => op_events rest
  end.

Lemma op_events_nonneg ops : 0 <= op_events ops.
Proof.
  induction ops as [|[now s v es|s a|a l|] ops IH]; simpl; try lia.
  pose proof (zlen_nonneg es). lia.
Qed.

Lemma stamp_cons now s v log e es :
  stamp now s v log (e :: es)
  = {| GlobalSeq := zlen log + 1; Stream := s; rec_Version := v + 1;
       rec_EventName := ed_EventName e; rec_SchemaVersion := ed_SchemaVersion e;
       rec_Payload := ed_Payload e; rec_Metadata := ed_Metadata e; OccurredAt := now |}
    :: imap (fun i e => {| GlobalSeq := zlen log + 1 + Z.of_nat i + 1; Stream := s;
         rec_Version := v + 1 + Z.of_nat i + 1;
         rec_EventName := ed_EventName e; rec_SchemaVersion := ed_SchemaVersion e;
         rec_Payload := ed_Payload e; rec_Metadata := ed_Metadata e; OccurredAt := now |}) es.
Proof.
  unfold stamp. rewrite imap_cons. f_equal; [f_equal; simpl; lia|].
  apply imap_ext. intros i x _. simpl. f_equal; lia.
Qed.

Lemma append_loop_stamp now s v i es w :
  mem_inv w -> v + Z.of_nat i = stream_version s (all w) ->
  zlen (all w) + zlen es <= int64_max ->
  all (append_loop now s v i es w) = all w ++ stamp now s (v + Z.of_nat i) (all w) es.
Proof.
  revert i w. induction es as [|e es IH]; intros i w H Hv Hsize; cbn [append_loop].
  { by rewrite app_nil_r. }
  rewrite zlen_cons in Hsize. pose proof (zlen_nonneg es).
  pose proof (stream_version_le_all s (all w)). pose proof (stream_version_nonneg s (all w)).
  destruct (append_one now s v i e w H Hv ltac:(lia)) as [Hst Hinv].
  rewrite (IH (i + 1)%nat _ Hinv); cbn [all].
  - rewrite stamp_cons, <-app_assoc. cbn [app]. do 2 f_equal.
    + unfold mem_record. f_equal.
      * apply add64_id, in_int64_between. pose proof (zlen_nonneg (all w)). lia.
      * unfold add64 at 2. rewrite (wrap64_id (v + _)), add64_id by (apply in_int64_between; lia). lia.
    + unfold stamp. apply imap_ext. intros j x _. simpl.
      f_equal; rewrite ?zlen_app, ?zlen_cons, ?zlen_nil; lia.
  - rewrite stream_version_app, (stored_version _ _ _ _ Hst), zlen_cons, zlen_nil. lia.
  - rewrite zlen_app, zlen_cons, zlen_nil. lia.
Qed.

Lemma length_stamp now s v log es : zlen (stamp now s v log es) = zlen es.
Proof. unfold stamp, zlen. by rewrite length_imap. Qed.

Lemma stamp_data now s v log es : rec_data <$> stamp now s v log es = es.
Proof.
  unfold stamp. rewrite fmap_imap. rewrite <-(list_fmap_id es) at 2. rewrite <-imap_const.
  apply imap_ext. by intros i [] _.
Qed.

Lemma stamp_stream now s v log es : Forall (in_stream s) (stamp now s v log es).
Proof. apply Forall_lookup. unfold stamp. intros i rec. rewrite list_lookup_imap. destruct (es !! i); [by intros [= <-] | done]. Qed.

Lemma mem_Append_match now s es w :
  mem_inv w -> es <> [] -> zlen (all w) + zlen es <= int64_max ->
  exists w', mem_Append now s (stream_version s (all w)) es w = (Ok (zlen (all w) + zlen es), w')
             /\ all w' = all w ++ stamp now s (stream_version s (all w)) (all w) es /\ mem_inv w'.
Proof.
  intros H Hes Hsize. unfold mem_Append. rewrite decide_False by done.
  rewrite (stream_index_length w s H), decide_False by tauto.
  destruct (append_loop_spec now s _ 0 es w H (Z.add_0_r _) Hsize) as [Hinv Happ].
  pose proof (append_loop_stamp now s _ 0 es w H (Z.add_0_r _) Hsize) as Hall.
  rewrite Z.add_0_r in Hall. destruct (appended_last _ _ _ _ _ Hes Happ) as [x Hx].
  pose proof (mem_last_seq _ Hinv) as Hls. unfold last_seq, head_of in Hls.
  rewrite Hx, Hall, zlen_app, length_stamp in Hls. simpl in Hls.
  rewrite Hx, Hls. eauto.
Qed.

Lemma mem_step_refines o w :
  mem_inv w -> zlen (all w) + op_events [o] <= int64_max ->
  let '(a, w') := store_step o w in
  (a, all w') = spec_step o (all w) /\ mem_inv w' /\ zlen (all w') <= zlen (all w) + op_events [o].
Proof.
  intros H Hsize. destruct o as [now s v es|s after|after limit|]; simpl in *.
  - pose proof (zlen_nonneg es).
    destruct (decide (es = [])) as [->|Hes]; [split_and!; [done|done|cbn; lia]|].
    destruct (decide (v = stream_version s (all w))) as [->|Hv].
    + destruct (mem_Append_match now s es w H Hes ltac:(lia)) as (w' & -> & -> & Hinv).
      rewrite zlen_app, length_stamp. split_and!; [done|done|lia].
    + unfold mem_Append. rewrite (stream_index_length w s H).
      destruct (decide (es = [])); [done|].
      destruct (decide (stream_version s (all w) <> v)) as [_|Hn]; [|apply dec_stable in Hn; congruence].
      split_and!; [done|done|lia].
  - pose proof (mem_Load_spec s after w H) as E. unfold mem_Load in E.
    injection E as ->. split_and!; [done|done|lia].
  - pose proof (mem_ReadAll_spec after limit w) as E. unfold mem_ReadAll in E.
    injection E as ->. split_and!; [done|done|lia].
  - rewrite mem_Head_spec, mem_last_seq by done. split_and!; [done|done|lia].
Qed.

Lemma mem_run_refines ops w :
  mem_inv w -> zlen (all w) + op_events ops <= int64_max ->
  fst (run store_step ops w) = fst (run spec_step ops (all w))
  /\ all (snd (run store_step ops w)) = snd (run spec_step ops (all w)).
Proof.
  revert w. induction ops as [|o ops IH]; intros w H Hsize; [done|].
  pose proof (op_events_nonneg ops).
  assert (op_events (o :: ops) = op_events [o] + op_events ops) as Hev.
  { destruct o; simpl; lia. }
  pose proof (mem_step_refines o w H ltac:(lia)) as Hstep. simpl.
  destruct (store_step o w) as [a w1]. destruct Hstep as (<- & H1 & Hle).
  destruct (IH w1 H1 ltac:(lia)) as [Hf Hs].
  destruct (run store_step ops w1), (run spec_step ops (all w1)). simpl in *. by subst.
Qed.

Lemma mem_run_inv ops w :
  mem_inv w -> zlen (all w) + op_events ops <= int64_max -> mem_inv (snd (run store_step ops w)).
Proof.
  revert w. induction ops as [|o ops IH]; intros w H Hsize; [done|].
  pose proof (op_events_nonneg ops).
  assert (op_events (o :: ops) = op_events [o] + op_events ops) as Hev by (destruct o; simpl; lia).
  pose proof (mem_step_refines o w H ltac:(lia)) as Hstep. simpl.
  destruct (store_step o w) as [a w1]. destruct Hstep as (_ & H1 & Hle).
  specialize (IH w1 H1 ltac:(lia)). by destruct (run store_step ops w1).
Qed.

(** ** Properties *)

(** C14: The in-memory store is indistinguishable from the abstract append-only
    log of the port: any sequence of Append, Load, ReadAll and Head calls, in
    whatever interleaving the mutex serialises them, gets from the store with
    its index and counters exactly the answers the plain list gives, version
    conflicts included, as long as the number of events fits in an int64. *)
Theorem memory_store_refines_log (ops : list operation) (Hsize : op_events ops <= int64_max) :
  fst (run store_step ops NewMemoryStore) = fst (run spec_step ops [])
  /\ all (snd (run store_step ops NewMemoryStore)) = snd (run spec_step ops []).
Proof. apply (mem_run_refines ops NewMemoryStore); [apply mem_inv_new | done]. Qed.

Definition sample_data (name : string) : EventData := mkEventData name 1 RawNil None.

Lemma memory_store_refines_log_witness :
  let s := mkStreamID "order" "1" in
  let ops := [OpAppend zero_time s 0 [sample_data "a"; sample_data "b"];
              OpAppend zero_time s 0 [sample_data "c"]; OpHead] in
  fst (run store_step ops NewMemoryStore)
  = [AnsSeq (Ok 2); AnsSeq (Err (version_conflict s 2 0)); AnsSeq (Ok 2)].
Proof.
  intros s ops.
  etransitivity; [refine (proj1 (memory_store_refines_log ops _)); vm_compute; congruence |].
  vm_compute. reflexivity.
Defined.

(** Optimistic concurrency: of two writers that both read version [v] of a
    stream and both have something to store, the one that comes second stores
    nothing; on the in-memory store its error is the version conflict, and a
    load still returns the winner's events alone. *)
Theorem second_writer_conflicts (now now' : Time) (s : StreamID) (v : Z)
    (es es' : list EventData) (w w1 : MemoryStore) (seq : Z)
    (Hinv : mem_inv w) (Hes : es <> []) (Hes' : es' <> [])
    (Hsize : zlen (all w) + zlen es + zlen es' <= int64_max)
    (Hwon : mem_Append now s v es w = (Ok seq, w1)) :
  (exists e, mem_Append now' s v es' w1 = (Err e, w1) /\ errors_Is e ErrVersionConflict = true
             /\ AsDomainError e = None)
  /\ exists recs, mem_Load s v w1 = (Ok recs, w1) /\ rec_data <$> recs = es.
Proof.
  pose proof (zlen_nonneg es') as Hn'. pose proof (zlen_nonneg es) as Hn.
  assert (last_seq (all w) + zlen es <= int64_max) as Hsz by (rewrite mem_last_seq by done; lia).
  destruct (mem_Append_spec _ _ _ _ _ _ _ Hinv Hsz Hwon)
    as [Hinv1 [(? & _)|(_ & Hv & (recs & Hl & Hst) & _)]]; [done|].
  assert (stream_version s (all w1) = v + zlen es) as Hv1.
  { rewrite Hl, stream_version_app, (stored_version _ _ _ _ Hst). lia. }
  assert (zlen es <> 0) by (by rewrite zlen_zero).
  split.
  - unfold mem_Append. rewrite decide_False by done.
    rewrite (stream_index_length _ _ Hinv1), decide_True by lia. eauto.
  - exists recs. rewrite mem_Load_spec by done. split; [|apply Hst]. do 2 f_equal.
    unfold load_result. rewrite Hl, stream_of_app, (stored_stream _ _ _ _ Hst), filter_app.
    rewrite filter_none, filter_all; [done | |].
    + rewrite Forall_forall. intros r Hr. destruct Hst as (_ & _ & Hvs).
      apply (list_elem_of_fmap_2 rec_Version) in Hr. rewrite Hvs, elem_of_seqZ in Hr. lia.
    + rewrite Forall_forall. intros r Hr. apply (list_elem_of_fmap_2 rec_Version) in Hr.
      rewrite (inv_version _ Hinv), elem_of_seqZ in Hr. lia.
Qed.

Lemma second_writer_conflicts_witness :
  let s := mkStreamID "order" "1" in
  exists e, mem_Append zero_time s 0 [sample_data "b"]
              (snd (mem_Append zero_time s 0 [sample_data "a"] NewMemoryStore))
            = (Err e, snd (mem_Append zero_time s 0 [sample_data "a"] NewMemoryStore))
            /\ errors_Is e ErrVersionConflict = true /\ AsDomainError e = None.
Proof.
  exact (proj1 (second_writer_conflicts zero_time zero_time (mkStreamID "order" "1") 0
    [sample_data "a"] [sample_data "b"] NewMemoryStore _ 1 mem_inv_new
    ltac:(done) ltac:(done) ltac:(vm_compute; congruence) eq_refl)).
Defined.
