(* ===== verification/Registry.v ===== *)
(** * eventstore/registry.go: event types and upcaster chains

    The registry of one service: its domain events are the interface values
    [Ev]; a Go event type is a [GoType Ev] with its JSON codec. Registration
    panics on wiring mistakes. *)

From S2P Require Import Prelude Errors GoTime Json Kernel EventStore.

Definition Upcaster := RawMessage -> res RawMessage.

Record registryEntry (Ev : Type) := mkEntry {
  decode : RawMessage -> res Ev;
  upcasters : list Upcaster;
}.
Arguments mkEntry {Ev} decode upcasters.
Arguments decode {Ev} _.
Arguments upcasters {Ev} _.

Record Registry (Ev : Type) := mkRegistry { entries : gmap string (registryEntry Ev) }.
Arguments mkRegistry {Ev} entries.
Arguments entries {Ev} _.

Section registry.
Context {Ev : Type} `{DomainEvent Ev} `{MarshalEvent Ev}.
Implicit Types (r : Registry Ev) (name : string) (e : Ev).

Definition NewRegistry : Registry Ev := mkRegistry ∅.

(** The decoder [Register[E]] builds for its type. *)
Definition type_decoder (E : GoType Ev) `{JsonCodec (carrier E)} (name : string)
    (payload : RawMessage) : res Ev :=
  try x := res_wrap ("eventstore: decoding " +:+ name +:+ ": ") "" (Unmarshal_raw (T := carrier E) payload) in
  Ok (to_interface E x).

Definition Register (E : GoType Ev) `{JsonCodec (carrier E)} r : res (Registry Ev) :=
  let name := EventName (to_interface E (zero_value E)) in
  if decide (name = "") then Panic "eventstore: Register: empty event name" else
  match entries r !! name with
  | Some _ => Panic ("eventstore: Register: duplicate event name " +:+ Quote name)
  | None => Ok (mkRegistry (<[name := mkEntry (type_decoder E name) []]> (entries r)))
  end.

Definition RegisterUpcaster name (up : Upcaster) r : res (Registry Ev) :=
  match entries r !! name with
  | None => Panic ("eventstore: RegisterUpcaster: unknown event " +:+ Quote name)
  | Some ent => Ok (mkRegistry (<[name := mkEntry (decode ent) (upcasters ent ++ [up])]> (entries r)))
  end.

Definition SchemaVersion name r : res Z :=
  match entries r !! name with
  | None => Err (EText ("eventstore: unregistered event " +:+ Quote name))
  | Some ent => Ok (1 + zlen (upcasters ent))
  end.

Definition Encode e r : res EventData :=
  let name := EventName e in
  try version := SchemaVersion name r in
  try payload := res_wrap ("eventstore: encoding " +:+ name +:+ ": ") "" (marshal_event e) in
  Ok (mkEventData name version (RawJSON payload) None).

(** [for v := rec.SchemaVersion; v < current; v++ { lifted, err :=
    ent.upcasters[v-1](payload) ... }], with [ups] the upcasters from index
    [v-1] on. *)
Fixpoint lift_loop name (v : Z) (ups : list Upcaster) (payload : RawMessage) : res RawMessage :=
  match ups with
  | [] => Ok payload
  | up :: rest =>
    try lifted := res_wrap ("eventstore: upcasting " +:+ name +:+ " v" +:+ FormatInt v +:+
                            "->v" +:+ FormatInt (v + 1) +:+ ": ") "" (up payload) in
    lift_loop name (v + 1) rest lifted
  end.

Definition Decode (rec : RecordedEvent) r : res Ev :=
  match entries r !! rec_EventName rec with
  | None => Err (EText ("eventstore: unregistered event " +:+ Quote (rec_EventName rec) +:+
                        " at seq " +:+ FormatInt (GlobalSeq rec)))
  | Some ent =>
    let current := 1 + zlen (upcasters ent) in
    if decide (rec_SchemaVersion rec < 1 \/ rec_SchemaVersion rec > current) then
      Err (EText ("eventstore: " +:+ rec_EventName rec +:+ ": stored schema version " +:+
                  FormatInt (rec_SchemaVersion rec) +:+ " outside [1," +:+ FormatInt current +:+ "]"))
    else
      try payload := lift_loop (rec_EventName rec) (rec_SchemaVersion rec)
                       (drop (Z.to_nat (rec_SchemaVersion rec - 1)) (upcasters ent)) (rec_Payload rec) in
      decode ent payload
  end.

(** ** Facts *)

(** [E] is registered in [r]: its entry has the decoder of [E], whatever
    upcasters came later. *)
Definition registered (E : GoType Ev) `{JsonCodec (carrier E)} r : Prop :=
  let name := EventName (to_interface E (zero_value E)) in
  exists ups, entries r !! name = Some (mkEntry (type_decoder E name) ups).

(** Go's convention that [EventName] does not depend on the value, and that
    marshalling the interface value marshals the dynamic value. *)
Class EventType (E : GoType Ev) `{JsonCodec (carrier E)} := {
  event_name_const x : EventName (to_interface E x) = EventName (to_interface E (zero_value E));
  marshal_event_type x : marshal_event (to_interface E x) = Marshal x;
}.

Lemma Register_registered (E : GoType Ev) `{JsonCodec (carrier E)} r r' :
  Register E r = Ok r' -> registered E r'.
Proof.
  unfold Register, registered. case_decide; [done|].
  destruct (entries r !! _) eqn:?; [done|]. intros [= <-]. exists []. simpl.
  apply lookup_insert_eq.
Qed.

Lemma Register_keeps (E F : GoType Ev) `{JsonCodec (carrier E)} `{JsonCodec (carrier F)} r r' :
  registered E r -> Register F r = Ok r' -> registered E r'.
Proof.
  unfold Register, registered. intros [ups Hups]. case_decide; [done|].
  destruct (entries r !! EventName (to_interface F _)) eqn:Hf; [done|]. intros [= <-].
  exists ups. simpl. rewrite lookup_insert_ne; [done|]. congruence.
Qed.

Lemma RegisterUpcaster_keeps (E : GoType Ev) `{JsonCodec (carrier E)} name up r r' :
  registered E r -> RegisterUpcaster name up r = Ok r' -> registered E r'.
Proof.
  unfold RegisterUpcaster, registered. intros [ups Hups].
  destruct (entries r !! name) as [ent|] eqn:He; [|done]. intros [= <-]. simpl.
  destruct (decide (name = EventName (to_interface E (zero_value E)))) as [->|Hne].
  - rewrite lookup_insert_eq. rewrite He in Hups. injection Hups as ->. by eexists.
  - rewrite lookup_insert_ne by done. eauto.
Qed.

Lemma lift_loop_app name v ups1 ups2 payload :
  lift_loop name v (ups1 ++ ups2) payload
  = try p := lift_loop name v ups1 payload in lift_loop name (v + zlen ups1) ups2 p.
Proof.
  revert v payload. induction ups1 as [|up ups1 IH]; intros v payload; simpl.
  - by rewrite zlen_nil, Z.add_0_r.
  - rewrite res_bind_assoc. destruct (res_wrap _ _ _); simpl; [|done..].
    rewrite IH, zlen_cons. by replace (v + 1 + zlen ups1) with (v + (zlen ups1 + 1)) by lia.
Qed.

Lemma Encode_name e r ed : Encode e r = Ok ed -> ed_EventName ed = EventName e /\ ed_Metadata ed = None.
Proof. unfold Encode. intros. res_inv. done. Qed.

(** A registered type's valid value encodes, and any record of that data
    decodes to it. *)
Lemma Encode_Decode (E : GoType Ev) `{JsonCodec (carrier E)} `{!EventType E}
    (valid : carrier E -> Prop) `{!JsonRoundtrip (carrier E) valid} r (x : carrier E) :
  registered E r -> valid x ->
  exists ed, Encode (to_interface E x) r = Ok ed
    /\ forall rec, rec_EventName rec = ed_EventName ed ->
         rec_SchemaVersion rec = ed_SchemaVersion ed -> rec_Payload rec = ed_Payload ed ->
         Decode rec r = Ok (to_interface E x).
Proof.
  intros [ups Hups] Hv. destruct (json_roundtrip x Hv) as (doc & Hm & Hu).
  unfold Encode, SchemaVersion. rewrite event_name_const, Hups, marshal_event_type, Hm.
  eexists; split; [done|]. simpl. intros rec Hn Hs Hp.
  unfold Decode. rewrite Hn, Hups, Hs, Hp. simpl.
  pose proof (zlen_nonneg ups). rewrite decide_False by lia.
  rewrite drop_ge by (unfold zlen; lia). simpl. unfold type_decoder. simpl. by rewrite Hu.
Qed.
End registry.

#[export] Hint Resolve Register_registered Register_keeps RegisterUpcaster_keeps : gohex.

Section upcasting.
Context {Ev : Type} `{DomainEvent Ev} `{MarshalEvent Ev}.
Implicit Types (r : Registry Ev) (name : string).

Lemma RegisterUpcaster_entry name up r r' :
  RegisterUpcaster name up r = Ok r' ->
  exists ent, entries r !! name = Some ent
    /\ entries r' !! name = Some (mkEntry (decode ent) (upcasters ent ++ [up]))
    /\ forall name', name' <> name -> entries r' !! name' = entries r !! name'.
Proof.
  unfold RegisterUpcaster. destruct (entries r !! name) as [ent|] eqn:He; [|done].
  intros [= <-]. exists ent. simpl. split_and!; [done | apply lookup_insert_eq |].
  intros. by rewrite lookup_insert_ne.
Qed.

Lemma drop_chain (ups : list Upcaster) (up : Upcaster) (v : Z) :
  1 <= v <= 1 + zlen ups ->
  drop (Z.to_nat (v - 1)) (ups ++ [up]) = drop (Z.to_nat (v - 1)) ups ++ [up].
Proof. intros Hv. rewrite drop_app_le; [done|]. unfold zlen in Hv. lia. Qed.

Lemma zlen_drop_chain (ups : list Upcaster) (v : Z) :
  1 <= v <= 1 + zlen ups -> v + zlen (drop (Z.to_nat (v - 1)) ups) = 1 + zlen ups.
Proof. intros Hv. unfold zlen in *. rewrite length_drop. lia. Qed.
End upcasting.

(** C35: Registering an upcaster raises the event's schema version by one; every
    payload stored before, at whatever earlier version, is still decoded: it
    goes through the old chain and then through the new upcaster; events of
    other names are untouched; and the old registry refuses, rather than
    misreads, an event encoded by the new one. *)
Theorem upcaster_evolution {Ev} `{DomainEvent Ev} `{MarshalEvent Ev}
    (r r' : Registry Ev) (name : string) (up : Upcaster)
    (Hup : RegisterUpcaster name up r = Ok r') :
  exists current ent,
    SchemaVersion name r = Ok current /\ SchemaVersion name r' = Ok (current + 1)
    /\ entries r !! name = Some ent
    /\ (forall rec, rec_EventName rec = name -> 1 <= rec_SchemaVersion rec <= current ->
          Decode rec r' =
            try p := lift_loop name (rec_SchemaVersion rec)
                       (drop (Z.to_nat (rec_SchemaVersion rec - 1)) (upcasters ent)) (rec_Payload rec) in
            try q := res_wrap ("eventstore: upcasting " +:+ name +:+ " v" +:+ FormatInt current +:+
                               "->v" +:+ FormatInt (current + 1) +:+ ": ") "" (up p) in
            decode ent q)
    /\ (forall rec, rec_EventName rec <> name -> Decode rec r' = Decode rec r)
    /\ (forall e ed rec, Encode e r' = Ok ed -> EventName e = name ->
          rec_EventName rec = ed_EventName ed -> rec_SchemaVersion rec = ed_SchemaVersion ed ->
          is_ok (Decode rec r) = false).
Proof.
  destruct (RegisterUpcaster_entry _ _ _ _ Hup) as (ent & He & He' & Hother).
  exists (1 + zlen (upcasters ent)), ent. unfold SchemaVersion. rewrite He, He'.
  cbn [upcasters]. rewrite zlen_app, zlen_cons, zlen_nil.
  split_and!; [done | by rewrite Z.add_assoc | done | | |].
  - intros rec Hn Hv. unfold Decode. rewrite Hn, He'. cbn [upcasters decode].
    rewrite decide_False by (rewrite zlen_app, zlen_cons, zlen_nil; lia).
    rewrite drop_chain, lift_loop_app, res_bind_assoc by done.
    destruct (lift_loop _ _ _ _); [|done..]. simpl.
    rewrite zlen_drop_chain by done. by rewrite res_bind_assoc.
  - intros rec Hn. unfold Decode. by rewrite Hother.
  - intros e ed rec Henc Hname Hn Hs. unfold Encode, SchemaVersion in Henc.
    rewrite Hname, He' in Henc. res_inv. unfold Decode. rewrite Hn, He.
    rewrite decide_True; [done|]. rewrite Hs, zlen_app, zlen_cons, zlen_nil. right. lia.
Qed.

Module Sample.
#[export] Instance Z_codec : JsonCodec Z := { Marshal z := Ok (enc_int z); Unmarshal := dec_int 0 }.
#[export] Instance Z_roundtrip : JsonRoundtrip Z in_int64.
Proof. intros z Hz. eexists. split; [done|]. by apply dec_enc_int. Qed.
#[export] Instance marshal_counter : MarshalEvent Kernel.Sample.event :=
  fun e => match e with
           | Kernel.Sample.Incremented n => Marshal n
           | Kernel.Sample.Other => Ok (JObj [])
           end.
Definition Incremented_type : GoType Kernel.Sample.event :=
  mkGoType _ Z 0 Kernel.Sample.Incremented
    (fun e => match e with Kernel.Sample.Incremented n => Some n | _ => None end).
#[export] Instance Incremented_codec : JsonCodec (carrier Incremented_type) := Z_codec.
#[export] Instance Incremented_event :
  @EventType _ Kernel.Sample.event_name _ Incremented_type _.
Proof. by split. Qed.
Definition registry : Registry Kernel.Sample.event :=
  mkRegistry {["sample.incremented" := mkEntry (type_decoder Incremented_type "sample.incremented") []]}.
Definition double : Upcaster := fun p =>
  match p with RawJSON (JInt n) => Ok (RawJSON (JInt (2 * n))) | _ => Err (EText "bad payload") end.
End Sample.

Import Kernel.Sample Sample.

Lemma upcaster_evolution_witness :
  exists current (ent : registryEntry event),
    SchemaVersion "sample.incremented" registry = Ok current
    /\ SchemaVersion "sample.incremented"
         (mkRegistry (<["sample.incremented" :=
            mkEntry (type_decoder Incremented_type "sample.incremented") [double]]>
            (entries registry))) = Ok (current + 1)
    /\ entries registry !! "sample.incremented" = Some ent.
Proof.
  destruct (upcaster_evolution registry _ "sample.incremented" double eq_refl)
    as (c & ent & H1 & H2 & H3 & _).
  by exists c, ent.
Defined.
