(* ===== verification/Checkpoint.v ===== *)
(** * eventstore/checkpoint.go, position.go and metadata.go

    Named cursors, the write position a save reports to the context, and the
    metadata stamped on appended events. *)

From S2P Require Import Prelude Errors Json.

(** ** CheckpointStore *)

Class CheckpointStore (C : Type) := {
  cp_Get : string -> C -> res Z * C;
  cp_Set : string -> Z -> C -> res unit * C;
}.

(** The contract: a durable map of positions; [Get] of a name never set is 0.
    A failed [Set] may or may not have taken effect. *)
Class CheckpointSpec (C : Type) `{CheckpointStore C} := {
  positions_of : C -> gmap string Z;
  cp_Get_spec name c r c' :
    cp_Get name c = (r, c') ->
    positions_of c' = positions_of c
    /\ (forall seq, r = Ok seq -> seq = default 0 (positions_of c !! name));
  cp_Set_spec name seq c r c' :
    cp_Set name seq c = (r, c') ->
    positions_of c' = <[name := seq]> (positions_of c)
    \/ (is_ok r = false /\ positions_of c' = positions_of c);
}.

(** The position a checkpoint store holds under a name. *)
Definition checkpoint_of {K} `{CheckpointSpec K} (c : K) (name : string) : Z := default 0 (positions_of c !! name).

Lemma cp_Get_checkpoint {K} `{CheckpointSpec K} name c g (c' : K) :
  cp_Get name c = (g, c') ->
  (forall n, checkpoint_of c' n = checkpoint_of c n) /\ forall seq, g = Ok seq -> seq = checkpoint_of c name.
Proof. unfold checkpoint_of. intros [-> Hg]%cp_Get_spec. done. Qed.

(** A store of a checkpoint changes that one, or fails and changes nothing. *)
Lemma cp_Set_checkpoint {K} `{CheckpointSpec K} name seq c g (c' : K) :
  cp_Set name seq c = (g, c') ->
  (forall n, n <> name -> checkpoint_of c' n = checkpoint_of c n)
  /\ (checkpoint_of c' name = seq \/ (is_ok g = false /\ checkpoint_of c' name = checkpoint_of c name)).
Proof.
  unfold checkpoint_of. intros [->|[? ->]]%cp_Set_spec; split; auto.
  - intros n Hne. by rewrite lookup_insert_ne.
  - left. by rewrite lookup_insert_eq.
Qed.

(** [MemoryCheckpointStore] *)
Record MemoryCheckpointStore := mkMemoryCheckpoints { cp_positions : gmap string Z }.

Definition NewMemoryCheckpointStore : MemoryCheckpointStore := mkMemoryCheckpoints ∅.

Definition mem_cp_Get (name : string) (c : MemoryCheckpointStore) : res Z * MemoryCheckpointStore :=
  (Ok (default 0 (cp_positions c !! name)), c).

Definition mem_cp_Set (name : string) (seq : Z) (c : MemoryCheckpointStore) : res unit * MemoryCheckpointStore :=
  (Ok tt, mkMemoryCheckpoints (<[name := seq]> (cp_positions c))).

#[export] Instance MemoryCheckpointStore_store : CheckpointStore MemoryCheckpointStore := {
  cp_Get := mem_cp_Get; cp_Set := mem_cp_Set;
}.

#[export] Program Instance MemoryCheckpointStore_spec : CheckpointSpec MemoryCheckpointStore := {
  positions_of := cp_positions;
}.
Next Obligation. intros name c r c' [= <- <-]. split; [done|]. by intros seq [= <-]. Qed.
Next Obligation. intros name seq c r c' [= <- <-]. by left. Qed.

(** ** Contexts

    A span's identity across processes: the W3C trace-context headers it is
    written as. The invalid one has no traceparent. *)
Record SpanContext := mkSpanContext { traceparent : string; tracestate : string }.
Definition no_span : SpanContext := mkSpanContext "" "".

#[export] Instance SpanContext_eq_dec : EqDecision SpanContext.
Proof. solve_decision. Defined.

(** A [context.Context] as the framework reads it: the captured [*Position]
    (an address in the heap of positions), the current span, the baggage (as
    its header), and the origin stamp of a durable hand-off. *)
Record Context := mkContext {
  ctx_position : option nat;
  ctx_span : SpanContext;
  ctx_baggage : string;
  ctx_origin : strmap;
}.

Definition background : Context := mkContext None no_span "" None.

Definition with_position (p : nat) (ctx : Context) : Context :=
  mkContext (Some p) (ctx_span ctx) (ctx_baggage ctx) (ctx_origin ctx).

(** ** Position

    [*Position] values are shared by address between the edge that captured
    them and the saves below it: [heap] maps an address to [p.seq]. *)

Abbreviation heap := (list Z).

Definition Position_Seq (p : nat) (h : heap) : Z := default 0 (h !! p).

Definition Position_record (p : nat) (seq : Z) (h : heap) : heap :=
  if decide (seq > Position_Seq p h) then <[p := seq]> h else h.

Definition CapturePosition (ctx : Context) (h : heap) : (Context * nat) * heap :=
  let p := length h in
  ((with_position p ctx, p), h ++ [0]).

Definition recordPosition (ctx : Context) (seq : Z) (h : heap) : heap :=
  match ctx_position ctx with
  | Some p => if decide (seq > 0) then Position_record p seq h else h
  | None => h
  end.

(** ** Metadata

    The installed extractor ([SetContextMetadata]); nil until one is stored. *)
Abbreviation Extractor := (option (Context -> strmap)).

Definition SetContextMetadata (fn : Context -> strmap) (_ : Extractor) : Extractor := Some fn.

Definition MetadataFromContext (x : Extractor) (ctx : Context) : strmap :=
  match x with
  | None => None
  | Some fn =>
    match fn ctx with
    | None => None
    | Some md => if decide (md = ∅) then None else Some md
    end
  end.

(** ** Facts *)

Lemma Position_record_max p seq h :
  (p < length h)%nat -> Position_Seq p (Position_record p seq h) = Z.max (Position_Seq p h) seq.
Proof.
  intros Hp. unfold Position_record. case_decide; [|lia].
  unfold Position_Seq at 1. rewrite list_lookup_insert_eq by done. simpl. lia.
Qed.

Lemma length_Position_record p seq h : length (Position_record p seq h) = length h.
Proof. unfold Position_record. case_decide; [apply length_insert | done]. Qed.

Lemma Position_record_other p q seq h : p <> q -> Position_Seq q (Position_record p seq h) = Position_Seq q h.
Proof.
  intros Hne. unfold Position_record. case_decide; [|done].
  unfold Position_Seq. by rewrite list_lookup_insert_ne.
Qed.

Lemma length_recordPosition ctx seq h : length (recordPosition ctx seq h) = length h.
Proof.
  unfold recordPosition. destruct (ctx_position ctx); [|done].
  case_decide; [apply length_Position_record | done].
Qed.

(** Every report under the context, whatever its order. *)
Definition record_all (ctx : Context) (seqs : list Z) (h : heap) : heap :=
  foldl (fun h seq => recordPosition ctx seq h) h seqs.

Lemma recordPosition_seq ctx p seq h :
  ctx_position ctx = Some p -> (p < length h)%nat -> 0 <= Position_Seq p h ->
  Position_Seq p (recordPosition ctx seq h) = Z.max (Position_Seq p h) seq.
Proof.
  intros Hc Hp Hs. unfold recordPosition. rewrite Hc.
  case_decide; [by apply Position_record_max | lia].
Qed.

Lemma record_all_seq ctx p seqs h :
  ctx_position ctx = Some p -> (p < length h)%nat -> 0 <= Position_Seq p h ->
  Position_Seq p (record_all ctx seqs h) = foldr Z.max (Position_Seq p h) seqs.
Proof.
  intros Hc. unfold record_all. revert h.
  induction seqs as [|seq seqs IH]; intros h Hp Hs; [done|]. simpl.
  rewrite IH; rewrite ?length_recordPosition, ?(recordPosition_seq ctx p) by done; [|done|lia].
  clear. induction seqs; simpl; lia.
Qed.

Lemma record_all_other ctx q seqs h :
  ctx_position ctx <> Some q -> Position_Seq q (record_all ctx seqs h) = Position_Seq q h.
Proof.
  intros Hc. unfold record_all. revert h.
  induction seqs as [|seq seqs IH]; intros h; [done|]. simpl. rewrite IH.
  unfold recordPosition. destruct (ctx_position ctx) as [p|] eqn:E; [|done].
  case_decide; [|done]. apply Position_record_other. congruence.
Qed.

#[export] Hint Rewrite length_Position_record length_recordPosition : gohex.

(** A captured position ends at the highest sequence number any save under
    its context reported, in whatever order the reports came, and at 0 when
    none did; a capture made inside shadows it: reports under the derived
    context reach the inner position only. *)
Theorem captured_position_is_max (ctx : Context) (h : heap) (outer inner : list Z)
    (Hpos : Forall (fun s => 0 < s) (outer ++ inner)) :
  let '((ctx1, p1), h1) := CapturePosition ctx h in
  let '((ctx2, p2), h2) := CapturePosition ctx1 (record_all ctx1 outer h1) in
  let h3 := record_all ctx2 inner h2 in
  Position_Seq p1 h3 = foldr Z.max 0 outer
  /\ Position_Seq p2 h3 = foldr Z.max 0 inner.
Proof.
  cbn -[record_all].
  assert (Hlen : forall l ctx h, length (record_all ctx l h) = length h).
  { intros l. unfold record_all. induction l as [|x l IH]; intros c k; [done|]. simpl.
    by rewrite IH, length_recordPosition. }
  assert (Hnew : forall k : heap, Position_Seq (length k) (k ++ [0]) = 0).
  { intros k. unfold Position_Seq. by rewrite list_lookup_middle. }
  split.
  - rewrite record_all_other.
    + unfold Position_Seq. rewrite lookup_app_l by (rewrite Hlen, length_app; simpl; lia).
      change (Position_Seq (length h) (record_all (with_position (length h) ctx) outer (h ++ [0]))
              = foldr Z.max 0 outer).
      rewrite (record_all_seq _ (length h)); rewrite ?Hnew, ?length_app; simpl; done || lia.
    + simpl. rewrite Hlen, length_app. simpl. intros [=]. lia.
  - rewrite (record_all_seq _ (length (record_all _ outer (h ++ [0])))).
    + by rewrite Hnew.
    + done.
    + rewrite length_app. simpl. lia.
    + by rewrite Hnew.
Qed.

Lemma captured_position_is_max_witness :
  Position_Seq 0 (record_all (with_position 0 background) [3; 7; 5] [0]) = 7.
Proof.
  exact (proj1 (captured_position_is_max background [] [3; 7; 5] []
    ltac:(repeat constructor))).
Defined.
