(* ===== verification/Repository.v ===== *)
(** * eventstore/repository.go: loading and saving aggregates

    The generic repository over any [Store]; its theorems use only the port's
    contract [StoreSpec], the aggregate lemmas of Kernel.v and the codec law
    of the registry. *)

From S2P Require Import Prelude Errors GoTime Json Kernel EventStore MemoryStore Registry Checkpoint.

Record Repository (S Ev : Type) := mkRepository {
  repo_registry : Registry Ev;
  repo_category : string;
  newAgg : S; (* the state of the aggregate the factory returns *)
}.
Arguments mkRepository {S Ev} _ _ _.
Arguments repo_registry {S Ev} _.
Arguments repo_category {S Ev} _.
Arguments newAgg {S Ev} _.

Definition repo_stream {S Ev} (repo : Repository S Ev) (id : string) : StreamID :=
  mkStreamID (repo_category repo) id.

Definition with_metadata (md : strmap) (d : EventData) : EventData :=
  mkEventData (ed_EventName d) (ed_SchemaVersion d) (ed_Payload d) md.

Definition not_found (s : StreamID) : error :=
  EWrap "" (EDomain ErrNotFound) (": " +:+ Category s +:+ "/" +:+ StreamKey s).

Section repository.
Context {S Ev W : Type} `{DomainEvent Ev} `{MarshalEvent Ev} `{Aggregate S Ev} `{Store W}.
Implicit Types (repo : Repository S Ev) (id : string) (a : Agg S Ev) (w : W) (h : heap).

(** What [Load] does with the records the store returned. *)
Definition rebuild repo (s : StreamID) (recs : list RecordedEvent) : res (Agg S Ev) :=
  if decide (recs = []) then Err (not_found s) else
  try events := res_mapM (fun rec => Decode rec (repo_registry repo)) recs in
  match Rehydrate (new_agg (newAgg repo)) events with
  | (a, Ok _) => Ok a
  | (_, Err e) => Err e
  | (_, Panic m) => Panic m
  end.

Definition repo_Load repo id w : res (Agg S Ev) * W :=
  let s := repo_stream repo id in
  let '(r, w') := Load s 0 w in
  (try recs := r in rebuild repo s recs, w').

(** The encoding loop of [Save]. *)
Definition encode_pending repo (md : strmap) (events : list Ev) : res (list EventData) :=
  res_mapM (fun e => try d := Encode e (repo_registry repo) in Ok (with_metadata md d)) events.

(** [Save]: the error, and the aggregate, the store and the positions after
    the call. *)
Definition repo_Save repo (now : Time) (x : Extractor) (ctx : Context) id a w h
    : res unit * Agg S Ev * W * heap :=
  let pending := UncommittedEvents a in
  if decide (pending = []) then (Ok tt, a, w, h) else
  match encode_pending repo (MetadataFromContext x ctx) pending with
  | Ok data =>
    let '(r, w') := Append now (repo_stream repo id) (Version a) data w in
    match r with
    | Ok seq => (Ok tt, snd (TakeUncommitted a), w', recordPosition ctx seq h)
    | Err e => (Err e, a, w', h)
    | Panic m => (Panic m, a, w', h)
    end
  | Err e => (Err e, a, w, h)
  | Panic m => (Panic m, a, w, h)
  end.

(** ** Facts *)

(** The registry carries [e] through the store. *)
Definition carries repo (e : Ev) : Prop :=
  exists d, Encode e (repo_registry repo) = Ok d
    /\ forall rec, rec_EventName rec = ed_EventName d ->
         rec_SchemaVersion rec = ed_SchemaVersion d -> rec_Payload rec = ed_Payload d ->
         Decode rec (repo_registry repo) = Ok e.

Lemma encode_pending_carried repo md es :
  Forall (carries repo) es ->
  exists data, encode_pending repo md es = Ok data /\ length data = length es
    /\ forall recs, rec_data <$> recs = data ->
         res_mapM (fun rec => Decode rec (repo_registry repo)) recs = Ok es.
Proof.
  induction 1 as [|e es (d & Hd & Hdec) _ (data & Hdata & Hlen & Hrecs)].
  - exists []. split_and!; [done|done|]. by intros [|? ?].
  - exists (with_metadata md d :: data). unfold encode_pending in *. simpl. rewrite Hd, Hdata.
    split_and!; [done | simpl; congruence |]. intros [|rec recs]; [done|].
    rewrite fmap_cons. intros [= Hn Hs Hp Hm Hr]. simpl. rewrite Hdec by done. simpl.
    by rewrite (Hrecs recs).
Qed.

(** The aggregate a log holds for [id]: it decodes, and [a] tracks it. *)
Definition holds repo id (log : list RecordedEvent) a : Prop :=
  exists evs, res_mapM (fun rec => Decode rec (repo_registry repo)) (stream_of (repo_stream repo id) log) = Ok evs
    /\ tracks (newAgg repo) evs a.

Lemma res_mapM_app {A B} (f : A -> res B) (l k : list A) (xs ys : list B) :
  res_mapM f l = Ok xs -> res_mapM f k = Ok ys -> res_mapM f (l ++ k) = Ok (xs ++ ys).
Proof. rewrite !res_mapM_ok. apply Forall2_app. Qed.

Lemma holds_version repo id log a :
  holds repo id log a -> stream_version (repo_stream repo id) log <= int64_max ->
  Version a = stream_version (repo_stream repo id) log.
Proof.
  intros (evs & Hd & _ & Hv) Hmax. unfold Version. rewrite Hv.
  apply res_mapM_length in Hd. pose proof (stream_version_nonneg (repo_stream repo id) log).
  unfold stream_version, zlen in *. rewrite Hd.
  apply wrap64_id. unfold in_int64, int64_min. lia.
Qed.

Lemma rebuild_holds repo id log a :
  rebuild repo (repo_stream repo id) (stream_of (repo_stream repo id) log) = Ok a ->
  holds repo id log a /\ UncommittedEvents a = [] /\ stream_of (repo_stream repo id) log <> [].
Proof.
  unfold rebuild. case_decide as Hne; [done|]. intros (evs & Hd & Hr)%res_bind_ok.
  destruct (Rehydrate _ evs) as [a' [[]| |]] eqn:E; [|done..]. injection Hr as ->.
  apply Rehydrate_ok_tracks in E as [Ht Hp]. split_and!; [by exists evs | done | done].
Qed.

Lemma holds_rebuild repo id log a :
  holds repo id log a -> UncommittedEvents a = [] -> stream_of (repo_stream repo id) log <> [] ->
  rebuild repo (repo_stream repo id) (stream_of (repo_stream repo id) log) = Ok a.
Proof.
  intros (evs & Hd & Ht) Hp Hne. unfold rebuild. rewrite decide_False by done.
  rewrite Hd. simpl. by rewrite (Rehydrate_tracks _ _ _ Ht Hp).
Qed.

Lemma holds_raise repo id log a a' es :
  holds repo id log a -> raise_all a es = (a', Ok tt) -> holds repo id log a'.
Proof. intros (evs & Hd & Ht) Hr. exists evs. eauto using raise_all_tracks. Qed.

(** An absent stream holds the fresh aggregate. *)
Lemma holds_new repo id log :
  stream_of (repo_stream repo id) log = [] -> holds repo id log (new_agg (newAgg repo)).
Proof. intros Hn. exists []. rewrite Hn. split; [done | apply tracks_new]. Qed.

(** Appending the uncommitted events of an aggregate the log holds makes the
    log hold the aggregate with its events taken. *)
Lemma holds_appended repo id log log' a data v :
  holds repo id log a ->
  (forall recs, rec_data <$> recs = data ->
     res_mapM (fun rec => Decode rec (repo_registry repo)) recs = Ok (UncommittedEvents a)) ->
  appended (repo_stream repo id) v data log log' ->
  holds repo id log' (snd (TakeUncommitted a)).
Proof.
  intros (evs & Hd & Ht) Hdec (recs & -> & Hst).
  exists (evs ++ UncommittedEvents a). split; [|by apply TakeUncommitted_tracks].
  rewrite stream_of_app, (stored_stream _ _ _ _ Hst).
  apply res_mapM_app; [done|]. apply Hdec, Hst.
Qed.
End repository.

Section repository_spec.
Context {S Ev W : Type} `{DomainEvent Ev} `{MarshalEvent Ev} `{Aggregate S Ev} `{StoreSpec W}.
Implicit Types (repo : Repository S Ev) (id : string) (a : Agg S Ev) (w : W) (h : heap).

Lemma repo_Load_ok repo id w a w' :
  store_inv w -> repo_Load repo id w = (Ok a, w') ->
  store_inv w' /\ log_of w' = log_of w /\ holds repo id (log_of w) a
  /\ UncommittedEvents a = [] /\ stream_of (repo_stream repo id) (log_of w) <> [].
Proof.
  intros Hinv. unfold repo_Load. destruct (Load _ 0 w) as [r w1] eqn:E.
  destruct (Load_spec _ _ _ _ _ Hinv E) as (Hinv' & Hl & Hok & _).
  intros [= Hr <-]. apply res_bind_ok in Hr as (recs & -> & Hr).
  rewrite (Hok recs eq_refl), load_result_all in Hr by (by apply store_log_ok).
  destruct (rebuild_holds _ _ _ _ Hr) as (? & ? & ?). done.
Qed.

Lemma repo_Load_holds repo id w a :
  store_inv w -> holds repo id (log_of w) a -> UncommittedEvents a = [] ->
  stream_of (repo_stream repo id) (log_of w) <> [] ->
  is_ok (fst (Load (repo_stream repo id) 0 w)) = true ->
  fst (repo_Load repo id w) = Ok a.
Proof.
  intros Hinv Hh Hp Hne Hok. unfold repo_Load. destruct (Load _ 0 w) as [r w1] eqn:E.
  destruct (Load_spec _ _ _ _ _ Hinv E) as (_ & _ & Hrec & _).
  destruct r as [recs| |]; [|done..]. simpl.
  rewrite (Hrec recs eq_refl), load_result_all by (by apply store_log_ok).
  by apply holds_rebuild.
Qed.

(** A successful save of an aggregate the log holds. *)
Lemma repo_Save_ok repo now x ctx id a w h a' w' h' :
  store_inv w -> holds repo id (log_of w) a -> Forall (carries repo) (UncommittedEvents a) ->
  UncommittedEvents a <> [] ->
  last_seq (log_of w) + zlen (UncommittedEvents a) <= int64_max ->
  repo_Save repo now x ctx id a w h = (Ok tt, a', w', h') ->
  store_inv w' /\ a' = snd (TakeUncommitted a) /\ holds repo id (log_of w') a'
  /\ stream_of (repo_stream repo id) (log_of w') <> []
  /\ h' = recordPosition ctx (last_seq (log_of w')) h.
Proof.
  intros Hinv Hh Hc Hne Hsize. unfold repo_Save. rewrite decide_False by done.
  destruct (encode_pending_carried repo (MetadataFromContext x ctx) _ Hc) as (data & -> & Hlen & Hdec).
  destruct (Append _ _ _ _ _) as [[seq|e|m] w1] eqn:E; [|done..]. intros [= <- <- <-].
  apply Append_spec in E as [Hinv' Hpost]; [|done | unfold zlen in *; by rewrite Hlen].
  assert (data <> []) as Hdne by (destruct data; [|done]; destruct (UncommittedEvents a); done).
  destruct Hpost as [(? & _)|(_ & _ & Happ & ->)]; [done|].
  split_and!; [done | done | by eapply holds_appended | | done].
  destruct Happ as (recs & -> & Hst). rewrite stream_of_app, (stored_stream _ _ _ _ Hst).
  pose proof (stored_length _ _ _ _ Hst). intros ?%app_nil. destruct recs, data; naive_solver.
Qed.

(** A failed save leaves the aggregate with its uncommitted events. *)
Lemma repo_Save_failed repo now x ctx id a w h r a' w' h' :
  repo_Save repo now x ctx id a w h = (r, a', w', h') -> is_ok r = false ->
  a' = a /\ h' = h.
Proof.
  unfold repo_Save. case_decide; [by intros [= <- <- <- <-]|].
  destruct (encode_pending _ _ _) as [data| |]; [|by intros [= <- <- <- <-]..].
  destruct (Append _ _ _ _ _) as [[seq|e|m] w1]; by intros [= <- <- <- <-].
Qed.
End repository_spec.

Section stale.
Context {S Ev W : Type} `{DomainEvent Ev} `{MarshalEvent Ev} `{Aggregate S Ev} `{StoreSpec W}.
Implicit Types (repo : Repository S Ev) (id : string) (a : Agg S Ev) (w : W) (h : heap).

(** A save whose aggregate is behind the log stores nothing. *)
Lemma repo_Save_stale repo now x ctx id a w h r a' w' h' :
  store_inv w -> UncommittedEvents a <> [] ->
  last_seq (log_of w) + zlen (UncommittedEvents a) <= int64_max ->
  Version a <> stream_version (repo_stream repo id) (log_of w) ->
  repo_Save repo now x ctx id a w h = (r, a', w', h') ->
  is_ok r = false /\ log_of w' = log_of w.
Proof.
  intros Hinv Hne Hsize Hv. unfold repo_Save. rewrite decide_False by done.
  destruct (encode_pending _ _ _) as [data| |] eqn:Henc; [|by intros [= <- <- <- <-]..].
  pose proof (res_mapM_length _ _ _ Henc) as Hlen.
  destruct (Append _ _ _ _ _) as [r1 w1] eqn:E.
  apply Append_spec in E as [_ Hpost]; [|done | unfold zlen in *; by rewrite Hlen].
  assert (data <> []) as Hdne by (destruct data; [|done]; destruct (UncommittedEvents a); done).
  destruct r1 as [seq|e|m]; simpl in Hpost; [naive_solver | | done].
  intros [= <- <- <- <-]. split; [done|].
  destruct (errors_Is e ErrVersionConflict); naive_solver.
Qed.
(** A save that stores anything stores the pending events at the end of a
    stream that is where the aggregate left it. *)
Lemma repo_Save_atomic repo now x ctx id a w h res a' w' h' :
  store_inv w -> UncommittedEvents a <> [] ->
  last_seq (log_of w) + zlen (UncommittedEvents a) <= int64_max ->
  repo_Save repo now x ctx id a w h = (res, a', w', h') ->
  store_inv w'
  /\ ((log_of w' = log_of w /\ is_ok res = false)
  \/ (Version a = stream_version (repo_stream repo id) (log_of w)
      /\ (forall e, res = Err e -> errors_Is e ErrVersionConflict = false)
      /\ exists data, encode_pending repo (MetadataFromContext x ctx) (UncommittedEvents a) = Ok data
                      /\ appended (repo_stream repo id) (Version a) data (log_of w) (log_of w'))).
Proof.
  intros Hinv Hne Hsize. unfold repo_Save. rewrite decide_False by done.
  destruct (encode_pending _ _ _) as [data| |] eqn:Henc; [|by intros [= <- _ <- _]; auto..].
  pose proof (res_mapM_length _ _ _ Henc) as Hlen.
  destruct (Append _ _ _ _ _) as [r1 w1] eqn:E.
  apply Append_spec in E as [Hinv' Hpost]; [|done | unfold zlen in *; by rewrite Hlen].
  assert (data <> []) as Hdne by (destruct data; [|done]; destruct (UncommittedEvents a); done).
  destruct r1 as [seq|e|m]; simpl in Hpost; [| |done]; intros [= <- _ <- _]; (split; [done|]).
  - destruct Hpost as [[? _]|(_ & Hv & Ha & _)]; [done|]. right. split_and!; [done | done | by exists data].
  - destruct (errors_Is e ErrVersionConflict) eqn:Ee; [left; by destruct Hpost|].
    destruct Hpost as [->|[Hv Ha]]; [by left|]. right. split_and!; [done | by intros ? [= <-] | by exists data].
Qed.
End stale.

(** ** The repository over the in-memory store *)

Section memory_repository.
Context {S Ev : Type} `{DomainEvent Ev} `{MarshalEvent Ev} `{Aggregate S Ev}.
Implicit Types (repo : Repository S Ev) (id : string) (a : Agg S Ev) (w : MemoryStore) (h : heap).

(** Saving an aggregate that is where its stream is succeeds. *)
Lemma mem_Save_match repo now x ctx id a w h :
  mem_inv w -> UncommittedEvents a <> [] -> Forall (carries repo) (UncommittedEvents a) ->
  Version a = stream_version (repo_stream repo id) (all w) ->
  zlen (all w) + zlen (UncommittedEvents a) <= int64_max ->
  exists data w',
    encode_pending repo (MetadataFromContext x ctx) (UncommittedEvents a) = Ok data
    /\ repo_Save repo now x ctx id a w h
       = (Ok tt, snd (TakeUncommitted a), w', recordPosition ctx (zlen (all w')) h)
    /\ all w' = all w ++ stamp now (repo_stream repo id) (Version a) (all w) data
    /\ zlen data = zlen (UncommittedEvents a) /\ mem_inv w'.
Proof.
  intros Hinv Hne Hc Hv Hsize.
  destruct (encode_pending_carried repo (MetadataFromContext x ctx) _ Hc) as (data & Henc & Hlen & _).
  assert (data <> []) as Hdne by (destruct data; [|done]; destruct (UncommittedEvents a); done).
  assert (zlen data = zlen (UncommittedEvents a)) as Hz by (unfold zlen; by rewrite Hlen).
  destruct (mem_Append_match now (repo_stream repo id) data w Hinv Hdne ltac:(lia)) as (w' & Happ & Hall & Hinv').
  exists data, w'. rewrite Hv. split_and!; try done.
  unfold repo_Save. rewrite decide_False, Henc, Hv by done.
  change (Append now) with (mem_Append now). rewrite Happ. by rewrite Hall, zlen_app, length_stamp.
Qed.

(** Loading an aggregate the log holds. *)
Lemma mem_Load_holds repo id a w :
  mem_inv w -> holds repo id (all w) a -> UncommittedEvents a = [] ->
  stream_of (repo_stream repo id) (all w) <> [] -> repo_Load repo id w = (Ok a, w).
Proof.
  intros Hinv Hh Hp Hne.
  assert (fst (repo_Load repo id w) = Ok a) as Hl.
  { apply (repo_Load_holds (W:=MemoryStore)); try done.
    change (Load (repo_stream repo id) 0 w) with (mem_Load (repo_stream repo id) 0 w).
    by rewrite mem_Load_spec. }
  unfold repo_Load in *.
  change (Load (repo_stream repo id) 0 w) with (mem_Load (repo_stream repo id) 0 w) in *.
  rewrite mem_Load_spec in * by done. cbn [fst] in Hl. by rewrite Hl.
Qed.

(** A save stores the uncommitted events of an aggregate the log holds, and a
    load gives the aggregate back. *)
Lemma mem_Save_stores repo now x ctx id a w h :
  mem_inv w -> holds repo id (all w) a -> UncommittedEvents a <> [] ->
  Forall (carries repo) (UncommittedEvents a) ->
  zlen (all w) + zlen (UncommittedEvents a) <= int64_max ->
  Version a = stream_version (repo_stream repo id) (all w) ->
  exists w' recs,
    repo_Save repo now x ctx id a w h = (Ok tt, snd (TakeUncommitted a), w', recordPosition ctx (zlen (all w')) h)
    /\ all w' = all w ++ recs /\ Forall (in_stream (repo_stream repo id)) recs
    /\ res_mapM (fun rec => Decode rec (repo_registry repo)) recs = Ok (UncommittedEvents a)
    /\ zlen recs = zlen (UncommittedEvents a) /\ mem_inv w'
    /\ repo_Load repo id w' = (Ok (snd (TakeUncommitted a)), w').
Proof.
  intros Hinv Hh Hne Hc Hsize Hv. pose proof (Hinv : store_inv (W := MemoryStore) w) as Hsinv.
  destruct (mem_Save_match repo now x ctx id a w h) as (data & w' & Henc & Hsave & Hall & Hz & Hinv'); try done.
  destruct (encode_pending_carried repo (MetadataFromContext x ctx) _ Hc) as (data' & Henc' & _ & Hdec).
  rewrite Henc in Henc'. injection Henc' as <-.
  edestruct (repo_Save_ok (W:=MemoryStore) repo now x ctx id a w h) as (_ & _ & Hh' & Hne' & _);
    [done..| simpl; rewrite mem_last_seq by done; lia | exact Hsave |].
  eexists w', _. split_and!; [exact Hsave | exact Hall | apply stamp_stream | apply Hdec, stamp_data
    | by rewrite length_stamp | done | by apply mem_Load_holds].
Qed.
End memory_repository.

(** ** Properties *)

(** C20: Of two handlers that loaded the same aggregate and both raised events,
    only the first save is stored, on any store that honours the port: the
    second returns an error, leaves the log as the first wrote it and its own
    aggregate with its events still uncommitted, and the stream holds the
    first handler's aggregate. *)
Theorem stale_save_is_refused {S Ev W} `{DomainEvent Ev} `{MarshalEvent Ev} `{Aggregate S Ev} `{StoreSpec W}
    (repo : Repository S Ev) (now now' : Time) (x : Extractor) (ctx ctx' : Context) (id : string)
    (w w1 w2 w3 : W) (h h1 h2 : heap) (a a1 a2 a1' a2' : Agg S Ev) (es1 es2 : list Ev) (r : res unit)
    (Hinv : store_inv w)
    (Hload : repo_Load repo id w = (Ok a, w1))
    (Hr1 : raise_all a es1 = (a1, Ok tt)) (Hr2 : raise_all a es2 = (a2, Ok tt))
    (He1 : es1 <> []) (He2 : es2 <> []) (Hc : Forall (carries repo) es1)
    (Hs1 : last_seq (log_of w) + zlen es1 <= int64_max)
    (Hs2 : last_seq (log_of w2) + zlen es2 <= int64_max)
    (Hv : stream_version (repo_stream repo id) (log_of w2) <= int64_max)
    (Hsave1 : repo_Save repo now x ctx id a1 w1 h = (Ok tt, a1', w2, h1))
    (Hsave2 : repo_Save repo now' x ctx' id a2 w2 h1 = (r, a2', w3, h2)) :
  is_ok r = false /\ log_of w3 = log_of w2 /\ a2' = a2 /\ UncommittedEvents a2' = es2
  /\ holds repo id (log_of w3) a1'.
Proof.
  destruct (repo_Load_ok _ _ _ _ _ Hinv Hload) as (Hinv1 & Hl1 & Hh & Hp & _).
  pose proof (raise_all_root _ _ _ Hr1) as Hroot1. pose proof (raise_all_root _ _ _ Hr2) as Hroot2.
  unfold UncommittedEvents in Hp. rewrite Hp in Hroot1, Hroot2. simpl in *.
  assert (UncommittedEvents a1 = es1) as Hu1 by (unfold UncommittedEvents; by rewrite Hroot1).
  assert (UncommittedEvents a2 = es2) as Hu2 by (unfold UncommittedEvents; by rewrite Hroot2).
  destruct (repo_Save_ok repo now x ctx id a1 w1 h a1' w2 h1) as (Hinv2 & -> & Hh2 & _);
    rewrite ?Hl1, ?Hu1; eauto using holds_raise.
  assert (Version a2 <> stream_version (repo_stream repo id) (log_of w2)) as Hne.
  { rewrite <-(holds_version _ _ _ _ Hh2 Hv). unfold Version. rewrite Hroot2. simpl.
    rewrite Hroot1. simpl. destruct Hh as (evs & _ & _ & ->). apply not_eq_sym.
    assert (zlen es1 <> 0) by (by rewrite zlen_zero). pose proof (zlen_nonneg es1).
    pose proof (last_seq_nonneg _ (store_log_ok _ Hinv)).
    apply add64_moves; [apply wrap64_range | lia]. }
  destruct (repo_Save_stale repo now' x ctx' id a2 w2 h1 r a2' w3 h2) as [Hno Hl3];
    rewrite ?Hu2; try done.
  destruct (repo_Save_failed _ _ _ _ _ _ _ _ _ _ _ _ Hsave2 Hno) as [-> _].
  rewrite Hl3, Hu2. done.
Qed.

(** C19: Load, act, save, load, on the in-memory store: an aggregate loaded from
    its stream (or freshly made for a stream with no events) raises events;
    the save succeeds, stores exactly those events, advances the aggregate's
    version past them and reports the append's sequence number to the captured
    position; loading again returns the very same aggregate. *)
Theorem save_then_load {S Ev} `{DomainEvent Ev} `{MarshalEvent Ev} `{Aggregate S Ev}
    (repo : Repository S Ev) (now : Time) (x : Extractor) (ctx : Context) (id : string)
    (w : MemoryStore) (h : heap) (a acted : Agg S Ev) (es : list Ev)
    (Hinv : mem_inv w)
    (Hload : repo_Load repo id w = (Ok a, w)
             \/ (a = new_agg (newAgg repo) /\ stream_of (repo_stream repo id) (all w) = []))
    (Hraise : raise_all a es = (acted, Ok tt)) (Hes : es <> []) (Hc : Forall (carries repo) es)
    (Hsize : zlen (all w) + zlen es <= int64_max) :
  exists saved w',
    repo_Save repo now x ctx id acted w h = (Ok tt, saved, w', recordPosition ctx (zlen (all w')) h)
    /\ zlen (all w') = zlen (all w) + zlen es
    /\ Version saved = Version a + zlen es /\ UncommittedEvents saved = []
    /\ repo_Load repo id w' = (Ok saved, w').
Proof.
  pose proof (Hinv : store_inv (W := MemoryStore) w) as Hsinv.
  assert (holds repo id (all w) a /\ UncommittedEvents a = []) as [Hh Hp].
  { destruct Hload as [Hl|[-> Hl]]; [|split; [by apply holds_new | done]].
    by destruct (repo_Load_ok (W:=MemoryStore) repo id w a w Hsinv Hl) as (_ & _ & ? & ? & _). }
  pose proof (raise_all_root _ _ _ Hraise) as Hroot. unfold UncommittedEvents in Hp. rewrite Hp in Hroot.
  assert (UncommittedEvents acted = es) as Hu by (unfold UncommittedEvents; by rewrite Hroot).
  pose proof (stream_version_le_all (repo_stream repo id) (all w)) as Hle.
  pose proof (zlen_nonneg es) as Hnn.
  pose proof (holds_version _ _ _ _ Hh ltac:(lia)) as Hv.
  pose proof (holds_raise _ _ _ _ _ _ Hh Hraise) as Hacted.
  assert (Version acted = stream_version (repo_stream repo id) (all w)) as Hav
    by (unfold Version in *; by rewrite Hroot).
  destruct (mem_Save_stores repo now x ctx id acted w h) as (w' & recs & Hsave & Hall & _ & _ & Hz & _ & Hl);
    rewrite ?Hu; try done. rewrite Hu in Hz.
  eexists _, w'. split_and!; [exact Hsave | by rewrite Hall, zlen_app, Hz | | done | done].
  unfold Version in *. simpl. rewrite Hroot. simpl. apply add64_id.
  rewrite Hv. apply in_int64_between. pose proof (stream_version_nonneg (repo_stream repo id) (all w)). lia.
Qed.

(** ** Witnesses *)

Import Kernel.Sample Registry.Sample.

Module Sample.
Definition repo : Repository Z event := mkRepository registry "counter" 0.
Definition extractor : Extractor := None.
Definition acted (n : Z) : Agg Z event := mkAgg (mkRoot 0 [Incremented n]) n.

Lemma carries_incremented n : in_int64 n -> carries repo (Incremented n).
Proof.
  intros Hn. apply (Encode_Decode Incremented_type in_int64 registry n); [by eexists | done].
Qed.
End Sample.

Lemma save_then_load_witness :
  exists saved w',
    repo_Save Sample.repo zero_time Sample.extractor background "c-1" (Sample.acted 5) NewMemoryStore []
      = (Ok tt, saved, w', recordPosition background (zlen (all w')) [])
    /\ zlen (all w') = 0 + 1 /\ Version saved = 0 + 1 /\ UncommittedEvents saved = []
    /\ repo_Load Sample.repo "c-1" w' = (Ok saved, w').
Proof.
  apply (save_then_load Sample.repo zero_time Sample.extractor background "c-1" NewMemoryStore []
    (new_agg 0) (Sample.acted 5) [Incremented 5]).
  - apply mem_inv_new.
  - right. done.
  - done.
  - done.
  - repeat constructor. apply Sample.carries_incremented. by vm_compute.
  - by vm_compute.
Defined.

(** Two handlers load the counter a first save created, and race. *)
Module Race.
Definition save a w := repo_Save Sample.repo zero_time Sample.extractor background "c-1" a w [].
Definition w0 : MemoryStore := Eval vm_compute in snd (fst (save (Sample.acted 5) NewMemoryStore)).
Definition loaded : Agg Z event := mkAgg (mkRoot 1 []) 5.
Definition acted n : Agg Z event := mkAgg (mkRoot 1 [Incremented n]) (5 + n).
Definition w1 : MemoryStore := Eval vm_compute in snd (fst (save (acted 1) w0)).
Definition saved : Agg Z event := mkAgg (mkRoot 2 []) 6.
Definition refused : res unit := Eval vm_compute in fst (fst (fst (save (acted 2) w1))).
Lemma w0_inv : mem_inv w0.
Proof.
  refine (proj1 (mem_Append_spec zero_time (mkStreamID "counter" "c-1") 0
    [mkEventData "sample.incremented" 1 (RawJSON (JInt 5)) None] NewMemoryStore (Ok 1) w0
    mem_inv_new _ _)); [vm_compute; discriminate | vm_compute; reflexivity].
Qed.
End Race.

Lemma stale_save_is_refused_witness :
  is_ok Race.refused = false /\ log_of Race.w1 = log_of Race.w1 /\ Race.acted 2 = Race.acted 2
  /\ UncommittedEvents (Race.acted 2) = [Incremented 2]
  /\ holds Sample.repo "c-1" (log_of Race.w1) Race.saved.
Proof.
  refine (stale_save_is_refused Sample.repo zero_time zero_time Sample.extractor background background
    "c-1" Race.w0 Race.w0 Race.w1 Race.w1 [] [] [] Race.loaded (Race.acted 1) (Race.acted 2)
    Race.saved (Race.acted 2) [Incremented 1] [Incremented 2] Race.refused
    Race.w0_inv _ _ _ _ _ _ _ _ _ _ _).
  6: { repeat constructor. apply Sample.carries_incremented. by vm_compute. }
  4-8: by vm_compute.
  all: vm_compute; reflexivity.
Defined.
