(* ===== verification/Broker.v ===== *)
(** * broker/broker.go and broker/memory.go: the messaging port

    The envelope, the publisher port as a typeclass with its contract, and the
    in-memory broker: the mutex makes each of its critical sections one step,
    so a subscription is a thread of a step relation, interleaved with other
    subscriptions, publishers, handlers and context cancellations. *)

From S2P Require Import Prelude Errors GoTime Json.

(** ** The envelope *)

Record Message := mkMessage {
  msg_ID : string;
  msg_Key : string;
  msg_Type : string;
  msg_Version : Z;
  msg_OccurredAt : Time;
  msg_Payload : RawMessage;
  msg_Metadata : strmap;
}.

(** The zero [Message] a failing constructor returns. *)
Definition zero_Message : Message := mkMessage "" "" "" 0 zero_time RawNil None.

Class IntegrationEvent (C : Type) := {
  ContractName : C -> string; (* EventName of the contract *)
  ContractVersion : C -> Z;
}.

Definition NewMessage {C} `{IntegrationEvent C} `{MarshalEvent C}
    (id key : string) (occurredAt : Time) (e : C) (metadata : strmap) : res Message :=
  try payload := res_wrap ("broker: encoding " +:+ ContractName e +:+ ": ") "" (marshal_event e) in
  Ok {| msg_ID := id; msg_Key := key; msg_Type := ContractName e;
        msg_Version := ContractVersion e; msg_OccurredAt := occurredAt;
        msg_Payload := RawJSON payload; msg_Metadata := metadata |}.

(** ** The publisher port *)

Class Publisher (P : Type) := Publish : string -> list Message -> P -> res unit * P.

(** The contract: a call that returns nil has appended every message of the
    call, in order, to its topic; a call that fails may have appended some of
    them; no call touches another topic. One order per topic is the in-memory
    broker's, and more than the port promises, which is an order per key: over
    Kafka's partitions read [published] as any merge that keeps each key's
    order, which is all that [kafka_publish_keeps_key_order] (Kafka.v) gives. *)
Class PublisherSpec (P : Type) `{Publisher P} := {
  published : P -> string -> list Message;
  Publish_spec topic msgs p r p' :
    Publish topic msgs p = (r, p') ->
    (forall t, t <> topic -> published p' t = published p t)
    /\ exists part, published p' topic = published p topic ++ part
       /\ (r = Ok tt -> part = msgs) /\ part `sublist_of` msgs;
}.

(** ** MemoryBroker *)

Abbreviation groupKey := (string * string)%type.

Record MemoryBroker := mkBroker {
  topics : gmap string (list Message);
  offsets : gmap groupKey nat;
  active : gmap groupKey bool;
}.

Definition NewMemoryBroker : MemoryBroker := mkBroker ∅ ∅ ∅.

(** Map reads of absent keys give the zero value. *)
Definition topic_log (b : MemoryBroker) (topic : string) : list Message := default [] (topics b !! topic).
Definition group_offset (b : MemoryBroker) (k : groupKey) : nat := default 0%nat (offsets b !! k).
Definition is_active (b : MemoryBroker) (k : groupKey) : bool := default false (active b !! k).

Definition append_topic (topic : string) (msgs : list Message) (b : MemoryBroker) : MemoryBroker :=
  mkBroker (<[topic := topic_log b topic ++ msgs]> (topics b)) (offsets b) (active b).

Definition mem_Publish (topic : string) (msgs : list Message) (b : MemoryBroker) : res unit * MemoryBroker :=
  (Ok tt, append_topic topic msgs b).

#[export] Instance MemoryBroker_publisher : Publisher MemoryBroker := mem_Publish.

Arguments append_topic : simpl never.

(** Where a call of [Subscribe] is: before its first lock, at the head of its
    loop, about to read the log, asleep, in the handler, about to advance the
    offset, in its deferred function, returned. *)
Inductive pc :=
  | Entry
  | Top
  | Fetch
  | Sleep
  | Call (offset : nat) (next : Message)
  | Advance (offset : nat)
  | Deferred (r : res unit)
  | Returned (r : res unit).

(** What the environment decides at a step: whether the timer of a sleep wins
    over the context, and how the handler returns. *)
Record choice := mkChoice { timer : bool; outcome : res unit }.

(** A handler call that finished, as an observer sees it. *)
Record delivery := mkDelivery { d_key : groupKey; d_msg : Message; d_result : res unit }.

Definition already_active (k : groupKey) : error :=
  EText ("broker: group " +:+ Quote k.2 +:+ " already has an active member on topic " +:+ Quote k.1).

(** One atomic step of [Subscribe(ctx, topic, group, handler)];
    [cancelled] says whether [ctx] is done. *)
Definition sub_step (k : groupKey) (cancelled : bool) (c : choice) (p : pc) (b : MemoryBroker)
    : pc * MemoryBroker * list delivery :=
  match p with
  | Entry =>
    if is_active b k then (Returned (Err (already_active k)), b, [])
    else (Top, mkBroker (topics b) (offsets b) (<[k := true]> (active b)), [])
  | Top => if cancelled then (Deferred (Ok tt), b, []) else (Fetch, b, [])
  | Fetch =>
    let offset := group_offset b k in
    match topic_log b k.1 !! offset with
    | Some m => (Call offset m, b, [])
    | None => (Sleep, b, [])
    end
  | Sleep => if negb cancelled || timer c then (Top, b, []) else (Deferred (Ok tt), b, [])
  | Call offset m =>
    let d := mkDelivery k m (outcome c) in
    match outcome c with
    | Ok _ => (Advance offset, b, [d])
    | Err _ => (Sleep, b, [d])
    | Panic v => (Deferred (Panic v), b, [d])
    end
  | Advance offset => (Top, mkBroker (topics b) (<[k := S offset]> (offsets b)) (active b), [])
  | Deferred r => (Returned r, mkBroker (topics b) (offsets b) (delete k (active b)), [])
  | Returned r => (p, b, [])
  end.

(** ** The system of concurrent callers *)

Record thread := mkThread { t_key : groupKey; t_cancelled : bool; t_pc : pc }.

Record system := mkSystem {
  broker : MemoryBroker;
  threads : list thread;
  trace : list delivery; (* finished handler calls, oldest first *)
}.

Definition initial : system := mkSystem NewMemoryBroker [] [].

Definition run_thread (i : nat) (t : thread) (c : choice) (s : system) : system :=
  let '(p, b, ds) := sub_step (t_key t) (t_cancelled t) c (t_pc t) (broker s) in
  mkSystem b (<[i := mkThread (t_key t) (t_cancelled t) p]> (threads s)) (trace s ++ ds).

Inductive step : system -> system -> Prop :=
  | step_publish topic msgs s :
      step s (mkSystem (append_topic topic msgs (broker s)) (threads s) (trace s))
  | step_subscribe k s :
      step s (mkSystem (broker s) (threads s ++ [mkThread k false Entry]) (trace s))
  | step_cancel i t s :
      threads s !! i = Some t ->
      step s (mkSystem (broker s) (<[i := mkThread (t_key t) true (t_pc t)]> (threads s)) (trace s))
  | step_thread i t c s :
      threads s !! i = Some t -> step s (run_thread i t c s).

Definition reachable : system -> Prop := rtc step initial.

(** ** What an observer sees of a group *)

Definition succeeded_for (k : groupKey) (d : delivery) : Prop := d_key d = k /\ is_ok (d_result d) = true.

#[export] Instance succeeded_for_dec k d : Decision (succeeded_for k d).
Proof. unfold succeeded_for. apply _. Defined.

(** The messages the group has handled successfully, in order. *)
Definition handled (k : groupKey) (tr : list delivery) : list Message :=
  d_msg <$> filter (succeeded_for k) tr.

(** A subscription between its registration and its deferred function. *)
Definition inside (p : pc) : bool :=
  match p with Entry | Returned _ => false | _ => true end.

(** The number of messages a member at [p] has settled: the stored offset, and
    the one whose handler has returned but whose offset is not stored yet. *)
Definition settled (b : MemoryBroker) (k : groupKey) (p : pc) : nat :=
  group_offset b k + match p with Advance _ => 1 | _ => 0 end.

Definition member (s : system) (k : groupKey) (i : nat) (p : pc) : Prop :=
  exists t, threads s !! i = Some t /\ t_key t = k /\ t_pc t = p /\ inside p = true.

(** ** Invariant *)

(** What a member knows of the broker at each point of its loop. *)
Definition pc_ok (b : MemoryBroker) (k : groupKey) (p : pc) : Prop :=
  (inside p = true -> is_active b k = true)
  /\ match p with
     | Call o m => o = group_offset b k /\ topic_log b k.1 !! o = Some m
     | Advance o => o = group_offset b k /\ (o < length (topic_log b k.1))%nat
     | _ => True
     end.

(** The position a group stands at: that of its member, or the stored offset. *)
Definition stands (s : system) (k : groupKey) (p : pc) : Prop :=
  (exists i, member s k i p) \/ (p = Entry /\ forall i q, ~ member s k i q).

Record system_inv (s : system) : Prop := {
  inv_pc i t : threads s !! i = Some t -> pc_ok (broker s) (t_key t) (t_pc t);
  inv_unique k i j p q : member s k i p -> member s k j q -> i = j;
  inv_active k : is_active (broker s) k = true -> exists i p, member s k i p;
  inv_settled k p : stands s k p ->
    handled k (trace s) = take (settled (broker s) k p) (topic_log (broker s) k.1)
    /\ (settled (broker s) k p <= length (topic_log (broker s) k.1))%nat;
  inv_order tr1 d tr2 : trace s = tr1 ++ d :: tr2 ->
    topic_log (broker s) (d_key d).1 !! length (handled (d_key d) tr1) = Some (d_msg d);
}.

Lemma handled_app k tr tr' : handled k (tr ++ tr') = handled k tr ++ handled k tr'.
Proof. unfold handled. by rewrite filter_app, fmap_app. Qed.

Lemma is_active_insert b k k' (v : bool) :
  is_active (mkBroker (topics b) (offsets b) (<[k := v]> (active b))) k' = if decide (k = k') then v else is_active b k'.
Proof.
  unfold is_active. simpl. destruct (decide (k = k')) as [->|];
    [by rewrite lookup_insert_eq | by rewrite lookup_insert_ne].
Qed.

Lemma is_active_delete b k k' :
  is_active (mkBroker (topics b) (offsets b) (delete k (active b))) k' = if decide (k = k') then false else is_active b k'.
Proof.
  unfold is_active. simpl. destruct (decide (k = k')) as [->|];
    [by rewrite lookup_delete_eq | by rewrite lookup_delete_ne].
Qed.

Lemma group_offset_insert b k k' n :
  group_offset (mkBroker (topics b) (<[k := n]> (offsets b)) (active b)) k' = if decide (k = k') then n else group_offset b k'.
Proof.
  unfold group_offset. simpl. destruct (decide (k = k')) as [->|];
    [by rewrite lookup_insert_eq | by rewrite lookup_insert_ne].
Qed.

(** One step of a member, on its own group. *)
Record sub_effect (k : groupKey) (p p' : pc) (b b' : MemoryBroker) (ds : list delivery) : Prop := {
  eff_topics t : topic_log b' t = topic_log b t;
  eff_offset k' : k' <> k -> group_offset b' k' = group_offset b k';
  eff_active k' : k' <> k -> is_active b' k' = is_active b k';
  eff_pc : pc_ok b' k p';
  eff_refused : inside p = false -> is_active b k = true -> inside p' = false /\ b' = b /\ ds = [];
  eff_enters : inside p = false -> is_active b' k = true -> is_active b k = true \/ inside p' = true;
  eff_leaves : inside p = true -> inside p' = false -> is_active b' k = false;
  eff_settled : settled b' k p' = (settled b k p + length (handled k ds))%nat;
  eff_delivers : ds = [] \/ exists d, ds = [d] /\ d_key d = k
    /\ topic_log b k.1 !! settled b k p = Some (d_msg d) /\ inside p = true;
}.

Lemma sub_step_effect k cancelled c p b p' b' ds :
  pc_ok b k p -> sub_step k cancelled c p b = (p', b', ds) -> sub_effect k p p' b b' ds.
Proof.
  intros [Hact Hp] E. unfold sub_step in E.
  assert (forall o, settled b k (Advance o) = S (group_offset b k)) as Hadv by (unfold settled; lia).
  assert (settled b k p = group_offset b k + match p with Advance _ => 1 | _ => 0 end)%nat as Hset by done.
  destruct p; repeat case_match; simplify_eq/=; split; intros;
    rewrite ?is_active_insert, ?is_active_delete, ?group_offset_insert, ?decide_False by done;
    try done; try (by left); try (by eauto);
    unfold pc_ok, settled, handled in *; simpl in *;
    rewrite ?is_active_insert, ?is_active_delete, ?group_offset_insert, ?decide_True in * by done;
    rewrite ?filter_cons, ?filter_nil, ?decide_True, ?decide_False by (unfold succeeded_for; naive_solver);
    simpl; try (split; [by eauto|]); try lia; try (intuition congruence).
  - destruct Hp as [-> Hm]. by apply lookup_lt_Some in Hm.
  - right. eexists. rewrite Nat.add_0_r. split_and!; try done. by destruct Hp as [<- ?].
  - right. eexists. rewrite Nat.add_0_r. split_and!; try done. by destruct Hp as [<- ?].
  - right. eexists. rewrite Nat.add_0_r. split_and!; try done. by destruct Hp as [<- ?].
Qed.

Lemma member_update s b tr i t c p' k j q :
  threads s !! i = Some t ->
  member (mkSystem b (<[i := mkThread (t_key t) c p']> (threads s)) tr) k j q
  <-> (j = i /\ k = t_key t /\ q = p' /\ inside p' = true) \/ (j <> i /\ member s k j q).
Proof.
  intros Hi. unfold member. simpl. destruct (decide (j = i)) as [->|Hne].
  - rewrite list_lookup_insert_eq by (by eapply lookup_lt_Some). naive_solver.
  - rewrite list_lookup_insert_ne by done. naive_solver.
Qed.

Lemma outside_settled b k p : inside p = false -> settled b k p = group_offset b k.
Proof. intros H. unfold settled. destruct p; try done; lia. Qed.

Lemma handled_one k d :
  handled k [d] = if decide (succeeded_for k d) then [d_msg d] else [].
Proof. unfold handled. rewrite filter_cons, filter_nil. by case_decide. Qed.

(** Handling the next message of a log extends the handled prefix of it. *)
Lemma take_next n (log ms : list Message) :
  (n <= length log)%nat -> ms = [] \/ (exists m, ms = [m] /\ log !! n = Some m) ->
  take n log ++ ms = take (n + length ms) log /\ (n + length ms <= length log)%nat.
Proof.
  intros Hle [->|(m & -> & Hm)]; simpl; [by rewrite Nat.add_0_r, app_nil_r|].
  rewrite Nat.add_1_r. split; [symmetry; by apply take_S_r|]. by apply lookup_lt_Some in Hm.
Qed.

Lemma stands_member s k i p q : system_inv s -> member s k i p -> stands s k q -> q = p.
Proof.
  intros Hinv Hm [(j & Hm')|[_ Hno]]; [|by destruct (Hno i p)].
  rewrite (inv_unique _ Hinv _ _ _ _ _ Hm' Hm) in Hm'.
  destruct Hm as (t & ? & _ & <- & _), Hm' as (t' & ? & _ & <- & _). congruence.
Qed.

Section update.
Context (s : system) (i : nat) (t : thread) (c : bool) (p' : pc) (b' : MemoryBroker) (ds : list delivery).
Context (Hinv : system_inv s) (Hi : threads s !! i = Some t).
Context (Heff : sub_effect (t_key t) (t_pc t) p' (broker s) b' ds).

Let s' := mkSystem b' (<[i := mkThread (t_key t) c p']> (threads s)) (trace s ++ ds).

Lemma update_self : inside (t_pc t) = true -> member s (t_key t) i (t_pc t).
Proof. intros H. by exists t. Qed.

Lemma update_active k j q : member s k j q -> is_active (broker s) k = true.
Proof. intros (u & Hj & <- & <- & Hin). by apply (inv_pc _ Hinv) in Hj as [? _]; auto. Qed.

(** A thread that is a member after the step has its group for itself. *)
Lemma update_alone j q : inside p' = true -> member s (t_key t) j q -> j = i.
Proof.
  intros Hin' Hm. destruct (inside (t_pc t)) eqn:Ht.
  - eapply (inv_unique _ Hinv); [exact Hm | by apply update_self].
  - destruct (eff_refused _ _ _ _ _ _ Heff Ht) as (? & _); [by eapply update_active | congruence].
Qed.

(** Where the group stood before the step. *)
Lemma update_stands k p :
  stands s' k p -> exists q, stands s k q
    /\ settled b' k p = (settled (broker s) k q + length (handled k ds))%nat.
Proof.
  intros Hst. destruct (decide (k = t_key t)) as [->|Hk].
  2: { exists p. split.
       - destruct Hst as [(j & Hm)|[-> Hno]].
         + apply (member_update _ _ _ _ _ _ _ _ _ _ Hi) in Hm as [(_ & ? & _)|[_ Hm]]; [done|]. left; eauto.
         + right. split; [done|]. intros j q Hm. apply (Hno j q), member_update; [done|].
           right. split; [|done]. intros ->. destruct Hm as (u & Hj & <- & _). congruence.
       - unfold settled. rewrite (eff_offset _ _ _ _ _ _ Heff) by done.
         destruct (eff_delivers _ _ _ _ _ _ Heff) as [->|(d & -> & Hd & _)]; [unfold handled; simpl; lia|].
         rewrite handled_one, decide_False; [simpl; lia|].
         unfold succeeded_for. intros [? _]. congruence. }
  destruct (inside (t_pc t)) eqn:Hin.
  - exists (t_pc t). split; [left; eauto using update_self|]. rewrite <-(eff_settled _ _ _ _ _ _ Heff).
    destruct Hst as [(j & Hm)|[-> Hno]].
    + apply (member_update _ _ _ _ _ _ _ _ _ _ Hi) in Hm as [(_ & _ & -> & _)|[Hne Hm]]; [done|].
      by destruct Hne; eapply (inv_unique _ Hinv); [|apply update_self].
    + rewrite !outside_settled; [done| |done]. destruct (inside p') eqn:Hin'; [|done].
      destruct (Hno i p'). apply member_update; [done|]. by left.
  - destruct (is_active (broker s) (t_key t)) eqn:Hact.
    + destruct (eff_refused _ _ _ _ _ _ Heff Hin Hact) as (Hin' & -> & ->).
      exists p. split; [|unfold handled; simpl; lia].
      destruct Hst as [(j & Hm)|[-> Hno]].
      * apply (member_update _ _ _ _ _ _ _ _ _ _ Hi) in Hm as [(_ & _ & -> & ?)|[_ Hm]]; [congruence|].
        left. eauto.
      * right. split; [done|]. intros j q Hm. apply (Hno j q), member_update; [done|].
        right. split; [|done]. intros ->. destruct Hm as (u & Hj & _ & <- & ?). congruence.
    + assert (forall j q, ~ member s (t_key t) j q) as Hnone.
      { intros j q Hm%update_active. congruence. }
      exists Entry. split; [by right|]. rewrite (outside_settled _ _ Entry) by done.
      rewrite <-(outside_settled _ _ (t_pc t)) by done. rewrite <-(eff_settled _ _ _ _ _ _ Heff).
      destruct Hst as [(j & Hm)|[-> Hno]].
      * apply (member_update _ _ _ _ _ _ _ _ _ _ Hi) in Hm as [(_ & _ & -> & _)|[_ Hm]]; [done|].
        by destruct (Hnone j p).
      * rewrite !outside_settled; [done| |done]. destruct (inside p') eqn:Hin'; [|done].
        destruct (Hno i p'). apply member_update; [done|]. by left.
Qed.

Lemma update_delivers k q :
  stands s k q ->
  handled k ds = [] \/ exists m, handled k ds = [m] /\ topic_log (broker s) k.1 !! settled (broker s) k q = Some m.
Proof.
  intros Hq. destruct (eff_delivers _ _ _ _ _ _ Heff) as [->|(d & -> & Hk & Hd & Hin)]; [by left|].
  rewrite handled_one. case_decide as Hs; [|by left]. right. eexists. split; [done|].
  destruct Hs as [<- _]. rewrite Hk in *.
  by rewrite (stands_member _ _ _ _ _ Hinv (update_self Hin) Hq).
Qed.

Lemma update_inv : system_inv s'.
Proof.
  split.
  - intros j u. unfold s'; simpl. destruct (decide (i = j)) as [<-|Hne].
    + rewrite list_lookup_insert_eq by (by eapply lookup_lt_Some). intros [= <-]. apply Heff.
    + rewrite list_lookup_insert_ne by done. intros Hj.
      destruct (inv_pc _ Hinv _ _ Hj) as [Hact Hpc].
      destruct (decide (t_key u = t_key t)) as [Hk|Hk].
      * destruct (inside (t_pc u)) eqn:Hu; [|by destruct (t_pc u)].
        destruct (inside (t_pc t)) eqn:Ht.
        { destruct Hne. apply (inv_unique _ Hinv (t_key t) _ _ (t_pc t) (t_pc u)); [by exists t | by exists u]. }
        destruct (eff_refused _ _ _ _ _ _ Heff Ht) as (_ & -> & _); [rewrite <-Hk; auto|].
        split; [by rewrite Hu | done].
      * split; [rewrite (eff_active _ _ _ _ _ _ Heff) by done; auto|].
        destruct (t_pc u); try done; by rewrite (eff_topics _ _ _ _ _ _ Heff), (eff_offset _ _ _ _ _ _ Heff) by done.
  - intros k j j' p q Hm Hm'.
    apply (member_update _ _ _ _ _ _ _ _ _ _ Hi) in Hm as [(-> & Hk & _ & Hin)|[Hne Hm]];
    apply (member_update _ _ _ _ _ _ _ _ _ _ Hi) in Hm' as [(-> & Hk' & _ & Hin')|[Hne' Hm']]; subst.
    + done.
    + symmetry. by eapply update_alone.
    + by eapply update_alone.
    + by eapply (inv_unique _ Hinv).
  - intros k Hact. destruct (decide (k = t_key t)) as [->|Hk].
    + destruct (inside p') eqn:Hin'; [exists i, p'; apply member_update; [done | by left]|].
      destruct (inside (t_pc t)) eqn:Ht; [pose proof (eff_leaves _ _ _ _ _ _ Heff Ht Hin'); simpl in Hact; congruence|].
      destruct (eff_enters _ _ _ _ _ _ Heff Ht Hact) as [Hact'|?]; [|congruence].
      destruct (inv_active _ Hinv _ Hact') as (j & q & Hm). exists j, q.
      apply member_update; [done|]. right. split; [|done].
      intros ->. destruct Hm as (u & ? & _ & <- & ?). congruence.
    + simpl in Hact. rewrite (eff_active _ _ _ _ _ _ Heff) in Hact by done.
      destruct (inv_active _ Hinv _ Hact) as (j & q & Hm). exists j, q.
      apply member_update; [done|]. right. split; [|done].
      intros ->. destruct Hm as (u & ? & ? & _). congruence.
  - intros k p Hst. destruct (update_stands k p Hst) as (q & Hq & Hset).
    destruct (inv_settled _ Hinv k q Hq) as [Hh Hle]. unfold s'; simpl.
    rewrite (eff_topics _ _ _ _ _ _ Heff), Hset, handled_app, Hh.
    destruct (take_next _ _ (handled k ds) Hle (update_delivers k q Hq)). done.
  - intros tr1 d tr2 Htr. unfold s' in *; simpl in *. rewrite (eff_topics _ _ _ _ _ _ Heff).
    destruct (eff_delivers _ _ _ _ _ _ Heff) as [->|(d0 & -> & Hk & Hd & Hin)].
    { rewrite app_nil_r in Htr. by eapply (inv_order _ Hinv). }
    destruct tr2 as [|d2 tr2 _] using rev_ind.
    + apply app_inj_tail in Htr as [<- <-]. rewrite Hk.
      destruct (inv_settled _ Hinv (t_key t) (t_pc t)) as [-> Hle]; [left; eauto using update_self|].
      by rewrite length_take_le.
    + rewrite app_comm_cons, app_assoc in Htr. apply app_inj_tail in Htr as [Htr _].
      by eapply (inv_order _ Hinv).
Qed.
End update.

Lemma sub_effect_refl k p b : pc_ok b k p -> sub_effect k p p b b [].
Proof.
  intros H. split; try done; try by left.
  - congruence.
Qed.

Lemma topic_log_publish topic msgs b t :
  topic_log (append_topic topic msgs b) t = topic_log b t ++ (if decide (topic = t) then msgs else []).
Proof.
  unfold topic_log at 1. simpl. destruct (decide (topic = t)) as [->|Hne].
  - by rewrite lookup_insert_eq.
  - by rewrite lookup_insert_ne, app_nil_r.
Qed.

Lemma system_inv_initial : system_inv initial.
Proof.
  split; try done.
  - intros k i j p q (t & H & _). done.
  - intros k p [(i & t & H & _)|[-> _]]; done.
  - by intros [|? ?].
Qed.

Lemma publish_inv topic msgs s :
  system_inv s -> system_inv (mkSystem (append_topic topic msgs (broker s)) (threads s) (trace s)).
Proof.
  intros Hinv. split.
  - intros i t Hi. destruct (inv_pc _ Hinv _ _ Hi) as [Hact Hpc]. split; [done|].
    simpl in *. destruct (t_pc t); try done; rewrite topic_log_publish; destruct Hpc as [-> Hm]; split; try done.
    + by apply lookup_app_l_Some.
    + rewrite length_app. lia.
  - apply Hinv.
  - apply Hinv.
  - intros k p Hst. destruct (inv_settled _ Hinv k p Hst) as [Hh Hle].
    simpl. rewrite topic_log_publish.
    change (settled (append_topic topic msgs (broker s)) k p) with (settled (broker s) k p).
    rewrite take_app_le, length_app by done. split; [done | lia].
  - intros tr1 d tr2 Htr. simpl in *. rewrite topic_log_publish.
    apply lookup_app_l_Some. by eapply (inv_order _ Hinv).
Qed.

Lemma subscribe_inv k s :
  system_inv s -> system_inv (mkSystem (broker s) (threads s ++ [mkThread k false Entry]) (trace s)).
Proof.
  intros Hinv.
  assert (forall k' i p, member (mkSystem (broker s) (threads s ++ [mkThread k false Entry]) (trace s)) k' i p
          <-> member s k' i p) as Hm.
  { intros k' i p. unfold member. simpl. split; intros (t & Hi & Hk & Hp & Hin); exists t.
    - apply lookup_snoc_Some in Hi as [[_ Hi]|[_ <-]]; [done | by simplify_eq/=].
    - split; [by apply lookup_app_l_Some | done]. }
  split.
  - intros i t [[_ Hi]|[_ <-]]%lookup_snoc_Some; [by eapply (inv_pc _ Hinv) | done].
  - intros k' i j p q Hp Hq. apply Hm in Hp, Hq. by eapply (inv_unique _ Hinv).
  - intros k' (i & p & Hp)%(inv_active _ Hinv). exists i, p. by apply Hm.
  - intros k' p Hst. apply (inv_settled _ Hinv).
    destruct Hst as [(i & Hp)|[-> Hno]]; [left; exists i; by apply Hm|].
    right. split; [done|]. intros i q Hq. apply (Hno i q). by apply Hm.
  - apply (inv_order _ Hinv).
Qed.

Lemma step_inv s s' : system_inv s -> step s s' -> system_inv s'.
Proof.
  intros Hinv Hstep. destruct Hstep as [topic msgs s|k s|i t s Hi|i t c s Hi].
  - by apply publish_inv.
  - by apply subscribe_inv.
  - rewrite <-(app_nil_r (trace s)). eapply update_inv; [done..|].
    apply sub_effect_refl. by eapply inv_pc.
  - unfold run_thread. destruct (sub_step _ _ _ _ _) as [[p b] ds] eqn:E.
    eapply update_inv; [done..|]. eapply sub_step_effect; [|exact E]. by eapply inv_pc.
Qed.

Lemma reachable_inv s : reachable s -> system_inv s.
Proof. intros H. eapply (rtc_invariant step system_inv); eauto using step_inv, system_inv_initial. Qed.

#[export] Hint Resolve reachable_inv : gohex.

#[export] Program Instance MemoryBroker_spec : PublisherSpec MemoryBroker := { published := topic_log }.
Next Obligation.
  intros topic msgs p r p' E. injection E as <- <-. split.
  - intros t Hne. rewrite topic_log_publish, decide_False by done. by rewrite app_nil_r.
  - exists msgs. by rewrite topic_log_publish, decide_True.
Qed.

(** ** Draining: a member whose context stays alive and whose handler accepts *)

Definition go_on : choice := mkChoice true (Ok tt).

Fixpoint drive (n : nat) (k : groupKey) (p : pc) (b : MemoryBroker) : pc * MemoryBroker * list delivery :=
  match n with
  | O => (p, b, [])
  | S n' =>
    let '(p1, b1, ds1) := sub_step k false go_on p b in
    let '(p2, b2, ds2) := drive n' k p1 b1 in (p2, b2, ds1 ++ ds2)
  end.

Lemma drive_app n m k p b p1 b1 ds1 :
  drive n k p b = (p1, b1, ds1) ->
  drive (n + m) k p b = let '(p2, b2, ds2) := drive m k p1 b1 in (p2, b2, ds1 ++ ds2).
Proof.
  revert p b p1 b1 ds1. induction n as [|n IH]; intros p b p1 b1 ds1; cbn [drive Nat.add].
  { intros [= <- <- <-]. by destruct (drive m k p b) as [[??]?]. }
  destruct (sub_step _ _ _ _ _) as [[p' b'] ds']. destruct (drive n k p' b') as [[p'' b''] ds''] eqn:E.
  intros [= <- <- <-]. rewrite (IH _ _ _ _ _ E).
  destruct (drive m k p'' b'') as [[??]?]. by rewrite app_assoc.
Qed.

Lemma drive_one k b m :
  topic_log b k.1 !! group_offset b k = Some m ->
  drive 4 k Top b = (Top, mkBroker (topics b) (<[k := S (group_offset b k)]> (offsets b)) (active b),
                     [mkDelivery k m (Ok tt)]).
Proof. intros Hm. cbn. by rewrite Hm. Qed.

Lemma drive_rest (n : nat) k b :
  length (topic_log b k.1) = (group_offset b k + n)%nat ->
  exists b', drive (n * 4) k Top b
    = (Top, b', (fun m => mkDelivery k m (Ok tt)) <$> drop (group_offset b k) (topic_log b k.1))
    /\ group_offset b' k = length (topic_log b k.1) /\ topics b' = topics b.
Proof.
  revert b. induction n as [|n IH]; intros b Hn.
  - exists b. rewrite drop_ge by lia. split_and!; [done | lia | done].
  - destruct (topic_log b k.1 !! group_offset b k) as [m|] eqn:Hm.
    2: { apply lookup_ge_None in Hm. lia. }
    pose proof (drive_one _ _ _ Hm) as H4. set (b1 := mkBroker _ _ _) in H4.
    assert (group_offset b1 k = S (group_offset b k)) as Ho.
    { unfold b1. by rewrite group_offset_insert, decide_True. }
    change (topic_log b k.1) with (topic_log b1 k.1) in Hn at 1.
    destruct (IH b1) as (b2 & Hd & Ho2 & Ht2); [lia|].
    exists b2. split_and!; [|done|done]. change (S n * 4)%nat with (4 + n * 4)%nat.
    rewrite (drive_app _ _ _ _ _ _ _ _ H4), Hd, Ho, (drop_S _ _ _ Hm). done.
Qed.

(** ** Properties *)

(** C7: Whatever publishers, subscriptions, cancellations and handlers do, in any
    interleaving: for every consumer group the messages its handlers have
    accepted are exactly the first messages of the topic, in order, from the
    earliest one, without gap or repetition, up to the group's stored offset
    (or one past it, while the member is about to store it); and every handler
    call a group makes, accepted or not, is for the first message its group has
    not accepted yet, so a failed message is redelivered before any later one. *)
Theorem group_delivery_in_order (s : system) (Hr : reachable s) (k : groupKey) :
  (exists n, handled k (trace s) = take n (topic_log (broker s) k.1)
     /\ (n <= length (topic_log (broker s) k.1))%nat
     /\ (n = group_offset (broker s) k
         \/ n = S (group_offset (broker s) k) /\ exists i, member s k i (Advance (group_offset (broker s) k))))
  /\ forall tr1 d tr2, trace s = tr1 ++ d :: tr2 -> d_key d = k ->
       topic_log (broker s) k.1 !! length (handled k tr1) = Some (d_msg d).
Proof.
  pose proof (reachable_inv _ Hr) as Hinv. split.
  2: { intros tr1 d tr2 Htr <-. by eapply inv_order. }
  assert (exists p, stands s k p) as [p Hst].
  { destruct (is_active (broker s) k) eqn:Hact.
    - destruct (inv_active _ Hinv _ Hact) as (i & p & Hm). exists p. left. eauto.
    - exists Entry. right. split; [done|]. intros i q (t & Hi & <- & <- & Hin).
      destruct (inv_pc _ Hinv _ _ Hi) as [Ha _]. rewrite Ha in Hact; done. }
  exists (settled (broker s) k p). destruct (inv_settled _ Hinv k p Hst) as [Hh Hle].
  split_and!; [done|done|]. unfold settled. destruct p; try (left; lia). right.
  destruct Hst as [(i & t & Hi & <- & Hp & Hin)|[? _]]; [|done].
  destruct (inv_pc _ Hinv _ _ Hi) as [_ Hpc]. rewrite Hp in Hpc. destruct Hpc as [-> _].
  split; [lia|]. exists i, t. by rewrite Hp.
Qed.

(** A group has at most one active member per topic: two concurrent
    subscriptions of a group are never both past registration, a second
    subscription is refused with an error while one is active and leaves the
    broker alone, and once the active one has returned a new one is let in. *)
Theorem one_active_member (s : system) (Hr : reachable s) (k : groupKey) (c : choice) (cancelled : bool) :
  (forall i j p q, member s k i p -> member s k j q -> i = j)
  /\ ((exists i p, member s k i p) ->
      sub_step k cancelled c Entry (broker s) = (Returned (Err (already_active k)), broker s, []))
  /\ ((forall i p, ~ member s k i p) ->
      exists b, sub_step k cancelled c Entry (broker s) = (Top, b, []) /\ is_active b k = true).
Proof.
  pose proof (reachable_inv _ Hr) as Hinv. split_and!.
  - intros i j p q. apply (inv_unique _ Hinv).
  - intros (i & p & t & Hi & <- & <- & Hin). simpl.
    destruct (inv_pc _ Hinv _ _ Hi) as [-> _]; done.
  - intros Hno. simpl. destruct (is_active (broker s) k) eqn:Hact.
    + apply (inv_active _ Hinv) in Hact as (i & p & Hm). by destruct (Hno i p).
    + eexists. split; [done|]. by rewrite is_active_insert, decide_True.
Qed.

(** A member whose context stays alive and whose handler accepts drains its
    topic: in four steps per outstanding message it hands the handler every
    message the group has not accepted, in order, and is back at the head of
    its loop with the group's offset at the end of the topic; a member whose
    context is cancelled returns nil after its deferred function, in two
    steps, and its group is free again. *)
Theorem subscriber_drains (s : system) (Hr : reachable s) (k : groupKey) (i : nat) (c : choice)
    (Hm : member s k i Top) :
  (exists b, drive ((length (topic_log (broker s) k.1) - group_offset (broker s) k) * 4) k Top (broker s)
     = (Top, b, (fun m => mkDelivery k m (Ok tt)) <$> drop (group_offset (broker s) k) (topic_log (broker s) k.1))
     /\ group_offset b k = length (topic_log (broker s) k.1) /\ topics b = topics (broker s))
  /\ (exists b, sub_step k true c Top (broker s) = (Deferred (Ok tt), broker s, [])
      /\ sub_step k true c (Deferred (Ok tt)) (broker s) = (Returned (Ok tt), b, [])
      /\ is_active b k = false).
Proof.
  pose proof (reachable_inv _ Hr) as Hinv. split.
  - apply drive_rest. destruct (inv_settled _ Hinv k Top) as [_ Hle]; [left; eauto|].
    unfold settled in Hle. lia.
  - eexists. split_and!; [done|done|]. by rewrite is_active_delete, decide_True.
Qed.

(** ** Witnesses *)

Module Sample.
Definition key : groupKey := ("orders", "billing").
Definition message (id : string) : Message := mkMessage id "k" "order_placed" 1 zero_time RawNil None.

(** A member has registered; two messages have been published. *)
Definition listening : system :=
  mkSystem (mkBroker {["orders" := [message "a"; message "b"]]} ∅ {[key := true]}) [mkThread key false Top] [].

(** It has handled the first one, and a second subscription has been refused. *)
Definition advancing : system :=
  mkSystem (broker listening) [mkThread key false (Advance 0)] [mkDelivery key (message "a") (Ok tt)].

Lemma listening_reachable : reachable listening.
Proof.
  eapply rtc_l; [apply (step_subscribe key)|].
  eapply rtc_l; [eapply (step_thread 0 _ go_on); reflexivity|].
  eapply rtc_l; [apply (step_publish "orders" [message "a"; message "b"])|].
  vm_compute. apply rtc_refl.
Qed.

Lemma advancing_reachable : reachable advancing.
Proof.
  unfold reachable. etransitivity; [apply listening_reachable|].
  eapply rtc_l; [eapply (step_thread 0 _ go_on); reflexivity|].
  eapply rtc_l; [eapply (step_thread 0 _ go_on); reflexivity|].
  eapply rtc_l; [eapply (step_thread 0 _ go_on); reflexivity|].
  vm_compute. apply rtc_refl.
Qed.
End Sample.

Lemma group_delivery_in_order_witness :
  exists n, handled Sample.key (trace Sample.advancing) = take n (topic_log (broker Sample.advancing) "orders")
    /\ (n <= 2)%nat /\ (n = 0%nat \/ n = 1%nat /\ exists i, member Sample.advancing Sample.key i (Advance 0)).
Proof.
  exact (proj1 (group_delivery_in_order Sample.advancing Sample.advancing_reachable Sample.key)).
Defined.

Lemma one_active_member_witness :
  sub_step Sample.key false go_on Entry (broker Sample.listening)
  = (Returned (Err (already_active Sample.key)), broker Sample.listening, []).
Proof.
  refine (proj1 (proj2 (one_active_member Sample.listening Sample.listening_reachable Sample.key go_on false)) _).
  exists 0%nat, Top. by eexists.
Defined.

Lemma subscriber_drains_witness :
  exists b, drive 8 Sample.key Top (broker Sample.listening)
    = (Top, b, [mkDelivery Sample.key (Sample.message "a") (Ok tt); mkDelivery Sample.key (Sample.message "b") (Ok tt)])
    /\ group_offset b Sample.key = 2%nat /\ topics b = topics (broker Sample.listening).
Proof.
  refine (proj1 (subscriber_drains Sample.listening Sample.listening_reachable Sample.key 0 go_on _)).
  by eexists.
Defined.
