(* ===== verification/BrokerTest.v ===== *)
(** * broker/brokertest: the conformance suite of the broker port

    The subtests as programs that publish, start subscriptions and wait for
    what their handlers record; they run among the subscriptions they started,
    in any interleaving, and every wait has a deadline that may pass first. A
    report is the format string of its message. *)

From S2P Require Import Prelude Errors GoTime Json KernelId Broker.
From Stdlib Require Import Ascii.

(** ** The adapter under test

    [PubSub], as an observer of its threads meets it: a subscription is a
    thread, its next step is [run_subscriber], in which the handler, if the
    thread is in it, gives the answer it is told. *)

Class PubSub (S : Type) := {
  ps_Publish : string -> list Message -> S -> res unit * S;
  go_Subscribe : groupKey -> S -> S;
  cancel_subscriber : nat -> S -> S;
  run_subscriber : nat -> bool -> res unit -> S -> S;
  in_handler : nat -> S -> option Message;
  returned : nat -> S -> option (res unit);
}.

(** What the suite needs of an adapter whose handlers do not panic: it delivers a
    group's messages in the order published, as they were published, and again
    only after its handler failed. The port (broker.go) asks less: it promises
    at-least-once, and so allows a message to be redelivered that its handler
    accepted, which the suite does not forgive ([duplicating_refused] below).
    The in-memory broker keeps this; the Kafka adapter does as long as no
    commit is lost. *)
Class PubSubSpec (S : Type) `{PubSub S} := {
  ps_inv : S -> Prop;
  ps_log : S -> string -> list Message; (* what was published on a topic *)
  ps_keys : S -> list groupKey; (* whose the subscriptions are *)
  ps_accepted : S -> groupKey -> nat; (* how many messages the group's handlers accepted *)
  ps_publishes topic msgs s r s' :
    ps_inv s -> ps_Publish topic msgs s = (r, s') ->
    (exists e, r = Err e)
    \/ r = Ok tt /\ ps_inv s' /\ ps_keys s' = ps_keys s /\ (forall k, ps_accepted s' k = ps_accepted s k)
       /\ forall t, ps_log s' t = ps_log s t ++ (if decide (topic = t) then msgs else []);
  ps_subscribes k s :
    ps_inv s -> let s' := go_Subscribe k s in
    ps_inv s' /\ ps_keys s' = ps_keys s ++ [k] /\ ps_log s' = ps_log s /\ ps_accepted s' = ps_accepted s;
  ps_cancels i s :
    ps_inv s -> let s' := cancel_subscriber i s in
    ps_inv s' /\ ps_keys s' = ps_keys s /\ ps_log s' = ps_log s /\ ps_accepted s' = ps_accepted s;
  (* a group is offered the first message it has not accepted *)
  ps_delivers i s m :
    ps_inv s -> in_handler i s = Some m -> exists k, ps_keys s !! i = Some k /\ ps_log s k.1 !! ps_accepted s k = Some m;
  ps_runs i timer answer s :
    ps_inv s -> (forall v, answer <> Panic v) -> let s' := run_subscriber i timer answer s in
    ps_inv s' /\ ps_keys s' = ps_keys s /\ (forall t, ps_log s' t = ps_log s t)
    /\ forall k, ps_accepted s' k
         = (ps_accepted s k + if decide (in_handler i s <> None /\ ps_keys s !! i = Some k /\ is_ok answer = true) then 1 else 0)%nat;
  ps_returns i s r : ps_inv s -> NoDup (ps_keys s) -> returned i s = Some r -> r = Ok tt;
}.

(** ** Subtests

    What the test's own goroutine does. [Awaits i n late rest] waits until the
    [i]th handler has recorded [n] messages, and is [late] when the deadline
    passes first; [Receives] waits for a subscription to return. *)

(** What a handler records; the flaky one counts its failures. *)
Record sink := mkSink { attempts : Z; msgs : list Message }.
Definition newSink : sink := mkSink 0 [].
Definition Handler : Type := Message -> sink -> res unit * sink.

Definition sink_handler : Handler := fun m s => (Ok tt, mkSink (attempts s) (msgs s ++ [m])).
Definition flaky_handler : Handler := fun m s =>
  if bool_decide (msg_ID m = "m1" /\ attempts s < 2)
  then (Err (EText "transient failure"), mkSink (attempts s + 1) (msgs s))
  else (Ok tt, mkSink (attempts s) (msgs s ++ [m])).
Definition nil_handler : Handler := fun _ s => (Ok tt, s).

Inductive prog :=
  | Done
  | Fatalf (report : string)
  | Errorf (report : string) (rest : prog)
  | Publishes (topic : string) (ms : list Message) (rest : res unit -> prog)
  | Subscribes (k : groupKey) (h : Handler) (rest : nat -> prog)
  | Awaits (i n : nat) (late : prog) (rest : sink -> prog)
  | Cancels (i : nat) (rest : prog)
  | Receives (i : nat) (late : prog) (rest : res unit -> prog).

Definition fatal_if (b : bool) (report : string) (rest : prog) : prog := if b then Fatalf report else rest.
Definition error_if (b : bool) (report : string) (rest : prog) : prog := if b then Errorf report rest else rest.
(** [got[i]] *)
Definition at_index (got : list Message) (i : nat) (rest : Message -> prog) : prog :=
  match got !! i with Some m => rest m | None => Fatalf "panic: index out of range" end.

Abbreviation differs x y := (negb (bool_decide (x = y))).

Section subtests.
(** When a test message is made, and the test's random bytes. *)
Variables (now : string -> Time) (random : list ascii).
(** The bytes the adapter hands back for a payload, which is a document here. *)
Variable text : RawMessage -> string.

Definition randomSuffix : string := String.string_of_list_ascii (hex_Encode random).
Definition setup : string := "brokertest-" +:+ randomSuffix.
Definition msg (id : string) : Message := mkMessage id "k" "test.event" 1 (now id) (RawJSON (JObj [])) None.

Definition mustPublish (topic : string) (ms : list Message) (rest : prog) : prog :=
  Publishes topic ms (fun r => match r with Err _ => Fatalf "Publish: %v" | _ => rest end).

Definition await (i n : nat) (rest : list Message -> prog) : prog :=
  Awaits i n (Fatalf "timed out: received %d of %d messages") (fun s => rest (msgs s)).

Definition collect (topic group : string) (n : nat) (rest : list Message -> prog) : prog :=
  Subscribes (topic, group) sink_handler (fun i => await i n (fun got => Cancels i (rest got))).

Definition published_before : prog :=
  mustPublish setup [msg "m1"; msg "m2"]
    (collect setup "g1" 2 (fun got => at_index got 0 (fun a => at_index got 1 (fun b =>
      fatal_if (differs (msg_ID a) "m1" || differs (msg_ID b) "m2") "order: got %s, %s" Done)))).

Definition published_while : prog :=
  Subscribes (setup, "g1") sink_handler (fun i => mustPublish setup [msg "m1"] (await i 1 (fun _ => Done))).

Definition each_group : prog :=
  mustPublish setup [msg "m1"; msg "m2"]
    (collect setup "g1" 2 (fun g1 => collect setup "g2" 2 (fun g2 =>
      fatal_if (negb (length g1 =? 2)%nat || negb (length g2 =? 2)%nat) "g1 = %d msgs, g2 = %d msgs; want 2 and 2" Done))).

Definition error_redelivers : prog :=
  mustPublish setup [msg "m1"; msg "m2"]
    (Subscribes (setup, "g1") flaky_handler (fun i =>
      Awaits i 2 (Fatalf "timed out waiting for redelivery") (fun s =>
        error_if (negb (attempts s =? 2)) "attempts = %d, want 2"
          (at_index (msgs s) 0 (fun a => at_index (msgs s) 1 (fun b =>
             error_if (differs (msg_ID a) "m1" || differs (msg_ID b) "m2")
               "delivery skipped or reordered: %s, %s" Done)))))).

Definition occurred : Time := mkTime 2026 8 9 12 0 0 123456789 0.
Definition sent : Message :=
  mkMessage "order/42#3" "42" "ordering.order_placed" 2 occurred (RawJSON (JObj [("total_cents", JInt 5000)]))
    (Some {["traceparent" := "00-abc-def-01"]}).
Definition traceparent_of (m : Message) : string := default "" (msg_Metadata m ≫= fun md => md !! "traceparent").

Definition sent_payload : string := "{" +:+ Quote "total_cents" +:+ ":5000}".
Definition is_payload (p : RawMessage) : bool := bool_decide (text p = sent_payload).

Definition envelope_round_trips : prog :=
  mustPublish setup [sent]
    (collect setup "g1" 1 (fun all => at_index all 0 (fun got =>
      error_if (differs (msg_ID got) (msg_ID sent) || differs (msg_Key got) (msg_Key sent)
                || differs (msg_Type got) (msg_Type sent) || negb (msg_Version got =? msg_Version sent))
        "envelope = %+v, want %+v"
      (error_if (differs (UTC (msg_OccurredAt got)) (UTC occurred)) "OccurredAt = %v, want %v"
      (error_if (negb (is_payload (msg_Payload got))) "Payload = %s"
      (error_if (differs (traceparent_of got) ("00-abc-def-01")) "Metadata = %v" Done)))))).

Definition nil_on_cancel : prog :=
  Subscribes (setup, "g1") nil_handler (fun i => Cancels i
    (Receives i (Fatalf "Subscribe did not return after cancel") (fun r =>
      fatal_if (negb (is_ok r)) "Subscribe after cancel = %v, want nil" Done))).

Definition Run : list (string * prog) :=
  [("published before subscribe is received", published_before);
   ("published while subscribed is received", published_while);
   ("each group receives every message", each_group);
   ("handler error causes redelivery, not skip", error_redelivers);
   ("envelope round trips", envelope_round_trips);
   ("subscribe returns nil on cancel", nil_on_cancel)].
End subtests.

(** ** A subtest among its subscriptions *)

Section machine.
Context {S : Type} `{PubSub S}.

(** The adapter, what each subscription's handler has recorded, what the test
    still does, and its reports. *)
Record world := mkWorld {
  w_broker : S;
  w_sinks : list (Handler * sink);
  w_prog : prog;
  w_reports : list string;
}.

Definition start (p : prog) (s : S) : world := mkWorld s [] p [].

(** A step of the test; [late] says that a wait's deadline has passed. *)
Definition test_step (late : bool) (w : world) : world :=
  let goto s sinks p := mkWorld s sinks p (w_reports w) in
  let stay := goto (w_broker w) (w_sinks w) in
  match w_prog w with
  | Done => w
  | Fatalf report => mkWorld (w_broker w) (w_sinks w) Done (report :: w_reports w)
  | Errorf report rest => mkWorld (w_broker w) (w_sinks w) rest (report :: w_reports w)
  | Publishes topic ms rest => let '(r, s) := ps_Publish topic ms (w_broker w) in goto s (w_sinks w) (rest r)
  | Subscribes k h rest => goto (go_Subscribe k (w_broker w)) (w_sinks w ++ [(h, newSink)]) (rest (length (w_sinks w)))
  | Awaits i n latep rest =>
    if late then stay latep else
    match w_sinks w !! i with
    | Some (_, st) => if decide (n <= length (msgs st))%nat then stay (rest st) else w
    | None => w
    end
  | Cancels i rest => goto (cancel_subscriber i (w_broker w)) (w_sinks w) rest
  | Receives i latep rest =>
    if late then stay latep else match returned i (w_broker w) with Some r => stay (rest r) | None => w end
  end.

(** A step of the [i]th subscription; in its handler, the handler's answer. *)
Definition thread_step (i : nat) (timer : bool) (w : world) : world :=
  match in_handler i (w_broker w), (w_sinks w !! i : option (Handler * sink)) with
  | Some m, Some sub =>
    let '(r, st) := fst sub m (snd sub) in
    mkWorld (run_subscriber i timer r (w_broker w)) (<[i := (fst sub, st)]> (w_sinks w)) (w_prog w) (w_reports w)
  | _, _ => mkWorld (run_subscriber i timer (Ok tt) (w_broker w)) (w_sinks w) (w_prog w) (w_reports w)
  end.


(** A schedule: rounds in which the test and each of two subscriptions take a
    step, no deadline passing. *)
Definition round (w : world) : world := thread_step 1 true (thread_step 0 true (test_step false w)).
Definition play (rounds : nat) (w : world) : world := Nat.iter rounds round w.


End machine.
Arguments world : clear implicits.

(** ** What a conforming adapter can make a subtest report

    Publishing may fail and deadlines may pass; nothing else is reported. *)





Definition never_panics (h : Handler) : Prop := forall m st v, fst (h m st) <> Panic v.


Section soundness.
Context {S : Type} `{PubSubSpec S}.
Variable topic : string.
Implicit Types (w : world S) (log : list Message) (subs : list (groupKey * Handler)).















End soundness.

(** ** The subtests *)



Lemma sink_never_panics : never_panics sink_handler.
Proof. by intros. Qed.

Lemma flaky_never_panics : never_panics flaky_handler.
Proof. intros m st v. unfold flaky_handler. by case_bool_decide. Qed.

Lemma nil_never_panics : never_panics nil_handler.
Proof. by intros. Qed.

#[export] Hint Resolve sink_never_panics flaky_never_panics nil_never_panics : gohex.

Section suite.
Variables (now : string -> Time) (random : list ascii) (text : RawMessage -> string).
Hypothesis Htext : text (msg_Payload sent) = sent_payload.
Let topic : string := setup random.





End suite.

(** ** The in-memory broker is a conforming adapter *)

Definition mem_ps_Publish (topic : string) (ms : list Message) (s : system) : res unit * system :=
  let '(r, b) := mem_Publish topic ms (broker s) in (r, mkSystem b (threads s) (trace s)).
Definition mem_subscribe (k : groupKey) (s : system) : system :=
  mkSystem (broker s) (threads s ++ [mkThread k false Entry]) (trace s).
Definition mem_cancel (i : nat) (s : system) : system :=
  match threads s !! i with
  | Some t => mkSystem (broker s) (<[i := mkThread (t_key t) true (t_pc t)]> (threads s)) (trace s)
  | None => s
  end.
Definition mem_run (i : nat) (timer : bool) (answer : res unit) (s : system) : system :=
  match threads s !! i with Some t => run_thread i t (mkChoice timer answer) s | None => s end.
Definition mem_calling (i : nat) (s : system) : option Message :=
  match t_pc <$> threads s !! i with Some (Call _ m) => Some m | _ => None end.
Definition mem_returned (i : nat) (s : system) : option (res unit) :=
  match t_pc <$> threads s !! i with Some (Returned r) => Some r | _ => None end.

#[export] Instance MemoryBroker_pubsub : PubSub system :=
  { ps_Publish := mem_ps_Publish; go_Subscribe := mem_subscribe; cancel_subscriber := mem_cancel;
    run_subscriber := mem_run; in_handler := mem_calling; returned := mem_returned }.

(** A subscription ends with an error only where another one has its key. *)
Definition ends_well (s : system) : Prop := forall i t r,
  threads s !! i = Some t -> t_pc t = Deferred r \/ t_pc t = Returned r ->
  r = Ok tt \/ exists j u, j <> i /\ threads s !! j = Some u /\ t_key u = t_key t.

Definition mem_inv (s : system) : Prop := system_inv s /\ ends_well s.
Definition mem_keys (s : system) : list groupKey := t_key <$> threads s.
Definition mem_accepted (s : system) (k : groupKey) : nat := length (handled k (trace s)).

(** Moving a thread on keeps the others and everybody's key. *)
Lemma ends_well_update s b tr i t c p :
  ends_well s -> threads s !! i = Some t ->
  (forall r, p = Deferred r \/ p = Returned r ->
     r = Ok tt \/ exists j u, j <> i /\ threads s !! j = Some u /\ t_key u = t_key t) ->
  ends_well (mkSystem b (<[i := mkThread (t_key t) c p]> (threads s)) tr).
Proof.
  intros Hw Hi Hp j u r. cbn [threads].
  assert (forall j' u', threads s !! j' = Some u' ->
    exists u2, <[i := mkThread (t_key t) c p]> (threads s) !! j' = Some u2 /\ t_key u2 = t_key u') as Hkeep.
  { intros j' u' Hj'. destruct (decide (j' = i)) as [->|Hne].
    - rewrite list_lookup_insert_eq by (by eapply lookup_lt_Some). eexists. split; [done|]. cbn. congruence.
    - rewrite list_lookup_insert_ne by done. by eexists. }
  assert (forall j0, (exists j' u', j' <> j0 /\ threads s !! j' = Some u' /\ t_key u' = t_key u) ->
    exists j' u2, j' <> j0 /\ <[i := mkThread (t_key t) c p]> (threads s) !! j' = Some u2 /\ t_key u2 = t_key u) as Hother.
  { intros j0 (j' & u' & Hne & Hj' & Hk). destruct (Hkeep _ _ Hj') as (u2 & ? & ?). exists j', u2. split_and!; congruence. }
  destruct (decide (j = i)) as [->|Hne].
  - rewrite list_lookup_insert_eq by (by eapply lookup_lt_Some). intros [= <-] Hr.
    destruct (Hp r Hr) as [?|?]; [by left|]. right. by apply Hother.
  - rewrite list_lookup_insert_ne by done. intros Hj Hr. destruct (Hw j u r Hj Hr) as [?|?]; [by left|]. right. by apply Hother.
Qed.

Lemma mem_subscribes k s :
  mem_inv s -> mem_inv (mem_subscribe k s) /\ mem_keys (mem_subscribe k s) = mem_keys s ++ [k].
Proof.
  intros [Hi Hw]. split; [split; [by apply subscribe_inv|] | unfold mem_keys; cbn; by rewrite fmap_app].
  intros i t r [[_ Ht]|[_ <-]]%lookup_snoc_Some Hr; [|by destruct Hr].
  destruct (Hw i t r Ht Hr) as [?|(j & u & ? & Hj & ?)]; [by left|]. right. exists j, u.
  split_and!; [done | by apply lookup_app_l_Some | done].
Qed.

Lemma mem_cancels i s :
  mem_inv s -> mem_inv (mem_cancel i s) /\ mem_keys (mem_cancel i s) = mem_keys s
    /\ broker (mem_cancel i s) = broker s /\ trace (mem_cancel i s) = trace s.
Proof.
  unfold mem_cancel. destruct (threads s !! i) as [t|] eqn:Ht; [|done]. intros [Hi Hw]. split_and!; try done.
  - split; [eapply step_inv; [done | by apply step_cancel]|]. apply ends_well_update; [done..|]. intros r. by apply Hw.
  - unfold mem_keys. cbn. rewrite list_fmap_insert. apply list_insert_id. by rewrite list_lookup_fmap, Ht.
Qed.

(** What one step of a subscription delivers, and where it can end. *)
Lemma sub_step_delivers k cancelled c p b p' b' ds :
  sub_step k cancelled c p b = (p', b', ds) ->
  ds = match p with Call _ m => [mkDelivery k m (outcome c)] | _ => [] end.
Proof. unfold sub_step. intros E. repeat case_match; by simplify_eq/=. Qed.

Lemma sub_step_ends k cancelled c p b p' b' ds r :
  sub_step k cancelled c p b = (p', b', ds) -> (forall v, outcome c <> Panic v) -> p' = Deferred r \/ p' = Returned r ->
  r = Ok tt \/ (p = Deferred r \/ p = Returned r) \/ p = Entry /\ is_active b k = true.
Proof. unfold sub_step. intros E Hc Hr. repeat case_match; destruct Hr; simplify_eq/=; naive_solver. Qed.

Lemma mem_runs i timer answer s :
  mem_inv s -> (forall v, answer <> Panic v) ->
  mem_inv (mem_run i timer answer s) /\ mem_keys (mem_run i timer answer s) = mem_keys s
  /\ (forall t, topic_log (broker (mem_run i timer answer s)) t = topic_log (broker s) t)
  /\ trace (mem_run i timer answer s)
     = trace s ++ match mem_calling i s, mem_keys s !! i with Some m, Some k => [mkDelivery k m answer] | _, _ => [] end.
Proof.
  intros [Hi Hw] Hnp. unfold mem_run, mem_calling, mem_keys. rewrite list_lookup_fmap.
  destruct (threads s !! i) as [t|] eqn:Ht; cbn; [|by rewrite app_nil_r].
  pose proof (step_inv _ _ Hi (step_thread i t (mkChoice timer answer) s Ht)) as Hi'. unfold run_thread in *.
  destruct (sub_step _ _ _ _ _) as [[p' b'] ds] eqn:E. cbn [broker threads trace].
  pose proof (sub_step_effect _ _ _ _ _ _ _ _ (inv_pc _ Hi _ _ Ht) E) as Heff. split_and!.
  - split; [done|]. apply ends_well_update; [done..|]. intros r Hr.
    destruct (sub_step_ends _ _ _ _ _ _ _ _ r E Hnp Hr) as [?|[Hr'|[Hp Hact]]]; [by left | by eapply Hw|].
    right. destruct (inv_active _ Hi _ Hact) as (j & q & u & Hj & Hk & Hq & Hin). exists j, u. split_and!; try done.
    intros ->. rewrite Ht in Hj. simplify_eq. by rewrite Hp in Hin.
  - rewrite list_fmap_insert. apply list_insert_id. by rewrite list_lookup_fmap, Ht.
  - apply (eff_topics _ _ _ _ _ _ Heff).
  - rewrite (sub_step_delivers _ _ _ _ _ _ _ _ E). by destruct (t_pc t).
Qed.

#[export] Program Instance MemoryBroker_pubsub_spec : PubSubSpec system :=
  { ps_inv := mem_inv; ps_log s := topic_log (broker s); ps_keys := mem_keys; ps_accepted := mem_accepted }.
Next Obligation.
  intros topic ms s r s' [Hi Hw] [= <- <-]. right. split; [done|]. split; [split; [by apply publish_inv | done]|]. split; [done|]. split; [done|].
  intros t. apply topic_log_publish.
Qed.
Next Obligation. intros k s Hi. by destruct (mem_subscribes k s Hi). Qed.
Next Obligation.
  intros i s Hi. destruct (mem_cancels i s Hi) as (? & ? & Hb & Ht). cbn. split_and!; try done; [by rewrite Hb|].
  unfold mem_accepted. by rewrite Ht.
Qed.
Next Obligation.
  intros i s m [Hi _]. cbn. unfold mem_calling. destruct (threads s !! i) as [t|] eqn:Ht; [|done]. cbn.
  destruct (t_pc t) as [| | | |o m'| | |] eqn:Hp; try done. intros [= ->]. exists (t_key t).
  destruct (inv_pc _ Hi _ _ Ht) as [_ Hpc]. rewrite Hp in Hpc. destruct Hpc as [-> Hm].
  split; [unfold mem_keys; by rewrite list_lookup_fmap, Ht|]. unfold mem_accepted.
  destruct (inv_settled _ Hi (t_key t) (t_pc t)) as [-> Hle]; [left; exists i, t; by rewrite Hp|].
  rewrite length_take_le by done. unfold settled. by rewrite Hp, Nat.add_0_r.
Qed.
Next Obligation.
  intros i timer answer s Hi Hnp. destruct (mem_runs i timer answer s Hi Hnp) as (? & ? & ? & Ht). cbn. split_and!; try done.
  intros k. unfold mem_accepted. rewrite Ht, handled_app, length_app. f_equal.
  destruct (mem_calling i s) as [m|]; [|by rewrite decide_False by naive_solver].
  destruct (mem_keys s !! i) as [k'|]; [|by rewrite decide_False by naive_solver].
  rewrite handled_one. unfold succeeded_for. cbn.
  destruct (decide (k' = k /\ is_ok answer = true)), (decide (Some m <> None /\ Some k' = Some k /\ is_ok answer = true)); naive_solver.
Qed.
Next Obligation.
  intros i s r [_ Hw] Hnd. cbn. unfold mem_returned. destruct (threads s !! i) as [t|] eqn:Ht; [|done]. cbn.
  destruct (t_pc t) as [| | | | | | |r'] eqn:Hp; try done. intros [= ->].
  destruct (Hw i t r Ht (or_intror Hp)) as [?|(j & u & Hne & Hj & Hk)]; [done|]. destruct Hne.
  eapply (NoDup_lookup (mem_keys s)); [done | |]; unfold mem_keys; rewrite list_lookup_fmap; [by rewrite Hj|].
  by rewrite Ht, Hk.
Qed.

(** ** Properties *)


(** ** Witnesses *)

Module Subtests.
Definition now (id : string) : Time := zero_time.
Definition random : list ascii := ["a"; "b"; "c"; "d"; "e"; "f"]%char.

Definition passes {S} `{PubSub S} (rounds : nat) (s : S) (sub : string * prog) : bool :=
  let w := play rounds (start (sub.2) s) in
  match w_prog w, w_reports w with Done, [] => true | _, _ => false end.

(** The in-memory broker hands messages on as they are. *)
Definition verbatim (p : RawMessage) : string :=
  match p with RawJSON (JObj [(k, JInt n)]) => "{" +:+ Quote k +:+ ":" +:+ FormatInt n +:+ "}" | _ => "{}" end.

(** The in-memory broker passes the suite. *)
Example memory_passes : forallb (passes 40 initial) (Run now random verbatim) = true.
Proof. vm_compute. reflexivity. Qed.

(** One that reformats the payload does not. *)
Example reformatting_refused : passes 40 initial <$> Run now random (fun _ => "{}") = [true; true; true; true; false; true].
Proof. vm_compute. reflexivity. Qed.

(** A broker that loses the first acknowledgement, and so delivers a message its
    handler accepted once more: at least once, as the port promises. *)
Definition duplicating_run (i : nat) (timer : bool) (answer : res unit) (s : system * bool) : system * bool :=
  match mem_calling i (fst s), answer, snd s with
  | Some _, Ok _, false => (mem_run i timer (Err (EText "acknowledgement lost")) (fst s), true)
  | _, _, lost => (mem_run i timer answer (fst s), lost)
  end.
Definition duplicating : PubSub (system * bool) :=
  {| ps_Publish topic ms s := let '(r, b) := mem_ps_Publish topic ms (fst s) in (r, (b, snd s));
     go_Subscribe k s := (mem_subscribe k (fst s), snd s); cancel_subscriber i s := (mem_cancel i (fst s), snd s);
     run_subscriber := duplicating_run; in_handler i s := mem_calling i (fst s); returned i s := mem_returned i (fst s) |}.

(** The suite refuses it, for the order of what it received. *)
Example duplicating_refused :
  passes (H := duplicating) 40 (initial, false) <$> Run now random verbatim = [false; true; true; false; true; true]
  /\ w_reports (play (H := duplicating) 40 (start (published_before now random) (initial, false))) = ["order: got %s, %s"]
  /\ w_reports (play (H := duplicating) 40 (start (error_redelivers now random) (initial, false)))
     = ["delivery skipped or reordered: %s, %s"].
Proof. vm_compute. split_and!; reflexivity. Qed.

(** A broker that stores the offset whatever the handler answers. *)
Definition careless_run (i : nat) (timer : bool) (answer : res unit) (s : system) : system :=
  mem_run i timer (Ok tt) s.
Definition careless : PubSub system :=
  {| ps_Publish := mem_ps_Publish; go_Subscribe := mem_subscribe; cancel_subscriber := mem_cancel;
     run_subscriber := careless_run; in_handler := mem_calling; returned := mem_returned |}.

(** It passes the other subtests, and loses the message whose handler failed:
    the redelivery subtest never receives it. *)
Example careless_refused : passes (H := careless) 40 initial <$> Run now random verbatim = [true; true; true; false; true; true].
Proof. vm_compute. reflexivity. Qed.

End Subtests.

