(* ===== verification/Envelope.v ===== *)
(** * The JSON form of the message envelope (broker/broker.go)

    The struct tags of [broker.Message], as the saga stream and the Postgres
    inbox store it. *)

From S2P Require Import Prelude Errors Utf8 GoTime Json Broker.

Definition enc_message (m : Message) : res json :=
  try t := enc_time (msg_OccurredAt m) in
  try p := enc_raw (msg_Payload m) in
  Ok (JObj ([("id", enc_string (msg_ID m)); ("key", enc_string (msg_Key m)); ("type", enc_string (msg_Type m));
             ("version", enc_int (msg_Version m)); ("occurred_at", t); ("payload", p)]
            ++ omit_empty "metadata" (msg_Metadata m))).

(** Storing one member of the object into the struct. *)
Definition set_message (key : string) (v : json) (m : Message) : res Message :=
  on_field "id" (dec_string (msg_ID m)) (fun x => mkMessage x (msg_Key m) (msg_Type m) (msg_Version m) (msg_OccurredAt m) (msg_Payload m) (msg_Metadata m)) key v
  (on_field "key" (dec_string (msg_Key m)) (fun x => mkMessage (msg_ID m) x (msg_Type m) (msg_Version m) (msg_OccurredAt m) (msg_Payload m) (msg_Metadata m)) key v
  (on_field "type" (dec_string (msg_Type m)) (fun x => mkMessage (msg_ID m) (msg_Key m) x (msg_Version m) (msg_OccurredAt m) (msg_Payload m) (msg_Metadata m)) key v
  (on_field "version" (dec_int (msg_Version m)) (fun x => mkMessage (msg_ID m) (msg_Key m) (msg_Type m) x (msg_OccurredAt m) (msg_Payload m) (msg_Metadata m)) key v
  (on_field "occurred_at" (dec_time (msg_OccurredAt m)) (fun x => mkMessage (msg_ID m) (msg_Key m) (msg_Type m) (msg_Version m) x (msg_Payload m) (msg_Metadata m)) key v
  (on_field "payload" (dec_raw (msg_Payload m)) (fun x => mkMessage (msg_ID m) (msg_Key m) (msg_Type m) (msg_Version m) (msg_OccurredAt m) x (msg_Metadata m)) key v
  (on_field "metadata" (dec_map (msg_Metadata m)) (fun x => mkMessage (msg_ID m) (msg_Key m) (msg_Type m) (msg_Version m) (msg_OccurredAt m) (msg_Payload m) x) key v
  (Ok m))))))).

Definition dec_message (old : Message) (j : json) : res Message := dec_struct set_message old j.

(** The messages the form carries faithfully: valid UTF-8, an int64 version, a
    payload that is a JSON text, metadata that is nil or not empty. *)
Record message_valid (m : Message) : Prop := {
  mv_ID : utf8_valid (msg_ID m);
  mv_Key : utf8_valid (msg_Key m);
  mv_Type : utf8_valid (msg_Type m);
  mv_Version : in_int64 (msg_Version m);
  mv_OccurredAt : time_valid (msg_OccurredAt m);
  mv_Payload : exists doc, msg_Payload m = RawJSON doc;
  mv_Metadata : optional_map_valid (msg_Metadata m);
}.

(** Settle a decoded member into the struct. *)
Ltac fields := cbn [res_bind msg_ID msg_Key msg_Type msg_Version msg_OccurredAt msg_Payload msg_Metadata].

Lemma dec_enc_message m :
  message_valid m -> exists doc, enc_message m = Ok doc /\ dec_message zero_Message doc = Ok m.
Proof.
  intros [Hid Hkey Htype Hver Htime [p Hp] Hmd]. destruct m as [id key type ver time pay md]. simpl in *. subst pay.
  unfold enc_message. simpl. rewrite enc_time_valid by done. simpl. eexists. split; [done|].
  unfold dec_message, dec_struct, zero_Message. cbn [app].
  member_step. rewrite dec_enc_string by done. fields.
  member_step. rewrite dec_enc_string by done. fields.
  member_step. rewrite dec_enc_string by done. fields.
  member_step. rewrite dec_enc_int by done. fields.
  member_step. rewrite dec_enc_time by done. fields.
  member_step. rewrite dec_enc_raw. fields.
  unfold omit_empty. destruct md as [md|]; [|done]. destruct Hmd as [Hne Hmd].
  destruct (decide (md = ∅)); [done|].
  member_step. by rewrite dec_enc_map.
Qed.
