(* ===== verification/Cqrs.v ===== *)
(** * cqrs/command.go and cqrs/query.go: the command and query buses

    A handler is a Go closure over some outside world [W]: it takes the world
    and returns its result and the world it leaves. Waiting is an operation of
    the environment, which may change the world and may end because the
    context did. *)

From S2P Require Import Prelude Errors Checkpoint.

Class Command (Cmd : Type) := CommandName : Cmd -> string.
Class Query (Q : Type) := QueryName : Q -> string.

(** [select { case <-ctx.Done(): ... case <-time.After(d): ... }]: [true] when
    the timer won. *)
Class Clock (W : Type) := after : Context -> Z -> W -> bool * W.

Definition Millisecond : Z := 1000000.

Record RetryPolicy := mkRetryPolicy {
  Attempts : Z;
  Backoff : Z;
  ShouldRetry : option (error -> bool);
}.

(** The zero [RetryPolicy]. *)
Definition zero_policy : RetryPolicy := mkRetryPolicy 0 0 None.

Definition retry_infrastructure (err : error) : bool :=
  match AsDomainError err with Some _ => false | None => true end.

Definition withDefaults (p : RetryPolicy) : RetryPolicy :=
  {| Attempts := if decide (Attempts p <= 0) then 3 else Attempts p;
     Backoff := if decide (Backoff p <= 0) then 25 * Millisecond else Backoff p;
     ShouldRetry := match ShouldRetry p with None => Some retry_infrastructure | f => f end |}.

Section bus.
Context {Cmd W : Type} `{Command Cmd} `{Clock W}.

Definition HandlerFunc : Type := Context -> Cmd -> W -> res unit * W.
Definition Middleware : Type := HandlerFunc -> HandlerFunc.

Record Bus := mkBus {
  handlers : gmap string HandlerFunc;
  middleware : list Middleware;
  retry : RetryPolicy;
}.

Definition Option : Type := Bus -> Bus.

Definition WithMiddleware (mw : list Middleware) : Option :=
  fun b => mkBus (handlers b) (middleware b ++ mw) (retry b).

Definition WithRetry (p : RetryPolicy) : Option :=
  fun b => mkBus (handlers b) (middleware b) p.

Definition NewBus (opts : list Option) : Bus :=
  let b := fold_left (fun b opt => opt b) opts (mkBus ∅ [] zero_policy) in
  mkBus (handlers b) (middleware b) (withDefaults (retry b)).

(** The closure [Handle] stores: [cmd.(C)] panics on another type. *)
Definition typed_handler (C : GoType Cmd) (fn : Context -> carrier C -> W -> res unit * W) : HandlerFunc :=
  fun ctx cmd w =>
    match type_assert C cmd with
    | Some c => fn ctx c w
    | None => (Panic "interface conversion", w)
    end.

Definition Handle (C : GoType Cmd) (fn : Context -> carrier C -> W -> res unit * W) (b : Bus) : res Bus :=
  let name := CommandName (to_interface C (zero_value C)) in
  if decide (name = "") then Panic "cqrs: Handle: empty command name" else
  match handlers b !! name with
  | Some _ => Panic ("cqrs: Handle: duplicate handler for " +:+ Quote name)
  | None => Ok (mkBus (<[name := typed_handler C fn]> (handlers b)) (middleware b) (retry b))
  end.

(** The retry loop with [left] = [Attempts - attempt] tries left after the
    current one. *)
Fixpoint retry_loop (should : option (error -> bool)) (backoff : Z) (left : nat) (h : HandlerFunc)
    (ctx : Context) (cmd : Cmd) (w : W) : res unit * W :=
  match h ctx cmd w with
  | (Err err, w1) =>
    match left with
    | O => (Err err, w1)
    | S left' =>
      match should with
      | None => (Panic "nil function call", w1)
      | Some retryable =>
        if negb (retryable err) then (Err err, w1) else
        let '(fired, w2) := after ctx backoff w1 in
        if fired then retry_loop should backoff left' h ctx cmd w2 else (Err err, w2)
      end
    end
  | done => done
  end.

Definition withRetry (b : Bus) (h : HandlerFunc) : HandlerFunc :=
  retry_loop (ShouldRetry (retry b)) (Backoff (retry b)) (Z.to_nat (Attempts (retry b) - 1)) h.

(** [for i := len(mw) - 1; i >= 0; i-- { final = mw[i](final) }] *)
Fixpoint wrap_down {M F : Type} (apply : M -> F -> F) (mw : list M) (n : nat) (final : F) : F :=
  match n with
  | O => final
  | S i => match mw !! i with
           | Some m => wrap_down apply mw i (apply m final)
           | None => final
           end
  end.

Definition no_handler (cmd : Cmd) : error :=
  EText ("cqrs: no handler for command " +:+ Quote (CommandName cmd)).

Definition Dispatch (b : Bus) (ctx : Context) (cmd : Cmd) (w : W) : res unit * W :=
  match handlers b !! CommandName cmd with
  | None => (Err (no_handler cmd), w)
  | Some h =>
    wrap_down (fun (m : Middleware) => m) (middleware b) (length (middleware b)) (withRetry b h) ctx cmd w
  end.
End bus.
Arguments HandlerFunc : clear implicits.
Arguments Middleware : clear implicits.
Arguments Bus : clear implicits.
Arguments Option : clear implicits.
Arguments mkBus {Cmd W} _ _ _.

(** ** The query bus *)

Section query.
Context {Q V W : Type} `{Query Q}.

Definition QueryHandlerFunc : Type := Context -> Q -> W -> res V * W.
Definition QueryMiddleware : Type := QueryHandlerFunc -> QueryHandlerFunc.

Record QueryBus := mkQueryBus {
  query_handlers : gmap string QueryHandlerFunc;
  query_middleware : list QueryMiddleware;
}.

Definition NewQueryBus (mw : list QueryMiddleware) : QueryBus := mkQueryBus ∅ mw.

Definition typed_query (C : GoType Q) (R : GoType V)
    (fn : Context -> carrier C -> W -> res (carrier R) * W) : QueryHandlerFunc :=
  fun ctx q w =>
    match type_assert C q with
    | Some c => let '(r, w') := fn ctx c w in (try x := r in Ok (to_interface R x), w')
    | None => (Panic "interface conversion", w)
    end.

Definition HandleQuery (C : GoType Q) (R : GoType V)
    (fn : Context -> carrier C -> W -> res (carrier R) * W) (b : QueryBus) : res QueryBus :=
  let name := QueryName (to_interface C (zero_value C)) in
  if decide (name = "") then Panic "cqrs: HandleQuery: empty query name" else
  match query_handlers b !! name with
  | Some _ => Panic ("cqrs: HandleQuery: duplicate handler for " +:+ Quote name)
  | None => Ok (mkQueryBus (<[name := typed_query C R fn]> (query_handlers b)) (query_middleware b))
  end.

Definition query_Dispatch (b : QueryBus) (ctx : Context) (q : Q) (w : W) : res V * W :=
  match query_handlers b !! QueryName q with
  | None => (Err (EText ("cqrs: no handler for query " +:+ Quote (QueryName q))), w)
  | Some h =>
    wrap_down (fun (m : QueryMiddleware) => m) (query_middleware b) (length (query_middleware b)) h ctx q w
  end.

(** [Ask[R]]; [type_name] renders the dynamic type of a value ([%T]). *)
Definition Ask (R : GoType V) (type_name : V -> string) (ctx : Context) (b : QueryBus) (q : Q) (w : W)
    : res (carrier R) * W :=
  let '(r, w') := query_Dispatch b ctx q w in
  (try v := r in
   match type_assert R v with
   | Some x => Ok x
   | None => Err (EText ("cqrs: query " +:+ Quote (QueryName q) +:+ " returned " +:+ type_name v +:+
                         ", caller wants " +:+ type_name (to_interface R (zero_value R))))
   end, w').
End query.
Arguments QueryHandlerFunc : clear implicits.
Arguments QueryMiddleware : clear implicits.
Arguments QueryBus : clear implicits.

(** ** Facts *)

(** Middleware listed first is outermost. *)
Lemma wrap_down_foldr {M F} (apply : M -> F -> F) (mw : list M) (final : F) :
  wrap_down apply mw (length mw) final = foldr apply final mw.
Proof.
  assert (forall n f, (n <= length mw)%nat -> wrap_down apply mw n f = foldr apply f (take n mw)) as Haux.
  { induction n as [|n IH]; intros f Hn; [done|]. simpl.
    destruct (lookup_lt_is_Some_2 mw n Hn) as [m Hm]. rewrite Hm, (IH _ ltac:(lia)).
    by rewrite (take_S_r _ _ _ Hm), foldr_app. }
  by rewrite Haux, firstn_all.
Qed.

Section retry_facts.
Context {Cmd W : Type} `{Command Cmd} `{Clock W}.
Context (h : HandlerFunc Cmd W) (retryable : error -> bool) (backoff : Z) (ctx : Context) (cmd : Cmd).

(** A run of attempts: each but the last returned a retryable error and the
    wait after it ran its course. [ended] says that the run stopped because
    the context ended during the wait after the last attempt. *)
Inductive tries : list (res unit) -> bool -> W -> W -> Prop :=
  | tries_last w r w' : h ctx cmd w = (r, w') -> tries [r] false w w'
  | tries_ended w e w1 w' :
      h ctx cmd w = (Err e, w1) -> retryable e = true -> after ctx backoff w1 = (false, w') ->
      tries [Err e] true w w'
  | tries_again w e w1 w2 rs ended w' :
      h ctx cmd w = (Err e, w1) -> retryable e = true -> after ctx backoff w1 = (true, w2) ->
      tries rs ended w2 w' -> tries (Err e :: rs) ended w w'.

Lemma retry_loop_tries left w r w' :
  retry_loop (Some retryable) backoff left h ctx cmd w = (r, w') ->
  exists rs ended, tries rs ended w w' /\ last rs = Some r
    /\ (1 <= length rs <= S left)%nat
    /\ ((length rs <= left)%nat -> ended = false -> forall e, r = Err e -> retryable e = false).
Proof.
  revert w. induction left as [|left IH]; intros w; simpl; destruct (h ctx cmd w) as [[[]|e|m] w1] eqn:Hh.
  all: try (intros [= <- <-]; eexists [_], false; split_and!;
            [by apply tries_last | done | simpl; lia | simpl; lia | first [done | simpl; intros; lia]]).
  - destruct (retryable e) eqn:He; simpl.
    2: { intros [= <- <-]. exists [Err e], false. split_and!; [by apply tries_last | done | simpl; lia..|].
         intros _ _ e' [= <-]. done. }
    destruct (after ctx backoff w1) as [[] w2] eqn:Ha.
    + intros (rs & ended & Ht & Hl & Hn & Hc)%IH. exists (Err e :: rs), ended.
      split_and!; [by eapply tries_again | | simpl; lia | simpl; lia |].
      * destruct rs; [simpl in Hn; lia | done].
      * simpl. intros Hle. apply Hc. lia.
    + intros [= <- <-]. exists [Err e], true. split_and!; [by eapply tries_ended | done | simpl; lia..| done].
Qed.

Lemma tries_retryable rs ended w w' :
  tries rs ended w w' -> Forall (fun r => exists e, r = Err e /\ retryable e = true) (removelast rs).
Proof.
  induction 1; simpl; [constructor..|].
  destruct rs; [constructor|]. constructor; [by eexists | done].
Qed.
End retry_facts.

Section bus_facts.
Context {Cmd W : Type} `{Command Cmd} `{Clock W}.

Lemma NewBus_policy (opts : list (Option Cmd W)) :
  1 <= Attempts (retry (NewBus opts)) /\ exists f, ShouldRetry (retry (NewBus opts)) = Some f.
Proof.
  unfold NewBus. simpl. unfold withDefaults. simpl. split; [case_decide; lia|].
  destruct (ShouldRetry _); eauto.
Qed.

Lemma Handle_lookup (C : GoType Cmd) `{!GoTypeOk C} fn (b b' : Bus Cmd W) :
  Handle C fn b = Ok b' ->
  handlers b' !! CommandName (to_interface C (zero_value C)) = Some (typed_handler C fn)
  /\ (forall n, n <> CommandName (to_interface C (zero_value C)) -> handlers b' !! n = handlers b !! n)
  /\ retry b' = retry b /\ middleware b' = middleware b.
Proof.
  unfold Handle. case_decide; [done|]. destruct (handlers b !! _); [done|]. intros [= <-]. simpl.
  split_and!; [by rewrite lookup_insert_eq | | done..].
  intros n Hn. by rewrite lookup_insert_ne.
Qed.

Lemma typed_handler_call (C : GoType Cmd) `{!GoTypeOk C} fn ctx c (w : W) :
  typed_handler C fn ctx (to_interface C c) w = fn ctx c w.
Proof. unfold typed_handler. by rewrite assert_to_interface. Qed.
End bus_facts.

(** The chain [Dispatch] runs, the first listed outermost. *)
Definition chain {Cmd W} (mw : list (Middleware Cmd W)) (final : HandlerFunc Cmd W) : HandlerFunc Cmd W :=
  foldr (fun (m : Middleware Cmd W) (next : HandlerFunc Cmd W) => m next) final mw.

(** ** Middleware that passes a command on

    It calls the rest of the chain exactly once, with the command it was given
    (in a context of its own), and hands on the answer; what else it does to the
    world, before and after, is [aside]. *)
Definition passes {Cmd W} (aside : W -> W -> Prop) (m : Middleware Cmd W) : Prop :=
  forall next ctx cmd w, exists ctx' w1, aside w w1 /\
    let '(r, w2) := next ctx' cmd w1 in exists w', m next ctx cmd w = (r, w') /\ aside w2 w'.

Lemma chain_passes {Cmd W} (aside : W -> W -> Prop) (mw : list (Middleware Cmd W)) final ctx cmd w r w' :
  Forall (passes aside) mw -> chain mw final ctx cmd w = (r, w') ->
  exists ctx' w1 w2, rtc aside w w1 /\ final ctx' cmd w1 = (r, w2) /\ rtc aside w2 w'.
Proof.
  intros Hall. revert ctx w r w'. induction Hall as [|m mw Hm _ IH]; intros ctx w r w' Hrun.
  { exists ctx, w, w'. split_and!; [apply rtc_refl | exact Hrun | apply rtc_refl]. }
  change (m (chain mw final) ctx cmd w = (r, w')) in Hrun.
  destruct (Hm (chain mw final) ctx cmd w) as (ctx1 & w1 & Hb & Hn).
  destruct (chain mw final ctx1 cmd w1) as [r1 w2] eqn:E. destruct Hn as (w3 & Hm' & Ha).
  rewrite Hm' in Hrun. injection Hrun as <- <-.
  destruct (IH _ _ _ _ E) as (ctx' & wa & wb & Hb' & Hf & Ha').
  exists ctx', wa, wb. split_and!; [by eapply rtc_l | exact Hf | by eapply rtc_r].
Qed.

Lemma Dispatch_passes {Cmd W} `{Command Cmd} `{Clock W} (aside : W -> W -> Prop) (b : Bus Cmd W) h ctx cmd w r w' :
  Forall (passes aside) (middleware b) -> handlers b !! CommandName cmd = Some h ->
  Dispatch b ctx cmd w = (r, w') ->
  exists ctx' w1 w2, rtc aside w w1 /\ withRetry b h ctx' cmd w1 = (r, w2) /\ rtc aside w2 w'.
Proof. intros Hall Hh. unfold Dispatch. rewrite Hh, wrap_down_foldr. by apply chain_passes. Qed.

(** A Go command type: its assertion is exact and [CommandName] is constant. *)
Class CommandType {Cmd} `{Command Cmd} (C : GoType Cmd) := {
  command_type_ok :: GoTypeOk C;
  command_name_const c : CommandName (to_interface C c) = CommandName (to_interface C (zero_value C));
}.

(** ** Properties *)

(** C34: The error split of the command bus. With the policy of any [NewBus] and
    any middleware that passes commands on (the services' one does:
    [Tracing.command_middleware_passes]), a dispatch runs the handler at least
    once and at most [Attempts] times, all tries inside the middleware, which
    works before the first and after the last; it returns the last attempt's
    result; every earlier attempt failed with an error the policy calls
    retryable, and the wait after it ran its course; it stops short of
    [Attempts] with an error only when that error is not retryable or the
    context ended during the wait. On a bus built without [WithRetry] that
    is three attempts, and a domain error is never followed by another. *)
Theorem dispatch_retries_within_policy {Cmd W} `{Command Cmd} `{Clock W}
    (opts : list (Option Cmd W)) (b : Bus Cmd W) (h : HandlerFunc Cmd W) (aside : W -> W -> Prop)
    (ctx : Context) (cmd : Cmd) (w w' : W) (r : res unit)
    (Hpolicy : retry b = retry (NewBus opts)) (Hmw : Forall (passes aside) (middleware b))
    (Hh : handlers b !! CommandName cmd = Some h)
    (Hrun : Dispatch b ctx cmd w = (r, w')) :
  exists retryable rs ended ctx' w1 w2,
    ShouldRetry (retry b) = Some retryable
    /\ rtc aside w w1
    /\ tries h retryable (Backoff (retry b)) ctx' cmd rs ended w1 w2
    /\ rtc aside w2 w'
    /\ last rs = Some r /\ 1 <= zlen rs <= Attempts (retry b)
    /\ (zlen rs < Attempts (retry b) -> ended = false -> forall e, r = Err e -> retryable e = false)
    /\ (retry b = retry (NewBus (Cmd := Cmd) (W := W) []) -> Attempts (retry b) = 3
        /\ forall i e d, rs !! i = Some (Err e) -> AsDomainError e = Some d -> S i = length rs).
Proof.
  destruct (Dispatch_passes aside b h ctx cmd w r w' Hmw Hh Hrun) as (ctx' & w1 & w2 & Hbefore & Htry & Hafter).
  unfold withRetry in Htry.
  rewrite Hpolicy in *. destruct (NewBus_policy opts) as [Hatt [f Hf]]. rewrite Hf in *.
  destruct (retry_loop_tries _ _ _ _ _ _ _ _ _ Htry) as (rs & ended & Ht & Hl & Hn & Hc).
  exists f, rs, ended, ctx', w1, w2. split_and!; try done; unfold zlen; try lia.
  { intros Hlt. apply Hc. lia. }
  intros Hdef. rewrite Hdef in *. split; [done|]. intros i e d Hi Hd. simpl in Hf. injection Hf as <-.
  destruct (decide (S i = length rs)) as [|Hne]; [done|]. apply tries_retryable in Ht.
  assert (removelast rs !! i = Some (Err e)) as Hi'.
  { destruct rs as [|x rs _] using rev_ind; [done|]. rewrite removelast_last.
    rewrite length_app in Hne. simpl in Hne. apply lookup_app_Some in Hi as [?|[Hge Hi]]; [done|].
    destruct (i - length rs)%nat eqn:E; [lia | done]. }
  destruct (Forall_lookup_1 _ _ _ _ Ht Hi') as (e' & [= <-] & He).
  unfold retry_infrastructure in He. by rewrite Hd in He.
Qed.

(** Routing. Registering a handler for a command type makes every command of
    that type go, with its own value, to that handler and to no other, under
    the bus's retry policy and inside its middleware, the first listed
    outermost; every other command goes where it went before; registering the
    type again panics, and a command without a handler is an error that runs
    nothing. *)
Theorem handle_routes_commands {Cmd W} `{Command Cmd} `{Clock W} (C : GoType Cmd) `{!CommandType C}
    (fn fn' : Context -> carrier C -> W -> res unit * W) (b b' : Bus Cmd W) (ctx : Context) (w : W)
    (Hreg : Handle C fn b = Ok b') :
  (forall c, Dispatch b' ctx (to_interface C c) w
     = foldr (fun m final => m final) (withRetry b' (typed_handler C fn)) (middleware b) ctx (to_interface C c) w
     /\ typed_handler C fn ctx (to_interface C c) w = fn ctx c w)
  /\ (forall cmd, CommandName cmd <> CommandName (to_interface C (zero_value C)) ->
        Dispatch b' ctx cmd w = Dispatch b ctx cmd w)
  /\ is_ok (Handle C fn' b') = false
  /\ (forall cmd, handlers b' !! CommandName cmd = None -> Dispatch b' ctx cmd w = (Err (no_handler cmd), w)).
Proof.
  destruct (Handle_lookup C fn b b' Hreg) as (Hl & Hother & Hretry & Hmw). split_and!.
  - intros c. unfold Dispatch. rewrite command_name_const, Hl, wrap_down_foldr, Hmw.
    split; [done | apply typed_handler_call, command_type_ok].
  - intros cmd Hne. unfold Dispatch, withRetry. by rewrite Hother, Hmw, Hretry by done.
  - unfold Handle. case_decide; [done|]. by rewrite Hl.
  - intros cmd Hn. unfold Dispatch. by rewrite Hn.
Qed.

(** Asking. A query of a registered type, dispatched on a bus without
    middleware, returns the value (or the error) its handler computed; asking
    for another result type is an error, never a panic. *)
Theorem ask_returns_answer {Q V W} `{Query Q} (C : GoType Q) (R R' : GoType V)
    `{!GoTypeOk C} `{!GoTypeOk R} (type_name : V -> string)
    (fn : Context -> carrier C -> W -> res (carrier R) * W) (b b' : QueryBus Q V W) (ctx : Context) (w : W)
    (q : carrier C)
    (Hname : QueryName (to_interface C q) = QueryName (to_interface C (zero_value C)))
    (Hmw : query_middleware b = []) (Hreg : HandleQuery C R fn b = Ok b') :
  Ask R type_name ctx b' (to_interface C q) w = fn ctx q w
  /\ ((forall x, type_assert R' (to_interface R x) = None) ->
      forall x, fst (fn ctx q w) = Ok x ->
      exists e, Ask R' type_name ctx b' (to_interface C q) w = (Err e, snd (fn ctx q w))).
Proof.
  unfold HandleQuery in Hreg. case_decide; [done|].
  destruct (query_handlers b !! _); [done|]. injection Hreg as <-.
  assert (query_Dispatch (mkQueryBus (<[QueryName (to_interface C (zero_value C)) := typed_query C R fn]>
            (query_handlers b)) (query_middleware b)) ctx (to_interface C q) w
          = (try x := fst (fn ctx q w) in Ok (to_interface R x), snd (fn ctx q w))) as Hd.
  { unfold query_Dispatch. simpl. rewrite Hname, lookup_insert_eq, Hmw. simpl.
    unfold typed_query. rewrite assert_to_interface. by destruct (fn ctx q w). }
  unfold Ask. rewrite Hd. destruct (fn ctx q w) as [[x|e|m] w1] eqn:E; simpl; split; try done.
  - by rewrite assert_to_interface.
  - intros Hno x' [= <-]. rewrite Hno. by eexists.
Qed.

(** ** Witnesses *)

Module Sample.
(** One command type and one other; the world counts handler runs. *)
Inductive cmd := Pay (amount : Z) | Refund.
#[export] Instance cmd_name : Command cmd :=
  fun c => match c with Pay _ => "billing.pay" | Refund => "billing.refund" end.
#[export] Instance clock : Clock nat := fun _ _ w => (true, w).
Definition Pay_type : GoType cmd :=
  mkGoType _ Z 0 Pay (fun c => match c with Pay n => Some n | _ => None end).
#[export] Instance Pay_ok : CommandType Pay_type.
Proof. split; [split; [done | by intros [] ? [= ->]] | done]. Qed.
Definition flaky : Context -> Z -> nat -> res unit * nat :=
  fun _ n w => (if (w <? 1)%nat then Err (EText "connection reset")
                else if n <=? 0 then Err (EDomain (NewDomainError "invalid_amount" "")) else Ok tt, S w).
Definition bus : Bus cmd nat :=
  mkBus {["billing.pay" := typed_handler Pay_type flaky]} [] (withDefaults zero_policy).
(** A middleware that counts a hundred on the way out. *)
Definition counting : Middleware cmd nat := fun next ctx cmd w => let '(r, w') := next ctx cmd w in (r, (w' + 100)%nat).
Definition counted : Bus cmd nat := mkBus (handlers bus) [counting] (retry bus).
Definition counts (w w' : nat) : Prop := w' = w \/ w' = (w + 100)%nat.
Lemma counting_passes : passes counts counting.
Proof.
  intros next ctx c w. exists ctx, w. split; [by left|]. unfold counting. destruct (next ctx c w) as [r w2].
  eexists. split; [reflexivity | by right].
Qed.

#[export] Instance query_name : Query Z := fun _ => "orders.count".
Definition Z_type : GoType Z := mkGoType _ Z 0 (fun z => z) Some.
#[export] Instance Z_ok : GoTypeOk Z_type.
Proof. split; [done | by intros ?? [= ->]]. Qed.
Definition successor : Context -> Z -> nat -> res Z * nat := fun _ q w => (Ok (q + 1), w).
Definition qbus : QueryBus Z Z nat := mkQueryBus {["orders.count" := typed_query Z_type Z_type successor]} [].
End Sample.
Import Sample.

(** The handler fails once, then rejects the amount: two attempts, inside the
    middleware. *)
Lemma dispatch_retries_within_policy_witness :
  exists retryable rs ended ctx' w1 w2,
    ShouldRetry (retry counted) = Some retryable
    /\ tries (typed_handler Pay_type flaky) retryable (Backoff (retry counted)) ctx' (Pay 0) rs ended w1 w2
    /\ rtc counts w2 102%nat
    /\ last rs = Some (Err (EDomain (NewDomainError "invalid_amount" "")))
    /\ 1 <= zlen rs <= Attempts (retry counted).
Proof.
  edestruct (dispatch_retries_within_policy (Cmd := cmd) (W := nat) [] counted (typed_handler Pay_type flaky)
    counts background (Pay 0) 0%nat 102%nat (Err (EDomain (NewDomainError "invalid_amount" ""))))
    as (f & rs & ended & ctx' & w1 & w2 & H1 & _ & H2 & H3 & H4 & H5 & _);
    [reflexivity | constructor; [exact counting_passes | constructor] | vm_compute; reflexivity | vm_compute; reflexivity |].
  by exists f, rs, ended, ctx', w1, w2.
Defined.

Lemma handle_routes_commands_witness :
  is_ok (Handle Pay_type flaky bus) = false
  /\ Dispatch bus background Refund 0%nat = (Err (no_handler Refund), 0%nat).
Proof.
  edestruct (handle_routes_commands (Cmd := cmd) (W := nat) Pay_type flaky flaky (NewBus []) bus background 0%nat)
    as (_ & _ & H3 & H4); [vm_compute; reflexivity|].
  split; [exact H3 | apply (H4 Refund); vm_compute; reflexivity].
Defined.

Lemma ask_returns_answer_witness :
  Ask Z_type (fun _ => "int") background qbus 41 0%nat = (Ok 42, 0%nat).
Proof.
  refine (proj1 (ask_returns_answer (Q := Z) (V := Z) (W := nat) Z_type Z_type Z_type (fun _ => "int")
    successor (NewQueryBus []) qbus background 0%nat 41 _ _ _)); vm_compute; reflexivity.
Defined.
