(* ===== verification/Consumer.v ===== *)
(** * cqrs/wire.go: commands on the wire

    The envelope of a command, the registry of command types, the
    deduplicator port with its contract and its in-memory implementation, and
    the consumer that bridges a subscription to the command bus. *)

From S2P Require Import Prelude Errors GoTime Json Checkpoint Broker Cqrs.

(** [cmd.(VersionedCommand)]: the contract version of the types that declare
    one. *)
Class VersionedCommand (Cmd : Type) := VersionedCommand_version : Cmd -> option Z.

Definition NewCommandMessage {Cmd} `{Command Cmd} `{MarshalEvent Cmd} `{VersionedCommand Cmd}
    (id key : string) (occurredAt : Time) (cmd : Cmd) (metadata : strmap) : res Message :=
  try payload := res_wrap ("cqrs: encoding " +:+ CommandName cmd +:+ ": ") "" (marshal_event cmd) in
  Ok {| msg_ID := id; msg_Key := key; msg_Type := CommandName cmd;
        msg_Version := match VersionedCommand_version cmd with Some v => v | None => 1 end;
        msg_OccurredAt := occurredAt; msg_Payload := RawJSON payload; msg_Metadata := metadata |}.

(** ** Registry *)

Record CommandRegistry (Cmd : Type) := mkCommandRegistry { decoders : gmap string (RawMessage -> res Cmd) }.
Arguments mkCommandRegistry {Cmd} _.
Arguments decoders {Cmd} _.

Definition NewCommandRegistry {Cmd} : CommandRegistry Cmd := mkCommandRegistry ∅.

Definition command_decoder {Cmd} (C : GoType Cmd) `{JsonCodec (carrier C)} (name : string)
    (payload : RawMessage) : res Cmd :=
  try c := res_wrap ("cqrs: decoding " +:+ name +:+ ": ") "" (Unmarshal_raw (T := carrier C) payload) in
  Ok (to_interface C c).

Definition RegisterCommand {Cmd} `{Command Cmd} (C : GoType Cmd) `{JsonCodec (carrier C)}
    (r : CommandRegistry Cmd) : res (CommandRegistry Cmd) :=
  let name := CommandName (to_interface C (zero_value C)) in
  if decide (name = "") then Panic "cqrs: RegisterCommand: empty command name" else
  match decoders r !! name with
  | Some _ => Panic ("cqrs: RegisterCommand: duplicate command name " +:+ Quote name)
  | None => Ok (mkCommandRegistry (<[name := command_decoder C name]> (decoders r)))
  end.

Definition cmd_Decode {Cmd} (r : CommandRegistry Cmd) (msg : Message) : res Cmd :=
  match decoders r !! msg_Type msg with
  | None => Err (EText ("cqrs: unregistered command " +:+ Quote (msg_Type msg) +:+
                        " (message " +:+ msg_ID msg +:+ ")"))
  | Some decode => decode (msg_Payload msg)
  end.

(** ** Deduplicator *)

Class Deduplicator (D : Type) := {
  Processed : string -> D -> res bool * D;
  MarkProcessed : string -> D -> res unit * D;
}.

(** The contract: the set of marked identifiers; a failed mark may or may not
    have taken effect. *)
Class DeduplicatorSpec (D : Type) `{Deduplicator D} := {
  marked : D -> gset string;
  Processed_spec id d r d' :
    Processed id d = (r, d') ->
    marked d' = marked d /\ forall b, r = Ok b -> b = bool_decide (id ∈ marked d);
  MarkProcessed_spec id d r d' :
    MarkProcessed id d = (r, d') ->
    marked d' = {[id]} ∪ marked d \/ (is_ok r = false /\ marked d' = marked d);
}.

Record MemoryDeduplicator := mkMemoryDeduplicator { seen : gmap string bool }.

Definition NewMemoryDeduplicator : MemoryDeduplicator := mkMemoryDeduplicator ∅.

Definition mem_Processed (id : string) (d : MemoryDeduplicator) : res bool * MemoryDeduplicator :=
  (Ok (default false (seen d !! id)), d).

Definition mem_MarkProcessed (id : string) (d : MemoryDeduplicator) : res unit * MemoryDeduplicator :=
  (Ok tt, mkMemoryDeduplicator (<[id := true]> (seen d))).

#[export] Instance MemoryDeduplicator_dedup : Deduplicator MemoryDeduplicator := {
  Processed := mem_Processed; MarkProcessed := mem_MarkProcessed;
}.

(** The map holds [true] or nothing. *)
Definition seen_ids (d : MemoryDeduplicator) : gset string :=
  dom (filter (fun kv => kv.2 = true) (seen d)).

Lemma elem_of_seen_ids id d : id ∈ seen_ids d <-> seen d !! id = Some true.
Proof.
  unfold seen_ids. rewrite elem_of_dom. unfold is_Some. setoid_rewrite map_lookup_filter_Some. simpl.
  split; [intros (b & Hb & Ht); congruence | intros Hb; exists true; done].
Qed.

Lemma mem_Processed_seen id d : mem_Processed id d = (Ok (bool_decide (id ∈ seen_ids d)), d).
Proof.
  unfold mem_Processed. case_bool_decide as H.
  - apply elem_of_seen_ids in H. by rewrite H.
  - rewrite elem_of_seen_ids in H. destruct (seen d !! id) as [[]|]; done.
Qed.

Lemma mem_MarkProcessed_seen id d : seen_ids (snd (mem_MarkProcessed id d)) = {[id]} ∪ seen_ids d.
Proof.
  apply set_eq. intros x. rewrite elem_of_union, elem_of_singleton, !elem_of_seen_ids. simpl.
  destruct (decide (id = x)) as [->|Hne].
  - rewrite lookup_insert_eq. naive_solver.
  - rewrite lookup_insert_ne by done. naive_solver.
Qed.

#[export] Program Instance MemoryDeduplicator_spec : DeduplicatorSpec MemoryDeduplicator := {
  marked := seen_ids;
}.
Next Obligation.
  intros id d r d'. change (Processed id d) with (mem_Processed id d). rewrite mem_Processed_seen.
  intros [= <- <-]. split; [done|]. by intros b [= <-].
Qed.
Next Obligation.
  intros id d r d' E. left. rewrite <-mem_MarkProcessed_seen. by injection E as _ <-.
Qed.

(** ** Consumer *)

Section consumer.
Context {Cmd W D : Type} `{Command Cmd} `{Clock W} `{Deduplicator D}.

Record ConsumerConfig := mkConsumerConfig {
  OnRejected : option (Context -> Message -> error -> W -> W);
}.

Record Consumer := mkConsumer {
  consumer_bus : Bus Cmd W;
  consumer_registry : CommandRegistry Cmd;
  consumer_cfg : ConsumerConfig;
}.

Definition reject (c : Consumer) (ctx : Context) (msg : Message) (err : error) (w : W) : W :=
  match OnRejected (consumer_cfg c) with
  | Some f => f ctx msg err w
  | None => w
  end.

(** The closure [Handler] returns, over the deduplicator [d] and the world. *)
Definition consume (c : Consumer) (ctx : Context) (msg : Message) (d : D) (w : W) : res unit * D * W :=
  match Processed (msg_ID msg) d with
  | (Err err, d1) => (Err err, d1, w)
  | (Panic m, d1) => (Panic m, d1, w)
  | (Ok true, d1) => (Ok tt, d1, w)
  | (Ok false, d1) =>
    match cmd_Decode (consumer_registry c) msg with
    | Panic m => (Panic m, d1, w)
    | Err err =>
      let w1 := reject c ctx msg err w in
      let '(r, d2) := MarkProcessed (msg_ID msg) d1 in (r, d2, w1)
    | Ok cmd =>
      match Dispatch (consumer_bus c) ctx cmd w with
      | (Panic m, w1) => (Panic m, d1, w1)
      | (Err err, w1) =>
        match AsDomainError err with
        | Some _ =>
          let w2 := reject c ctx msg err w1 in
          let '(r, d2) := MarkProcessed (msg_ID msg) d1 in (r, d2, w2)
        | None => (Err err, d1, w1)
        end
      | (Ok _, w1) => let '(r, d2) := MarkProcessed (msg_ID msg) d1 in (r, d2, w1)
      end
    end
  end.

(** A broker delivering the messages of [msgs] in order, whatever each returns
    (a redelivery is one more occurrence in the list). *)
Fixpoint consume_all (c : Consumer) (ctx : Context) (msgs : list Message) (d : D) (w : W) : D * W :=
  match msgs with
  | [] => (d, w)
  | m :: rest => let '(_, d', w') := consume c ctx m d w in consume_all c ctx rest d' w'
  end.
End consumer.
Arguments Consumer : clear implicits.
Arguments ConsumerConfig : clear implicits.

(** ** Facts *)

Lemma command_roundtrip {Cmd} `{Command Cmd} `{MarshalEvent Cmd} `{VersionedCommand Cmd}
    (C : GoType Cmd) `{JsonCodec (carrier C)} `{!CommandType C} (valid : carrier C -> Prop)
    `{!JsonRoundtrip (carrier C) valid} (r r' : CommandRegistry Cmd) id key now (x : carrier C) md :
  (forall c : carrier C, marshal_event (to_interface C c) = Marshal c) ->
  RegisterCommand C r = Ok r' -> valid x ->
  exists msg, NewCommandMessage id key now (to_interface C x) md = Ok msg
    /\ msg_ID msg = id /\ msg_Key msg = key /\ msg_Metadata msg = md
    /\ cmd_Decode r' msg = Ok (to_interface C x).
Proof.
  intros Hmarshal Hreg Hv. destruct (json_roundtrip x Hv) as (doc & Hm & Hu).
  unfold NewCommandMessage. rewrite Hmarshal, Hm. simpl. eexists. split_and!; try done.
  unfold RegisterCommand in Hreg. case_decide; [done|]. destruct (decoders r !! _); [done|].
  injection Hreg as <-. unfold cmd_Decode. simpl. rewrite command_name_const, lookup_insert_eq.
  unfold command_decoder. simpl. by rewrite Hu.
Qed.

Section consumer_facts.
Context {Cmd W D : Type} `{Command Cmd} `{Clock W} `{DeduplicatorSpec D}.
Implicit Types (c : Consumer Cmd W) (msg : Message) (d : D) (w : W).

(** A message already marked is acknowledged and nothing runs. *)
Lemma consume_marked c ctx msg d w r d' w' :
  msg_ID msg ∈ marked d -> consume c ctx msg d w = (r, d', w') ->
  w' = w /\ marked d' = marked d /\ (forall b, fst (Processed (msg_ID msg) d) = Ok b -> r = Ok tt).
Proof.
  intros Hin. unfold consume. destruct (Processed (msg_ID msg) d) as [rp d1] eqn:Ep.
  destruct (Processed_spec _ _ _ _ Ep) as [Hm Hb]. destruct rp as [b|e|m].
  - rewrite (Hb b eq_refl), bool_decide_true by done. by intros [= <- <- <-].
  - by intros [= <- <- <-].
  - by intros [= <- <- <-].
Qed.

(** Marks are never lost, and a delivery marks no other message. *)
Lemma consume_marks c ctx msg d w r d' w' :
  consume c ctx msg d w = (r, d', w') ->
  marked d ⊆ marked d' /\ marked d' ⊆ {[msg_ID msg]} ∪ marked d
  /\ (r = Ok tt -> msg_ID msg ∈ marked d').
Proof.
  unfold consume. destruct (Processed (msg_ID msg) d) as [rp d1] eqn:Ep.
  destruct (Processed_spec _ _ _ _ Ep) as [Hm Hb].
  assert (forall rm d2, MarkProcessed (msg_ID msg) d1 = (rm, d2) ->
    marked d ⊆ marked d2 /\ marked d2 ⊆ {[msg_ID msg]} ∪ marked d /\ (rm = Ok tt -> msg_ID msg ∈ marked d2)) as Hmark.
  { intros rm d2 [->|[Hno ->]]%MarkProcessed_spec; rewrite Hm; split_and!; set_solver. }
  destruct rp as [[]|e|m].
  2: destruct (cmd_Decode _ msg) as [cmd|e|m];
     [destruct (Dispatch _ ctx cmd w) as [[?|e|m] w1]; [|destruct (AsDomainError e)|]| |].
  all: try (destruct (MarkProcessed (msg_ID msg) d1) as [rm d2] eqn:Em; intros [= <- <- <-]; by apply Hmark).
  all: intros [= <- <- <-]; rewrite Hm; split_and!; [done | apply union_subseteq_r | try done].
  intros _. specialize (Hb true eq_refl). symmetry in Hb. by apply bool_decide_eq_true in Hb.
Qed.

Lemma consume_all_marks c ctx msgs d w d' w' :
  consume_all c ctx msgs d w = (d', w') -> marked d ⊆ marked d'.
Proof.
  revert d w. induction msgs as [|m msgs IH]; intros d w; simpl; [by intros [= <- <-]|].
  destruct (consume c ctx m d w) as [[r d1] w1] eqn:E. apply consume_marks in E as [Hsub _].
  intros Hrest%IH. set_solver.
Qed.
End consumer_facts.

(** ** Properties *)

(** C21: Redeliveries. Once a delivery of a message has been acknowledged, then
    after any further deliveries of any messages every delivery of a message
    with that identifier runs nothing: the world is left alone, no mark is
    added, and it is acknowledged whenever the deduplicator answers. This for
    every deduplicator that keeps the port's contract. *)
Theorem acknowledged_command_never_reruns {Cmd W D} `{Command Cmd} `{Clock W} `{DeduplicatorSpec D}
    (c : Consumer Cmd W) (ctx ctx' : Context) (msg msg' : Message) (between : list Message)
    (d d1 d2 d3 : D) (w w1 w2 w3 : W) (r : res unit)
    (Hack : consume c ctx msg d w = (Ok tt, d1, w1))
    (Hbetween : consume_all c ctx between d1 w1 = (d2, w2))
    (Hid : msg_ID msg' = msg_ID msg)
    (Hagain : consume c ctx' msg' d2 w2 = (r, d3, w3)) :
  w3 = w2 /\ marked d3 = marked d2 /\ (is_ok (fst (Processed (msg_ID msg') d2)) = true -> r = Ok tt).
Proof.
  apply consume_marks in Hack as (_ & _ & Hin). specialize (Hin eq_refl).
  apply consume_all_marks in Hbetween. rewrite <-Hid in Hin. apply Hbetween in Hin.
  destruct (consume_marked _ _ _ _ _ _ _ _ Hin Hagain) as (-> & Hm & Hr). split_and!; [done|done|].
  destruct (fst _) as [b|e|m]; try done. by intros _; eapply Hr.
Qed.

(** A command over the wire. A command put in an envelope and delivered to a
    consumer whose registry knows its type, for the first time, is dispatched
    with exactly its own value, and the error split decides the rest: success
    is acknowledged and marked; a domain rejection is reported once,
    acknowledged and marked; any other error is returned to the broker, with
    nothing reported and nothing marked, so that the message is redelivered. *)
Theorem command_over_the_wire {Cmd W} `{Command Cmd} `{Clock W} `{MarshalEvent Cmd} `{VersionedCommand Cmd}
    (C : GoType Cmd) `{JsonCodec (carrier C)} `{!CommandType C} (valid : carrier C -> Prop)
    `{!JsonRoundtrip (carrier C) valid} (reg : CommandRegistry Cmd) (c : Consumer Cmd W)
    (id key : string) (now : Time) (x : carrier C) (md : strmap) (ctx : Context)
    (d : MemoryDeduplicator) (w : W)
    (Hmarshal : forall y : carrier C, marshal_event (to_interface C y) = Marshal y)
    (Hreg : RegisterCommand C reg = Ok (consumer_registry c)) (Hv : valid x) (Hnew : id ∉ marked d) :
  exists msg, NewCommandMessage id key now (to_interface C x) md = Ok msg
    /\ match Dispatch (consumer_bus c) ctx (to_interface C x) w with
       | (Ok _, w1) => exists d', consume c ctx msg d w = (Ok tt, d', w1) /\ marked d' = {[id]} ∪ marked d
       | (Err e, w1) =>
         match AsDomainError e with
         | Some _ => exists d', consume c ctx msg d w = (Ok tt, d', reject c ctx msg e w1)
                       /\ marked d' = {[id]} ∪ marked d
         | None => consume c ctx msg d w = (Err e, d, w1)
         end
       | (Panic m, w1) => consume c ctx msg d w = (Panic m, d, w1)
       end.
Proof.
  destruct (command_roundtrip C valid _ _ id key now x md Hmarshal Hreg Hv)
    as (msg & Hmsg & Hid & _ & _ & Hdec).
  exists msg. split; [done|].
  assert (Processed (msg_ID msg) d = (Ok false, d)) as Hp.
  { rewrite Hid. etransitivity; [apply mem_Processed_seen|]. by rewrite bool_decide_false. }
  assert (exists d', MarkProcessed (msg_ID msg) d = (Ok tt, d') /\ marked d' = {[id]} ∪ marked d) as (d' & Hm & Hd').
  { eexists. split; [done|]. rewrite Hid. apply mem_MarkProcessed_seen. }
  unfold consume. rewrite Hp, Hdec. destruct (Dispatch _ _ _ _) as [[[]|e|m] w1]; [| |done].
  - rewrite Hm. eauto.
  - destruct (AsDomainError e); [|done]. rewrite Hm. eauto.
Qed.

(** ** Witnesses *)

Module Sample.
Import Cqrs.Sample.
#[export] Instance int_codec : JsonCodec (carrier Pay_type) := { Marshal z := Ok (enc_int z); Unmarshal := dec_int 0 }.
#[export] Instance int_roundtrip : JsonRoundtrip (carrier Pay_type) in_int64.
Proof. intros z Hz. eexists. split; [done|]. by apply dec_enc_int. Qed.
#[export] Instance marshal_cmd : MarshalEvent cmd :=
  fun c => match c with Pay n => Ok (enc_int n) | Refund => Ok (JObj []) end.
#[export] Instance unversioned : VersionedCommand cmd := fun _ => None.
Definition registry : CommandRegistry cmd :=
  mkCommandRegistry {["billing.pay" := command_decoder Pay_type "billing.pay"]}.
Definition consumer : Consumer cmd nat := mkConsumer bus registry (mkConsumerConfig None).
Definition message (n : Z) : Message := mkMessage "m-1" "k" "billing.pay" 1 zero_time (RawJSON (JInt n)) None.
Definition first_done : MemoryDeduplicator := mkMemoryDeduplicator {["m-1" := true]}.
Definition both_done : MemoryDeduplicator := mkMemoryDeduplicator (<["m-2" := true]> {["m-1" := true]}).
End Sample.
Import Cqrs.Sample Sample.

Lemma acknowledged_command_never_reruns_witness :
  3%nat = 3%nat /\ marked both_done = marked both_done
  /\ (is_ok (fst (Processed "m-1" both_done)) = true -> Ok tt = Ok tt).
Proof.
  refine (acknowledged_command_never_reruns (Cmd := cmd) (W := nat) consumer background background
    (message 5) (message 5) [mkMessage "m-2" "k" "billing.pay" 1 zero_time (RawJSON (JInt 7)) None]
    NewMemoryDeduplicator first_done both_done both_done 0%nat 2%nat 3%nat 3%nat (Ok tt) _ _ _ _).
  all: vm_compute; reflexivity.
Defined.

Lemma command_over_the_wire_witness :
  exists msg, NewCommandMessage "m-1" "k" zero_time (Pay 5) None = Ok msg
    /\ exists d', consume consumer background msg NewMemoryDeduplicator 0%nat = (Ok tt, d', 2%nat)
       /\ marked d' = {["m-1"]} ∪ marked NewMemoryDeduplicator.
Proof.
  edestruct (command_over_the_wire (Cmd := cmd) (W := nat) Pay_type in_int64 NewCommandRegistry consumer
    "m-1" "k" zero_time 5 None background NewMemoryDeduplicator 0%nat) as (msg & Hmsg & Hrun).
  - intros y. reflexivity.
  - reflexivity.
  - by vm_compute.
  - apply (bool_decide_unpack _). vm_compute. exact I.
  - assert (Dispatch (consumer_bus consumer) background (to_interface Pay_type 5) 0%nat = (Ok tt, 2%nat)) as Hd
      by (vm_compute; reflexivity).
    rewrite Hd in Hrun. by exists msg.
Defined.
