(* ===== verification/Relay.v ===== *)
(** * relay/relay.go: the polling relay

    The relay over any store, checkpoint store and publisher that honour their
    ports. [Run] is a machine that makes one call (or one wait) per step, so
    that appends by the service, failures, cancellations, and crashes with a
    restart can fall between any two of them. *)

From S2P Require Import Prelude Tail Errors GoTime Json Kernel EventStore MemoryStore Registry Checkpoint Repository Broker Cqrs.
From Stdlib Require Import Ascii.

Record Config := mkConfig {
  cfg_Name : string;
  cfg_Topic : string;
  PollInterval : Z;
  BatchSize : Z;
  PublishBackoff : Z;
}.

(** [strconv.FormatInt(rec.Version, 10)] after "category/stream#". *)
Definition MessageID (rec : RecordedEvent) : string :=
  Category (Stream rec) +:+ "/" +:+ StreamKey (Stream rec) +:+ "#" +:+ FormatInt (rec_Version rec).

Abbreviation RouteFunc Ev := (RecordedEvent -> Ev -> res (string * Message * bool)).

Section relay.
Context {Ev C : Type} `{DomainEvent Ev} `{MarshalEvent Ev} `{IntegrationEvent C} `{MarshalEvent C}.

Record Relay := mkRelay {
  relay_registry : Registry Ev;
  cfg : Config;
  translators : gmap string (Ev -> res (option C));
  routes : gmap string (RouteFunc Ev);
}.

Definition New (registry : Registry Ev) (c : Config) : res Relay :=
  if decide (cfg_Name c = "" \/ cfg_Topic c = "")
  then Panic "relay: Config.Name and Config.Topic are required" else
  Ok (mkRelay registry
        {| cfg_Name := cfg_Name c; cfg_Topic := cfg_Topic c;
           PollInterval := if decide (PollInterval c <= 0) then 200 * Millisecond else PollInterval c;
           BatchSize := if decide (BatchSize c <= 0) then 100 else BatchSize c;
           PublishBackoff := if decide (PublishBackoff c <= 0) then 1000 * Millisecond else PublishBackoff c |}
        ∅ ∅).

Definition Translate (E : GoType Ev) (fn : carrier E -> option C) (r : Relay) : res Relay :=
  let name := EventName (to_interface E (zero_value E)) in
  match translators r !! name with
  | Some _ => Panic ("relay: duplicate translator for " +:+ Quote name)
  | None =>
    match routes r !! name with
    | Some _ => Panic ("relay: " +:+ Quote name +:+ " already has a route")
    | None =>
      let fn' e := match type_assert E e with
                   | Some x => Ok (fn x)
                   | None => Panic "interface conversion"
                   end in
      Ok (mkRelay (relay_registry r) (cfg r) (<[name := fn']> (translators r)) (routes r))
    end
  end.

Definition Route (eventName : string) (fn : RouteFunc Ev) (r : Relay) : res Relay :=
  match routes r !! eventName with
  | Some _ => Panic ("relay: duplicate route for " +:+ Quote eventName)
  | None =>
    match translators r !! eventName with
    | Some _ => Panic ("relay: " +:+ Quote eventName +:+ " already has a translator")
    | None => Ok (mkRelay (relay_registry r) (cfg r) (translators r) (<[eventName := fn]> (routes r)))
    end
  end.

Definition translate (r : Relay) (rec : RecordedEvent) : res (string * Message * bool) :=
  match routes r !! rec_EventName rec with
  | Some route => try event := Decode rec (relay_registry r) in route rec event
  | None =>
    match translators r !! rec_EventName rec with
    | None => Ok ("", zero_Message, false)
    | Some translator =>
      try event := Decode rec (relay_registry r) in
      try integration := translator event in
      match integration with
      | None => Ok ("", zero_Message, false)
      | Some e =>
        try msg := NewMessage (MessageID rec) (StreamKey (Stream rec)) (OccurredAt rec) e (rec_Metadata rec) in
        Ok (cfg_Topic (cfg r), msg, true)
      end
    end
  end.

(** The grouping loop of [Run]: the topics in first-encounter order, and the
    messages of each. *)
Fixpoint group_loop (r : Relay) (recs : list RecordedEvent) (topics : list string)
    (byTopic : gmap string (list Message)) : res (list string * gmap string (list Message)) :=
  match recs with
  | [] => Ok (topics, byTopic)
  | rec :: rest =>
    try out := translate r rec in
    let '(topic, msg, publish) := out in
    if negb publish then group_loop r rest topics byTopic else
    group_loop r rest
      (match byTopic !! topic with None => topics ++ [topic] | Some _ => topics end)
      (<[topic := default [] (byTopic !! topic) ++ [msg]]> byTopic)
  end.

(** ** [Run]

    Where the call is: before reading the checkpoint, at the head of the loop,
    about to read the store, asleep, publishing the topics left of a page,
    asleep after a failed publish, about to store the checkpoint, returned. *)
Inductive run_pc :=
  | Starting
  | Head_of_loop (seq : Z)
  | Reading (seq : Z)
  | Idle (seq : Z)
  | Publishing (next : Z) (topics : list string) (byTopic : gmap string (list Message))
  | Backing_off (next : Z) (topics : list string) (byTopic : gmap string (list Message))
  | Checkpointing (next : Z)
  | Stopped (r : res unit).

Definition relay_err (r : Relay) (what : string) (err : error) : run_pc :=
  Stopped (Err (EWrap ("relay " +:+ cfg_Name (cfg r) +:+ ": " +:+ what) err "")).

Context {W K P : Type} `{Store W} `{CheckpointStore K} `{Publisher P}.

Record world := mkWorld { w_store : W; w_checkpoints : K; w_publisher : P; w_cancelled : bool; w_pc : run_pc }.

(** One step. [timer] says that the timer of a wait wins over a context that
    is done, and, after a failed read, that the context is not done yet. *)
Definition run_step (r : Relay) (timer : bool) (s : world) : world :=
  let goto pc := mkWorld (w_store s) (w_checkpoints s) (w_publisher s) (w_cancelled s) pc in
  match w_pc s with
  | Starting =>
    let '(g, c) := cp_Get (cfg_Name (cfg r)) (w_checkpoints s) in
    mkWorld (w_store s) c (w_publisher s) (w_cancelled s)
      match g with Ok seq => Head_of_loop seq | Err e => relay_err r "" e | Panic m => Stopped (Panic m) end
  | Head_of_loop seq => goto (if w_cancelled s then Stopped (Ok tt) else Reading seq)
  | Reading seq =>
    let '(g, w) := ReadAll seq (BatchSize (cfg r)) (w_store s) in
    mkWorld w (w_checkpoints s) (w_publisher s) (w_cancelled s)
      match g with
      | Err e => if w_cancelled s && negb timer then Stopped (Ok tt) else relay_err r "read: " e
      | Panic m => Stopped (Panic m)
      | Ok recs =>
        match last recs with
        | None => Idle seq
        | Some lastrec =>
          match group_loop r recs [] ∅ with
          | Ok (topics, byTopic) => Publishing (GlobalSeq lastrec) topics byTopic
          | Err e => relay_err r "" e
          | Panic m => Stopped (Panic m)
          end
        end
      end
  | Idle seq => goto (if negb (w_cancelled s) || timer then Head_of_loop seq else Stopped (Ok tt))
  | Publishing next [] byTopic => goto (Checkpointing next)
  | Publishing next (topic :: rest) byTopic =>
    let '(g, p) := Publish topic (default [] (byTopic !! topic)) (w_publisher s) in
    mkWorld (w_store s) (w_checkpoints s) p (w_cancelled s)
      match g with
      | Ok _ => Publishing next rest byTopic
      | Err _ => Backing_off next (topic :: rest) byTopic
      | Panic m => Stopped (Panic m)
      end
  | Backing_off next topics byTopic =>
    goto (if negb (w_cancelled s) || timer then Publishing next topics byTopic else Stopped (Ok tt))
  | Checkpointing next =>
    let '(g, c) := cp_Set (cfg_Name (cfg r)) next (w_checkpoints s) in
    mkWorld (w_store s) c (w_publisher s) (w_cancelled s)
      match g with Ok _ => Head_of_loop next | Err e => relay_err r "checkpoint: " e | Panic m => Stopped (Panic m) end
  | Stopped _ => s
  end.
End relay.
Arguments Relay : clear implicits.
Arguments world : clear implicits.

(** ** What the relay owes its topics *)

Section owed.
Context {Ev C : Type} `{DomainEvent Ev} `{MarshalEvent Ev} `{IntegrationEvent C} `{MarshalEvent C}.
Implicit Types (r : Relay Ev C).

Definition message_for r (topic : string) (rec : RecordedEvent) : option Message :=
  match translate r rec with
  | Ok (t, m, true) => if decide (t = topic) then Some m else None
  | _ => None
  end.

(** The messages of [recs] for [topic], in commit order. *)
Definition outgoing r (topic : string) (recs : list RecordedEvent) : list Message :=
  omap (message_for r topic) recs.

Arguments outgoing : simpl never.

Lemma outgoing_app r topic l k : outgoing r topic (l ++ k) = outgoing r topic l ++ outgoing r topic k.
Proof. apply omap_app. Qed.

Lemma group_loop_outgoing r recs topics by0 topics' by' :
  group_loop r recs topics by0 = Ok (topics', by') ->
  (forall t, t ∈ topics <-> is_Some (by0 !! t)) -> NoDup topics ->
  (forall t, default [] (by' !! t) = default [] (by0 !! t) ++ outgoing r t recs)
  /\ (forall t, t ∈ topics' <-> is_Some (by' !! t)) /\ NoDup topics'.
Proof.
  revert topics by0. induction recs as [|rec recs IH]; intros topics by0; simpl.
  { intros [= <- <-] ??. split_and!; try done. intros t. by rewrite app_nil_r. }
  intros ([[topic msg] publish] & Ht & Hg)%res_bind_ok Hdom Hnd.
  assert (forall t, outgoing r t (rec :: recs)
    = (if publish then if decide (topic = t) then [msg] else [] else []) ++ outgoing r t recs) as Hout.
  { intros t. unfold outgoing. csimpl. unfold message_for at 1. rewrite Ht.
    destruct publish; [case_decide|]; done. }
  destruct publish; simpl in Hg.
  2: { destruct (IH _ _ Hg Hdom Hnd) as (Hby & Hd & Hn). split_and!; try done.
       intros t. by rewrite Hby, Hout. }
  destruct (IH _ _ Hg) as (Hby & Hd & Hn).
  - intros t. rewrite lookup_insert_is_Some'. destruct (by0 !! topic) eqn:E; rewrite ?elem_of_app, ?list_elem_of_singleton, Hdom.
    + split; [by right|]. intros [<-|?]; [by rewrite E | done].
    + split; (intros [?|?]; [by (left + right)|by (left + right)]).
  - destruct (by0 !! topic) eqn:E; [done|]. apply NoDup_app. split_and!; [done | | apply NoDup_singleton].
    intros t Ht' ->%list_elem_of_singleton. apply Hdom in Ht'. rewrite E in Ht'. by destruct Ht'.
  - split_and!; try done. intros t. rewrite Hby, Hout. destruct (decide (topic = t)) as [->|Hne].
    + rewrite lookup_insert_eq. simpl. by rewrite <-app_assoc.
    + by rewrite lookup_insert_ne.
Qed.
End owed.

(** ** The relay among everything else *)

Section system.
Context {Ev C W K P : Type} `{DomainEvent Ev} `{MarshalEvent Ev} `{IntegrationEvent C} `{MarshalEvent C}.
Context `{StoreSpec W} `{CheckpointSpec K} `{PublisherSpec P}.
Context (r : Relay Ev C).
Implicit Types (s : world W K P).

(** A step of [Run]; an append by the service; a cancellation; a crash, or a
    return, followed by a restart; another component storing its own
    checkpoint. *)
Inductive relay_step : world W K P -> world W K P -> Prop :=
  | relay_runs timer s : relay_step s (run_step r timer s)
  | service_appends now str v es res w' s :
      last_seq (log_of (w_store s)) + zlen es <= int64_max ->
      Append now str v es (w_store s) = (res, w') ->
      relay_step s (mkWorld w' (w_checkpoints s) (w_publisher s) (w_cancelled s) (w_pc s))
  | context_ends s :
      relay_step s (mkWorld (w_store s) (w_checkpoints s) (w_publisher s) true (w_pc s))
  | relay_restarts s :
      relay_step s (mkWorld (w_store s) (w_checkpoints s) (w_publisher s) false Starting)
  | other_checkpoint name seq res c' s :
      name <> cfg_Name (cfg r) -> cp_Set name seq (w_checkpoints s) = (res, c') ->
      relay_step s (mkWorld (w_store s) c' (w_publisher s) (w_cancelled s) (w_pc s)).

Definition owner_checkpoint s : Z := checkpoint_of (w_checkpoints s) (cfg_Name (cfg r)).
Definition log_at s : list RecordedEvent := log_of (w_store s).

(** Everything owed up to [seq] is on the broker. *)
Definition covered s (seq : Z) : Prop :=
  forall t, outgoing r t (upto GlobalSeq seq (log_at s)) `sublist_of` published (w_publisher s) t.

Definition pc_inv s : Prop :=
  match w_pc s with
  | Starting | Stopped _ => True
  | Head_of_loop seq | Reading seq | Idle seq => seq = owner_checkpoint s
  | Publishing next topics byTopic | Backing_off next topics byTopic =>
    next <= last_seq (log_at s) /\ NoDup topics
    /\ exists page, upto GlobalSeq next (log_at s) = upto GlobalSeq (owner_checkpoint s) (log_at s) ++ page
       /\ (forall t, t ∈ topics -> default [] (byTopic !! t) = outgoing r t page)
       /\ (forall t, t ∉ topics -> outgoing r t (upto GlobalSeq next (log_at s)) `sublist_of` published (w_publisher s) t)
  | Checkpointing next => next <= last_seq (log_at s) /\ covered s next
  end.

Record relay_inv (p0 : P) s : Prop := {
  ri_store : store_inv (w_store s);
  ri_le : owner_checkpoint s <= last_seq (log_at s);
  ri_covered : covered s (owner_checkpoint s);
  ri_only t m : m ∈ published (w_publisher s) t -> m ∈ published p0 t \/ m ∈ outgoing r t (log_at s);
  ri_pc : pc_inv s;
}.

Lemma publish_grows topic msgs (p p' : P) res t :
  Publish topic msgs p = (res, p') -> published p t `sublist_of` published p' t.
Proof.
  intros E. destruct (Publish_spec _ _ _ _ _ E) as (Hother & part & Htopic & _).
  destruct (decide (t = topic)) as [->|Hne]; [rewrite Htopic; by apply sublist_inserts_r | by rewrite Hother].
Qed.

Lemma append_log now str v es w w' res :
  store_inv w -> last_seq (log_of w) + zlen es <= int64_max -> Append now str v es w = (res, w') ->
  store_inv w' /\ exists recs, log_of w' = log_of w ++ recs.
Proof.
  intros Hinv Hsize E. apply Append_spec in E as [Hinv' Hpost]; [|done..]. split; [done|].
  assert (forall l', appended str v es (log_of w) l' -> exists recs, l' = log_of w ++ recs) as Happ.
  { intros l' (recs & -> & _). by exists recs. }
  assert (exists recs, log_of w = log_of w ++ recs) as Hsame by (exists []; by rewrite app_nil_r).
  destruct res as [seq|e|m]; simpl in Hpost.
  - destruct Hpost as [(_ & _ & ->)|(_ & _ & Ha & _)]; eauto.
  - destruct (errors_Is e ErrVersionConflict); [destruct Hpost as [-> _]; eauto|].
    destruct Hpost as [->|[_ Ha]]; eauto.
  - done.
Qed.

(** The invariant survives a longer log. *)
Lemma grow_inv p0 s w' recs :
  relay_inv p0 s -> store_inv w' -> log_of w' = log_at s ++ recs ->
  relay_inv p0 (mkWorld w' (w_checkpoints s) (w_publisher s) (w_cancelled s) (w_pc s)).
Proof.
  intros [Hst Hle Hc Hon Hpc] Hst' Hlog.
  pose proof (log_ok_increasing _ (store_log_ok _ Hst')) as Hok. rewrite Hlog in Hok.
  pose proof (head_of_app _ _ _ Hok : last_seq (log_at s) <= last_seq (log_at s ++ recs)) as Hlast.
  assert (forall seq, seq <= last_seq (log_at s) -> upto GlobalSeq seq (log_at s ++ recs) = upto GlobalSeq seq (log_at s)) as Hup
    by (intros; by apply (upto_app GlobalSeq)).
  split; try done; unfold pc_inv, covered, owner_checkpoint, log_at in *; simpl; rewrite Hlog.
  - lia.
  - intros t. rewrite Hup by done. apply Hc.
  - intros t m Hm. rewrite outgoing_app, elem_of_app. destruct (Hon t m Hm); auto.
  - destruct (w_pc s); try done.
    + destruct Hpc as (? & ? & page & Hpage & Hby & Hcov). split_and!; [lia|done|].
      exists page. rewrite !Hup by done. done.
    + destruct Hpc as (? & ? & page & Hpage & Hby & Hcov). split_and!; [lia|done|].
      exists page. rewrite !Hup by done. done.
    + destruct Hpc as [? Hcov]. split; [lia|]. intros t. rewrite Hup by done. apply Hcov.
Qed.

(** The invariant survives a checkpoint store that answers the same for the
    relay. *)
Lemma checkpoints_inv p0 s c' :
  relay_inv p0 s -> checkpoint_of c' (cfg_Name (cfg r)) = owner_checkpoint s ->
  relay_inv p0 (mkWorld (w_store s) c' (w_publisher s) (w_cancelled s) (w_pc s)).
Proof.
  intros [Hst Hle Hc Hon Hpc] Hcp. unfold owner_checkpoint in *.
  split; try done; unfold pc_inv, covered, owner_checkpoint, log_at in *; simpl; by rewrite ?Hcp.
Qed.

(** Control moves that keep the stores. *)
Lemma goto_inv p0 s cancelled pc :
  relay_inv p0 s -> pc_inv (mkWorld (w_store s) (w_checkpoints s) (w_publisher s) cancelled pc) ->
  relay_inv p0 (mkWorld (w_store s) (w_checkpoints s) (w_publisher s) cancelled pc).
Proof. intros [? ? ? ? ?] Hpc. by split. Qed.

Lemma read_inv p0 s w' pc :
  relay_inv p0 s -> store_inv w' -> log_of w' = log_at s ->
  pc_inv (mkWorld (w_store s) (w_checkpoints s) (w_publisher s) (w_cancelled s) pc) ->
  relay_inv p0 (mkWorld w' (w_checkpoints s) (w_publisher s) (w_cancelled s) pc).
Proof.
  intros Hinv Hst Hlog Hpc.
  apply (grow_inv p0 (mkWorld (w_store s) (w_checkpoints s) (w_publisher s) (w_cancelled s) pc) w' []).
  - by apply goto_inv.
  - done.
  - by rewrite app_nil_r.
Qed.
Lemma outgoing_upto t seq log m :
  log_ok log -> m ∈ outgoing r t (upto GlobalSeq seq log) -> m ∈ outgoing r t log.
Proof.
  intros Hok Hm. rewrite (upto_beyond GlobalSeq seq log) by (by apply log_ok_increasing).
  rewrite outgoing_app. set_solver.
Qed.

(** Publishing the first of the topics left of a page. *)
Lemma relay_publish_inv p0 s next topic rest byTopic res p' :
  relay_inv p0 s -> w_pc s = Publishing next (topic :: rest) byTopic ->
  Publish topic (default [] (byTopic !! topic)) (w_publisher s) = (res, p') ->
  let pc' := match res with
             | Ok _ => Publishing next rest byTopic
             | Err _ => Backing_off next (topic :: rest) byTopic
             | Panic m => Stopped (Panic m)
             end in
  relay_inv p0 (mkWorld (w_store s) (w_checkpoints s) p' (w_cancelled s) pc').
Proof.
  intros [Hst Hle Hc Hon Hpc] Heq E. unfold pc_inv in Hpc. rewrite Heq in Hpc.
  destruct Hpc as (Hlast & Hnd & page & Hpage & Hby & Hcov).
  pose proof (fun t => publish_grows _ _ _ _ _ t E) as Hgrow.
  destruct (Publish_spec _ _ _ _ _ E) as (Hother & part & Htopic & Hall & Hpart).
  rewrite (Hby topic) in * by set_solver.
  split; unfold covered, owner_checkpoint, log_at in *; simpl; try done.
  - intros t. etransitivity; [apply Hc | apply Hgrow].
  - intros t m Hm. destruct (decide (t = topic)) as [->|Hne]; [|apply Hon; by rewrite <-Hother].
    rewrite Htopic, elem_of_app in Hm. destruct Hm as [Hm|Hm]; [by apply Hon|].
    right. apply (outgoing_upto _ next); [by apply store_log_ok|].
    rewrite Hpage, outgoing_app. apply elem_of_app. right. by eapply sublist_subseteq.
  - assert (forall t, t ∉ topic :: rest ->
      outgoing r t (upto GlobalSeq next (log_of (w_store s))) `sublist_of` published p' t) as Hcov'.
    { intros t Ht. etransitivity; [by apply Hcov | apply Hgrow]. }
    destruct res as [[]|e|m]; unfold pc_inv, log_at; simpl; [| |done].
    + split_and!; [done | by apply NoDup_cons in Hnd as [_ ?]|]. exists page. split_and!; [done | set_solver|].
      intros t Ht. destruct (decide (t = topic)) as [->|Hne]; [|apply Hcov'; set_solver].
      rewrite Htopic, (Hall eq_refl), Hpage, outgoing_app. by apply sublist_app.
    + split_and!; [done..|]. exists page. done.
Qed.

(** Storing the checkpoint of a published page. *)
Lemma checkpoint_inv p0 s next res c' :
  relay_inv p0 s -> w_pc s = Checkpointing next ->
  cp_Set (cfg_Name (cfg r)) next (w_checkpoints s) = (res, c') ->
  let pc' := match res with
             | Ok _ => Head_of_loop next
             | Err e => relay_err r "checkpoint: " e
             | Panic m => Stopped (Panic m)
             end in
  relay_inv p0 (mkWorld (w_store s) c' (w_publisher s) (w_cancelled s) pc').
Proof.
  intros [Hst Hle Hc Hon Hpc] Heq E. unfold pc_inv in Hpc. rewrite Heq in Hpc. destruct Hpc as [Hlast Hcov].
  destruct (cp_Set_spec _ _ _ _ _ E) as [Hset|[Hno Hset]].
  - assert (checkpoint_of c' (cfg_Name (cfg r)) = next) as Hcp
      by (unfold checkpoint_of; by rewrite Hset, lookup_insert_eq).
    split; unfold covered, owner_checkpoint in *; simpl; rewrite ?Hcp; try done.
    by destruct res; unfold pc_inv, owner_checkpoint; simpl; rewrite ?Hcp.
  - assert (checkpoint_of c' (cfg_Name (cfg r)) = owner_checkpoint s) as Hcp
      by (unfold owner_checkpoint, checkpoint_of; by rewrite Hset).
    split; unfold covered, owner_checkpoint in *; simpl; rewrite ?Hcp; try done. by destruct res.
Qed.

Lemma group_page s seq page x topics byTopic :
  store_inv (w_store s) -> seq = owner_checkpoint s ->
  page = readall_result seq (BatchSize (cfg r)) (log_at s) -> last page = Some x ->
  group_loop r page [] ∅ = Ok (topics, byTopic) -> covered s (owner_checkpoint s) ->
  pc_inv (mkWorld (w_store s) (w_checkpoints s) (w_publisher s) (w_cancelled s)
            (Publishing (GlobalSeq x) topics byTopic)).
Proof.
  intros Hst -> Hp Hx Hg Hc.
  destruct (upto_page GlobalSeq _ _ _ _ _ (log_ok_increasing _ (store_log_ok _ Hst)) Hp Hx) as [Hup Hle].
  destruct (group_loop_outgoing _ _ _ _ _ _ Hg) as (Hby & Hdom & Hnd);
    [intros t; rewrite lookup_empty; split; [set_solver | by intros [? ?]] | constructor |].
  unfold pc_inv. simpl. split_and!; [done|done|]. exists page. split_and!; [done| |].
  - intros t _. by rewrite Hby, lookup_empty.
  - intros t Ht. unfold log_at in *. simpl. rewrite Hup, outgoing_app.
    assert (outgoing r t page = []) as ->.
    { rewrite Hdom in Ht. rewrite <-eq_None_not_Some in Ht. specialize (Hby t).
      rewrite Ht, lookup_empty in Hby. by simpl in Hby. }
    rewrite app_nil_r. apply Hc.
Qed.

Lemma run_step_inv p0 timer s : relay_inv p0 s -> relay_inv p0 (run_step r timer s).
Proof.
  intros Hinv. pose proof (ri_pc _ _ Hinv) as Hpc. unfold pc_inv in Hpc. unfold run_step.
  destruct (w_pc s) as [|seq|seq|seq|next [|topic rest] byTopic|next topics byTopic|next|res] eqn:Heq.
  - destruct (cp_Get _ _) as [g c'] eqn:E. destruct (cp_Get_spec _ _ _ _ E) as [Hp Hg].
    assert (checkpoint_of c' (cfg_Name (cfg r)) = owner_checkpoint s) as Hcp
      by (unfold owner_checkpoint, checkpoint_of; by rewrite Hp).
    apply (goto_inv p0 (mkWorld (w_store s) c' (w_publisher s) (w_cancelled s) (w_pc s)));
      [by apply checkpoints_inv|].
    destruct g as [seq| |]; unfold pc_inv; simpl; [|done..].
    rewrite (Hg seq eq_refl). unfold owner_checkpoint. simpl. by rewrite Hcp.
  - apply goto_inv; [done|]. by destruct (w_cancelled s).
  - destruct (ReadAll _ _ _) as [g w'] eqn:E.
    destruct (ReadAll_spec _ _ _ _ _ (ri_store _ _ Hinv) E) as (Hst' & Hlog & Hrecs).
    apply read_inv; [done|done|done|].
    destruct g as [recs|e|m]; [|by case_match|done].
    destruct (last recs) as [x|] eqn:Hx; [|done].
    destruct (group_loop r recs [] ∅) as [[topics byTopic]|e|m] eqn:Hg; [|done..].
    apply (group_page s seq recs); try done; [apply Hinv | by apply Hrecs | apply Hinv].
  - apply goto_inv; [done|]. by case_match.
  - destruct Hpc as (Hlast & _ & page & Hpage & _ & Hcov). apply goto_inv; [done|].
    split; [done|]. intros t. apply Hcov. set_solver.
  - destruct (Publish _ _ _) as [g p'] eqn:E. by apply (relay_publish_inv p0 s next topic rest byTopic g p').
  - apply goto_inv; [done|]. by case_match.
  - destruct (cp_Set _ _ _) as [g c'] eqn:E. by apply (checkpoint_inv p0 s next g c').
  - done.
Qed.

Lemma relay_step_inv p0 s s' : relay_inv p0 s -> relay_step s s' -> relay_inv p0 s'.
Proof.
  intros Hinv Hstep. destruct Hstep as [timer s|now str v es res w' s Hsize E|s|s|name seq res c' s Hne E].
  - by apply run_step_inv.
  - destruct (append_log _ _ _ _ _ _ _ (ri_store _ _ Hinv) Hsize E) as (Hst & recs & Hlog).
    by eapply grow_inv.
  - apply goto_inv; [done | apply Hinv].
  - by apply goto_inv.
  - apply checkpoints_inv; [done|]. unfold owner_checkpoint, checkpoint_of.
    destruct (cp_Set_spec _ _ _ _ _ E) as [->|[_ ->]]; [by rewrite lookup_insert_ne | done].
Qed.

(** A relay about to start over any well-formed log, with nothing checkpointed. *)
Lemma relay_inv_start w (c : K) (p : P) cancelled :
  store_inv w -> positions_of c !! cfg_Name (cfg r) = None ->
  relay_inv p (mkWorld w c p cancelled Starting).
Proof.
  intros Hst Hc.
  assert (upto GlobalSeq 0 (log_of w) = []) as Hnil.
  { by apply upto_zero, log_ok_increasing, store_log_ok. }
  split; unfold covered, owner_checkpoint, checkpoint_of, log_at, pc_inv; simpl; rewrite ?Hc; simpl; try done.
  - by apply last_seq_nonneg, store_log_ok.
  - intros t. rewrite Hnil. apply sublist_nil_l.
  - by left.
Qed.
End system.

(** ** Catching up *)

Section catching_up.
Context {Ev C W K P : Type} `{DomainEvent Ev} `{MarshalEvent Ev} `{IntegrationEvent C} `{MarshalEvent C}.
Context `{StoreSpec W} `{CheckpointSpec K} `{PublisherSpec P}.
Context (r : Relay Ev C).
Implicit Types (s : world W K P).

(** Undisturbed running: no failure, no cancellation. *)
Definition quiet s s' : Prop := s' = run_step r true s.

Context (HR : forall after limit (w : W), is_ok (fst (ReadAll after limit w)) = true).
Context (HP : forall topic msgs (p : P), fst (Publish topic msgs p) = Ok tt).
Context (HS : forall name seq (c : K), fst (cp_Set name seq c) = Ok tt).

Lemma group_loop_total recs topics by0 :
  Forall (fun rec => is_ok (translate r rec) = true) recs ->
  exists topics' by', group_loop r recs topics by0 = Ok (topics', by').
Proof.
  intros Hall. revert topics by0. induction Hall as [|rec recs Hrec _ IH]; intros topics by0; simpl; [eauto|].
  destruct (translate r rec) as [[[t m] []]| |]; simpl in *; done || apply IH.
Qed.

Lemma publishes_all next topics byTopic w (c : K) p :
  exists p', rtc quiet (mkWorld w c p false (Publishing next topics byTopic))
                       (mkWorld w c p' false (Publishing next [] byTopic)).
Proof.
  revert p. induction topics as [|t rest IH]; intros p; [by eexists|].
  destruct (Publish t (default [] (byTopic !! t)) p) as [g p1] eqn:E.
  pose proof (HP t (default [] (byTopic !! t)) p) as Hok. rewrite E in Hok. simpl in Hok. subst g.
  destruct (IH p1) as [p' Hrest]. exists p'. eapply rtc_l; [|exact Hrest].
  unfold quiet, run_step. simpl. by rewrite E.
Qed.

(** One turn of the loop over a page that is not empty. *)
Lemma turn seq s :
  store_inv (w_store s) -> w_pc s = Head_of_loop seq -> w_cancelled s = false ->
  Forall (fun rec => is_ok (translate r rec) = true) (log_at s) ->
  (exists s', rtc quiet s s' /\ w_pc s' = Idle seq /\ log_at s' = log_at s
     /\ beyond GlobalSeq seq (log_at s) = [])
  \/ (exists s' x, rtc quiet s s' /\ w_pc s' = Head_of_loop (GlobalSeq x) /\ w_cancelled s' = false
     /\ log_at s' = log_at s /\ store_inv (w_store s')
     /\ last (readall_result seq (BatchSize (cfg r)) (log_at s)) = Some x).
Proof.
  destruct s as [w c p b pc]. unfold log_at. simpl. intros Hinv -> -> Htr.
  destruct (ReadAll seq (BatchSize (cfg r)) w) as [g w'] eqn:E.
  destruct (ReadAll_spec _ _ _ _ _ Hinv E) as (Hinv' & Hlog & Hrecs).
  pose proof (HR seq (BatchSize (cfg r)) w) as Hok. rewrite E in Hok. destruct g as [page| |]; [|done..].
  specialize (Hrecs page eq_refl). destruct (last page) as [x|] eqn:Hx.
  - right. assert (Forall (fun rec => is_ok (translate r rec) = true) page) as Hpage.
    { rewrite Forall_forall in *. intros y Hy. apply Htr. rewrite Hrecs in Hy.
      by apply elem_of_read_page in Hy as [? _]. }
    destruct (group_loop_total page [] ∅ Hpage) as (topics & byTopic & Hg).
    destruct (publishes_all (GlobalSeq x) topics byTopic w' c p) as [p' Hpub].
    destruct (cp_Set (cfg_Name (cfg r)) (GlobalSeq x) c) as [gs c'] eqn:Es.
    pose proof (HS (cfg_Name (cfg r)) (GlobalSeq x) c) as Hset. rewrite Es in Hset. simpl in Hset. subst gs.
    exists (mkWorld w' c' p' false (Head_of_loop (GlobalSeq x))), x. split_and!; try done; [|by rewrite <-Hrecs].
    eapply rtc_l; [reflexivity|]. eapply rtc_l; [reflexivity|].
    etransitivity; [|eapply rtc_l; [reflexivity|]; eapply rtc_l; [reflexivity|]].
    + unfold run_step at 1. simpl. rewrite E, Hx, Hg. exact Hpub.
    + unfold run_step. simpl. rewrite Es. reflexivity.
  - left. exists (mkWorld w' c p false (Idle seq)). split_and!; try done.
    + eapply rtc_l; [reflexivity|]. eapply rtc_l; [reflexivity|].
      unfold run_step. simpl. rewrite E, Hx. reflexivity.
    + apply last_None in Hx as ->. symmetry in Hrecs. by apply read_page_nil in Hrecs.
Qed.

Lemma catches_up n seq s :
  store_inv (w_store s) -> w_pc s = Head_of_loop seq -> w_cancelled s = false ->
  Forall (fun rec => is_ok (translate r rec) = true) (log_at s) ->
  (length (beyond GlobalSeq seq (log_at s)) <= n)%nat ->
  exists s' seq', rtc quiet s s' /\ w_pc s' = Idle seq' /\ log_at s' = log_at s /\ upto GlobalSeq seq' (log_at s) = log_at s.
Proof.
  revert seq s. induction n as [n IH] using lt_wf_ind. intros seq s Hinv Hpc Hb Htr Hn.
  assert (log_ok (log_at s)) as Hlog by (by apply store_log_ok).
  destruct (turn seq s Hinv Hpc Hb Htr) as [(s' & Hrun & Hpc' & Hl & Hnil)
                                           |(s' & x & Hrun & Hpc' & Hb' & Hl & Hinv' & Hx)].
  - exists s', seq. split_and!; try done. apply upto_all; [by apply log_ok_increasing | done].
  - pose proof (page_next GlobalSeq _ _ _ _ _ (log_ok_increasing _ Hlog) eq_refl Hx) as Hnext.
    assert (0 < length (readall_result seq (BatchSize (cfg r)) (log_at s)))%nat as Hpos
      by (destruct (readall_result _ _ _); simpl in *; [done|lia]).
    change (read_page GlobalSeq seq (BatchSize (cfg r)) (log_at s))
      with (readall_result seq (BatchSize (cfg r)) (log_at s)) in Hnext.
    apply (f_equal length) in Hnext. rewrite length_app in Hnext.
    destruct (IH (length (beyond GlobalSeq (GlobalSeq x) (log_at s))) ltac:(lia) (GlobalSeq x) s')
      as (s'' & seq'' & Hrun' & Hpc'' & Hl' & Hup); rewrite ?Hl; try done.
    exists s'', seq''. split_and!; [by etransitivity | done | congruence | congruence].
Qed.
End catching_up.

(** ** Properties *)

(** C5: At least once, in commit order, through everything. However the relay
    starts, fails, is cancelled, crashes and restarts, whatever the broker and
    the checkpoint store answer, and whatever the service appends meanwhile:
    for every topic, the messages of all records up to the stored checkpoint
    are on the topic in commit order (with other messages possibly between
    them); and everything the relay put on a topic is the translation of a
    stored record to that topic. *)
Theorem relay_at_least_once {Ev C W K P} `{DomainEvent Ev} `{MarshalEvent Ev} `{IntegrationEvent C} `{MarshalEvent C}
    `{StoreSpec W} `{CheckpointSpec K} `{PublisherSpec P}
    (r : Relay Ev C) (w0 : W) (c0 : K) (p0 : P) (s : world W K P)
    (Hstore : store_inv w0) (Hnew : positions_of c0 !! cfg_Name (cfg r) = None)
    (Hrun : rtc (relay_step r) (mkWorld w0 c0 p0 false Starting) s) (topic : string) :
  outgoing r topic (upto GlobalSeq (checkpoint_of (w_checkpoints s) (cfg_Name (cfg r))) (log_of (w_store s)))
    `sublist_of` published (w_publisher s) topic
  /\ checkpoint_of (w_checkpoints s) (cfg_Name (cfg r)) <= last_seq (log_of (w_store s))
  /\ forall m, m ∈ published (w_publisher s) topic ->
       m ∈ published p0 topic
       \/ exists rec, rec ∈ log_of (w_store s) /\ translate r rec = Ok (topic, m, true).
Proof.
  assert (relay_inv r p0 s) as [Hst Hle Hc Hon _].
  { eapply (rtc_invariant (relay_step r)); [by apply relay_step_inv | by apply relay_inv_start | done]. }
  split_and!; [apply Hc | done|]. intros m [?|Hm]%Hon; [by left|]. right.
  unfold outgoing in Hm. apply list_elem_of_omap in Hm as (rec & Hin & Hrec). exists rec. split; [done|].
  unfold message_for in Hrec. destruct (translate r rec) as [[[t m'] []]| |]; try done.
  case_decide; [|done]. by simplify_eq.
Qed.

(** Catching up. From the head of its loop, with the infrastructure
    answering and every stored event translatable, the relay reaches its idle
    wait, and then everything the log owes any topic is on that topic. *)
Theorem relay_catches_up {Ev C W K P} `{DomainEvent Ev} `{MarshalEvent Ev} `{IntegrationEvent C} `{MarshalEvent C}
    `{StoreSpec W} `{CheckpointSpec K} `{PublisherSpec P}
    (r : Relay Ev C) (w0 : W) (c0 : K) (p0 : P) (s : world W K P) (seq : Z)
    (HR : forall after limit (w : W), is_ok (fst (ReadAll after limit w)) = true)
    (HP : forall topic msgs (p : P), fst (Publish topic msgs p) = Ok tt)
    (HS : forall name n (c : K), fst (cp_Set name n c) = Ok tt)
    (Hstore : store_inv w0) (Hnew : positions_of c0 !! cfg_Name (cfg r) = None)
    (Hrun : rtc (relay_step r) (mkWorld w0 c0 p0 false Starting) s)
    (Hpc : w_pc s = Head_of_loop seq) (Hlive : w_cancelled s = false)
    (Htr : Forall (fun rec => is_ok (translate r rec) = true) (log_of (w_store s))) :
  exists s' seq', rtc (quiet r) s s' /\ w_pc s' = Idle seq'
    /\ log_of (w_store s') = log_of (w_store s)
    /\ forall topic, outgoing r topic (log_of (w_store s)) `sublist_of` published (w_publisher s') topic.
Proof.
  assert (relay_inv r p0 s) as Hinv.
  { eapply (rtc_invariant (relay_step r)); [by apply relay_step_inv | by apply relay_inv_start | done]. }
  destruct (catches_up r HR HP HS _ seq s (ri_store _ _ _ Hinv) Hpc Hlive Htr (Nat.le_refl _))
    as (s' & seq' & Hq & Hpc' & Hl & Hup).
  exists s', seq'. split_and!; try done. intros topic.
  assert (relay_inv r p0 s') as [_ _ Hc _ Hpc_inv].
  { eapply (rtc_invariant (quiet r)); [|exact Hinv|exact Hq]. intros x y Hx ->. by apply run_step_inv. }
  unfold pc_inv in Hpc_inv. rewrite Hpc' in Hpc_inv. specialize (Hc topic).
  rewrite <-Hpc_inv, Hl, Hup in Hc. exact Hc.
Qed.

(** Deterministic identifiers. Two records of one store whose categories
    contain no slash have the same message identifier only when they are the
    same record, so that identifiers deduplicate redeliveries and nothing
    else; and a translated message carries its record's identifier, stream key
    and metadata whichever attempt produced it. *)
Theorem message_ids_are_faithful {Ev C} `{DomainEvent Ev} `{MarshalEvent Ev} `{IntegrationEvent C} `{MarshalEvent C}
    (r : Relay Ev C) (log : list RecordedEvent) (x y : RecordedEvent)
    (Hlog : log_ok log) (Hx : x ∈ log) (Hy : y ∈ log)
    (Hcx : str_contains "/"%char (Category (Stream x)) = false)
    (Hcy : str_contains "/"%char (Category (Stream y)) = false) :
  (MessageID x = MessageID y -> x = y)
  /\ forall topic m, routes r !! rec_EventName x = None -> translate r x = Ok (topic, m, true) ->
       topic = cfg_Topic (cfg r) /\ msg_ID m = MessageID x /\ msg_Key m = StreamKey (Stream x)
       /\ msg_Metadata m = rec_Metadata x /\ msg_OccurredAt m = OccurredAt x.
Proof.
  split.
  - unfold MessageID. intros Heq.
    apply (str_cut_first "/"%char) in Heq as [Hcat Heq]; [|done..].
    apply (str_cut_last "#"%char) in Heq as [Hkey Hv]; [|by apply FormatInt_contains..].
    apply FormatInt_inj in Hv.
    assert (Stream x = Stream y) as Hs by (destruct (Stream x), (Stream y); simpl in *; congruence).
    destruct Hlog as [_ Hver]. specialize (Hver (Stream x)).
    assert (x ∈ stream_of (Stream x) log /\ y ∈ stream_of (Stream x) log) as [Hxs Hys]
      by (split; apply list_elem_of_filter; done).
    apply list_elem_of_lookup in Hxs as [i Hi], Hys as [j Hj].
    assert (i = j) as ->; [|congruence].
    assert (NoDup (rec_Version <$> stream_of (Stream x) log)) as Hnd by (rewrite Hver; apply NoDup_seqZ).
    eapply (NoDup_lookup _ _ _ (rec_Version x) Hnd); rewrite list_lookup_fmap, ?Hi, ?Hj; simpl; congruence.
  - intros topic m Hroute. unfold translate. rewrite Hroute.
    destruct (translators r !! _) as [tr|]; [|done].
    intros (e & _ & (i & _ & Hm)%res_bind_ok)%res_bind_ok. destruct i as [i|]; [|done].
    apply res_bind_ok in Hm as (msg & Hmsg & [= <- <-]). unfold NewMessage in Hmsg. by res_inv.
Qed.

(** Private by default. Registering a translator (or a route) for one event
    changes only what that event translates to; an event with neither stays
    private, without being decoded; and an event cannot have both, nor two of
    either. *)
Theorem relay_registration {Ev C} `{DomainEvent Ev} `{MarshalEvent Ev} `{IntegrationEvent C} `{MarshalEvent C}
    (r r' : Relay Ev C) (E : GoType Ev) `{!GoTypeOk E} (fn : carrier E -> option C) (route : RouteFunc Ev)
    (name := EventName (to_interface E (zero_value E)))
    (Hreg : Translate E fn r = Ok r') :
  (forall rec, rec_EventName rec <> name -> translate r' rec = translate r rec)
  /\ (forall rec, translators r' !! rec_EventName rec = None -> routes r' !! rec_EventName rec = None ->
        translate r' rec = Ok ("", zero_Message, false))
  /\ is_ok (Translate E fn r') = false /\ is_ok (Route name route r') = false
  /\ (forall rec x, rec_EventName rec = name -> Decode rec (relay_registry r) = Ok (to_interface E x) ->
        fn x = None ->
        translate r' rec = Ok ("", zero_Message, false)).
Proof.
  unfold Translate in Hreg. fold name in Hreg.
  destruct (translators r !! name); [done|]. destruct (routes r !! name) eqn:Hr; [done|].
  injection Hreg as <-. split_and!.
  - intros rec Hne. unfold translate. simpl. by rewrite lookup_insert_ne.
  - intros rec Ht Hn. unfold translate. by rewrite Hn, Ht.
  - unfold Translate. fold name. simpl. by rewrite lookup_insert_eq.
  - unfold Route. simpl. by rewrite Hr, lookup_insert_eq.
  - intros rec x Hn Hdec Hfn. unfold translate. simpl. rewrite Hn, Hr, lookup_insert_eq, Hdec. simpl.
    by rewrite assert_to_interface, Hfn.
Qed.

(** ** Witnesses *)

Module Sample.
Import Kernel.Sample Registry.Sample Repository.

(** A contract that carries the counter's increments. *)
Inductive contract := CountedV1 (n : Z).
#[export] Instance contract_event : IntegrationEvent contract :=
  { ContractName _ := "sample.counted"; ContractVersion _ := 1 }.
#[export] Instance contract_marshal : MarshalEvent contract := fun c => let '(CountedV1 n) := c in Ok (enc_int n).
#[export] Instance Incremented_ok : GoTypeOk Incremented_type.
Proof. split; [done | by intros [] ? [= ->]]. Qed.
Definition config : Config := mkConfig "sample.relay" "sample.events" 1 1 1.
Definition fresh : Relay event contract := mkRelay registry config ∅ ∅.
Definition publish_positive (n : Z) : option contract := if n <=? 0 then None else Some (CountedV1 n).
Definition relay : Relay event contract :=
  mkRelay registry config
    {["sample.incremented" := fun e => match type_assert Incremented_type e with
                                       | Some x => Ok (publish_positive x)
                                       | None => Panic "interface conversion"
                                       end]} ∅.
Definition start : world MemoryStore MemoryCheckpointStore MemoryBroker :=
  mkWorld Race.w0 NewMemoryCheckpointStore NewMemoryBroker false Starting.

Lemma iter_reaches n s : rtc (relay_step relay) s (Nat.iter n (run_step relay true) s).
Proof. induction n as [|n IH]; [done|]. eapply rtc_r; [exact IH | apply relay_runs]. Qed.

(** Read, group, publish, checkpoint. *)
Definition ran : world MemoryStore MemoryCheckpointStore MemoryBroker := Nat.iter 6 (run_step relay true) start.
Definition record : RecordedEvent :=
  mkRecordedEvent 1 (mkStreamID "counter" "c-1") 1 "sample.incremented" 1 (RawJSON (JInt 5)) None zero_time.
Definition message : Message :=
  mkMessage "counter/c-1#1" "c-1" "sample.counted" 1 zero_time (RawJSON (JInt 5)) None.
End Sample.
Import Kernel.Sample Registry.Sample Sample.

Lemma relay_at_least_once_witness :
  checkpoint_of (w_checkpoints ran) "sample.relay" = 1
  /\ outgoing relay "sample.events" (upto GlobalSeq 1 (log_of (w_store ran))) = [message]
  /\ outgoing relay "sample.events" (upto GlobalSeq 1 (log_of (w_store ran))) `sublist_of` published (w_publisher ran) "sample.events".
Proof.
  split; [vm_compute; reflexivity|]. split; [vm_compute; reflexivity|].
  assert (checkpoint_of (w_checkpoints ran) "sample.relay" = 1) as Hcp by (vm_compute; reflexivity).
  rewrite <-Hcp.
  exact (proj1 (relay_at_least_once relay Repository.Race.w0 NewMemoryCheckpointStore NewMemoryBroker ran
    Repository.Race.w0_inv eq_refl (iter_reaches 6 start) "sample.events")).
Defined.

Lemma relay_catches_up_witness :
  exists s' seq', rtc (quiet relay) (run_step relay true start) s' /\ w_pc s' = Idle seq'
    /\ log_of (w_store s') = log_of (w_store (run_step relay true start))
    /\ forall topic, outgoing relay topic (log_of (w_store (run_step relay true start)))
         `sublist_of` published (w_publisher s') topic.
Proof.
  apply (relay_catches_up relay Repository.Race.w0 NewMemoryCheckpointStore NewMemoryBroker
    (run_step relay true start) 0); try (intros; reflexivity).
  - exact Repository.Race.w0_inv.
  - apply (iter_reaches 1).
  - assert (log_of (w_store (run_step relay true start)) = [record]) as -> by (vm_compute; reflexivity).
    repeat constructor.
Defined.

Lemma message_ids_are_faithful_witness :
  (MessageID record = MessageID record -> record = record)
  /\ msg_ID message = MessageID record /\ msg_Key message = "c-1".
Proof.
  destruct (message_ids_are_faithful relay [record] record record) as [Hinj Henv];
    [| by left | by left | done | done |].
  - split; [by repeat constructor|]. intros s. unfold stream_of, stream_version, stream_of.
    rewrite filter_cons, filter_nil. by case_decide.
  - split; [exact Hinj|].
    destruct (Henv "sample.events" message) as (_ & Hid & Hkey & _); [done | by vm_compute | done].
Defined.

Lemma relay_registration_witness :
  Translate Incremented_type publish_positive fresh = Ok relay
  /\ is_ok (Translate Incremented_type publish_positive relay) = false.
Proof.
  split; [reflexivity|].
  exact (proj1 (proj2 (proj2 (relay_registration fresh relay Incremented_type publish_positive
    (fun rec _ => Ok ("", zero_Message, false)) eq_refl)))).
Defined.
