(* ===== verification/Saga.v ===== *)
(** * saga/saga.go and saga/runner.go: process managers

    A saga instance is an aggregate whose events are the envelopes it received,
    the commands it decided and its end. The framework's three event types join
    the service's other domain events [X] in one interface. *)

From S2P Require Import Prelude Tail Errors Utf8 GoTime Json Kernel EventStore MemoryStore Registry Checkpoint Repository Broker Envelope Cqrs Consumer Relay.

(** ** Decisions *)

Record OutCommand (Cmd : Type) := mkOutCommand { out_Topic : string; out_Key : string; out_Cmd : Cmd }.
Arguments mkOutCommand {Cmd} _ _ _.
Arguments out_Topic {Cmd} _.
Arguments out_Key {Cmd} _.
Arguments out_Cmd {Cmd} _.

Record Decisions (Cmd : Type) := mkDecisions { Commands : list (OutCommand Cmd); dec_End : bool }.
Arguments mkDecisions {Cmd} _ _.
Arguments Commands {Cmd} _.
Arguments dec_End {Cmd} _.

Definition Send {Cmd} (cmds : list (OutCommand Cmd)) : Decisions Cmd := mkDecisions cmds false.
Definition End_saga {Cmd} : Decisions Cmd := mkDecisions [] true.
Definition no_decisions {Cmd} : Decisions Cmd := mkDecisions [] false.

(** ** Definitions *)

(** A handler mutates the state it is given, also when it then fails. *)
Record evHandler (S Cmd : Type) := mkHandler {
  correlate : Message -> res string;
  handle : S -> Message -> S * res (Decisions Cmd);
}.
Arguments mkHandler {S Cmd} _ _.
Arguments correlate {S Cmd} _ _.
Arguments handle {S Cmd} _ _ _.

Record SagaDefinition (S Cmd : Type) := mkDefinition {
  def_name : string;
  def_handlers : gmap string (evHandler S Cmd);
}.
Arguments mkDefinition {S Cmd} _ _.
Arguments def_name {S Cmd} _.
Arguments def_handlers {S Cmd} _.

Definition New {S Cmd} (name : string) : res (SagaDefinition S Cmd) :=
  if decide (name = "") then Panic "saga: New: empty name" else Ok (mkDefinition name ∅).

Definition saga_Category {S Cmd} (d : SagaDefinition S Cmd) : string := "saga." +:+ def_name d.

Definition eventKey (name : string) (version : Z) : string := name +:+ "@v" +:+ FormatInt version.

(** The [evHandler] [OnEvent] builds: decode the payload, then call. *)
Definition event_handler {S Cmd C} `{JsonCodec C} (name key : string) (correlate_fn : C -> string)
    (handle_fn : S -> C -> S * res (Decisions Cmd)) : evHandler S Cmd :=
  let decode msg :=
    res_wrap ("saga " +:+ name +:+ ": decoding " +:+ key +:+ " (message " +:+ msg_ID msg +:+ "): ") ""
      (Unmarshal_raw (T := C) (msg_Payload msg)) in
  mkHandler
    (fun msg => try e := decode msg in Ok (correlate_fn e))
    (fun s msg => match decode msg with
                  | Ok e => handle_fn s e
                  | Err e => (s, Err e)
                  | Panic m => (s, Panic m)
                  end).

(** [OnEvent[S, E]]; [zero] is the zero value of the contract. *)
Definition OnEvent {S Cmd C} `{IntegrationEvent C} `{JsonCodec C} (zero : C) (correlate_fn : C -> string)
    (handle_fn : S -> C -> S * res (Decisions Cmd)) (d : SagaDefinition S Cmd) : res (SagaDefinition S Cmd) :=
  let key := eventKey (ContractName zero) (ContractVersion zero) in
  match def_handlers d !! key with
  | Some _ => Panic ("saga " +:+ def_name d +:+ ": duplicate handler for " +:+ Quote key)
  | None =>
    Ok (mkDefinition (def_name d) (<[key := event_handler (def_name d) key correlate_fn handle_fn]> (def_handlers d)))
  end.

(** ** The saga's stream events *)

Record EventReceived := mkEventReceived { Envelope : Message }.

Record CommandRequested := mkCommandRequested {
  cr_Topic : string;
  cr_Key : string;
  cr_CommandName : string;
  cr_ContractVersion : Z;
  cr_Payload : RawMessage;
  cr_Metadata : strmap;
}.

Inductive saga_event (X : Type) :=
  | eventReceived (ev : EventReceived)
  | commandRequested (cr : CommandRequested)
  | ended
  | other (x : X).
Arguments eventReceived {X} ev.
Arguments commandRequested {X} cr.
Arguments ended {X}.
Arguments other {X} x.

#[export] Instance saga_event_name {X} `{DomainEvent X} : DomainEvent (saga_event X) :=
  fun e => match e with
           | eventReceived _ => "saga.event_received"
           | commandRequested _ => "saga.command_requested"
           | ended => "saga.ended"
           | other x => EventName x
           end.

(** *** Their JSON forms *)

Definition enc_received (ev : EventReceived) : res json :=
  try j := enc_message (Envelope ev) in Ok (JObj [("envelope", j)]).
Definition set_received (key : string) (v : json) (ev : EventReceived) : res EventReceived :=
  on_field "envelope" (dec_message (Envelope ev)) mkEventReceived key v (Ok ev).

Definition enc_requested (c : CommandRequested) : res json :=
  try p := enc_raw (cr_Payload c) in
  Ok (JObj ([("topic", enc_string (cr_Topic c)); ("key", enc_string (cr_Key c));
             ("command_name", enc_string (cr_CommandName c)); ("contract_version", enc_int (cr_ContractVersion c));
             ("payload", p)] ++ omit_empty "metadata" (cr_Metadata c))).
Definition set_requested (key : string) (v : json) (c : CommandRequested) : res CommandRequested :=
  on_field "topic" (dec_string (cr_Topic c)) (fun x => mkCommandRequested x (cr_Key c) (cr_CommandName c) (cr_ContractVersion c) (cr_Payload c) (cr_Metadata c)) key v
  (on_field "key" (dec_string (cr_Key c)) (fun x => mkCommandRequested (cr_Topic c) x (cr_CommandName c) (cr_ContractVersion c) (cr_Payload c) (cr_Metadata c)) key v
  (on_field "command_name" (dec_string (cr_CommandName c)) (fun x => mkCommandRequested (cr_Topic c) (cr_Key c) x (cr_ContractVersion c) (cr_Payload c) (cr_Metadata c)) key v
  (on_field "contract_version" (dec_int (cr_ContractVersion c)) (fun x => mkCommandRequested (cr_Topic c) (cr_Key c) (cr_CommandName c) x (cr_Payload c) (cr_Metadata c)) key v
  (on_field "payload" (dec_raw (cr_Payload c)) (fun x => mkCommandRequested (cr_Topic c) (cr_Key c) (cr_CommandName c) (cr_ContractVersion c) x (cr_Metadata c)) key v
  (on_field "metadata" (dec_map (cr_Metadata c)) (fun x => mkCommandRequested (cr_Topic c) (cr_Key c) (cr_CommandName c) (cr_ContractVersion c) (cr_Payload c) x) key v
  (Ok c)))))).

Definition zero_requested : CommandRequested := mkCommandRequested "" "" "" 0 RawNil None.

#[export] Instance received_codec : JsonCodec EventReceived :=
  { Marshal := enc_received; Unmarshal := dec_struct set_received (mkEventReceived zero_Message) }.
#[export] Instance requested_codec : JsonCodec CommandRequested :=
  { Marshal := enc_requested; Unmarshal := dec_struct set_requested zero_requested }.
#[export] Instance ended_codec : JsonCodec unit :=
  { Marshal _ := Ok (JObj []); Unmarshal := dec_struct (fun _ _ t => Ok t) tt }.

#[export] Instance saga_marshal {X} `{MarshalEvent X} : MarshalEvent (saga_event X) :=
  fun e => match e with
           | eventReceived ev => Marshal ev
           | commandRequested c => Marshal c
           | ended => Marshal tt
           | other x => marshal_event x
           end.

Section registration.
Context {X : Type} `{DomainEvent X} `{MarshalEvent X}.

Definition received_type : GoType (saga_event X) :=
  mkGoType _ EventReceived (mkEventReceived zero_Message) eventReceived
    (fun e => match e with eventReceived ev => Some ev | _ => None end).
Definition requested_type : GoType (saga_event X) :=
  mkGoType _ CommandRequested zero_requested commandRequested
    (fun e => match e with commandRequested c => Some c | _ => None end).
Definition ended_type : GoType (saga_event X) :=
  mkGoType _ unit tt (fun _ => ended) (fun e => match e with ended => Some tt | _ => None end).

#[export] Instance received_type_codec : JsonCodec (carrier received_type) := received_codec.
#[export] Instance requested_type_codec : JsonCodec (carrier requested_type) := requested_codec.
#[export] Instance ended_type_codec : JsonCodec (carrier ended_type) := ended_codec.

Definition RegisterEvents (r : Registry (saga_event X)) : res (Registry (saga_event X)) :=
  try r1 := Register received_type r in
  try r2 := Register requested_type r1 in
  Register ended_type r2.

(** ** Routing recorded commands *)

Definition route_command (rec : RecordedEvent) (e : saga_event X) : res (string * Message * bool) :=
  match e with
  | commandRequested cr =>
    Ok (cr_Topic cr,
        {| msg_ID := MessageID rec; msg_Key := cr_Key cr; msg_Type := cr_CommandName cr;
           msg_Version := cr_ContractVersion cr; msg_OccurredAt := OccurredAt rec;
           msg_Payload := cr_Payload cr; msg_Metadata := cr_Metadata cr |}, true)
  | _ => Panic "interface conversion"
  end.

Definition RegisterCommandRouting {C} (r : Relay (saga_event X) C) : res (Relay (saga_event X) C) :=
  Route (EventName (commandRequested zero_requested : saga_event X)) route_command r.
End registration.

(** ** The running instance *)

Record instance (S Cmd : Type) := mkInstance {
  inst_def : SagaDefinition S Cmd;
  inst_state : S;
  inst_ended : bool;
  inst_seen : gmap string bool;
  lastDecisions : Decisions Cmd;
}.
Arguments mkInstance {S Cmd} _ _ _ _ _.
Arguments inst_def {S Cmd} _.
Arguments inst_state {S Cmd} _.
Arguments inst_ended {S Cmd} _.
Arguments inst_seen {S Cmd} _.
Arguments lastDecisions {S Cmd} _.

(** [newInstance]; [zero] is the zero value of the state type. *)
Definition newInstance {S Cmd} (zero : S) (def : SagaDefinition S Cmd) : instance S Cmd :=
  mkInstance def zero false ∅ no_decisions.

Definition was_seen {S Cmd} (i : instance S Cmd) (id : string) : bool := default false (inst_seen i !! id).

#[export] Instance saga_apply {S Cmd X} `{DomainEvent X} : Aggregate (instance S Cmd) (saga_event X) :=
  fun i e =>
    match e with
    | eventReceived ev =>
      let seen := <[msg_ID (Envelope ev) := true]> (inst_seen i) in
      match def_handlers (inst_def i) !! eventKey (msg_Type (Envelope ev)) (msg_Version (Envelope ev)) with
      | None => (mkInstance (inst_def i) (inst_state i) (inst_ended i) seen no_decisions, Ok tt)
      | Some h =>
        let '(s', r) := handle h (inst_state i) (Envelope ev) in
        match r with
        | Ok d => (mkInstance (inst_def i) s' (inst_ended i) seen d, Ok tt)
        | Err e => (mkInstance (inst_def i) s' (inst_ended i) seen (lastDecisions i), Err e)
        | Panic m => (mkInstance (inst_def i) s' (inst_ended i) seen (lastDecisions i), Panic m)
        end
      end
    | commandRequested _ => (i, Ok tt)
    | ended => (mkInstance (inst_def i) (inst_state i) true (inst_seen i) (lastDecisions i), Ok tt)
    | other x => (i, Err (EText ("saga " +:+ def_name (inst_def i) +:+ ": unknown stream event " +:+ Quote (EventName x))))
    end.

(** ** Runner *)

Section runner.
Context {S Cmd X W : Type} `{DomainEvent X} `{MarshalEvent X} `{Command Cmd} `{MarshalEvent Cmd} `{VersionedCommand Cmd} `{Store W}.

Record Runner := mkRunner {
  run_def : SagaDefinition S Cmd;
  run_repo : Repository (instance S Cmd) (saga_event X);
  conflictRetries : nat;
}.

Definition NewRunner (zero : S) (def : SagaDefinition S Cmd) (registry : Registry (saga_event X)) : Runner :=
  mkRunner def (mkRepository registry (saga_Category def) (newInstance zero def)) 3.

Implicit Types (r : Runner) (a : Agg (instance S Cmd) (saga_event X)).

(** The [commandRequested] of one decided command. *)
Definition request r (id : string) (md : strmap) (out : OutCommand Cmd) : res CommandRequested :=
  let where_ := "saga " +:+ def_name (run_def r) +:+ "/" +:+ id +:+ ": " in
  if decide (out_Topic out = "")
  then Err (EText (where_ +:+ "command " +:+ CommandName (out_Cmd out) +:+ " has no topic")) else
  try payload := res_wrap (where_ +:+ "encoding " +:+ CommandName (out_Cmd out) +:+ ": ") "" (marshal_event (out_Cmd out)) in
  Ok {| cr_Topic := out_Topic out;
        cr_Key := if decide (out_Key out = "") then id else out_Key out;
        cr_CommandName := CommandName (out_Cmd out);
        cr_ContractVersion := match VersionedCommand_version (out_Cmd out) with Some v => v | None => 1 end;
        cr_Payload := RawJSON payload; cr_Metadata := md |}.

(** The loop over the decided commands. *)
Fixpoint raise_commands r (id : string) (md : strmap) (outs : list (OutCommand Cmd)) a : Agg (instance S Cmd) (saga_event X) * res unit :=
  match outs with
  | [] => (a, Ok tt)
  | out :: rest =>
    match request r id md out with
    | Err e => (a, Err e)
    | Panic m => (a, Panic m)
    | Ok cr =>
      match Raise a (commandRequested cr) with
      | (a', Ok _) => raise_commands r id md rest a'
      | (a', e) => (a', e)
      end
    end
  end.

(** Everything [process] does between loading and saving: [None] when there is
    nothing to do. *)
Definition decide_on r (x : Extractor) (ctx : Context) (id : string) (msg : Message) a
    : option (Agg (instance S Cmd) (saga_event X) * res unit) :=
  if inst_ended (state a) || was_seen (state a) (msg_ID msg) then None else
  Some
    match Raise a (eventReceived (mkEventReceived msg)) with
    | (a1, Ok _) =>
      let decisions := lastDecisions (state a1) in
      let md := match MetadataFromContext x ctx with None => msg_Metadata msg | md => md end in
      match raise_commands r id md (Commands decisions) a1 with
      | (a2, Ok _) => if dec_End decisions then Raise a2 ended else (a2, Ok tt)
      | (a2, e) => (a2, e)
      end
    | (a1, e) => (a1, e)
    end.

(** [process] up to the loaded instance; a new one if the stream is empty. *)
Definition load_instance r (id : string) (w : W) : res (Agg (instance S Cmd) (saga_event X)) * W :=
  let '(loaded, w1) := repo_Load (run_repo r) id w in
  (match loaded with
   | Ok a => Ok a
   | Err e => if errors_Is e (EDomain ErrNotFound) then Ok (new_agg (newAgg (run_repo r))) else Err e
   | Panic m => Panic m
   end, w1).

(** [process]: (done, error), and the store and the captured positions after
    it. [meanwhile] is what the rest of the world does to the store between
    the load and the save. *)
Definition process r (now : Time) (x : Extractor) (meanwhile : W -> W) (ctx : Context) (id : string) (msg : Message)
    (w : W) (h : heap) : bool * res unit * W * heap :=
  let '(loaded, w1) := load_instance r id w in
  match loaded with
  | Err e => (true, Err e, w1, h)
  | Panic m => (true, Panic m, w1, h)
  | Ok a =>
    match decide_on r x ctx id msg a with
    | None => (true, Ok tt, w1, h)
    | Some (a', Ok _) =>
      let '(saved, _, w2, h2) := repo_Save (run_repo r) now x ctx id a' (meanwhile w1) h in
      match saved with
      | Ok _ => (true, Ok tt, w2, h2)
      | Err e => (negb (errors_Is e ErrVersionConflict), Err e, w2, h2)
      | Panic m => (true, Panic m, w2, h2)
      end
    | Some (_, e) => (true, e, w1, h)
    end
  end.

(** The retry loop of [Handler], with [left] = [conflictRetries - attempt]
    attempts after the current one. *)
Fixpoint attempt r (now : nat -> Time) (x : Extractor) (meanwhile : nat -> W -> W) (ctx : Context) (id : string)
    (msg : Message) (left : nat) (w : W) (h : heap) : res unit * W * heap :=
  let '(done, err, w1, h1) := process r (now left) x (meanwhile left) ctx id msg w h in
  match err with
  | Err e =>
    if done then (Err e, w1, h1) else
    match left with
    | O => (Err e, w1, h1)
    | Datatypes.S left' => attempt r now x meanwhile ctx id msg left' w1 h1
    end
  | _ => (err, w1, h1)
  end.

(** The closure [Handler] returns. *)
Definition saga_Handler r (now : nat -> Time) (x : Extractor) (meanwhile : nat -> W -> W) (ctx : Context)
    (msg : Message) (w : W) (h : heap) : res unit * W * heap :=
  match def_handlers (run_def r) !! eventKey (msg_Type msg) (msg_Version msg) with
  | None => (Ok tt, w, h)
  | Some hd =>
    match correlate hd msg with
    | Err _ => (Ok tt, w, h)
    | Panic m => (Panic m, w, h)
    | Ok id => if decide (id = "") then (Ok tt, w, h)
               else attempt r now x meanwhile ctx id msg (conflictRetries r) w h
    end
  end.
End runner.
Arguments Runner : clear implicits.

(** ** The events survive the stream *)

Record requested_valid (c : CommandRequested) : Prop := {
  rv_Topic : utf8_valid (cr_Topic c);
  rv_Key : utf8_valid (cr_Key c);
  rv_CommandName : utf8_valid (cr_CommandName c);
  rv_ContractVersion : in_int64 (cr_ContractVersion c);
  rv_Payload : exists doc, cr_Payload c = RawJSON doc;
  rv_Metadata : optional_map_valid (cr_Metadata c);
}.

#[export] Instance received_roundtrip : JsonRoundtrip EventReceived (fun ev => message_valid (Envelope ev)).
Proof.
  intros [m] Hm. destruct (dec_enc_message m Hm) as (doc & He & Hd).
  unfold Marshal, Unmarshal, received_codec, enc_received. cbn [Envelope]. rewrite He. eexists. split; [done|].
  unfold dec_struct. member_step. cbn [Envelope]. by rewrite Hd.
Qed.

(** Settle a decoded member into the struct. *)
Ltac requested_fields :=
  cbn [res_bind cr_Topic cr_Key cr_CommandName cr_ContractVersion cr_Payload cr_Metadata].

#[export] Instance requested_roundtrip : JsonRoundtrip CommandRequested requested_valid.
Proof.
  intros [topic key name ver pay md] [Ht Hk Hn Hv [p Hp] Hmd]. simpl in *. subst pay.
  unfold Marshal, Unmarshal, requested_codec, enc_requested. simpl enc_raw. cbn [res_bind]. eexists. split; [done|].
  unfold dec_struct, zero_requested. requested_fields. cbn [app].
  member_step. rewrite dec_enc_string by done. requested_fields.
  member_step. rewrite dec_enc_string by done. requested_fields.
  member_step. rewrite dec_enc_string by done. requested_fields.
  member_step. rewrite dec_enc_int by done. requested_fields.
  member_step. rewrite dec_enc_raw. requested_fields.
  unfold omit_empty. destruct md as [md|]; [|done]. destruct Hmd as [Hne Hmd].
  destruct (decide (md = ∅)); [done|].
  member_step. by rewrite dec_enc_map.
Qed.

#[export] Instance ended_roundtrip : JsonRoundtrip unit (fun _ => True).
Proof. intros []. by eexists. Qed.

Section stream_events.
Context {X : Type} `{DomainEvent X} `{MarshalEvent X}.

#[export] Instance received_event_type : EventType (Ev := saga_event X) received_type.
Proof. by split. Qed.
#[export] Instance requested_event_type : EventType (Ev := saga_event X) requested_type.
Proof. by split. Qed.
#[export] Instance ended_event_type : EventType (Ev := saga_event X) ended_type.
Proof. by split. Qed.

(** The registry has the three framework events. *)
Definition saga_registered (r : Registry (saga_event X)) : Prop :=
  registered received_type r /\ registered requested_type r /\ registered ended_type r.

Lemma saga_events_registered r r' : RegisterEvents r = Ok r' -> saga_registered r'.
Proof.
  unfold RegisterEvents. intros (r1 & H1 & (r2 & H2 & H3)%res_bind_ok)%res_bind_ok.
  split_and!.
  - exact (Register_keeps _ _ _ _ (Register_keeps _ _ _ _ (Register_registered _ _ _ H1) H2) H3).
  - exact (Register_keeps _ _ _ _ (Register_registered _ _ _ H2) H3).
  - exact (Register_registered _ _ _ H3).
Qed.

Definition event_valid (e : saga_event X) : Prop :=
  match e with
  | eventReceived ev => message_valid (Envelope ev)
  | commandRequested c => requested_valid c
  | ended => True
  | other _ => False
  end.

Lemma event_carried {S} (repo : Repository S (saga_event X)) e :
  saga_registered (repo_registry repo) -> event_valid e -> carries repo e.
Proof.
  intros (Hr & Hc & He) Hv. destruct e as [ev|c| |x]; [| | |done].
  - exact (Encode_Decode received_type _ _ ev Hr Hv).
  - exact (Encode_Decode requested_type _ _ c Hc Hv).
  - exact (Encode_Decode ended_type _ _ tt He I).
Qed.
End stream_events.

(** ** What an instance knows *)

Section instances.
Context {S Cmd X : Type} `{DomainEvent X}.
Implicit Types (i : instance S Cmd) (e : saga_event X) (evs : list (saga_event X)).

Definition received_id (id : string) e : bool :=
  match e with eventReceived ev => bool_decide (msg_ID (Envelope ev) = id) | _ => false end.
Definition is_ended e : bool := match e with ended => true | _ => false end.

Lemma saga_apply_knows i i' e :
  Apply i e = (i', Ok tt) ->
  inst_def i' = inst_def i
  /\ (forall id, was_seen i' id = was_seen i id || received_id id e)
  /\ inst_ended i' = inst_ended i || is_ended e.
Proof.
  unfold Apply, saga_apply. destruct e as [ev|c| |x]; simpl.
  - assert (forall id, default false (<[msg_ID (Envelope ev) := true]> (inst_seen i) !! id)
             = was_seen i id || bool_decide (msg_ID (Envelope ev) = id)) as Hseen.
    { intros id. case_bool_decide as Hid; [subst; by rewrite lookup_insert_eq, orb_true_r|].
      by rewrite lookup_insert_ne, orb_false_r. }
    destruct (def_handlers (inst_def i) !! _) as [h|].
    + destruct (handle h _ _) as [s' [d| |]]; intros [= <-]. by rewrite orb_false_r.
    + intros [= <-]. by rewrite orb_false_r.
  - intros [= <-]. split_and!; [done | | by rewrite orb_false_r]. intros. by rewrite orb_false_r.
  - intros [= <-]. simpl. split_and!; [done | | by rewrite orb_true_r]. intros. by rewrite orb_false_r.
  - done.
Qed.

(** Its state after replaying a stream: what was received and whether it
    ended can be read off the stream. *)
Lemma replay_knows i i' evs :
  replay i evs = Some i' ->
  (forall id, was_seen i' id = was_seen i id || existsb (received_id id) evs)
  /\ inst_ended i' = inst_ended i || existsb is_ended evs.
Proof.
  revert i. induction evs as [|e evs IH]; intros i; simpl.
  { intros [= ->]. split; [intros|]; by rewrite orb_false_r. }
  destruct (Apply i e) as [i1 [[]| |]] eqn:Happ; [|done..]. intros (Hs & He)%IH.
  apply saga_apply_knows in Happ as (_ & Hs1 & He1).
  split; [intros id; by rewrite Hs, Hs1, orb_assoc | by rewrite He, He1, orb_assoc].
Qed.
End instances.

Section deciding.
Context {S Cmd X W : Type} `{DomainEvent X} `{MarshalEvent X} `{Command Cmd} `{MarshalEvent Cmd} `{VersionedCommand Cmd}.
Implicit Types (r : Runner S Cmd X) (a : Agg (instance S Cmd) (saga_event X)) (msg : Message).

Definition command_metadata (x : Extractor) (ctx : Context) msg : strmap :=
  match MetadataFromContext x ctx with None => msg_Metadata msg | md => md end.

(** The reaction of an instance in state [i] to [msg]: the received envelope,
    the commands its handler decides in order, and the end marker if it
    decides to end. *)
Definition reaction r (id : string) (md : strmap) msg (i : instance S Cmd) : res (list (saga_event X)) :=
  let received := eventReceived (mkEventReceived msg) in
  match Apply i received with
  | (i', Ok _) =>
    try crs := res_mapM (request r id md) (Commands (lastDecisions i')) in
    Ok (received :: (commandRequested <$> crs) ++ (if dec_End (lastDecisions i') then [ended] else []))
  | (_, Err e) => Err e
  | (_, Panic m) => Panic m
  end.

Lemma raise_commands_ok r id md outs a a' :
  raise_commands r id md outs a = (a', Ok tt) ->
  exists crs, res_mapM (request r id md) outs = Ok crs /\ raise_all a (commandRequested <$> crs) = (a', Ok tt).
Proof.
  revert a. induction outs as [|out outs IH]; intros a; cbn [raise_commands res_mapM].
  { intros [= <-]. by exists []. }
  destruct (request r id md out) as [cr| |]; [|done..]. cbn [res_bind].
  destruct (Raise a (commandRequested cr)) as [a1 [[]| |]] eqn:E; [|done..].
  intros (crs & -> & Hr)%IH. exists (cr :: crs). split; [done|]. rewrite fmap_cons. cbn [raise_all]. by rewrite E.
Qed.

Lemma raise_commands_total r id md outs crs a :
  res_mapM (request r id md) outs = Ok crs ->
  exists a', raise_commands r id md outs a = (a', Ok tt) /\ state a' = state a.
Proof.
  revert crs a. induction outs as [|out outs IH]; intros crs a; cbn [raise_commands res_mapM].
  { intros _. by exists a. }
  intros (cr & -> & (crs' & Hcrs & _)%res_bind_ok)%res_bind_ok. unfold Raise at 1. simpl.
  by destruct (IH crs' (mkAgg (mkRoot (version (root a)) (pending (root a) ++ [commandRequested cr])) (state a)) Hcrs)
    as (a' & -> & Hst); exists a'.
Qed.

Lemma raise_all_snoc a a1 a2 es e :
  raise_all a es = (a1, Ok tt) -> Raise a1 e = (a2, Ok tt) -> raise_all a (es ++ [e]) = (a2, Ok tt).
Proof.
  revert a. induction es as [|x es IH]; intros a; simpl.
  - intros [= ->] Hr. by rewrite Hr.
  - destruct (Raise a x) as [b [[]| |]]; [|done..]. apply IH.
Qed.

(** [decide_on] raises exactly the reaction. *)
Lemma decide_on_reaction r x ctx id msg a a' :
  decide_on r x ctx id msg a = Some (a', Ok tt) ->
  inst_ended (state a) = false /\ was_seen (state a) (msg_ID msg) = false
  /\ exists evs, reaction r id (command_metadata x ctx msg) msg (state a) = Ok evs /\ raise_all a evs = (a', Ok tt).
Proof.
  unfold decide_on, reaction. destruct (inst_ended _ || _) eqn:Hno; [done|].
  apply orb_false_iff in Hno as [-> ->]. intros [= Hd]. split_and!; [done..|].
  destruct (Raise a _) as [a1 [[]| |]] eqn:E; [|done..].
  pose proof (Raise_ok_inv _ _ _ _ E) as [Happ _]. rewrite Happ.
  fold (command_metadata x ctx msg) in Hd.
  destruct (raise_commands _ _ _ _ a1) as [a2 [[]| |]] eqn:Ec; [|done..].
  destruct (raise_commands_ok _ _ _ _ _ _ Ec) as (crs & -> & Hcrs). eexists. split; [done|].
  cbn [raise_all]. rewrite E. destruct (dec_End _).
  - by eapply raise_all_snoc.
  - rewrite app_nil_r. by injection Hd as ->.
Qed.

Lemma reaction_decided r x ctx id msg a evs :
  inst_ended (state a) = false -> was_seen (state a) (msg_ID msg) = false ->
  reaction r id (command_metadata x ctx msg) msg (state a) = Ok evs ->
  exists a', decide_on r x ctx id msg a = Some (a', Ok tt).
Proof.
  unfold decide_on, reaction. intros -> ->. cbn [orb]. fold (command_metadata x ctx msg).
  destruct (Apply (state a) _) as [i' [[]| |]] eqn:E; [|done..]. rewrite (Raise_apply _ _ _ E).
  cbn [state]. intros (crs & Hcrs & _)%res_bind_ok.
  match goal with |- context [raise_commands r id _ _ ?b] =>
    destruct (raise_commands_total r id _ _ crs b Hcrs) as (a' & -> & _) end.
  destruct (dec_End _); [|by eexists]. by unfold Raise; simpl; eexists.
Qed.
End deciding.

Section processing.
Context {S Cmd X W : Type} `{DomainEvent X} `{MarshalEvent X} `{Command Cmd} `{MarshalEvent Cmd} `{VersionedCommand Cmd}.
Context `{StoreSpec W}.
Implicit Types (r : Runner S Cmd X) (w : W) (msg : Message).

Definition saga_stream r (id : string) : StreamID := repo_stream (run_repo r) id.

(** The loaded instance is the one the log holds, with nothing uncommitted;
    otherwise it is a fresh one, at version 0. *)
Lemma load_instance_ok r id w a w1 :
  store_inv w -> load_instance r id w = (Ok a, w1) ->
  store_inv w1 /\ log_of w1 = log_of w /\ UncommittedEvents a = []
  /\ (holds (run_repo r) id (log_of w) a \/ a = new_agg (newAgg (run_repo r))).
Proof.
  intros Hinv. unfold load_instance. destruct (repo_Load _ id w) as [l w2] eqn:E. intros [= Hl <-].
  destruct l as [b|e|m]; [| |done].
  - injection Hl as ->. destruct (repo_Load_ok _ _ _ _ _ Hinv E) as (? & ? & ? & ? & _). auto.
  - destruct (errors_Is e _); [|done]. injection Hl as <-.
    unfold repo_Load in E. destruct (Load _ 0 w) as [l w1] eqn:El. injection E as _ <-.
    destruct (Load_spec _ _ _ _ _ Hinv El) as (? & ? & _). auto.
Qed.

Lemma load_instance_log r id w l w1 :
  store_inv w -> load_instance r id w = (l, w1) -> store_inv w1 /\ log_of w1 = log_of w.
Proof.
  intros Hinv. unfold load_instance, repo_Load. destruct (Load _ 0 w) as [l0 w2] eqn:El. intros [= _ <-].
  destruct (Load_spec _ _ _ _ _ Hinv El) as (? & ? & _). auto.
Qed.

(** What one delivery stored: the whole reaction, appended to the very stream
    it was decided on. *)
Definition reacted r x ctx id msg (before now after : list RecordedEvent) : Prop :=
  exists a evs data,
    inst_ended (state a) = false /\ was_seen (state a) (msg_ID msg) = false
    /\ reaction r id (command_metadata x ctx msg) msg (state a) = Ok evs
    /\ holds (run_repo r) id before a /\ stream_of (saga_stream r id) now = stream_of (saga_stream r id) before
    /\ encode_pending (run_repo r) (MetadataFromContext x ctx) evs = Ok data
    /\ appended (saga_stream r id) (stream_version (saga_stream r id) before) data now after.

(** The instance the save was decided on is the one the log held. *)
Lemma decided_on_current r id w a a' evs w1 recs :
  store_inv w -> load_instance r id w = (Ok a, w1) -> raise_all a evs = (a', Ok tt) ->
  last_seq (log_of w) <= int64_max ->
  Version a' = stream_version (saga_stream r id) (log_of w ++ recs) ->
  UncommittedEvents a' = evs /\ holds (run_repo r) id (log_of w) a
  /\ stream_of (saga_stream r id) (log_of w ++ recs) = stream_of (saga_stream r id) (log_of w).
Proof.
  intros Hinv Hl Hr Hmax Hv. destruct (load_instance_ok _ _ _ _ _ Hinv Hl) as (_ & _ & Hu & Ha).
  pose proof (raise_all_root _ _ _ Hr) as Hroot. unfold Version, UncommittedEvents in *.
  rewrite Hroot in *. simpl in *. rewrite Hu. split; [done|].
  pose proof (stream_version_le_last (saga_stream r id) _ (store_log_ok _ Hinv)) as Hle.
  destruct Ha as [Hh| ->].
  - split; [done|]. apply stream_prefix_same. rewrite <-Hv. by apply (holds_version _ _ _ _ Hh ltac:(unfold saga_stream in *; lia)).
  - simpl in Hv. symmetry in Hv. apply zlen_zero in Hv. rewrite stream_of_app in Hv.
    apply app_nil in Hv as [Hv1 Hv2]. rewrite stream_of_app, Hv1, Hv2. split; [|done]. by apply holds_new.
Qed.
End processing.

(** ** Properties *)

(** C8: One delivery to a saga is decided and sent atomically, on any store
    that honours the port and whatever other writers append between the load
    and the save: either nothing is stored, or the received envelope, every
    command its handler decided, in order, and the end marker are stored
    together, at the end of exactly the stream they were decided on. A
    delivery that succeeds without storing anything found its instance ended
    or the envelope already received; a delivery to be retried is a version
    conflict and stored nothing. *)
Theorem saga_decides_and_sends_atomically {S Cmd X W} `{DomainEvent X} `{MarshalEvent X} `{Command Cmd}
    `{MarshalEvent Cmd} `{VersionedCommand Cmd} `{StoreSpec W}
    (r : Runner S Cmd X) (now : Time) (x : Extractor) (meanwhile : W -> W) (ctx : Context) (id : string) (msg : Message)
    (w w' : W) (h h' : heap) (done : bool) (err : res unit)
    (Hinv : store_inv w)
    (Hothers : forall v, store_inv v -> store_inv (meanwhile v) /\ exists recs, log_of (meanwhile v) = log_of v ++ recs)
    (Hsize : forall a evs, fst (load_instance r id w) = Ok a ->
       reaction r id (command_metadata x ctx msg) msg (state a) = Ok evs ->
       last_seq (log_of (meanwhile (snd (load_instance r id w)))) + zlen evs <= int64_max)
    (Hmax : last_seq (log_of w) <= int64_max)
    (Hrun : process r now x meanwhile ctx id msg w h = (done, err, w', h')) :
  let log1 := log_of (meanwhile (snd (load_instance r id w))) in
  (reacted r x ctx id msg (log_of w) log1 (log_of w') \/ log_of w' = log_of w \/ log_of w' = log1)
  /\ (err = Ok tt -> reacted r x ctx id msg (log_of w) log1 (log_of w')
        \/ (log_of w' = log_of w /\ exists a, fst (load_instance r id w) = Ok a
             /\ inst_ended (state a) || was_seen (state a) (msg_ID msg) = true))
  /\ (done = false -> log_of w' = log1 /\ exists e, err = Err e /\ errors_Is e ErrVersionConflict = true).
Proof.
  cbv zeta. unfold process in Hrun. destruct (load_instance r id w) as [l w1] eqn:El. simpl in *.
  destruct (load_instance_log _ _ _ _ _ Hinv El) as [Hinv1 Hlog1].
  destruct l as [a| |]; [|by injection Hrun as <- <- <- _; split_and!; auto..].
  destruct (decide_on r x ctx id msg a) as [[a' ea]|] eqn:Ed.
  2: { injection Hrun as <- <- <- _. split_and!; [auto | | done]. intros _. right. split; [done|]. exists a.
       split; [done|]. unfold decide_on in Ed. by destruct (_ || _). }
  destruct ea as [[]| |]; [|by injection Hrun as <- <- <- _; split_and!; auto..].
  destruct (decide_on_reaction _ _ _ _ _ _ _ Ed) as (Hne & Hns & evs & Hreact & Hraise).
  destruct (Hothers w1 Hinv1) as [Hinv2 [recs Hrecs]]. rewrite Hlog1 in Hrecs.
  pose proof (raise_all_root _ _ _ Hraise) as Hroot.
  destruct (load_instance_ok _ _ _ _ _ Hinv El) as (_ & _ & Hu & _).
  assert (UncommittedEvents a' = evs) as Hevs
    by (unfold UncommittedEvents in *; by rewrite Hroot, Hu).
  assert (evs <> []) as Hnil.
  { unfold reaction in Hreact. destruct (Apply _ _) as [? [[]| |]]; [|done..]. apply res_bind_ok in Hreact as (crs & _ & [= <-]). done. }
  destruct (repo_Save _ _ _ _ _ _ _ _) as [[[saved a2] w2] h2] eqn:Es.
  apply repo_Save_atomic in Es as [_ Hs]; [|done | by rewrite Hevs | rewrite Hevs; by eapply Hsize].
  assert (log_of w2 = log_of (meanwhile w1) /\ is_ok saved = false \/
          (reacted r x ctx id msg (log_of w) (log_of (meanwhile w1)) (log_of w2)
           /\ forall e, saved = Err e -> errors_Is e ErrVersionConflict = false)) as Hc.
  { destruct Hs as [Hs|(Hv & He & data & Hdata & Happ)]; [by left|]. right. split; [|done]. rewrite Hrecs in *.
    destruct (decided_on_current r id w a a' evs w1 recs) as (_ & Hh & Hsame); try done.
    exists a, evs, data. rewrite Hevs in Hdata. split_and!; try done.
    unfold saga_stream in *. by rewrite Hv in Happ; unfold stream_version in *; rewrite Hsame in Happ. }
  destruct saved as [[]|e|m]; injection Hrun as <- <- <- _; destruct Hc as [[? ?]|[? He]];
    split_and!; auto; try done; intros; destruct (errors_Is e ErrVersionConflict) eqn:?; try done; eauto.
  by rewrite (He e eq_refl) in *.
Qed.

(** The (store, positions) after [n] attempts that all ended in a version
    conflict; [None] if one did not. *)
Fixpoint conflicts {S Cmd X W} `{DomainEvent X} `{MarshalEvent X} `{Command Cmd} `{MarshalEvent Cmd}
    `{VersionedCommand Cmd} `{Store W} (r : Runner S Cmd X) (now : nat -> Time) (x : Extractor)
    (meanwhile : nat -> W -> W) (ctx : Context) (id : string) (msg : Message) (left n : nat) (w : W) (h : heap)
    : option (W * heap) :=
  match n with
  | O => Some (w, h)
  | Datatypes.S n' =>
    match process r (now left) x (meanwhile left) ctx id msg w h with
    | (false, Err _, w1, h1) => conflicts r now x meanwhile ctx id msg (pred left) n' w1 h1
    | _ => None
    end
  end.

Lemma attempt_conflicts {S Cmd X W} `{DomainEvent X} `{MarshalEvent X} `{Command Cmd} `{MarshalEvent Cmd}
    `{VersionedCommand Cmd} `{Store W} (r : Runner S Cmd X) now x (meanwhile : nat -> W -> W) ctx id msg left w h err w' h' :
  attempt r now x meanwhile ctx id msg left w h = (err, w', h') ->
  exists n wn hn fin, (n <= left)%nat
    /\ conflicts r now x meanwhile ctx id msg left n w h = Some (wn, hn)
    /\ process r (now (left - n)%nat) x (meanwhile (left - n)%nat) ctx id msg wn hn = (fin, err, w', h')
    /\ (forall e, err = Err e -> fin = true \/ n = left).
Proof.
  revert w h. induction left as [|left IH]; intros w h; cbn [attempt];
    destruct (process r _ x _ ctx id msg w h) as [[[fin e] w1] h1] eqn:Ep; intros Hrun.
  { exists 0%nat, w, h, fin. split_and!; [done | done | | auto]. cbn [Nat.sub]. rewrite Ep.
    destruct e, fin; by injection Hrun as <- <- <-. }
  assert ((fin = false /\ is_Some (match e with Err x => Some x | _ => None end))
          \/ ((err, w', h') = (e, w1, h1) /\ forall x, e = Err x -> fin = true)) as [[-> [c Hc]]|[Hstop Hfin]].
  { destruct e as [u|c|m], fin; first [by left; split; eauto | right; split; congruence]. }
  - destruct e as [|c'|]; [done| |done]. apply IH in Hrun as (n & wn & hn & fin' & Hn & Hc' & Hp & Hl).
    exists (Datatypes.S n), wn, hn, fin'. cbn [conflicts]. rewrite Ep.
    split_and!; [lia | done | done |]. intros y Hy. destruct (Hl y Hy); [auto | right; lia].
  - injection Hstop as -> -> ->. exists 0%nat, w, h, fin. split_and!; [lia | done | done |].
    intros y Hy. left. by eapply Hfin.
Qed.

(** The ack rules of a saga's handler, on any store. A message the saga
    does not handle, whose payload it cannot decode, or without a correlation
    id is acknowledged and touches nothing. Any other message is processed;
    a version conflict, and nothing else, makes it reload and decide again,
    at most [conflictRetries] times; the caller gets the outcome of the last
    attempt. *)
Theorem saga_handler_ack_rules {S Cmd X W} `{DomainEvent X} `{MarshalEvent X} `{Command Cmd} `{MarshalEvent Cmd}
    `{VersionedCommand Cmd} `{Store W} (r : Runner S Cmd X) (now : nat -> Time) (x : Extractor)
    (meanwhile : nat -> W -> W) (ctx : Context) (msg : Message) (w w' : W) (h h' : heap) (err : res unit)
    (Hrun : saga_Handler r now x meanwhile ctx msg w h = (err, w', h')) :
  match def_handlers (run_def r) !! eventKey (msg_Type msg) (msg_Version msg) with
  | None => err = Ok tt /\ w' = w /\ h' = h
  | Some hd =>
    match correlate hd msg with
    | Err _ | Ok "" => err = Ok tt /\ w' = w /\ h' = h
    | Panic m => err = Panic m /\ w' = w /\ h' = h
    | Ok id =>
      exists n wn hn fin, (n <= conflictRetries r)%nat
        /\ conflicts r now x meanwhile ctx id msg (conflictRetries r) n w h = Some (wn, hn)
        /\ let left := (conflictRetries r - n)%nat in
           process r (now left) x (meanwhile left) ctx id msg wn hn = (fin, err, w', h')
        /\ (forall e, err = Err e -> fin = true \/ n = conflictRetries r)
    end
  end.
Proof.
  unfold saga_Handler in Hrun. destruct (def_handlers _ !! _) as [hd|]; [|by injection Hrun as <- <- <-].
  destruct (correlate hd msg) as [id| |]; [|by injection Hrun as <- <- <-..].
  destruct id as [|c id]; [by injection Hrun as <- <- <-|]. by apply attempt_conflicts in Hrun.
Qed.

Section memory_saga.
Context {S Cmd X : Type} `{DomainEvent X} `{MarshalEvent X} `{Command Cmd} `{MarshalEvent Cmd} `{VersionedCommand Cmd}.
Implicit Types (r : Runner S Cmd X) (w : MemoryStore) (msg : Message).

(** The instance the in-memory store has for [id]: loaded, or fresh. *)
Definition stored_instance r id w (a : Agg (instance S Cmd) (saga_event X)) : Prop :=
  repo_Load (run_repo r) id w = (Ok a, w)
  \/ (a = new_agg (newAgg (run_repo r)) /\ stream_of (saga_stream r id) (all w) = []).

Lemma stored_instance_loads r id w a :
  mem_inv w -> stored_instance r id w a ->
  load_instance r id w = (Ok a, w) /\ holds (run_repo r) id (all w) a /\ UncommittedEvents a = [].
Proof.
  intros Hinv Hst. pose proof (Hinv : store_inv (W := MemoryStore) w) as Hsinv.
  unfold load_instance. destruct Hst as [Hl|[-> Hn]].
  - rewrite Hl. destruct (repo_Load_ok (W:=MemoryStore) (run_repo r) id w a w Hsinv Hl) as (_ & _ & ? & ? & _). done.
  - split_and!; [|by apply holds_new|done]. unfold repo_Load.
    change (Load (repo_stream (run_repo r) id) 0 w) with (mem_Load (repo_stream (run_repo r) id) 0 w).
    rewrite mem_Load_spec, (load_result_all _ _ (mem_log_ok _ Hinv)) by done.
    unfold rebuild. cbn [res_bind]. by rewrite decide_True.
Qed.

Lemma stored_instance_version r id w a :
  mem_inv w -> stored_instance r id w a -> zlen (all w) <= int64_max ->
  Version a = stream_version (saga_stream r id) (all w).
Proof.
  intros Hinv Hst Hmax. destruct (stored_instance_loads _ _ _ _ Hinv Hst) as (_ & Hh & _).
  pose proof (stream_version_le_all (saga_stream r id) (all w)) as Hle.
  apply (holds_version _ _ _ _ Hh). unfold saga_stream in *. lia.
Qed.

(** One undisturbed delivery. *)
Lemma process_reacts r now x ctx id msg w h a evs :
  mem_inv w -> stored_instance r id w a ->
  inst_ended (state a) = false -> was_seen (state a) (msg_ID msg) = false ->
  reaction r id (command_metadata x ctx msg) msg (state a) = Ok evs ->
  Forall (carries (run_repo r)) evs -> zlen (all w) + zlen evs <= int64_max ->
  exists w' saved recs,
    process r now x (fun v => v) ctx id msg w h = (true, Ok tt, w', recordPosition ctx (zlen (all w')) h)
    /\ all w' = all w ++ recs /\ Forall (in_stream (saga_stream r id)) recs
    /\ res_mapM (fun rec => Decode rec (repo_registry (run_repo r))) recs = Ok evs
    /\ mem_inv w' /\ stored_instance r id w' saved /\ replay (state a) evs = Some (state saved)
    /\ inst_ended (state saved) || was_seen (state saved) (msg_ID msg) = true.
Proof.
  intros Hinv Hst He Hs Hreact Hc Hsize. pose proof (Hinv : store_inv (W := MemoryStore) w) as Hsinv.
  destruct (stored_instance_loads _ _ _ _ Hinv Hst) as (Hload & Hh & Hp).
  destruct (reaction_decided r x ctx id msg a evs He Hs Hreact) as [acted Hd].
  destruct (decide_on_reaction _ _ _ _ _ _ _ Hd) as (_ & _ & evs' & Hr' & Hraise).
  rewrite Hreact in Hr'. injection Hr' as <-.
  pose proof (raise_all_root _ _ _ Hraise) as Hroot. unfold UncommittedEvents in Hp. rewrite Hp in Hroot.
  assert (UncommittedEvents acted = evs) as Hu by (unfold UncommittedEvents; by rewrite Hroot).
  assert (exists rest, evs = eventReceived (mkEventReceived msg) :: rest) as [rest Hevs].
  { unfold reaction in Hreact. destruct (Apply _ _) as [? [[]| |]]; [|done..].
    apply res_bind_ok in Hreact as (crs & _ & [= <-]). by eexists. }
  pose proof (zlen_nonneg evs) as Hnn.
  assert (Version acted = stream_version (saga_stream r id) (all w)) as Hv.
  { rewrite <-(stored_instance_version _ _ _ _ Hinv Hst) by lia. unfold Version. by rewrite Hroot. }
  pose proof (holds_raise _ _ _ _ _ _ Hh Hraise) as Hacted.
  destruct (mem_Save_stores (run_repo r) now x ctx id acted w h)
    as (w' & recs & Hsave & Hall & Hin & Hdec & _ & Hinv' & Hl); rewrite ?Hu; try done; [by rewrite Hevs|].
  exists w', (snd (TakeUncommitted acted)), recs. rewrite Hu in Hdec.
  split_and!; try done; [| by left | exact (raise_all_replay _ _ _ Hraise) |].
  - unfold process. rewrite Hload, Hd, Hsave. done.
  - destruct (replay_knows _ _ _ (raise_all_replay _ _ _ Hraise)) as [Hseen _]. simpl.
    rewrite Hseen, Hevs. simpl. by rewrite bool_decide_true, !orb_true_r.
Qed.

(** A delivery to an instance that ended or has seen the envelope. *)
Lemma process_nothing r now x meanwhile ctx id msg w h a :
  mem_inv w -> stored_instance r id w a ->
  inst_ended (state a) || was_seen (state a) (msg_ID msg) = true ->
  process r now x meanwhile ctx id msg w h = (true, Ok tt, w, h).
Proof.
  intros Hinv Hst Hno. destruct (stored_instance_loads _ _ _ _ Hinv Hst) as (Hload & _).
  unfold process. rewrite Hload. unfold decide_on. by rewrite Hno.
Qed.

(** What an instance knows it still knows in every longer log. *)
Lemma stored_instance_keeps r id w w' a a' :
  mem_inv w -> mem_inv w' -> stored_instance r id w a -> stored_instance r id w' a' -> all w `prefix_of` all w' ->
  (forall i, was_seen (state a) i = true -> was_seen (state a') i = true)
  /\ (inst_ended (state a) = true -> inst_ended (state a') = true).
Proof.
  intros Hinv Hinv' Hst Hst' [more Hmore].
  destruct (stored_instance_loads _ _ _ _ Hinv Hst) as (_ & (evs & Hd & Ht & _) & Hu).
  destruct (stored_instance_loads _ _ _ _ Hinv' Hst') as (_ & (evs' & Hd' & Ht' & _) & Hu').
  unfold UncommittedEvents in *. rewrite Hu, app_nil_r in Ht. rewrite Hu', app_nil_r in Ht'.
  rewrite Hmore, stream_of_app in Hd'. apply res_mapM_ok in Hd, Hd'.
  apply Forall2_app_inv_l in Hd' as (evs1 & evs2 & Hd1 & _ & ->).
  assert (evs1 = evs) as ->.
  { apply res_mapM_ok in Hd, Hd1. rewrite Hd in Hd1. by injection Hd1. }
  rewrite replay_app, Ht in Ht'. destruct (replay_knows _ _ _ Ht') as [Hseen Hend]. split.
  - intros i Hi. by rewrite Hseen, Hi.
  - intros He. by rewrite Hend, He.
Qed.

Lemma attempt_first r now x meanwhile ctx id msg left w h w' h' :
  process r (now left) x (meanwhile left) ctx id msg w h = (true, Ok tt, w', h') ->
  attempt r now x meanwhile ctx id msg left w h = (Ok tt, w', h').
Proof. intros Hp. destruct left; cbn [attempt]; by rewrite Hp. Qed.
End memory_saga.

(** C9: A saga reacts to an event exactly once. The first delivery of a message
    to a running instance (or to a new one) of the in-memory store succeeds:
    it appends exactly the handler's reaction, which decodes back to it, and
    reports the append to the captured position. From then on, whatever has
    been appended to the store since - by other deliveries to the instance, by
    anybody - as long as the instance still loads, every redelivery of the
    envelope, even with other metadata or in another context, is acknowledged
    and leaves store and positions as they are. *)
Theorem saga_reacts_exactly_once {S Cmd X} `{DomainEvent X} `{MarshalEvent X} `{Command Cmd} `{MarshalEvent Cmd}
    `{VersionedCommand Cmd} (r : Runner S Cmd X) (now : nat -> Time) (x : Extractor) (ctx : Context) (id : string)
    (msg : Message) (hd : evHandler S Cmd) (w : MemoryStore) (h : heap)
    (a : Agg (instance S Cmd) (saga_event X)) (evs : list (saga_event X))
    (Hinv : mem_inv w) (Hst : stored_instance r id w a) (Hreg : saga_registered (repo_registry (run_repo r)))
    (Hhd : def_handlers (run_def r) !! eventKey (msg_Type msg) (msg_Version msg) = Some hd)
    (Hid : correlate hd msg = Ok id) (Hne : id <> "")
    (He : inst_ended (state a) = false) (Hs : was_seen (state a) (msg_ID msg) = false)
    (Hreact : reaction r id (command_metadata x ctx msg) msg (state a) = Ok evs)
    (Hvalid : Forall event_valid evs) (Hsize : zlen (all w) + zlen evs <= int64_max) :
  exists w' recs,
    saga_Handler r now x (fun _ v => v) ctx msg w h = (Ok tt, w', recordPosition ctx (zlen (all w')) h)
    /\ all w' = all w ++ recs /\ Forall (in_stream (saga_stream r id)) recs
    /\ res_mapM (fun rec => Decode rec (repo_registry (run_repo r))) recs = Ok evs
    /\ mem_inv w' /\ (exists a', stored_instance r id w' a')
    /\ forall w2 a2, mem_inv w2 -> all w' `prefix_of` all w2 -> stored_instance r id w2 a2 ->
       forall now' meanwhile ctx' msg' h', msg_ID msg' = msg_ID msg ->
         msg_Type msg' = msg_Type msg -> msg_Version msg' = msg_Version msg ->
         correlate hd msg' = Ok id ->
         saga_Handler r now' x meanwhile ctx' msg' w2 h' = (Ok tt, w2, h').
Proof.
  assert (Forall (carries (run_repo r)) evs) as Hc
    by (eapply Forall_impl; [exact Hvalid|]; intros; by apply event_carried).
  destruct (process_reacts r (now (conflictRetries r)) x ctx id msg w h a evs)
    as (w' & saved & recs & Hp & Hall & Hin & Hdec & Hinv' & Hst' & _ & Hno); try done.
  exists w', recs. split_and!; try done.
  - unfold saga_Handler. rewrite Hhd, Hid, decide_False by done. by apply attempt_first.
  - by exists saved.
  - intros w2 a2 Hinv2 Hpre Hst2 now' meanwhile ctx' msg' h' Hi Ht Hv Hid'. unfold saga_Handler.
    rewrite Ht, Hv, Hhd, Hid', decide_False by done. apply attempt_first.
    eapply process_nothing; [done..|]. rewrite Hi.
    destruct (stored_instance_keeps r id w' w2 saved a2) as [Hseen Hend]; try done.
    apply orb_true_iff in Hno as [Hno|Hno]; apply orb_true_iff; auto.
Qed.

(** The message a recorded command goes out as. *)
Definition command_message (rec : RecordedEvent) (cr : CommandRequested) : Message :=
  {| msg_ID := MessageID rec; msg_Key := cr_Key cr; msg_Type := cr_CommandName cr;
     msg_Version := cr_ContractVersion cr; msg_OccurredAt := OccurredAt rec;
     msg_Payload := cr_Payload cr; msg_Metadata := cr_Metadata cr |}.

(** The commands for a topic among the events of some records. *)
Definition commands_to {X} (topic : string) (p : RecordedEvent * saga_event X) : option Message :=
  match snd p with
  | commandRequested cr => if decide (cr_Topic cr = topic) then Some (command_message (fst p) cr) else None
  | _ => None
  end.

(** Deciding is sending. Once the relay has the command routing, what it
    owes a topic for a stretch of saga records is exactly the commands they
    recorded for that topic, in the order decided, each under its record's
    message id, time and recorded trace metadata; received envelopes and end
    markers publish nothing; registering the routing twice panics. *)
Theorem saga_commands_are_relayed {X C} `{DomainEvent X} `{MarshalEvent X} `{IntegrationEvent C} `{MarshalEvent C}
    (r0 r : Relay (saga_event X) C) (recs : list RecordedEvent) (evs : list (saga_event X)) (topic : string)
    (Hroute : RegisterCommandRouting r0 = Ok r)
    (Hquiet : forall name, name = "saga.event_received" \/ name = "saga.ended" ->
       translators r0 !! name = None /\ routes r0 !! name = None)
    (Hrecs : Forall2 (fun rec e => rec_EventName rec = EventName e /\ Decode rec (relay_registry r0) = Ok e) recs evs)
    (Hsaga : Forall (fun e => match e with other _ => False | _ => True end) evs) :
  outgoing r topic recs = omap (commands_to topic) (zip recs evs)
  /\ is_ok (RegisterCommandRouting r) = false.
Proof.
  unfold RegisterCommandRouting, Route in *.
  change (EventName (commandRequested zero_requested : saga_event X)) with "saga.command_requested" in *.
  destruct (routes r0 !! "saga.command_requested") eqn:Hr0; [done|].
  destruct (translators r0 !! "saga.command_requested") eqn:Ht0; [done|]. injection Hroute as <-.
  split; [|simpl; by rewrite lookup_insert_eq].
  revert Hsaga. induction Hrecs as [|rec e recs evs [Hn Hd] _ IH]; [done|].
  intros [He Hsaga]%Forall_cons. unfold outgoing in *. csimpl. rewrite IH by done.
  assert (message_for (mkRelay (relay_registry r0) (cfg r0) (translators r0)
            (<["saga.command_requested" := route_command]> (routes r0))) topic rec = commands_to topic (rec, e)) as ->;
    [|done].
  unfold message_for, translate, commands_to. cbn [routes translators relay_registry fst snd]. rewrite Hn.
  destruct e as [ev|cr| |x]; [| | |done].
  - change (EventName (eventReceived ev : saga_event X)) with "saga.event_received".
    destruct (Hquiet "saga.event_received") as [Ht Hr]; [auto|]. by rewrite lookup_insert_ne, Hr, Ht by done.
  - change (EventName (commandRequested cr : saga_event X)) with "saga.command_requested".
    by rewrite lookup_insert_eq, Hd.
  - change (EventName (ended : saga_event X)) with "saga.ended".
    destruct (Hquiet "saga.ended") as [Ht Hr]; [auto|]. by rewrite lookup_insert_ne, Hr, Ht by done.
Qed.

(** ** Witnesses *)

Module Sample.
Import Kernel.Sample Registry.Sample Cqrs.Sample Consumer.Sample.

(** One reaction: pay, and end at the third one. *)
Definition react : evHandler Z cmd :=
  mkHandler (fun msg => Ok (msg_Key msg))
    (fun s msg => (s + 1, Ok (mkDecisions [mkOutCommand "billing.commands" "" (Pay 5)] (bool_decide (s = 2))))).
Definition def : SagaDefinition Z cmd := mkDefinition "fulfilment" {["order_placed@v1" := react]}.
Definition empty_registry : Registry (saga_event event) := mkRegistry ∅.
Definition saga_registry : Registry (saga_event event) :=
  match RegisterEvents empty_registry with Ok r => r | _ => empty_registry end.
Definition runner : Runner Z cmd event := NewRunner 0 def saga_registry.
Definition placed : Message := mkMessage "m-1" "o-1" "order_placed" 1 zero_time (RawJSON (JInt 5)) None.
Definition requested : CommandRequested :=
  mkCommandRequested "billing.commands" "o-1" "billing.pay" 1 (RawJSON (JInt 5)) None.
Definition decided : list (saga_event event) := [eventReceived (mkEventReceived placed); commandRequested requested].
Definition fresh : Agg (instance Z cmd) (saga_event event) := new_agg (newInstance 0 def).
Definition now : nat -> Time := fun _ => zero_time.
Definition undisturbed : nat -> MemoryStore -> MemoryStore := fun _ w => w.
Definition delivered : MemoryStore :=
  snd (fst (saga_Handler runner now None undisturbed background placed NewMemoryStore [])).

(** Another event of the instance has been handled since. *)
Definition confirmed : Message := mkMessage "m-2" "o-1" "order_placed" 1 zero_time (RawJSON (JInt 5)) None.
Definition moved_on : MemoryStore :=
  snd (fst (saga_Handler runner now None undisturbed background confirmed delivered [])).

Lemma moved_on_inv : mem_inv moved_on.
Proof.
  set (write rec := OpAppend (OccurredAt rec) (Stream rec) (rec_Version rec - 1)
    [mkEventData (rec_EventName rec) (rec_SchemaVersion rec) (rec_Payload rec) (rec_Metadata rec)]).
  assert (moved_on = snd (run store_step (write <$> all moved_on) NewMemoryStore)) as -> by (vm_compute; reflexivity).
  apply mem_run_inv; [apply mem_inv_new | by vm_compute].
Qed.

Lemma saga_registry_ok : saga_registered saga_registry.
Proof. exact (saga_events_registered empty_registry saga_registry eq_refl). Qed.

Lemma placed_valid : message_valid placed.
Proof.
  split; [by vm_compute..| apply zero_time_valid | by eexists | done].
Qed.

Lemma requested_valid_ok : requested_valid requested.
Proof. split; [by vm_compute..| by eexists | done]. Qed.

(** The relay of the service, with the command routing. *)
Definition plain_relay : Relay (saga_event event) Relay.Sample.contract := mkRelay saga_registry Relay.Sample.config ∅ ∅.
Definition routed : Relay (saga_event event) Relay.Sample.contract :=
  mkRelay saga_registry Relay.Sample.config ∅ {["saga.command_requested" := route_command]}.
Definition records : list RecordedEvent := all delivered.
End Sample.
Import Kernel.Sample Registry.Sample Cqrs.Sample Consumer.Sample Relay.Sample Sample.

Lemma saga_decides_and_sends_atomically_witness :
  exists w' , process runner zero_time None (fun v => v) background "o-1" placed NewMemoryStore []
    = (true, Ok tt, w', []) /\ length (log_of w') = 2%nat
    /\ (reacted runner None background "o-1" placed [] [] (log_of w') \/ log_of w' = [] \/ log_of w' = []).
Proof.
  exists delivered. split; [reflexivity|]. split; [reflexivity|].
  refine (proj1 (saga_decides_and_sends_atomically runner zero_time None (fun v => v) background "o-1" placed
    NewMemoryStore delivered [] [] true (Ok tt) mem_inv_new _ _ _ _)).
  - intros v Hv. split; [done|]. exists []. by rewrite app_nil_r.
  - intros a evs Hl Hr.
    assert (fst (load_instance runner "o-1" NewMemoryStore) = Ok fresh) as Hf by reflexivity.
    rewrite Hf in Hl. injection Hl as <-.
    assert (reaction runner "o-1" None placed (state fresh) = Ok decided) as Hd by reflexivity.
    change (reaction runner "o-1" None placed (state fresh) = Ok evs) in Hr. rewrite Hd in Hr. injection Hr as <-.
    vm_compute. discriminate.
  - vm_compute. discriminate.
  - reflexivity.
Defined.

Lemma saga_handler_ack_rules_witness :
  saga_Handler runner now None undisturbed background placed delivered [] = (Ok tt, delivered, [])
  /\ exists n wn hn fin, (n <= 3)%nat
    /\ conflicts runner now None undisturbed background "o-1" placed 3 n delivered [] = Some (wn, hn)
    /\ process runner (now (3 - n)%nat) None (undisturbed (3 - n)%nat) background "o-1" placed wn hn
       = (fin, Ok tt, delivered, [])
    /\ (forall e : error, @Ok unit tt = Err e -> fin = true \/ n = 3%nat).
Proof.
  split; [reflexivity|].
  exact (saga_handler_ack_rules runner now None undisturbed background placed delivered delivered [] [] (Ok tt) eq_refl).
Defined.

Lemma saga_reacts_exactly_once_witness :
  saga_Handler runner now None undisturbed background placed NewMemoryStore [] = (Ok tt, delivered, [])
  /\ length (all moved_on) = 4%nat
  /\ saga_Handler runner now None undisturbed background placed moved_on [] = (Ok tt, moved_on, []).
Proof.
  destruct (saga_reacts_exactly_once runner now None background "o-1" placed react NewMemoryStore [] fresh decided)
    as (w' & recs & Hrun & Hall & _ & Hdec & _ & _ & Hagain);
    [exact mem_inv_new | by right | exact saga_registry_ok | reflexivity | reflexivity | done | reflexivity
    | reflexivity | reflexivity | | by vm_compute |].
  - constructor; [apply placed_valid | constructor; [apply requested_valid_ok | constructor]].
  - assert (saga_Handler runner now None undisturbed background placed NewMemoryStore [] = (Ok tt, delivered, [])) as Hd by reflexivity.
    assert (w' = delivered) as Hw by (unfold undisturbed in Hd; rewrite Hrun in Hd; by injection Hd).
    split; [exact Hd|]. split; [vm_compute; reflexivity|].
    assert (exists a2, repo_Load (run_repo runner) "o-1" moved_on = (Ok a2, moved_on)) as [a2 Ha2]
      by (eexists; vm_compute; reflexivity).
    apply (Hagain moved_on a2); try reflexivity.
    + apply moved_on_inv.
    + rewrite Hw. exists (drop 2 (all moved_on)). vm_compute. reflexivity.
    + left. exact Ha2.
Defined.

Lemma saga_commands_are_relayed_witness :
  outgoing routed "billing.commands" records
    = [mkMessage "saga.fulfilment/o-1#2" "o-1" "billing.pay" 1 zero_time (RawJSON (JInt 5)) None]
  /\ outgoing routed "billing.commands" records = omap (commands_to "billing.commands") (zip records decided).
Proof.
  split; [reflexivity|].
  refine (proj1 (saga_commands_are_relayed plain_relay routed records decided "billing.commands" eq_refl _ _ _)).
  - by intros name _.
  - repeat constructor.
  - repeat constructor.
Defined.
