(* ===== verification/Backlog.v ===== *)
(** * o11y/backlog.go: backlog metrics

    The gauges that sample how far a worker trails the log it reads: head
    minus checkpoint, floored at zero, the two read one after the other while
    everything goes on. The meter is a parameter. *)

From S2P Require Import Prelude Tail Errors Json Kernel EventStore MemoryStore Checkpoint Repository Broker Registry Relay.

(** ** Positions *)

Section positions.
Context {W : Type}.

(** A nil func is [None] where one may be passed. *)
Definition Position : Type := Context -> W -> res Z * W.

Definition PositionFunc (fn : Context -> W -> res Z * W) : Position := fn.
End positions.
Arguments Position : clear implicits.

Definition CheckpointPosition {K} `{CheckpointStore K} (name : string) : Position K := fun _ c => cp_Get name c.

(** A position of one part of a larger world. *)
Definition within {W V} (get : V -> W) (put : W -> V -> V) (p : Position W) : Position V :=
  fun ctx v => let '(r, w) := p ctx (get v) in (r, put w v).

(** ** Watching *)

Definition lag (head position : Z) : Z := if decide (head <= position) then 0 else sub64 head position.

Section watching.
Context {W G Set_ Reg : Type}.
(** The meter: making a gauge, registering its callback and unregistering it,
    and the attribute set of a list of attributes. *)
Variables (Int64ObservableGauge : string -> string -> string -> res G)
  (NewSet : list (string * string) -> Set_)
  (RegisterCallback : (Context -> W -> res unit * list (G * Z * Set_) * W) -> G -> res Reg)
  (Unregister : Reg -> W -> res unit * W).

Definition Unwatch : Type := W -> res unit * W.

Record backlog := mkBacklog {
  instrument : string;
  unit_ : string;
  description : string;
  attrs : list (string * string);
  head : option (Position W);
  checkpoint : option (Position W);
}.

Definition o11y_err (b : backlog) (what : string) : string := "o11y: " +:+ instrument b +:+ ": " +:+ what.

(** The callback, and what it observes; [meanwhile] is what the rest of the
    service does between the two reads. *)
Definition callback (b : backlog) (readHead readCheckpoint : Position W) (meanwhile : W -> W) (gauge : G)
    (ctx : Context) (w : W) : res unit * list (G * Z * Set_) * W :=
  match readHead ctx w with
  | (Ok head, w1) =>
    match readCheckpoint ctx (meanwhile w1) with
    | (Ok position, w2) => (Ok tt, [(gauge, lag head position, NewSet (attrs b))], w2)
    | (Err e, w2) => (Err (EWrap (o11y_err b "checkpoint: ") e ""), [], w2)
    | (Panic m, w2) => (Panic m, [], w2)
    end
  | (Err e, w1) => (Err (EWrap (o11y_err b "head: ") e ""), [], w1)
  | (Panic m, w1) => (Panic m, [], w1)
  end.

Definition watchBacklog (meanwhile : W -> W) (b : backlog) : res Unwatch :=
  match head b, checkpoint b with
  | Some readHead, Some readCheckpoint =>
    try gauge := res_wrap (o11y_err b "") "" (Int64ObservableGauge (instrument b) (unit_ b) (description b)) in
    try reg := res_wrap (o11y_err b "") "" (RegisterCallback (callback b readHead readCheckpoint meanwhile gauge) gauge) in
    Ok (Unregister reg)
  | _, _ => Err (EText (o11y_err b "both head and checkpoint positions are required"))
  end.

Definition relay_backlog (name : string) (head checkpoint : option (Position W)) : backlog :=
  mkBacklog "gohex.relay.lag" "{event}" "Events appended to the store that the relay has not published yet."
    [("gohex.relay.name", name)] head checkpoint.
Definition projection_backlog (projection source : string) (head checkpoint : option (Position W)) : backlog :=
  mkBacklog "gohex.projection.lag" "{event}" "Events available to a projection runner that it has not applied yet."
    [("gohex.projection.name", projection); ("gohex.projection.source", source)] head checkpoint.
Definition inbox_backlog (name : string) (head checkpoint : option (Position W)) : backlog :=
  mkBacklog "gohex.inbox.depth" "{message}" "Messages stored in the inbox that its reader has not applied yet."
    [("gohex.inbox.name", name)] head checkpoint.

Definition WatchRelayLag (meanwhile : W -> W) (name : string) (head checkpoint : option (Position W)) : res Unwatch :=
  watchBacklog meanwhile (relay_backlog name head checkpoint).
Definition WatchProjectionLag (meanwhile : W -> W) (projection source : string) (head checkpoint : option (Position W)) : res Unwatch :=
  watchBacklog meanwhile (projection_backlog projection source head checkpoint).
Definition WatchInboxDepth (meanwhile : W -> W) (name : string) (head checkpoint : option (Position W)) : res Unwatch :=
  watchBacklog meanwhile (inbox_backlog name head checkpoint).
End watching.
Arguments backlog : clear implicits.

(** ** What a lag says *)

Section lag.
Context {X : Type} (seq : X -> Z).

Lemma lag_max head p : 0 <= p -> head <= int64_max -> lag head p = Z.max 0 (head - p).
Proof. intros Hp Hh. unfold lag. case_decide; [lia|]. unfold sub64. rewrite wrap64_id; [lia|]. unfold in_int64, int64_min, int64_max in *. lia. Qed.

(** Positions may skip numbers, so a distance bounds the items in it. *)
Lemma beyond_bounded p l :
  increasing seq l -> 0 <= p -> head_of seq l <= int64_max ->
  zlen (beyond seq p l) <= lag (head_of seq l) p <= head_of seq l
  /\ (lag (head_of seq l) p = 0 <-> beyond seq p l = []).
Proof.
  intros Hi Hp Hmax. pose proof (head_of_nonneg _ _ Hi) as Hh. unfold lag. case_decide as Hd.
  - assert (beyond seq p l = []) as ->; [|rewrite zlen_nil; split; [lia | done]].
    apply filter_none. rewrite Forall_forall. intros x Hx. pose proof (increasing_le_head _ _ _ Hi Hx). lia.
  - unfold sub64. rewrite wrap64_id by (unfold in_int64, int64_min, int64_max in *; lia).
    assert (zlen (beyond seq p l) <= head_of seq l - p) as Hle.
    { clear Hmax. revert Hd Hh. induction l as [|x l IH] using rev_ind; intros Hd Hh; [by destruct Hd|].
      pose proof (increasing_app_later _ _ _ Hi) as Hlater. rewrite Forall_singleton in Hlater.
      assert (increasing seq l) as Hl.
      { unfold increasing in *. rewrite fmap_app, app_comm_cons in Hi. by apply StronglySorted_app_1_l in Hi. }
      pose proof (head_of_nonneg _ _ Hl) as Hl0. rewrite head_of_snoc in Hd, Hh |- *. unfold beyond in *.
      rewrite filter_app, zlen_app, filter_cons, filter_nil, decide_True by lia. rewrite zlen_cons, zlen_nil.
      destruct (decide (head_of seq l <= p)) as [Hlep|Hgt]; [|specialize (IH Hl Hgt Hl0); lia].
      rewrite (filter_none _ l); [rewrite zlen_nil; lia|].
      rewrite Forall_forall. intros y Hy. pose proof (increasing_le_head _ _ _ Hl Hy). lia. }
    split; [lia|]. split; [lia|]. intros Hn. exfalso. destruct (last l) as [x|] eqn:Hx.
    + assert (x ∈ beyond seq p l) as Hin; [|rewrite Hn in Hin; by apply elem_of_nil in Hin].
      apply list_elem_of_filter. unfold head_of in Hd. rewrite Hx in Hd. simpl in Hd.
      split; [lia|]. by apply last_Some_elem_of.
    + unfold head_of in Hd. rewrite Hx in Hd. simpl in Hd. lia.
Qed.
End lag.

(** ** The relay's lag *)

Section relay_lag.
Context {Ev C W K P : Type} `{DomainEvent Ev} `{MarshalEvent Ev} `{IntegrationEvent C} `{MarshalEvent C}.
Context `{StoreSpec W} `{CheckpointSpec K} `{PublisherSpec P}.
Context (r : Relay Ev C).
Implicit Types (s : Relay.world W K P).

(** The two positions of the relay's service. *)
Definition store_head : Position (Relay.world W K P) :=
  within w_store (fun w s => mkWorld w (w_checkpoints s) (w_publisher s) (w_cancelled s) (w_pc s)) (PositionFunc (fun _ => Head)).
Definition relay_checkpoint : Position (Relay.world W K P) :=
  within w_checkpoints (fun c s => mkWorld (w_store s) c (w_publisher s) (w_cancelled s) (w_pc s)) (CheckpointPosition (cfg_Name (cfg r))).

Abbreviation step := (relay_step r).
Abbreviation inv := (relay_inv r).

Lemma relay_log_grows p0 s s' : inv p0 s -> rtc step s s' -> log_at s `prefix_of` log_at s'.
Proof.
  intros Hinv Hrun. revert Hinv. induction Hrun as [|s s1 s2 Hstep _ IH]; [done|]. intros Hinv.
  etransitivity; [|apply IH; by eapply relay_step_inv]. clear IH. pose proof (ri_store _ _ _ Hinv) as Hst.
  destruct Hstep as [timer s|now str v es res w' s Hsize E|s|s|name seq res c' s Hne E]; try done.
  - unfold run_step, log_at. destruct (w_pc s) as [|seq|seq|seq|next [|topic rest] byTopic|next topics byTopic|next|res]; try done.
    + by destruct (cp_Get _ _).
    + destruct (ReadAll _ _ _) as [g w'] eqn:E. destruct (ReadAll_spec _ _ _ _ _ Hst E) as (_ & Hl & _). cbn [w_store]. by rewrite Hl.
    + by destruct (Publish _ _ _).
    + by destruct (cp_Set _ _ _).
  - destruct (append_log _ _ _ _ _ _ _ Hst Hsize E) as (_ & recs & Hl). by exists recs.
Qed.

(** The checkpoint, and the one a page will store, are never negative. *)
Definition from_zero s : Prop :=
  0 <= owner_checkpoint r s
  /\ match w_pc s with Publishing next _ _ | Backing_off next _ _ | Checkpointing next => 0 <= next | _ => True end.

Lemma relay_from_zero p0 s s' : inv p0 s -> step s s' -> from_zero s -> from_zero s'.
Proof.
  intros Hinv Hstep [Hcp Hpc]. pose proof (ri_store _ _ _ Hinv) as Hst. unfold from_zero, owner_checkpoint in *.
  destruct Hstep as [timer s|now str v es res w' s Hsize E|s|s|name seq res c' s Hne E]; try done.
  - unfold run_step. destruct (w_pc s) as [|seq|seq|seq|next [|topic rest] byTopic|next topics byTopic|next|res] eqn:Hat; try done.
    + destruct (cp_Get _ _) as [g c'] eqn:E. destruct (cp_Get_checkpoint _ _ _ _ E) as [Hc _].
      cbn [w_checkpoints w_pc]. rewrite Hc. split; [done|]. by destruct g.
    + split; [done|]. cbn [w_pc]. by destruct (w_cancelled s).
    + destruct (ReadAll _ _ _) as [g w'] eqn:E. split; [done|]. cbn [w_pc].
      destruct (ReadAll_spec _ _ _ _ _ Hst E) as (_ & _ & Hrecs). destruct g as [recs| |]; [|by destruct (_ && _)|done].
      destruct (last recs) as [x|] eqn:Hx; [|done]. destruct (group_loop _ _ _ _) as [[topics byTopic]| |]; [|done..].
      rewrite (Hrecs recs eq_refl) in Hx. apply last_Some_elem_of, elem_of_read_page in Hx as [Hin _].
      pose proof (increasing_positive _ _ _ (log_ok_increasing _ (store_log_ok _ Hst)) Hin). lia.
    + split; [done|]. cbn [w_pc]. by destruct (_ || _).
    + destruct (Publish _ _ _) as [g p]. split; [done|]. cbn [w_pc]. by destruct g.
    + split; [done|]. cbn [w_pc]. by destruct (_ || _).
    + destruct (cp_Set _ _ _) as [g c'] eqn:E. destruct (cp_Set_checkpoint _ _ _ _ _ E) as [_ Hset].
      cbn [w_checkpoints w_pc]. split; [destruct Hset as [->|[_ ->]]; done | by destruct g].
    + by rewrite Hat.
  - destruct (cp_Set_checkpoint _ _ _ _ _ E) as [Hother _]. cbn [w_checkpoints w_pc]. by rewrite Hother.
Qed.

(** Reachable worlds. *)
Lemma relay_reachable w0 (c0 : K) (p0 : P) s :
  store_inv w0 -> positions_of c0 !! cfg_Name (cfg r) = None ->
  rtc step (mkWorld w0 c0 p0 false Starting) s -> inv p0 s /\ from_zero s.
Proof.
  intros Hst Hnew Hrun. apply (rtc_invariant step (fun s => inv p0 s /\ from_zero s)) in Hrun; [done| |].
  - intros x y [Hinv Hz] Hstep. split; [by eapply relay_step_inv | by eapply relay_from_zero].
  - split; [by apply relay_inv_start|]. unfold from_zero, owner_checkpoint, checkpoint_of. cbn [w_checkpoints w_pc].
    by rewrite Hnew.
Qed.
End relay_lag.

(** ** Properties *)

(** C26: The relay's lag is honest. Sampled at any moment of any run of the
    relay - with anything happening between its two reads - the gauge is the
    distance from the checkpoint read to the head read, floored at zero: never
    more than the head, and at least the number of events past the checkpoint,
    which may be published already; everything stored up to the checkpoint is
    published when the sample is taken. It is zero exactly when no event stored
    at the head read is past the checkpoint, and so says that they are all
    published. *)
Theorem relay_lag_is_honest {Ev C W K P G A} `{DomainEvent Ev} `{MarshalEvent Ev} `{IntegrationEvent C} `{MarshalEvent C}
    `{StoreSpec W} `{CheckpointSpec K} `{PublisherSpec P}
    (r : Relay Ev C) (NewSet : list (string * string) -> A) (gauge : G) (meanwhile : Relay.world W K P -> Relay.world W K P)
    (ctx : Context) (w0 : W) (c0 : K) (p0 : P) (s s' : Relay.world W K P) (observed : list (G * Z * A))
    (Hstore : store_inv w0) (Hnew : positions_of c0 !! cfg_Name (cfg r) = None)
    (Hrun : rtc (relay_step r) (mkWorld w0 c0 p0 false Starting) s)
    (Hmeanwhile : forall s, rtc (relay_step r) s (meanwhile s))
    (Hmax : last_seq (log_of (w_store s)) <= int64_max)
    (Hsample : callback NewSet (relay_backlog (cfg_Name (cfg r)) (Some store_head) (Some (relay_checkpoint r)))
                 store_head (relay_checkpoint r) meanwhile gauge ctx s = (Ok tt, observed, s')) :
  let head := log_of (w_store s) in let position := owner_checkpoint r s' in
  exists v, observed = [(gauge, v, NewSet [("gohex.relay.name", cfg_Name (cfg r))])]
    /\ v = Z.max 0 (last_seq head - position) /\ v <= last_seq head
    /\ zlen (beyond GlobalSeq position head) <= v /\ (v = 0 <-> beyond GlobalSeq position head = [])
    /\ head = upto GlobalSeq position head ++ beyond GlobalSeq position head
    /\ forall topic, outgoing r topic (upto GlobalSeq position head) `sublist_of` published (w_publisher s') topic.
Proof.
  destruct (relay_reachable r w0 c0 p0 s Hstore Hnew Hrun) as [Hinv Hz].
  unfold callback, store_head at 1, within at 1, PositionFunc in Hsample.
  destruct (Head (w_store s)) as [h w1] eqn:Eh. destruct (Head_spec _ _ _ (ri_store _ _ _ Hinv) Eh) as (Hw1 & Hl1 & Hhead).
  destruct h as [h|e|m]; [|done..]. specialize (Hhead h eq_refl). subst h.
  set (s1 := mkWorld w1 (w_checkpoints s) (w_publisher s) (w_cancelled s) (w_pc s)) in *.
  assert (relay_inv r p0 s1) as Hinv1 by (apply (grow_inv r p0 s w1 []); [done | done | by rewrite app_nil_r]).
  assert (from_zero r s1) as Hz1 by exact Hz.
  assert (relay_inv r p0 (meanwhile s1) /\ from_zero r (meanwhile s1)) as [Hinv2 Hz2].
  { apply (rtc_invariant (relay_step r) (fun s => relay_inv r p0 s /\ from_zero r s) s1); [|done|apply Hmeanwhile].
    intros x y [? ?] Hstep. split; [by eapply relay_step_inv | by eapply relay_from_zero]. }
  pose proof (relay_log_grows r p0 s1 _ Hinv1 (Hmeanwhile s1)) as [more Hmore].
  unfold log_at in Hmore. cbn [w_store s1] in Hmore. rewrite Hl1 in Hmore.
  unfold relay_checkpoint, within, CheckpointPosition in Hsample. set (s2 := meanwhile s1) in *.
  destruct (cp_Get _ (w_checkpoints s2)) as [g c2] eqn:Eg. destruct (cp_Get_checkpoint _ _ _ _ Eg) as [Hc2 Hg].
  destruct g as [position|e|m]; [|done..]. specialize (Hg position eq_refl).
  injection Hsample as <- <-. fold (owner_checkpoint r s2) in Hg. subst position.
  assert (owner_checkpoint r (mkWorld (w_store s2) c2 (w_publisher s2) (w_cancelled s2) (w_pc s2)) = owner_checkpoint r s2) as Hcp
    by apply Hc2.
  cbv zeta. rewrite Hcp. clear Hcp.
  assert (increasing GlobalSeq (log_of (w_store s))) as Hi by (apply log_ok_increasing, store_log_ok, (ri_store _ _ _ Hinv)).
  destruct (beyond_bounded GlobalSeq (owner_checkpoint r s2) _ Hi (proj1 Hz2) Hmax) as [[Hcount Hle] Hzero].
  change (head_of GlobalSeq (log_of (w_store s))) with (last_seq (log_of (w_store s))) in *.
  eexists _. split; [done|]. split; [by apply lag_max; [apply Hz2|]|]. split; [done|]. split; [done|]. split; [done|].
  split; [by apply upto_beyond|]. intros topic. cbn [w_publisher].
  etransitivity; [|exact (ri_covered _ _ _ Hinv2 topic)]. unfold log_at. rewrite Hmore.
  unfold upto. rewrite filter_app, outgoing_app. apply sublist_inserts_r. done.
Qed.

(** ** A sample before and after a page is relayed *)

Import Kernel.Sample Registry.Sample Relay.Sample.

Lemma relay_lag_is_honest_witness :
  let sample s := fst (callback (fun attrs => attrs) (relay_backlog "sample.relay" (Some store_head) (Some (relay_checkpoint Relay.Sample.relay)))
                         store_head (relay_checkpoint Relay.Sample.relay) (fun s => s) tt background s) in
  snd (sample Relay.Sample.start) = [(tt, 1, [("gohex.relay.name", "sample.relay")])]
  /\ snd (sample Relay.Sample.ran) = [(tt, 0, [("gohex.relay.name", "sample.relay")])]
  /\ forall topic, outgoing Relay.Sample.relay topic (upto GlobalSeq (owner_checkpoint Relay.Sample.relay Relay.Sample.ran) (log_of (w_store Relay.Sample.ran)))
       `sublist_of` published (w_publisher Relay.Sample.ran) topic.
Proof.
  cbv zeta. split; [vm_compute; reflexivity|]. split; [vm_compute; reflexivity|].
  assert (store_inv Repository.Race.w0) as Hstore by exact Repository.Race.w0_inv.
  assert (positions_of NewMemoryCheckpointStore !! cfg_Name (cfg Relay.Sample.relay) = None) as Hnew by reflexivity.
  destruct (relay_lag_is_honest Relay.Sample.relay (fun attrs => attrs) tt (fun s => s) background Repository.Race.w0
    NewMemoryCheckpointStore NewMemoryBroker Relay.Sample.ran Relay.Sample.ran [(tt, 0, [("gohex.relay.name", "sample.relay")])]
    Hstore Hnew (Relay.Sample.iter_reaches 6 Relay.Sample.start)) as (v & Hobs & _ & _ & _ & _ & _ & Hsent).
  - intros s. apply rtc_refl.
  - vm_compute. discriminate.
  - vm_compute. reflexivity.
  - exact Hsent.
Defined.
