(* ===== verification/Inbox.v ===== *)
(** * projection/inbox.go: the inbox of foreign facts

    The inbox port with its contract, the in-memory inbox, and the handler the
    inbox writer subscribes with. *)

From S2P Require Import Prelude Tail Errors GoTime Json Broker.

Record InboxMessage := mkInboxMessage { ibx_Seq : Z; ibx_Message : Message }.

Class Inbox (I : Type) := {
  inbox_Append : Message -> I -> res unit * I;
  inbox_ReadAll : Z -> Z -> I -> res (list InboxMessage) * I;
  inbox_Head : I -> res Z * I;
}.

Definition inbox_ids (log : list InboxMessage) : list string := (fun m => msg_ID (ibx_Message m)) <$> log.

(** Positions increase, identifiers do not repeat. *)
Definition inbox_ok (log : list InboxMessage) : Prop := increasing ibx_Seq log /\ NoDup (inbox_ids log).

(** What one append does to the stored log. *)
Definition inbox_appended (msg : Message) (log log' : list InboxMessage) : Prop :=
  if decide (msg_ID msg ∈ inbox_ids log) then log' = log
  else exists seq, log' = log ++ [mkInboxMessage seq msg].

Class InboxSpec (I : Type) `{Inbox I} := {
  inbox_log : I -> list InboxMessage;
  inbox_inv : I -> Prop;
  inbox_log_ok i : inbox_inv i -> inbox_ok (inbox_log i);
  inbox_Append_spec msg i r i' :
    inbox_inv i -> zlen (inbox_log i) < int64_max -> inbox_Append msg i = (r, i') ->
    inbox_inv i' /\ (inbox_appended msg (inbox_log i) (inbox_log i')
                     \/ (is_ok r = false /\ inbox_log i' = inbox_log i));
  inbox_ReadAll_spec after limit i r i' :
    inbox_inv i -> inbox_ReadAll after limit i = (r, i') ->
    inbox_inv i' /\ inbox_log i' = inbox_log i
    /\ (forall msgs, r = Ok msgs -> msgs = read_page ibx_Seq after limit (inbox_log i));
  inbox_Head_spec i r i' :
    inbox_inv i -> inbox_Head i = (r, i') ->
    inbox_inv i' /\ inbox_log i' = inbox_log i
    /\ (forall seq, r = Ok seq -> seq = head_of ibx_Seq (inbox_log i));
}.

(** ** MemoryInbox *)

Record MemoryInbox := mkMemoryInbox { msgs : list InboxMessage; byID : gmap string bool }.

Definition NewMemoryInbox : MemoryInbox := mkMemoryInbox [] ∅.

Definition mem_inbox_Append (msg : Message) (i : MemoryInbox) : res unit * MemoryInbox :=
  if default false (byID i !! msg_ID msg) then (Ok tt, i) else
  (Ok tt, mkMemoryInbox (msgs i ++ [mkInboxMessage (add64 (zlen (msgs i)) 1) msg])
            (<[msg_ID msg := true]> (byID i))).

Definition mem_inbox_ReadAll (after limit : Z) (i : MemoryInbox) : res (list InboxMessage) * MemoryInbox :=
  (Ok (readall_loop ibx_Seq after limit 0 (msgs i)), i).

Definition mem_inbox_Head (i : MemoryInbox) : res Z * MemoryInbox :=
  match last (msgs i) with
  | None => (Ok 0, i)
  | Some m => (Ok (ibx_Seq m), i)
  end.

#[export] Instance MemoryInbox_inbox : Inbox MemoryInbox := {
  inbox_Append := mem_inbox_Append; inbox_ReadAll := mem_inbox_ReadAll; inbox_Head := mem_inbox_Head;
}.

(** ** InboxWriter

    The handler it passes to [Subscribe]: the append, and nothing else. *)
Definition InboxWriter_handler {I} `{Inbox I} (msg : Message) (i : I) : res unit * I := inbox_Append msg i.

(** ** The in-memory inbox honours the port *)

Record mem_inbox_inv (i : MemoryInbox) : Prop := {
  ibx_seqs : ibx_Seq <$> msgs i = seqZ 1 (zlen (msgs i));
  ibx_ids id : byID i !! id = Some true <-> id ∈ inbox_ids (msgs i);
  ibx_nodup : NoDup (inbox_ids (msgs i));
  ibx_size : zlen (msgs i) <= int64_max;
}.

Lemma mem_inbox_new : mem_inbox_inv NewMemoryInbox.
Proof. split; simpl; [done | | constructor | done]. intros id. rewrite lookup_empty. set_solver. Qed.

Lemma mem_inbox_ok i : mem_inbox_inv i -> inbox_ok (msgs i).
Proof.
  intros Hi. split; [|apply Hi]. unfold increasing. rewrite (ibx_seqs _ Hi).
  constructor; [apply StronglySorted_seqZ|].
  rewrite Forall_forall. intros x Hx%elem_of_seqZ. lia.
Qed.

Lemma byID_known i id : mem_inbox_inv i ->
  default false (byID i !! id) = bool_decide (id ∈ inbox_ids (msgs i)).
Proof.
  intros Hi. case_bool_decide as Hin; rewrite <-(ibx_ids _ Hi) in Hin.
  - by rewrite Hin.
  - destruct (byID i !! id) as [[]|]; done.
Qed.

Lemma mem_inbox_Append_spec msg i r i' :
  mem_inbox_inv i -> zlen (msgs i) < int64_max -> mem_inbox_Append msg i = (r, i') ->
  mem_inbox_inv i' /\ r = Ok tt /\ inbox_appended msg (msgs i) (msgs i').
Proof.
  intros Hi Hsize. unfold mem_inbox_Append, inbox_appended. rewrite byID_known by done.
  case_bool_decide as Hin; intros [= <- <-].
  { rewrite decide_True by done. done. }
  rewrite decide_False by done. pose proof (zlen_nonneg (msgs i)).
  assert (add64 (zlen (msgs i)) 1 = zlen (msgs i) + 1) as Hadd
    by (apply add64_id; unfold in_int64, int64_min; lia).
  split_and!; [|done|by eexists]. split; simpl.
  - rewrite fmap_app, (ibx_seqs _ Hi), zlen_app. simpl. rewrite Hadd, Z.add_comm.
    by apply seqZ_snoc.
  - intros id. unfold inbox_ids. rewrite fmap_app, elem_of_app. simpl. rewrite list_elem_of_singleton.
    destruct (decide (msg_ID msg = id)) as [<-|Hne].
    + rewrite lookup_insert_eq. split; [by right | done].
    + rewrite lookup_insert_ne by done. rewrite (ibx_ids _ Hi). split; [by left | intros [?|?]; [done | congruence]].
  - unfold inbox_ids. rewrite fmap_app. apply NoDup_app. split_and!; [apply Hi| |apply NoDup_singleton].
    intros id Hid ->%list_elem_of_singleton. done.
  - rewrite zlen_app. change (zlen [_]) with 1. lia.
Qed.

#[export] Program Instance MemoryInbox_spec : InboxSpec MemoryInbox := {
  inbox_log := msgs; inbox_inv := mem_inbox_inv;
}.
Next Obligation. apply mem_inbox_ok. Qed.
Next Obligation.
  intros msg i r i' Hi Hsize E. destruct (mem_inbox_Append_spec msg i r i' Hi Hsize E) as (? & _ & ?). auto.
Qed.
Next Obligation.
  intros after limit i r i' Hi [= <- <-]. split_and!; [done|done|]. intros ms [= <-]. apply readall_loop_page.
Qed.
Next Obligation.
  intros i r i' Hi E. unfold inbox_Head in E. simpl in E. unfold mem_inbox_Head, head_of in *.
  destruct (last (msgs i)); injection E as <- <-; (split_and!; [done|done|]); by intros seq [= <-].
Qed.

(** ** Redeliveries collapse *)

(** The messages whose identifier occurs first at that point, given the
    identifiers already seen. *)
Fixpoint first_arrivals (known : list string) (ms : list Message) : list Message :=
  match ms with
  | [] => []
  | m :: rest =>
    if decide (msg_ID m ∈ known) then first_arrivals known rest
    else m :: first_arrivals (known ++ [msg_ID m]) rest
  end.

Fixpoint deliver_all {I} `{Inbox I} (ms : list Message) (i : I) : I :=
  match ms with
  | [] => i
  | m :: rest => deliver_all rest (snd (InboxWriter_handler m i))
  end.

Lemma deliver_all_arrivals ms i :
  mem_inbox_inv i -> zlen (msgs i) + zlen ms <= int64_max ->
  mem_inbox_inv (deliver_all ms i)
  /\ ibx_Message <$> msgs (deliver_all ms i) = (ibx_Message <$> msgs i) ++ first_arrivals (inbox_ids (msgs i)) ms.
Proof.
  revert i. induction ms as [|m ms IH]; intros i Hi Hsize; cbn [deliver_all first_arrivals];
    [by rewrite app_nil_r|].
  rewrite zlen_cons in Hsize. pose proof (zlen_nonneg ms).
  destruct (InboxWriter_handler m i) as [r i'] eqn:E.
  destruct (mem_inbox_Append_spec m i r i' Hi ltac:(lia) E) as (Hi' & _ & Happ).
  unfold inbox_appended in Happ. cbn [snd]. case_decide as Hin.
  - destruct (IH i' Hi' ltac:(rewrite Happ; lia)) as [? ->]. by rewrite Happ.
  - destruct Happ as [seq Happ].
    destruct (IH i' Hi') as [? ->]; [by rewrite Happ, zlen_app, zlen_cons, zlen_nil; lia|].
    split; [done|]. rewrite Happ. unfold inbox_ids. rewrite !fmap_app. simpl. by rewrite <-app_assoc.
Qed.

(** ** Properties *)

(** The inbox misses nothing and collapses redeliveries: fed by the writer
    with any sequence of deliveries, duplicates included, it accepts every
    one and holds exactly the first arrival of each identifier, in arrival
    order, at positions 1, 2, ...; and reading it after a position returns the
    next messages in order, at most [limit] of them. *)
Theorem inbox_collapses_redeliveries (ms : list Message) (after limit : Z)
    (Hsize : zlen ms <= int64_max) :
  let i := deliver_all ms NewMemoryInbox in
  ibx_Message <$> msgs i = first_arrivals [] ms
  /\ ibx_Seq <$> msgs i = seqZ 1 (zlen (msgs i))
  /\ inbox_ok (msgs i)
  /\ (forall m j, fst (InboxWriter_handler m j : res unit * MemoryInbox) = Ok tt)
  /\ mem_inbox_ReadAll after limit i = (Ok (read_page ibx_Seq after limit (msgs i)), i)
  /\ mem_inbox_Head i = (Ok (zlen (msgs i)), i).
Proof.
  destruct (deliver_all_arrivals ms NewMemoryInbox mem_inbox_new Hsize) as [Hi Hm].
  simpl. split_and!; [exact Hm | apply Hi | by apply mem_inbox_ok | | |].
  - intros m j. simpl. unfold InboxWriter_handler, inbox_Append. simpl. unfold mem_inbox_Append. by case_match.
  - unfold mem_inbox_ReadAll. by rewrite readall_loop_page.
  - unfold mem_inbox_Head. pose proof (ibx_seqs _ Hi) as Hs.
    destruct (msgs (deliver_all ms NewMemoryInbox)) as [|x l _] using rev_ind; [done|].
    rewrite last_snoc. rewrite fmap_app, zlen_app in Hs. change (zlen [x]) with 1 in Hs.
    rewrite <-seqZ_snoc in Hs by apply zlen_nonneg. apply app_inj_tail in Hs as [_ Hx].
    rewrite zlen_app. change (zlen [x]) with 1. rewrite Z.add_comm, <-Hx. done.
Qed.

Lemma inbox_collapses_redeliveries_witness :
  let m id := mkMessage id "k" "shipping.shipped" 1 zero_time RawNil None in
  ibx_Message <$> msgs (deliver_all [m "a"; m "b"; m "a"] NewMemoryInbox) = [m "a"; m "b"].
Proof.
  etransitivity; [refine (proj1 (inbox_collapses_redeliveries _ 0 0 _)); vm_compute; discriminate|].
  vm_compute. reflexivity.
Defined.
