(* ===== verification/Projection.v ===== *)
(** * projection/projection.go, catchup.go, inbox.go (reader) and wait.go

    Read models. [CatchUp.Run] and [InboxReader.Run] are the same loop over two
    sources, so it is written once, over a source that can be read after a
    position, and instantiated twice; as for the relay, one call or wait is one
    step. A handler is a Go closure over the read model [V]. *)

From S2P Require Import Prelude Tail Errors GoTime Json Kernel EventStore MemoryStore Registry Checkpoint Repository Broker Inbox Cqrs.

(** ** Configuration and observation *)

Record Item := mkItem {
  item_Projection : string;
  item_Source : string;
  item_Name : string;
  item_ID : string;
  item_Metadata : strmap;
}.

Definition SourceStore : string := "store".
Definition SourceInbox : string := "inbox".

Record Meta := mkMeta {
  meta_Stream : StreamID;
  meta_Version : Z;
  meta_GlobalSeq : Z;
  meta_OccurredAt : Time;
  meta_Metadata : strmap;
}.

Section projection.
Context {Ev V : Type} `{DomainEvent Ev} `{MarshalEvent Ev}.

(** The derived context, the completion function (which may be nil), and what
    the observer did meanwhile. *)
Definition Observer : Type := Context -> Item -> V -> Context * option (res unit -> V -> V) * V.

Record Config := mkConfig { PollInterval : Z; BatchSize : Z; Observe : option Observer }.

Definition withDefaults (c : Config) : Config :=
  {| PollInterval := if decide (PollInterval c <= 0) then 200 * Millisecond else PollInterval c;
     BatchSize := if decide (BatchSize c <= 0) then 100 else BatchSize c;
     Observe := Observe c |}.

Definition observe (c : Config) (ctx : Context) (item : Item) (fn : Context -> V -> res unit * V) (v : V)
    : res unit * V :=
  match Observe c with
  | None => fn ctx v
  | Some o =>
    let '(ctx', done, v1) := o ctx item v in
    let '(err, v2) := fn ctx' v1 in
    match err with
    | Panic _ => (err, v2)
    | _ => (err, match done with Some d => d err v2 | None => v2 end)
    end
  end.

Record Projection := mkProjection {
  proj_name : string;
  domainHandlers : gmap string (Context -> Ev -> Meta -> V -> res unit * V);
  foreignHandlers : gmap string (Context -> Message -> V -> res unit * V);
}.

Definition New (name : string) : res Projection :=
  if decide (name = "") then Panic "projection: New: empty name" else Ok (mkProjection name ∅ ∅).

Definition On (E : GoType Ev) (fn : Context -> carrier E -> Meta -> V -> res unit * V) (p : Projection)
    : res Projection :=
  let name := EventName (to_interface E (zero_value E)) in
  match domainHandlers p !! name with
  | Some _ => Panic ("projection " +:+ proj_name p +:+ ": duplicate handler for " +:+ Quote name)
  | None =>
    let fn' ctx e m v := match type_assert E e with
                         | Some x => fn ctx x m v
                         | None => (Panic "interface conversion", v)
                         end in
    Ok (mkProjection (proj_name p) (<[name := fn']> (domainHandlers p)) (foreignHandlers p))
  end.

Definition integrationKey (name : string) (version : Z) : string := name +:+ "@v" +:+ FormatInt version.

(** [OnIntegration[E]]; [zero] is the zero value of the contract. *)
Definition OnIntegration {C} `{IntegrationEvent C} `{JsonCodec C} (zero : C)
    (fn : Context -> C -> Message -> V -> res unit * V) (p : Projection) : res Projection :=
  let key := integrationKey (ContractName zero) (ContractVersion zero) in
  match foreignHandlers p !! key with
  | Some _ => Panic ("projection " +:+ proj_name p +:+ ": duplicate handler for " +:+ Quote key)
  | None =>
    let fn' ctx msg v :=
      match res_wrap ("projection " +:+ proj_name p +:+ ": decoding " +:+ key +:+ " (message " +:+ msg_ID msg +:+ "): ") ""
              (Unmarshal_raw (T := C) (msg_Payload msg)) with
      | Ok e => fn ctx e msg v
      | Err e => (Err e, v)
      | Panic m => (Panic m, v)
      end in
    Ok (mkProjection (proj_name p) (domainHandlers p) (<[key := fn']> (foreignHandlers p)))
  end.

Definition StoreCheckpoint (p : Projection) : string := "projection." +:+ proj_name p +:+ ".store".
Definition InboxCheckpoint (p : Projection) : string := "projection." +:+ proj_name p +:+ ".inbox".

Definition Reset {K} `{CheckpointStore K} (p : Projection) (cps : K) : res unit * K :=
  let wrap := res_wrap ("projection " +:+ proj_name p +:+ ": reset: ") "" in
  let '(r1, c1) := cp_Set (StoreCheckpoint p) 0 cps in
  match r1 with
  | Ok _ => let '(r2, c2) := cp_Set (InboxCheckpoint p) 0 c1 in (wrap r2, c2)
  | _ => (wrap r1, c1)
  end.

(** The body of [CatchUp.Run]'s loop over the records of a page. *)
Definition CatchUp_handle (p : Projection) (reg : Registry Ev) (c : Config) (ctx : Context)
    (rec : RecordedEvent) (v : V) : res unit * V :=
  let name := StoreCheckpoint p in
  match domainHandlers p !! rec_EventName rec with
  | None => (Ok tt, v)
  | Some handler =>
    match res_wrap (name +:+ ": ") "" (Decode rec reg) with
    | Err e => (Err e, v)
    | Panic m => (Panic m, v)
    | Ok event =>
      let meta := mkMeta (Stream rec) (rec_Version rec) (GlobalSeq rec) (OccurredAt rec) (rec_Metadata rec) in
      let item := mkItem (proj_name p) SourceStore (rec_EventName rec)
        (Category (Stream rec) +:+ "/" +:+ StreamKey (Stream rec) +:+ "#" +:+ FormatInt (rec_Version rec))
        (rec_Metadata rec) in
      let '(r, v') := observe c ctx item (fun ctx' => handler ctx' event meta) v in
      (res_wrap (name +:+ ": handling " +:+ rec_EventName rec +:+ " at seq " +:+ FormatInt (GlobalSeq rec) +:+ ": ") "" r, v')
    end
  end.

(** The body of [InboxReader.Run]'s loop over the messages of a page. *)
Definition InboxReader_handle (p : Projection) (c : Config) (ctx : Context) (m : InboxMessage) (v : V)
    : res unit * V :=
  let name := InboxCheckpoint p in
  let msg := ibx_Message m in
  match foreignHandlers p !! integrationKey (msg_Type msg) (msg_Version msg) with
  | None => (Ok tt, v)
  | Some handler =>
    let item := mkItem (proj_name p) SourceInbox (msg_Type msg) (msg_ID msg) (msg_Metadata msg) in
    let '(r, v') := observe c ctx item (fun ctx' => handler ctx' msg) v in
    (res_wrap (name +:+ ": handling " +:+ msg_Type msg +:+ " (message " +:+ msg_ID msg +:+ "): ") "" r, v')
  end.
End projection.
Arguments Projection : clear implicits.
Arguments Config : clear implicits.
Arguments Observer : clear implicits.

(** ** The runners' loop *)

Inductive tail_pc (X : Type) :=
  | T_start
  | T_head (seq : Z)
  | T_read (seq : Z)
  | T_idle (seq : Z)
  | T_handle (next : Z) (todo : list X)
  | T_checkpoint (next : Z)
  | T_stopped (r : res unit).
Arguments T_start {X}.
Arguments T_head {X} seq.
Arguments T_read {X} seq.
Arguments T_idle {X} seq.
Arguments T_handle {X} next todo.
Arguments T_checkpoint {X} next.
Arguments T_stopped {X} r.

Record tailer (X Src K V : Type) := mkTailer {
  t_src : Src; t_cps : K; t_view : V; t_cancelled : bool; t_pc : tail_pc X;
}.
Arguments mkTailer {X Src K V} _ _ _ _ _.
Arguments t_src {X Src K V} _.
Arguments t_cps {X Src K V} _.
Arguments t_view {X Src K V} _.
Arguments t_cancelled {X Src K V} _.
Arguments t_pc {X Src K V} _.

Section tailing.
Context {X Src K V : Type} `{CheckpointStore K}.
Context (seq : X -> Z) (read : Z -> Z -> Src -> res (list X) * Src).
Context (name : string) (batch : Z) (handle : X -> V -> res unit * V).
Implicit Types (s : tailer X Src K V).

Definition tail_err (what : string) (e : error) : tail_pc X := T_stopped (Err (EWrap (name +:+ what) e "")).

(** One step of [Run]; [timer] as for the relay. *)
Definition tail_step (timer : bool) s : tailer X Src K V :=
  let goto pc := mkTailer (t_src s) (t_cps s) (t_view s) (t_cancelled s) pc in
  match t_pc s with
  | T_start =>
    let '(g, c) := cp_Get name (t_cps s) in
    mkTailer (t_src s) c (t_view s) (t_cancelled s)
      match g with Ok p => T_head p | Err e => tail_err ": " e | Panic m => T_stopped (Panic m) end
  | T_head p => goto (if t_cancelled s then T_stopped (Ok tt) else T_read p)
  | T_read p =>
    let '(g, w) := read p batch (t_src s) in
    mkTailer w (t_cps s) (t_view s) (t_cancelled s)
      match g with
      | Err e => if t_cancelled s && negb timer then T_stopped (Ok tt) else tail_err ": read: " e
      | Panic m => T_stopped (Panic m)
      | Ok items => match last items with None => T_idle p | Some x => T_handle (seq x) items end
      end
  | T_idle p => goto (if negb (t_cancelled s) || timer then T_head p else T_stopped (Ok tt))
  | T_handle next [] => goto (T_checkpoint next)
  | T_handle next (x :: todo) =>
    let '(g, v) := handle x (t_view s) in
    mkTailer (t_src s) (t_cps s) v (t_cancelled s)
      match g with Ok _ => T_handle next todo | Err e => T_stopped (Err e) | Panic m => T_stopped (Panic m) end
  | T_checkpoint next =>
    let '(g, c) := cp_Set name next (t_cps s) in
    mkTailer (t_src s) c (t_view s) (t_cancelled s)
      match g with Ok _ => T_head next | Err e => tail_err ": checkpoint: " e | Panic m => T_stopped (Panic m) end
  | T_stopped _ => s
  end.
End tailing.

(** The two runners. *)
Section runners.
Context {Ev V : Type} `{DomainEvent Ev} `{MarshalEvent Ev}.
Context {W I K : Type} `{Store W} `{Inbox I} `{CheckpointStore K}.

Definition CatchUp_step (p : Projection Ev V) (reg : Registry Ev) (c : Config V) (ctx : Context)
    : bool -> tailer RecordedEvent W K V -> tailer RecordedEvent W K V :=
  tail_step GlobalSeq ReadAll (StoreCheckpoint p) (BatchSize (withDefaults c))
    (CatchUp_handle p reg (withDefaults c) ctx).

Definition InboxReader_step (p : Projection Ev V) (c : Config V) (ctx : Context)
    : bool -> tailer InboxMessage I K V -> tailer InboxMessage I K V :=
  tail_step ibx_Seq inbox_ReadAll (InboxCheckpoint p) (BatchSize (withDefaults c))
    (InboxReader_handle p (withDefaults c) ctx).
End runners.

(** ** WaitForCheckpoint *)

Definition defaultWaitPollInterval : Z := 25 * Millisecond.

Definition WaitOption : Type := Z -> Z. (* on waitConfig.pollInterval *)

Definition WithWaitPollInterval (d : Z) : WaitOption := fun cur => if decide (d > 0) then d else cur.

Section waiting.
Context {K : Type} `{CheckpointStore K} `{Clock K}.

(** At most [polls] reads of the checkpoint; [None] when all were too low and
    the context did not end. [ctx_Err] is what [ctx.Err()] returns once the
    context is done. *)
Fixpoint wait_loop (ctx : Context) (ctx_Err : error) (interval : Z) (name : string) (seq : Z)
    (polls : nat) (c : K) : option (res unit * K) :=
  match polls with
  | O => None
  | S n =>
    match cp_Get name c with
    | (Err e, c1) => Some (Err (EWrap ("wait for " +:+ name +:+ ": ") e ""), c1)
    | (Panic m, c1) => Some (Panic m, c1)
    | (Ok cur, c1) =>
      if decide (cur >= seq) then Some (Ok tt, c1) else
      let '(fired, c2) := after ctx interval c1 in
      if fired then wait_loop ctx ctx_Err interval name seq n c2
      else Some (Err (EWrap ("wait for " +:+ name +:+ " at seq " +:+ FormatInt seq +:+
                             " (checkpoint at " +:+ FormatInt cur +:+ "): ") ctx_Err ""), c2)
    end
  end.

Definition WaitForCheckpoint (ctx : Context) (ctx_Err : error) (name : string) (seq : Z)
    (opts : list WaitOption) (polls : nat) (c : K) : option (res unit * K) :=
  if decide (seq <= 0) then Some (Ok tt, c) else
  wait_loop ctx ctx_Err (fold_left (fun cur opt => opt cur) opts defaultWaitPollInterval) name seq polls c.
End waiting.

(** ** What a runner makes of its read model *)

Section effects.
Context {X V : Type}.

(** A handler's effect on the read model, up to an equivalence on read models:
    a successful call has the effect, a failed one has changed nothing (one
    transaction); effects respect the equivalence; and applying an item again,
    after any items that include it, changes nothing. *)
Class Replayable (handle : X -> V -> res unit * V) (R : relation V) (effect : X -> V -> V) : Prop := {
  replay_equiv :: Equivalence R;
  replay_proper x :: Proper (R ==> R) (effect x);
  replay_ok x v r v' : handle x v = (r, v') -> R v' (if is_ok r then effect x v else v);
  replay_again x l v : x ∈ l ->
    R (effect x (foldl (fun v y => effect y v) v l)) (foldl (fun v y => effect y v) v l);
}.

Definition apply_all (effect : X -> V -> V) (l : list X) (v : V) : V := foldl (fun v y => effect y v) v l.

Lemma apply_all_app effect l k v : apply_all effect (l ++ k) v = apply_all effect k (apply_all effect l v).
Proof. apply foldl_app. Qed.
End effects.

Section tail_facts.
Context {X Src K V : Type} `{CheckpointSpec K}.
Context (seq : X -> Z) (read : Z -> Z -> Src -> res (list X) * Src).
Context (name : string) (batch : Z) (handle : X -> V -> res unit * V).
Context (log : Src -> list X) (ok : Src -> Prop).
Context (ok_increasing : forall w, ok w -> increasing seq (log w)).
Context (read_ok : forall after limit w r w', ok w -> read after limit w = (r, w') ->
  ok w' /\ log w' = log w /\ forall xs, r = Ok xs -> xs = read_page seq after limit (log w)).
Context (R : relation V) (effect : X -> V -> V) `{!Replayable handle R effect}.
Implicit Types (s : tailer X Src K V).

(** The runner; growth of its source; cancellation; crash or return, followed
    by a restart; other checkpoints; and a rebuild: runner stopped, read tables
    truncated, its checkpoint zeroed, runner started. *)
Inductive tail_system (v0 : V) : tailer X Src K V -> tailer X Src K V -> Prop :=
  | runner_runs timer s : tail_system v0 s (tail_step seq read name batch handle timer s)
  | source_grows w' k s :
      ok w' -> log w' = log (t_src s) ++ k ->
      tail_system v0 s (mkTailer w' (t_cps s) (t_view s) (t_cancelled s) (t_pc s))
  | runner_cancelled s : tail_system v0 s (mkTailer (t_src s) (t_cps s) (t_view s) true (t_pc s))
  | runner_restarts s : tail_system v0 s (mkTailer (t_src s) (t_cps s) (t_view s) false T_start)
  | others_checkpoint c' s :
      checkpoint_of c' name = checkpoint_of (t_cps s) name ->
      tail_system v0 s (mkTailer (t_src s) c' (t_view s) (t_cancelled s) (t_pc s))
  | runner_rebuilt c' s :
      checkpoint_of c' name = 0 -> tail_system v0 s (mkTailer (t_src s) c' v0 false T_start).

Definition cursor s : Z := checkpoint_of (t_cps s) name.

(** [part] of the items beyond the checkpoint has been applied too. *)
Definition tail_pc_inv s (part : list X) : Prop :=
  match t_pc s with
  | T_start | T_stopped _ => True
  | T_head p | T_read p | T_idle p => p = cursor s
  | T_handle next todo => next <= head_of seq (log (t_src s))
    /\ exists past, upto seq next (log (t_src s)) = upto seq (cursor s) (log (t_src s)) ++ past ++ todo
       /\ past `prefix_of` part
  | T_checkpoint next => next <= head_of seq (log (t_src s))
    /\ exists past, upto seq next (log (t_src s)) = upto seq (cursor s) (log (t_src s)) ++ past
       /\ past `prefix_of` part
  end.

Record tail_inv (v0 : V) (part : list X) s : Prop := {
  ti_ok : ok (t_src s);
  ti_le : cursor s <= head_of seq (log (t_src s));
  ti_part : part `prefix_of` beyond seq (cursor s) (log (t_src s));
  ti_view : R (t_view s) (apply_all effect (upto seq (cursor s) (log (t_src s)) ++ part) v0);
  ti_pc : tail_pc_inv s part;
}.

Lemma tail_goto v0 part s cancelled pc :
  tail_inv v0 part s -> tail_pc_inv (mkTailer (t_src s) (t_cps s) (t_view s) cancelled pc) part ->
  tail_inv v0 part (mkTailer (t_src s) (t_cps s) (t_view s) cancelled pc).
Proof. intros [] Hpc. by split. Qed.

Lemma tail_checkpoints v0 part s c' :
  tail_inv v0 part s -> checkpoint_of c' name = cursor s ->
  tail_inv v0 part (mkTailer (t_src s) c' (t_view s) (t_cancelled s) (t_pc s)).
Proof.
  intros [? ? ? ? Hpc] Hcp. split; unfold tail_pc_inv, cursor in *; simpl; by rewrite ?Hcp.
Qed.

Lemma tail_grows v0 part s w' k :
  tail_inv v0 part s -> ok w' -> log w' = log (t_src s) ++ k ->
  tail_inv v0 part (mkTailer w' (t_cps s) (t_view s) (t_cancelled s) (t_pc s)).
Proof.
  intros [Hok Hle Hpart Hv Hpc] Hok' Hlog. pose proof (ok_increasing _ Hok') as Hinc. rewrite Hlog in Hinc.
  pose proof (head_of_app _ _ _ Hinc) as Hlast.
  assert (forall p, p <= head_of seq (log (t_src s)) ->
    upto seq p (log (t_src s) ++ k) = upto seq p (log (t_src s))) as Hup by (intros; by apply upto_app).
  split; unfold tail_pc_inv, cursor in *; simpl; rewrite ?Hlog; try done.
  - lia.
  - unfold beyond. rewrite filter_app. by apply prefix_app_r.
  - by rewrite Hup.
  - destruct (t_pc s); try done; destruct Hpc as (? & past & Hpast & Hpre); (split; [lia|]);
      exists past; by rewrite !Hup.
Qed.

Lemma tail_read v0 part s w' pc :
  tail_inv v0 part s -> ok w' -> log w' = log (t_src s) ->
  tail_pc_inv (mkTailer (t_src s) (t_cps s) (t_view s) (t_cancelled s) pc) part ->
  tail_inv v0 part (mkTailer w' (t_cps s) (t_view s) (t_cancelled s) pc).
Proof.
  intros Hinv Hok Hlog Hpc.
  apply (tail_grows v0 part (mkTailer (t_src s) (t_cps s) (t_view s) (t_cancelled s) pc) w' []).
  - by apply tail_goto.
  - done.
  - by rewrite app_nil_r.
Qed.
Lemma beyond_page p next l page :
  increasing seq l -> upto seq next l = upto seq p l ++ page -> beyond seq p l = page ++ beyond seq next l.
Proof.
  intros Hinc Hpage. apply (app_inv_head (upto seq p l)).
  rewrite <-upto_beyond by done. rewrite app_assoc, <-Hpage. by apply upto_beyond.
Qed.

(** One handler call. *)
Lemma tail_handles v0 part s next x todo g v' :
  tail_inv v0 part s -> t_pc s = T_handle next (x :: todo) -> handle x (t_view s) = (g, v') ->
  let pc' := match g with Ok _ => T_handle next todo | Err e => T_stopped (Err e) | Panic m => T_stopped (Panic m) end in
  exists part', tail_inv v0 part' (mkTailer (t_src s) (t_cps s) v' (t_cancelled s) pc').
Proof.
  intros [Hok Hle Hpart Hv Hpc] Heq E. unfold tail_pc_inv in Hpc. rewrite Heq in Hpc.
  destruct Hpc as (Hnext & past & Hpage & Hpast).
  pose proof (beyond_page _ _ _ _ (ok_increasing _ Hok) Hpage) as Hbeyond.
  pose proof (replay_ok _ _ _ _ E) as Heff.
  assert (R v' (t_view s) -> tail_inv v0 part (mkTailer (t_src s) (t_cps s) v' (t_cancelled s) (T_stopped (Ok tt)))) as Hstop.
  { intros Hsame. split; try done. etransitivity; [exact Hsame | exact Hv]. }
  destruct g as [[]|e|m]; simpl in *; [|exists part; by destruct (Hstop Heff)..].
  assert (R v' (effect x (apply_all effect (upto seq (cursor s) (log (t_src s)) ++ part) v0))) as Hv'
    by (etransitivity; [exact Heff | by apply replay_proper]).
  destruct Hpast as [[|y more] ->].
  - rewrite app_nil_r in *. exists (past ++ [x]). split; unfold tail_pc_inv, cursor in *; simpl; try done.
    + rewrite Hbeyond. exists (todo ++ beyond seq next (log (t_src s))). by rewrite <-!app_assoc.
    + by rewrite app_assoc, apply_all_app.
    + split; [done|]. exists (past ++ [x]). by rewrite <-app_assoc.
  - assert (y = x) as ->.
    { destruct Hpart as [rest Hrest]. rewrite Hbeyond, <-!app_assoc in Hrest.
      apply app_inv_head in Hrest. by injection Hrest. }
    exists (past ++ x :: more). split; unfold tail_pc_inv, cursor in *; simpl; try done.
    + etransitivity; [exact Hv'|]. apply replay_again. set_solver.
    + split; [done|]. exists (past ++ [x]). rewrite <-app_assoc. split; [done|].
      exists more. by rewrite <-app_assoc.
Qed.

Lemma tail_stores_checkpoint v0 part s next g c' :
  tail_inv v0 part s -> t_pc s = T_checkpoint next -> cp_Set name next (t_cps s) = (g, c') ->
  let pc' := match g with
             | Ok _ => T_head next
             | Err e => tail_err name ": checkpoint: " e
             | Panic m => T_stopped (Panic m)
             end in
  exists part', tail_inv v0 part' (mkTailer (t_src s) c' (t_view s) (t_cancelled s) pc').
Proof.
  intros [Hok Hle Hpart Hv Hpc] Heq E. unfold tail_pc_inv in Hpc. rewrite Heq in Hpc.
  destruct Hpc as (Hnext & past & Hpage & [rest ->]).
  apply cp_Set_checkpoint in E as [_ Hcp].
  assert (checkpoint_of c' name = next -> exists part',
    tail_inv v0 part' (mkTailer (t_src s) c' (t_view s) (t_cancelled s) (T_head next))) as Hmoved.
  { intros Hset. exists rest. split; unfold tail_pc_inv, cursor in *; simpl; rewrite ?Hset; try done.
    - rewrite (beyond_page _ _ _ _ (ok_increasing _ Hok) Hpage) in Hpart.
      by apply prefix_app_inv in Hpart.
    - by rewrite Hpage, <-app_assoc. }
  destruct Hcp as [Hset|[Hno Hset]].
  - destruct (Hmoved Hset) as [part' [? ? ? ? ?]]. exists part'. by destruct g; split.
  - exists (past ++ rest). destruct g; [done|..];
      (split; unfold tail_pc_inv, cursor in *; simpl; rewrite ?Hset; done).
Qed.

Lemma tail_page v0 part s p page x :
  tail_inv v0 part s -> p = cursor s -> page = read_page seq p batch (log (t_src s)) -> last page = Some x ->
  tail_pc_inv (mkTailer (t_src s) (t_cps s) (t_view s) (t_cancelled s) (T_handle (seq x) page)) part.
Proof.
  intros Hinv -> Hp Hx.
  destruct (upto_page _ _ _ _ _ _ (ok_increasing _ (ti_ok _ _ _ Hinv)) Hp Hx) as [Hup Hle].
  split; [done|]. exists []. split; [done | apply prefix_nil].
Qed.

Lemma tail_step_inv v0 part timer s :
  tail_inv v0 part s -> exists part', tail_inv v0 part' (tail_step seq read name batch handle timer s).
Proof.
  intros Hinv. pose proof (ti_pc _ _ _ Hinv) as Hpc. unfold tail_pc_inv in Hpc. unfold tail_step.
  destruct (t_pc s) as [|p|p|p|next [|x todo]|next|res] eqn:Heq.
  - destruct (cp_Get _ _) as [g c'] eqn:E. apply cp_Get_checkpoint in E as [Hsame Hg]. exists part.
    apply (tail_goto v0 part (mkTailer (t_src s) c' (t_view s) (t_cancelled s) (t_pc s)));
      [apply tail_checkpoints; [done | apply Hsame]|].
    destruct g as [p| |]; unfold tail_pc_inv, cursor; simpl; [|done..]. by rewrite Hsame, (Hg p eq_refl).
  - exists part. apply tail_goto; [done|]. by destruct (t_cancelled s).
  - destruct (read _ _ _) as [g w'] eqn:E. exists part.
    destruct (read_ok _ _ _ _ _ (ti_ok _ _ _ Hinv) E) as (Hok' & Hlog & Hxs).
    apply tail_read; [done..|]. destruct g as [xs|e|m]; [|by case_match|done].
    destruct (last xs) as [x|] eqn:Hx; [|done]. apply (tail_page v0 part s p xs); auto.
  - exists part. apply tail_goto; [done|]. by case_match.
  - exists part. apply tail_goto; [done|]. destruct Hpc as (Hle & past & Hpage & Hpast).
    split; [done|]. exists past. by rewrite app_nil_r in Hpage.
  - destruct (handle x (t_view s)) as [g v'] eqn:E. by apply (tail_handles v0 part s next x todo g v').
  - destruct (cp_Set _ _ _) as [g c'] eqn:E. by apply (tail_stores_checkpoint v0 part s next g c').
  - by exists part.
Qed.

Lemma tail_inv_start v0 w c cancelled :
  ok w -> checkpoint_of c name = 0 -> tail_inv v0 [] (mkTailer w c v0 cancelled T_start).
Proof.
  intros Hok Hc. pose proof (ok_increasing _ Hok) as Hinc.
  split; unfold tail_pc_inv, cursor; simpl; rewrite ?Hc; try done.
  - by apply head_of_nonneg.
  - apply prefix_nil.
  - by rewrite upto_zero, app_nil_r.
Qed.

Lemma tail_system_inv v0 s s' :
  (exists part, tail_inv v0 part s) -> tail_system v0 s s' -> exists part, tail_inv v0 part s'.
Proof.
  intros [part Hinv] Hstep. destruct Hstep as [timer s|w' k s Hok Hlog|s|s|c' s Hcp|c' s Hcp].
  - by eapply tail_step_inv.
  - exists part. by eapply tail_grows.
  - exists part. apply tail_goto; [done | apply Hinv].
  - exists part. by apply tail_goto.
  - exists part. by apply tail_checkpoints.
  - exists []. apply tail_inv_start; [apply Hinv | done].
Qed.

Lemma tail_reachable v0 w c s :
  ok w -> checkpoint_of c name = 0 -> rtc (tail_system v0) (mkTailer w c v0 false T_start) s ->
  exists part, tail_inv v0 part s.
Proof.
  intros Hok Hc Hrun. eapply (rtc_invariant (tail_system v0) (fun s => exists part, tail_inv v0 part s));
    [apply tail_system_inv | exists []; by apply tail_inv_start | done].
Qed.
End tail_facts.

(** A read model that only gains elements: every item adds a fixed set, or fails
    and adds nothing. *)
Lemma union_replayable {X A} `{Countable A} (handle : X -> gset A -> res unit * gset A) :
  (forall x v, handle x v = (fst (handle x ∅), v ∪ snd (handle x ∅))) ->
  (forall x, is_ok (fst (handle x ∅)) = false -> snd (handle x ∅) = ∅) ->
  Replayable handle eq (fun x v => v ∪ snd (handle x ∅)).
Proof.
  intros Hunion Hfail. split; [apply _ | by intros x ?? -> | |].
  - intros x v r v'. rewrite Hunion. intros [= <- <-]. destruct (is_ok _) eqn:E; [done|].
    rewrite Hfail by done. set_solver.
  - intros x l v Hx.
    assert (forall k u, u ⊆ foldl (fun v y => v ∪ snd (handle y ∅)) u k) as Hgrow.
    { induction k as [|y k IH]; intros u; simpl; [done|]. etransitivity; [|apply IH]. set_solver. }
    apply list_elem_of_split in Hx as (l1 & l2 & ->). rewrite foldl_app. simpl.
    specialize (Hgrow l2 (foldl (fun v y => v ∪ snd (handle y ∅)) v l1 ∪ snd (handle x ∅))). set_solver.
Qed.

(** ** Convergence of an undisturbed runner *)

Section convergence.
Context {X Src K V : Type} `{CheckpointSpec K}.
Context (seq : X -> Z) (read : Z -> Z -> Src -> res (list X) * Src).
Context (name : string) (batch : Z) (handle : X -> V -> res unit * V).
Context (log : Src -> list X) (ok : Src -> Prop).
Context (ok_increasing : forall w, ok w -> increasing seq (log w)).
Context (read_ok : forall after limit w r w', ok w -> read after limit w = (r, w') ->
  ok w' /\ log w' = log w /\ forall xs, r = Ok xs -> xs = read_page seq after limit (log w)).
Context (read_answers : forall after limit w, is_ok (fst (read after limit w)) = true).
Context (set_answers : forall n p (c : K), fst (cp_Set n p c) = Ok tt).
Implicit Types (s : tailer X Src K V).

Definition tail_quiet s s' : Prop := s' = tail_step seq read name batch handle true s.

Lemma handles_page next todo w (c : K) v :
  Forall (fun x => forall v, is_ok (fst (handle x v)) = true) todo ->
  exists v', rtc tail_quiet (mkTailer w c v false (T_handle next todo)) (mkTailer w c v' false (T_handle next [])).
Proof.
  intros Hall. revert v. induction Hall as [|x todo Hx _ IH]; intros v; [by eexists|].
  destruct (handle x v) as [g v1] eqn:E. specialize (Hx v). rewrite E in Hx. destruct g as [[]| |]; [|done..].
  destruct (IH v1) as [v' Hrest]. exists v'. eapply rtc_l; [|exact Hrest].
  unfold tail_quiet, tail_step. simpl. by rewrite E.
Qed.

Lemma tail_turn p s :
  ok (t_src s) -> t_pc s = T_head p -> t_cancelled s = false ->
  Forall (fun x => forall v, is_ok (fst (handle x v)) = true) (log (t_src s)) ->
  (exists s', rtc tail_quiet s s' /\ t_pc s' = T_idle p /\ log (t_src s') = log (t_src s)
     /\ beyond seq p (log (t_src s)) = [])
  \/ (exists s' x, rtc tail_quiet s s' /\ t_pc s' = T_head (seq x) /\ t_cancelled s' = false
     /\ log (t_src s') = log (t_src s) /\ ok (t_src s')
     /\ last (read_page seq p batch (log (t_src s))) = Some x).
Proof.
  destruct s as [w c v b pc]. simpl. intros Hinv -> -> Hall.
  destruct (read p batch w) as [g w'] eqn:E.
  destruct (read_ok _ _ _ _ _ Hinv E) as (Hinv' & Hlog & Hxs).
  pose proof (read_answers p batch w) as Hok. rewrite E in Hok. destruct g as [page| |]; [|done..].
  specialize (Hxs page eq_refl). destruct (last page) as [x|] eqn:Hx.
  - right. assert (Forall (fun x => forall v, is_ok (fst (handle x v)) = true) page) as Hpage.
    { rewrite Forall_forall in *. intros y Hy. apply Hall. rewrite Hxs in Hy.
      by apply elem_of_read_page in Hy as [? _]. }
    destruct (handles_page (seq x) page w' c v Hpage) as [v' Hrun].
    destruct (cp_Set name (seq x) c) as [gs c'] eqn:Es.
    pose proof (set_answers name (seq x) c) as Hset. rewrite Es in Hset. simpl in Hset. subst gs.
    exists (mkTailer w' c' v' false (T_head (seq x))), x. split_and!; try done; [|by rewrite <-Hxs].
    eapply rtc_l; [reflexivity|]. eapply rtc_l; [reflexivity|].
    etransitivity; [|eapply rtc_l; [reflexivity|]; eapply rtc_l; [reflexivity|]].
    + unfold tail_step at 1. simpl. rewrite E, Hx. exact Hrun.
    + unfold tail_step. simpl. rewrite Es. reflexivity.
  - left. exists (mkTailer w' c v false (T_idle p)). split_and!; try done.
    + eapply rtc_l; [reflexivity|]. eapply rtc_l; [reflexivity|].
      unfold tail_step. simpl. rewrite E, Hx. reflexivity.
    + apply last_None in Hx as ->. symmetry in Hxs. by apply read_page_nil in Hxs.
Qed.

Lemma tail_catches_up n p s :
  ok (t_src s) -> t_pc s = T_head p -> t_cancelled s = false ->
  Forall (fun x => forall v, is_ok (fst (handle x v)) = true) (log (t_src s)) ->
  (length (beyond seq p (log (t_src s))) <= n)%nat ->
  exists s' p', rtc tail_quiet s s' /\ t_pc s' = T_idle p' /\ log (t_src s') = log (t_src s)
    /\ beyond seq p' (log (t_src s)) = [].
Proof.
  revert p s. induction n as [n IH] using lt_wf_ind. intros p s Hinv Hpc Hb Hall Hn.
  destruct (tail_turn p s Hinv Hpc Hb Hall) as [(s' & Hrun & Hpc' & Hl & Hnil)
                                               |(s' & x & Hrun & Hpc' & Hb' & Hl & Hinv' & Hx)].
  - by exists s', p.
  - pose proof (page_next seq _ _ _ _ _ (ok_increasing _ Hinv) eq_refl Hx) as Hnext.
    assert (0 < length (read_page seq p batch (log (t_src s))))%nat as Hpos
      by (destruct (read_page _ _ _ _); simpl in *; [done|lia]).
    apply (f_equal length) in Hnext. rewrite length_app in Hnext.
    destruct (IH (length (beyond seq (seq x) (log (t_src s)))) ltac:(lia) (seq x) s')
      as (s'' & p'' & Hrun' & Hpc'' & Hl' & Hnil); rewrite ?Hl; try done.
    exists s'', p''. split_and!; [by etransitivity | done | congruence | congruence].
Qed.
End convergence.

(** ** Waiting *)

Section waiting_facts.
Context {K : Type} `{CheckpointSpec K} `{Clock K}.

(** The checkpoint store as the [n]-th poll finds it. *)
Fixpoint at_poll (ctx : Context) (interval : Z) (name : string) (n : nat) (c : K) : K :=
  match n with
  | O => c
  | S n' => at_poll ctx interval name n' (snd (after ctx interval (snd (cp_Get name c))))
  end.

Lemma wait_loop_sound ctx err interval name seq polls (c c' : K) r :
  wait_loop ctx err interval name seq polls c = Some (r, c') ->
  r = Ok tt -> seq <= checkpoint_of c' name.
Proof.
  revert c. induction polls as [|n IH]; intros c; simpl; [done|].
  destruct (cp_Get name c) as [[cur|e|m] c1] eqn:E; [|by intros [= <- <-]..].
  apply cp_Get_checkpoint in E as [Hsame Hcur]. case_decide as Hge.
  - intros [= <- <-] _. rewrite Hsame, <-(Hcur cur eq_refl). lia.
  - destruct (after _ _ _) as [[] c2]; [by apply IH | by intros [= <- <-]].
Qed.

Lemma wait_loop_ends ctx err interval name seq polls n (c : K) :
  (n < polls)%nat -> (forall c : K, is_ok (fst (cp_Get name c)) = true) ->
  seq <= checkpoint_of (at_poll ctx interval name n c) name
  \/ fst (after ctx interval (snd (cp_Get name (at_poll ctx interval name n c)))) = false ->
  is_Some (wait_loop ctx err interval name seq polls c).
Proof.
  intros Hn Hget. revert n c Hn. induction polls as [|polls IH]; intros n c Hn Hend; [lia|]. simpl.
  pose proof (Hget c) as Hok. destruct (cp_Get name c) as [[cur|e|m] c1] eqn:E; [|done..].
  pose proof (cp_Get_checkpoint _ _ _ _ E) as [_ Hcur]. case_decide as Hge; [done|].
  destruct (after ctx interval c1) as [fired c2] eqn:Ea. destruct fired; [|done].
  destruct n as [|n]; simpl in Hend; rewrite E in Hend; simpl in Hend; rewrite Ea in Hend; simpl in Hend.
  - destruct Hend as [Hend|Hend]; [|done]. rewrite <-(Hcur cur eq_refl) in Hend. lia.
  - apply (IH n); [lia | done].
Qed.
End waiting_facts.

(** ** Properties *)

Section catch_up.
Context {Ev V W K : Type} `{DomainEvent Ev} `{MarshalEvent Ev} `{StoreSpec W} `{CheckpointSpec K}.

(** The system around a [CatchUp] runner of projection [p]. *)
Definition catchup_system (p : Projection Ev V) (reg : Registry Ev) (c : Config V) (ctx : Context) (v0 : V) :=
  tail_system (X := RecordedEvent) (Src := W) (K := K) GlobalSeq ReadAll (StoreCheckpoint p)
    (BatchSize (withDefaults c)) (CatchUp_handle p reg (withDefaults c) ctx) log_of store_inv v0.

Lemma store_read_ok after limit (w : W) r w' :
  store_inv w -> ReadAll after limit w = (r, w') ->
  store_inv w' /\ log_of w' = log_of w
  /\ forall xs, r = Ok xs -> xs = read_page GlobalSeq after limit (log_of w).
Proof. apply ReadAll_spec. Qed.

Lemma store_increasing (w : W) : store_inv w -> increasing GlobalSeq (log_of w).
Proof. intros Hw. by apply log_ok_increasing, store_log_ok. Qed.
End catch_up.

Section inbox_reader.
Context {Ev V I K : Type} `{DomainEvent Ev} `{MarshalEvent Ev} `{InboxSpec I} `{CheckpointSpec K}.

Definition inbox_system (p : Projection Ev V) (c : Config V) (ctx : Context) (v0 : V) :=
  tail_system (X := InboxMessage) (Src := I) (K := K) ibx_Seq inbox_ReadAll (InboxCheckpoint p)
    (BatchSize (withDefaults c)) (InboxReader_handle p (withDefaults c) ctx) inbox_log inbox_inv v0.
End inbox_reader.

(** C6: Own events take effect exactly once. Whatever crashes, restarts, handler
    and infrastructure failures, cancellations, appends and rebuilds happen, in
    any order: if the projection's handlers are replayable (idempotent and
    commutative up to an equivalence of read models, all or nothing), its read
    model is the fold of the store's log up to the checkpoint, plus the records
    of the page in flight that have been handled already. *)
Theorem catchup_effect_exactly_once {Ev V W K} `{DomainEvent Ev} `{MarshalEvent Ev} `{StoreSpec W} `{CheckpointSpec K}
    (p : Projection Ev V) (reg : Registry Ev) (c : Config V) (ctx : Context) (v0 : V)
    (R : relation V) (effect : RecordedEvent -> V -> V)
    (Hreplay : Replayable (CatchUp_handle p reg (withDefaults c) ctx) R effect)
    (w0 : W) (c0 : K) (s : tailer RecordedEvent W K V)
    (Hw0 : store_inv w0) (Hc0 : checkpoint_of c0 (StoreCheckpoint p) = 0)
    (Hrun : rtc (catchup_system p reg c ctx v0) (mkTailer w0 c0 v0 false T_start) s) :
  let cp := checkpoint_of (t_cps s) (StoreCheckpoint p) in
  exists part, part `prefix_of` beyond GlobalSeq cp (log_of (t_src s))
    /\ R (t_view s) (apply_all effect (upto GlobalSeq cp (log_of (t_src s)) ++ part) v0).
Proof.
  destruct (tail_reachable _ _ _ _ _ _ _ store_increasing store_read_ok R effect v0 w0 c0 s Hw0 Hc0 Hrun)
    as [part [_ _ Hpart Hv _]].
  by exists part.
Qed.

(** Foreign facts take effect exactly once: the same for the inbox reader and
    the inbox. *)
Theorem inbox_effect_exactly_once {Ev V I K} `{DomainEvent Ev} `{MarshalEvent Ev} `{InboxSpec I} `{CheckpointSpec K}
    (p : Projection Ev V) (c : Config V) (ctx : Context) (v0 : V)
    (R : relation V) (effect : InboxMessage -> V -> V)
    (Hreplay : Replayable (InboxReader_handle p (withDefaults c) ctx) R effect)
    (i0 : I) (c0 : K) (s : tailer InboxMessage I K V)
    (Hi0 : inbox_inv i0) (Hc0 : checkpoint_of c0 (InboxCheckpoint p) = 0)
    (Hrun : rtc (inbox_system p c ctx v0) (mkTailer i0 c0 v0 false T_start) s) :
  let cp := checkpoint_of (t_cps s) (InboxCheckpoint p) in
  exists part, part `prefix_of` beyond ibx_Seq cp (inbox_log (t_src s))
    /\ R (t_view s) (apply_all effect (upto ibx_Seq cp (inbox_log (t_src s)) ++ part) v0).
Proof.
  assert (forall i : I, inbox_inv i -> increasing ibx_Seq (inbox_log i)) as Hinc by (intros i Hi; by apply inbox_log_ok).
  destruct (tail_reachable _ _ _ _ _ _ _ Hinc inbox_ReadAll_spec R effect v0 i0 c0 s Hi0 Hc0 Hrun)
    as [part [_ _ Hpart Hv _]].
  by exists part.
Qed.

(** C31: Convergence. Left undisturbed at the head of its loop, with the
    infrastructure and the handlers succeeding, the runner reaches its idle
    wait, and then the read model is the fold of the whole log over the empty
    one, whatever happened before. *)
Theorem catchup_converges {Ev V W K} `{DomainEvent Ev} `{MarshalEvent Ev} `{StoreSpec W} `{CheckpointSpec K}
    (p : Projection Ev V) (reg : Registry Ev) (c : Config V) (ctx : Context) (v0 : V)
    (R : relation V) (effect : RecordedEvent -> V -> V)
    (Hreplay : Replayable (CatchUp_handle p reg (withDefaults c) ctx) R effect)
    (w0 : W) (c0 : K) (s : tailer RecordedEvent W K V) (pos : Z)
    (Hread : forall after limit (w : W), is_ok (fst (ReadAll after limit w)) = true)
    (Hset : forall n q (k : K), fst (cp_Set n q k) = Ok tt)
    (Hw0 : store_inv w0) (Hc0 : checkpoint_of c0 (StoreCheckpoint p) = 0)
    (Hrun : rtc (catchup_system p reg c ctx v0) (mkTailer w0 c0 v0 false T_start) s)
    (Hpc : t_pc s = T_head pos) (Hlive : t_cancelled s = false)
    (Hhandle : Forall (fun rec => forall v, is_ok (fst (CatchUp_handle p reg (withDefaults c) ctx rec v)) = true)
                 (log_of (t_src s))) :
  exists s' pos', rtc (fun a b => b = CatchUp_step p reg c ctx true a) s s' /\ t_pc s' = T_idle pos'
    /\ log_of (t_src s') = log_of (t_src s) /\ R (t_view s') (apply_all effect (log_of (t_src s)) v0).
Proof.
  pose proof (tail_reachable _ _ _ _ _ _ _ store_increasing store_read_ok R effect v0 w0 c0 s Hw0 Hc0 Hrun) as Hinv.
  destruct Hinv as [part0 Hinv0]. assert (store_inv (t_src s)) as Hok0 by apply Hinv0.
  destruct (tail_catches_up GlobalSeq ReadAll (StoreCheckpoint p) (BatchSize (withDefaults c))
    (CatchUp_handle p reg (withDefaults c) ctx) log_of store_inv store_increasing store_read_ok Hread Hset _ pos s
    Hok0 Hpc Hlive Hhandle (Nat.le_refl _)) as (s' & pos' & Hq & Hpc' & Hl & Hnil).
  exists s', pos'. split_and!; [exact Hq | done | done |].
  assert (exists part, tail_inv GlobalSeq (StoreCheckpoint p) log_of store_inv R effect v0 part s') as [part Hinv].
  { eapply (rtc_invariant _ (fun s => exists part, tail_inv GlobalSeq (StoreCheckpoint p) log_of store_inv R effect v0 part s));
      [|by exists part0|exact Hq].
    intros a b [part Ha] ->. by eapply tail_step_inv; eauto using store_increasing, store_read_ok. }
  destruct Hinv as [Hok _ Hpart Hv Hpc_inv]. unfold tail_pc_inv in Hpc_inv. rewrite Hpc' in Hpc_inv.
  rewrite <-Hpc_inv, Hl in Hpart, Hv. rewrite Hnil in Hpart. apply prefix_nil_inv in Hpart as ->.
  rewrite app_nil_r, upto_all in Hv; [exact Hv | by apply store_increasing | done].
Qed.

(** C30: Read your writes. When [WaitForCheckpoint] returns nil for a captured
    position, then whatever moment of the runner's life its checkpoint store
    belongs to, the read model includes every own event up to that position;
    it does return (nil, or an error) as soon as the checkpoint reaches the
    position or the context ends; and a position of zero waits for nothing. *)
Theorem wait_reads_own_writes {Ev V W K} `{DomainEvent Ev} `{MarshalEvent Ev} `{StoreSpec W} `{CheckpointSpec K} `{Clock K}
    (p : Projection Ev V) (reg : Registry Ev) (c : Config V) (ctx wctx : Context) (v0 : V) (ctx_Err : error)
    (R : relation V) (effect : RecordedEvent -> V -> V)
    (Hreplay : Replayable (CatchUp_handle p reg (withDefaults c) ctx) R effect)
    (w0 : W) (c0 cw : K) (s : tailer RecordedEvent W K V) (seq : Z) (opts : list WaitOption) (polls : nat)
    (Hw0 : store_inv w0) (Hc0 : checkpoint_of c0 (StoreCheckpoint p) = 0)
    (Hrun : rtc (catchup_system p reg c ctx v0) (mkTailer w0 c0 v0 false T_start) s) :
  (WaitForCheckpoint wctx ctx_Err (StoreCheckpoint p) seq opts polls cw = Some (Ok tt, t_cps s) ->
     exists more, R (t_view s) (apply_all effect (upto GlobalSeq seq (log_of (t_src s)) ++ more) v0))
  /\ (forall n, (n < polls)%nat -> (forall k : K, is_ok (fst (cp_Get (StoreCheckpoint p) k)) = true) ->
        let interval := fold_left (fun cur opt => opt cur) opts defaultWaitPollInterval in
        let k := at_poll wctx interval (StoreCheckpoint p) n cw in
        seq <= checkpoint_of k (StoreCheckpoint p)
        \/ fst (after wctx interval (snd (cp_Get (StoreCheckpoint p) k))) = false ->
        is_Some (WaitForCheckpoint wctx ctx_Err (StoreCheckpoint p) seq opts polls cw))
  /\ (seq <= 0 -> WaitForCheckpoint wctx ctx_Err (StoreCheckpoint p) seq opts polls cw = Some (Ok tt, cw)).
Proof.
  destruct (tail_reachable _ _ _ _ _ _ _ store_increasing store_read_ok R effect v0 w0 c0 s Hw0 Hc0 Hrun)
    as [part [Hok _ _ Hv _]].
  pose proof (store_increasing _ Hok) as Hinc. unfold WaitForCheckpoint. split_and!.
  - intros Hwait.
    assert (exists more, upto GlobalSeq (cursor (StoreCheckpoint p) s) (log_of (t_src s)) = upto GlobalSeq seq (log_of (t_src s)) ++ more) as [more Hmore].
    { case_decide as Hz.
      - exists (upto GlobalSeq (cursor (StoreCheckpoint p) s) (log_of (t_src s))).
        assert (upto GlobalSeq seq (log_of (t_src s)) = []) as ->; [|done].
        apply filter_none. rewrite Forall_forall. intros x Hx.
        pose proof (increasing_positive _ _ _ Hinc Hx). lia.
      - apply wait_loop_sound in Hwait; [|done]. fold (cursor (StoreCheckpoint p) s) in Hwait.
        by apply upto_mono. }
    exists (more ++ part). by rewrite app_assoc, <-Hmore.
  - intros n Hn Hget Hend. case_decide; [done|]. by eapply wait_loop_ends.
  - intros Hz. by rewrite decide_True.
Qed.

(** ** Witnesses *)

Module Sample.
Import Kernel.Sample Registry.Sample Repository.

(** A read model of the increments and of the foreign contract versions seen. *)
Definition on_incremented (_ : Context) (e : event) (_ : Meta) (v : gset Z) : res unit * gset Z :=
  match type_assert Incremented_type e with
  | Some n => (Ok tt, v ∪ {[n]})
  | None => (Panic "interface conversion", v)
  end.
Definition on_counted (_ : Context) (msg : Message) (v : gset Z) : res unit * gset Z :=
  (Ok tt, v ∪ {[msg_Version msg]}).
Definition totals : Projection event (gset Z) :=
  mkProjection "totals" {["sample.incremented" := on_incremented]} {["sample.counted@v1" := on_counted]}.
Definition config : Config (gset Z) := mkConfig 0 0 None.
Definition handle := CatchUp_handle totals registry (withDefaults config) background.
Definition foreign_handle := InboxReader_handle totals (withDefaults config) background.

Lemma handle_shape x v :
  handle x v = (fst (handle x ∅), v ∪ snd (handle x ∅)) /\ (is_ok (fst (handle x ∅)) = false -> snd (handle x ∅) = ∅).
Proof.
  unfold handle, CatchUp_handle. cbn [domainHandlers totals].
  destruct ({["sample.incremented" := on_incremented]} !! rec_EventName x) as [h|] eqn:E;
    [|simpl; rewrite (right_id_L ∅ (∪) v); done].
  apply lookup_singleton_Some in E as [_ <-].
  destruct (res_wrap _ _ _) as [[n|]| |]; simpl; rewrite ?(right_id_L ∅ (∪) v), ?(left_id_L ∅ (∪)); done.
Qed.

Lemma handle_replayable : Replayable handle eq (fun x v => v ∪ snd (handle x ∅)).
Proof. apply union_replayable; [intros x v; apply handle_shape | intros x; apply (handle_shape x ∅)]. Qed.

Lemma foreign_replayable : Replayable foreign_handle eq (fun x v => v ∪ snd (foreign_handle x ∅)).
Proof.
  apply union_replayable; unfold foreign_handle, InboxReader_handle; cbn [foreignHandlers totals].
  - intros x v. destruct (_ !! _) as [h|] eqn:E; [|simpl; by rewrite (right_id_L ∅ (∪) v)].
    apply lookup_singleton_Some in E as [_ <-]. simpl. by rewrite (left_id_L ∅ (∪)).
  - intros x. destruct (_ !! _) as [h|] eqn:E; [|done].
    apply lookup_singleton_Some in E as [_ <-]. done.
Qed.

#[export] Instance clock : Clock MemoryCheckpointStore := fun _ _ c => (true, c).

Definition start : tailer RecordedEvent MemoryStore MemoryCheckpointStore (gset Z) :=
  mkTailer Race.w0 NewMemoryCheckpointStore ∅ false T_start.
Definition run (n : nat) := Nat.iter n (CatchUp_step totals registry config background true) start.

Lemma run_reaches n : rtc (catchup_system totals registry config background ∅) start (run n).
Proof. induction n as [|n IH]; [done|]. eapply rtc_r; [exact IH | apply runner_runs]. Qed.

Definition message : Message := mkMessage "m" "k" "sample.counted" 1 zero_time RawNil None.
Definition inbox : MemoryInbox := mkMemoryInbox [mkInboxMessage 1 message] {["m" := true]}.
Definition inbox_start : tailer InboxMessage MemoryInbox MemoryCheckpointStore (gset Z) :=
  mkTailer inbox NewMemoryCheckpointStore ∅ false T_start.
Definition inbox_run (n : nat) := Nat.iter n (InboxReader_step totals config background true) inbox_start.

Lemma inbox_run_reaches n : rtc (inbox_system totals config background ∅) inbox_start (inbox_run n).
Proof. induction n as [|n IH]; [done|]. eapply rtc_r; [exact IH | apply runner_runs]. Qed.

Lemma inbox_sample_inv : mem_inbox_inv inbox.
Proof. apply (mem_inbox_Append_spec message NewMemoryInbox (Ok tt) inbox mem_inbox_new); done. Qed.
End Sample.
Import Kernel.Sample Registry.Sample Sample.

Lemma catchup_effect_exactly_once_witness :
  exists part, part `prefix_of` beyond GlobalSeq (checkpoint_of (t_cps (run 4)) "projection.totals.store") (log_of (t_src (run 4)))
    /\ t_view (run 4) = apply_all (fun x v => v ∪ snd (handle x ∅))
         (upto GlobalSeq (checkpoint_of (t_cps (run 4)) "projection.totals.store") (log_of (t_src (run 4))) ++ part) ∅.
Proof.
  exact (catchup_effect_exactly_once totals registry config background ∅ eq (fun x v => v ∪ snd (handle x ∅))
    handle_replayable Repository.Race.w0 NewMemoryCheckpointStore (run 4) Repository.Race.w0_inv eq_refl (run_reaches 4)).
Defined.

Lemma inbox_effect_exactly_once_witness :
  exists part, part `prefix_of` beyond ibx_Seq (checkpoint_of (t_cps (inbox_run 4)) "projection.totals.inbox")
                (inbox_log (t_src (inbox_run 4)))
    /\ t_view (inbox_run 4) = apply_all (fun x v => v ∪ snd (foreign_handle x ∅))
         (upto ibx_Seq (checkpoint_of (t_cps (inbox_run 4)) "projection.totals.inbox") (inbox_log (t_src (inbox_run 4))) ++ part) ∅.
Proof.
  exact (inbox_effect_exactly_once totals config background ∅ eq (fun x v => v ∪ snd (foreign_handle x ∅))
    foreign_replayable inbox NewMemoryCheckpointStore (inbox_run 4) inbox_sample_inv eq_refl (inbox_run_reaches 4)).
Defined.

Lemma catchup_converges_witness :
  exists s' pos', rtc (fun a b => b = CatchUp_step totals registry config background true a) (run 1) s'
    /\ t_pc s' = T_idle pos' /\ log_of (t_src s') = log_of (t_src (run 1))
    /\ t_view s' = apply_all (fun x v => v ∪ snd (handle x ∅)) (log_of (t_src (run 1))) ∅.
Proof.
  apply (catchup_converges totals registry config background ∅ eq (fun x v => v ∪ snd (handle x ∅))
    handle_replayable Repository.Race.w0 NewMemoryCheckpointStore (run 1) 0); try (intros; reflexivity).
  - exact Repository.Race.w0_inv.
  - exact (run_reaches 1).
  - assert (log_of (t_src (run 1)) = all Repository.Race.w0) as -> by reflexivity.
    constructor; [intros v; reflexivity | constructor].
Defined.

Lemma wait_reads_own_writes_witness :
  exists more, t_view (run 6) = apply_all (fun x v => v ∪ snd (handle x ∅))
    (upto GlobalSeq 1 (log_of (t_src (run 6))) ++ more) ∅.
Proof.
  refine (proj1 (wait_reads_own_writes totals registry config background background ∅ (EText "deadline")
    eq (fun x v => v ∪ snd (handle x ∅)) handle_replayable Repository.Race.w0 NewMemoryCheckpointStore (t_cps (run 6))
    (run 6) 1 [] 1 Repository.Race.w0_inv eq_refl (run_reaches 6)) _).
  vm_compute. reflexivity.
Defined.
