(* ===== verification/Flat.v ===== *)
(** * Flat structs

    The events and contracts of the example services are flat structs keyed by
    an order: the reference alone, with a number, or with a text. Their JSON
    forms, and that they carry valid values faithfully. *)

From S2P Require Import Prelude Errors Utf8 GoTime Json.

(** [struct { OrderID string `json:"order_id"` }] *)
Definition enc_ref (order : string) : json := JObj [("order_id", enc_string order)].
Definition set_ref (key : string) (v : json) (order : string) : res string :=
  on_field "order_id" (dec_string order) id key v (Ok order).
Definition dec_ref (j : json) : res string := dec_struct set_ref "" j.

(** With a further [int] or [int64] field. *)
Definition enc_ref_int (field order : string) (n : Z) : json :=
  JObj [("order_id", enc_string order); (field, enc_int n)].
Definition set_ref_int (field key : string) (v : json) (p : string * Z) : res (string * Z) :=
  on_field "order_id" (dec_string (fst p)) (fun o => (o, snd p)) key v
  (on_field field (dec_int (snd p)) (fun n => (fst p, n)) key v (Ok p)).
Definition dec_ref_int (field : string) (j : json) : res (string * Z) := dec_struct (set_ref_int field) ("", 0) j.

(** With a further [string] field. *)
Definition enc_ref_text (field order text : string) : json :=
  JObj [("order_id", enc_string order); (field, enc_string text)].
Definition set_ref_text (field key : string) (v : json) (p : string * string) : res (string * string) :=
  on_field "order_id" (dec_string (fst p)) (fun o => (o, snd p)) key v
  (on_field field (dec_string (snd p)) (fun t => (fst p, t)) key v (Ok p)).
Definition dec_ref_text (field : string) (j : json) : res (string * string) := dec_struct (set_ref_text field) ("", "") j.

(** A field name the decoder does not take for the reference. *)
Definition other_field (field : string) : Prop := is_field "order_id" field = false.

Lemma is_field_refl field : is_field field field = true.
Proof. unfold is_field. by rewrite bool_decide_true. Qed.

Lemma dec_enc_ref order : utf8_valid order -> dec_ref (enc_ref order) = Ok order.
Proof. intros Ho. unfold dec_ref, enc_ref, dec_struct. member_step. by rewrite dec_enc_string. Qed.

Lemma dec_enc_ref_int field order n :
  other_field field -> utf8_valid order -> in_int64 n -> dec_ref_int field (enc_ref_int field order n) = Ok (order, n).
Proof.
  intros Hf Ho Hn. unfold dec_ref_int, enc_ref_int, dec_struct. member_step.
  rewrite dec_enc_string by done. cbn [res_bind dec_members].
  unfold set_ref_int, on_field. rewrite Hf, is_field_refl, dec_enc_int by done. done.
Qed.

Lemma dec_enc_ref_text field order text :
  other_field field -> utf8_valid order -> utf8_valid text ->
  dec_ref_text field (enc_ref_text field order text) = Ok (order, text).
Proof.
  intros Hf Ho Ht. unfold dec_ref_text, enc_ref_text, dec_struct. member_step.
  rewrite dec_enc_string by done. cbn [res_bind dec_members].
  unfold set_ref_text, on_field. rewrite Hf, is_field_refl, dec_enc_string by done. done.
Qed.
