(* ===== verification/Contracts.v ===== *)
(** * gohex-example/contracts: the public contract catalog

    The topics, the integration events and the wire commands that cross the
    example's service boundaries, with their JSON forms. *)

From S2P Require Import Prelude Errors Utf8 GoTime Json Broker Cqrs Consumer Flat.

(** ** Topics *)

Definition TopicOrderingEvents := "ordering.events".
Definition TopicBillingEvents := "billing.events".
Definition TopicInventoryEvents := "inventory.events".
Definition TopicShippingEvents := "shipping.events".
Definition TopicBillingCommands := "billing.commands".
Definition TopicInventoryCommands := "inventory.commands".
Definition TopicShippingCommands := "shipping.commands".

(** ** Integration events *)

Record OrderPlacedV1 := mkOrderPlacedV1 {
  op_OrderID : string; op_CustomerID : string; op_Cents : Z; op_Currency : string; op_Qty : Z;
}.
Record PaymentCapturedV1 := mkPaymentCapturedV1 { pc_OrderID : string; pc_Cents : Z }.
Record PaymentFailedV1 := mkPaymentFailedV1 { pf_OrderID : string; pf_Reason : string }.
Record PaymentRefundedV1 := mkPaymentRefundedV1 { pr_OrderID : string }.
Record StockReservedV1 := mkStockReservedV1 { sr_OrderID : string; sr_Qty : Z }.
Record StockRejectedV1 := mkStockRejectedV1 { sj_OrderID : string; sj_Reason : string }.
Record ShipmentDispatchedV1 := mkShipmentDispatchedV1 { sd_OrderID : string }.

(** The values of [broker.IntegrationEvent] in the system. *)
Inductive contract :=
  | C_OrderPlaced (e : OrderPlacedV1)
  | C_PaymentCaptured (e : PaymentCapturedV1)
  | C_PaymentFailed (e : PaymentFailedV1)
  | C_PaymentRefunded (e : PaymentRefundedV1)
  | C_StockReserved (e : StockReservedV1)
  | C_StockRejected (e : StockRejectedV1)
  | C_ShipmentDispatched (e : ShipmentDispatchedV1).

#[export] Instance OrderPlacedV1_event : IntegrationEvent OrderPlacedV1 :=
  { ContractName _ := "ordering.order_placed"; ContractVersion _ := 1 }.
#[export] Instance PaymentCapturedV1_event : IntegrationEvent PaymentCapturedV1 :=
  { ContractName _ := "billing.payment_captured"; ContractVersion _ := 1 }.
#[export] Instance PaymentFailedV1_event : IntegrationEvent PaymentFailedV1 :=
  { ContractName _ := "billing.payment_failed"; ContractVersion _ := 1 }.
#[export] Instance PaymentRefundedV1_event : IntegrationEvent PaymentRefundedV1 :=
  { ContractName _ := "billing.payment_refunded"; ContractVersion _ := 1 }.
#[export] Instance StockReservedV1_event : IntegrationEvent StockReservedV1 :=
  { ContractName _ := "inventory.stock_reserved"; ContractVersion _ := 1 }.
#[export] Instance StockRejectedV1_event : IntegrationEvent StockRejectedV1 :=
  { ContractName _ := "inventory.stock_rejected"; ContractVersion _ := 1 }.
#[export] Instance ShipmentDispatchedV1_event : IntegrationEvent ShipmentDispatchedV1 :=
  { ContractName _ := "shipping.shipment_dispatched"; ContractVersion _ := 1 }.

#[export] Instance contract_event : IntegrationEvent contract := {
  ContractName c :=
    match c with
    | C_OrderPlaced e => ContractName e
    | C_PaymentCaptured e => ContractName e
    | C_PaymentFailed e => ContractName e
    | C_PaymentRefunded e => ContractName e
    | C_StockReserved e => ContractName e
    | C_StockRejected e => ContractName e
    | C_ShipmentDispatched e => ContractName e
    end;
  ContractVersion c :=
    match c with
    | C_OrderPlaced e => ContractVersion e
    | C_PaymentCaptured e => ContractVersion e
    | C_PaymentFailed e => ContractVersion e
    | C_PaymentRefunded e => ContractVersion e
    | C_StockReserved e => ContractVersion e
    | C_StockRejected e => ContractVersion e
    | C_ShipmentDispatched e => ContractVersion e
    end;
}.

(** *** Their JSON forms *)

Definition enc_order_placed (e : OrderPlacedV1) : json :=
  JObj [("order_id", enc_string (op_OrderID e)); ("customer_id", enc_string (op_CustomerID e));
        ("cents", enc_int (op_Cents e)); ("currency", enc_string (op_Currency e)); ("qty", enc_int (op_Qty e))].
Definition set_order_placed (key : string) (v : json) (e : OrderPlacedV1) : res OrderPlacedV1 :=
  on_field "order_id" (dec_string (op_OrderID e)) (fun x => mkOrderPlacedV1 x (op_CustomerID e) (op_Cents e) (op_Currency e) (op_Qty e)) key v
  (on_field "customer_id" (dec_string (op_CustomerID e)) (fun x => mkOrderPlacedV1 (op_OrderID e) x (op_Cents e) (op_Currency e) (op_Qty e)) key v
  (on_field "cents" (dec_int (op_Cents e)) (fun x => mkOrderPlacedV1 (op_OrderID e) (op_CustomerID e) x (op_Currency e) (op_Qty e)) key v
  (on_field "currency" (dec_string (op_Currency e)) (fun x => mkOrderPlacedV1 (op_OrderID e) (op_CustomerID e) (op_Cents e) x (op_Qty e)) key v
  (on_field "qty" (dec_int (op_Qty e)) (fun x => mkOrderPlacedV1 (op_OrderID e) (op_CustomerID e) (op_Cents e) (op_Currency e) x) key v
  (Ok e))))).

#[export] Instance OrderPlacedV1_codec : JsonCodec OrderPlacedV1 :=
  { Marshal e := Ok (enc_order_placed e); Unmarshal := dec_struct set_order_placed (mkOrderPlacedV1 "" "" 0 "" 0) }.
#[export] Instance PaymentCapturedV1_codec : JsonCodec PaymentCapturedV1 :=
  { Marshal e := Ok (enc_ref_int "cents" (pc_OrderID e) (pc_Cents e));
    Unmarshal j := try p := dec_ref_int "cents" j in Ok (mkPaymentCapturedV1 (fst p) (snd p)) }.
#[export] Instance PaymentFailedV1_codec : JsonCodec PaymentFailedV1 :=
  { Marshal e := Ok (enc_ref_text "reason" (pf_OrderID e) (pf_Reason e));
    Unmarshal j := try p := dec_ref_text "reason" j in Ok (mkPaymentFailedV1 (fst p) (snd p)) }.
#[export] Instance PaymentRefundedV1_codec : JsonCodec PaymentRefundedV1 :=
  { Marshal e := Ok (enc_ref (pr_OrderID e)); Unmarshal j := try o := dec_ref j in Ok (mkPaymentRefundedV1 o) }.
#[export] Instance StockReservedV1_codec : JsonCodec StockReservedV1 :=
  { Marshal e := Ok (enc_ref_int "qty" (sr_OrderID e) (sr_Qty e));
    Unmarshal j := try p := dec_ref_int "qty" j in Ok (mkStockReservedV1 (fst p) (snd p)) }.
#[export] Instance StockRejectedV1_codec : JsonCodec StockRejectedV1 :=
  { Marshal e := Ok (enc_ref_text "reason" (sj_OrderID e) (sj_Reason e));
    Unmarshal j := try p := dec_ref_text "reason" j in Ok (mkStockRejectedV1 (fst p) (snd p)) }.
#[export] Instance ShipmentDispatchedV1_codec : JsonCodec ShipmentDispatchedV1 :=
  { Marshal e := Ok (enc_ref (sd_OrderID e)); Unmarshal j := try o := dec_ref j in Ok (mkShipmentDispatchedV1 o) }.

#[export] Instance contract_marshal : MarshalEvent contract :=
  fun c =>
    match c with
    | C_OrderPlaced e => Marshal e
    | C_PaymentCaptured e => Marshal e
    | C_PaymentFailed e => Marshal e
    | C_PaymentRefunded e => Marshal e
    | C_StockReserved e => Marshal e
    | C_StockRejected e => Marshal e
    | C_ShipmentDispatched e => Marshal e
    end.

(** ** Wire commands *)

Record CapturePayment := mkCapturePayment { cp_OrderID : string; cp_Cents : Z }.
Record RefundPayment := mkRefundPayment { rp_OrderID : string }.
Record ReserveStock := mkReserveStock { rs_OrderID : string; rs_Qty : Z }.
Record CreateShipment := mkCreateShipment { cs_OrderID : string }.

Inductive wire_command :=
  | W_CapturePayment (c : CapturePayment)
  | W_RefundPayment (c : RefundPayment)
  | W_ReserveStock (c : ReserveStock)
  | W_CreateShipment (c : CreateShipment).

#[export] Instance wire_command_name : Command wire_command :=
  fun c =>
    match c with
    | W_CapturePayment _ => "billing.capture_payment"
    | W_RefundPayment _ => "billing.refund_payment"
    | W_ReserveStock _ => "inventory.reserve_stock"
    | W_CreateShipment _ => "shipping.create_shipment"
    end.

(** No wire command declares a contract version. *)
#[export] Instance wire_command_version : VersionedCommand wire_command := fun _ => None.

Definition CapturePayment_type : GoType wire_command :=
  mkGoType _ CapturePayment (mkCapturePayment "" 0) W_CapturePayment
    (fun c => match c with W_CapturePayment x => Some x | _ => None end).
Definition RefundPayment_type : GoType wire_command :=
  mkGoType _ RefundPayment (mkRefundPayment "") W_RefundPayment
    (fun c => match c with W_RefundPayment x => Some x | _ => None end).
Definition ReserveStock_type : GoType wire_command :=
  mkGoType _ ReserveStock (mkReserveStock "" 0) W_ReserveStock
    (fun c => match c with W_ReserveStock x => Some x | _ => None end).
Definition CreateShipment_type : GoType wire_command :=
  mkGoType _ CreateShipment (mkCreateShipment "") W_CreateShipment
    (fun c => match c with W_CreateShipment x => Some x | _ => None end).

#[export] Instance CapturePayment_codec : JsonCodec (carrier CapturePayment_type) :=
  { Marshal c := Ok (enc_ref_int "cents" (cp_OrderID c) (cp_Cents c));
    Unmarshal j := try p := dec_ref_int "cents" j in Ok (mkCapturePayment (fst p) (snd p)) }.
#[export] Instance RefundPayment_codec : JsonCodec (carrier RefundPayment_type) :=
  { Marshal c := Ok (enc_ref (rp_OrderID c)); Unmarshal j := try o := dec_ref j in Ok (mkRefundPayment o) }.
#[export] Instance ReserveStock_codec : JsonCodec (carrier ReserveStock_type) :=
  { Marshal c := Ok (enc_ref_int "qty" (rs_OrderID c) (rs_Qty c));
    Unmarshal j := try p := dec_ref_int "qty" j in Ok (mkReserveStock (fst p) (snd p)) }.
#[export] Instance CreateShipment_codec : JsonCodec (carrier CreateShipment_type) :=
  { Marshal c := Ok (enc_ref (cs_OrderID c)); Unmarshal j := try o := dec_ref j in Ok (mkCreateShipment o) }.

#[export] Instance wire_command_marshal : MarshalEvent wire_command :=
  fun c =>
    match c with
    | W_CapturePayment x => Marshal (JsonCodec := CapturePayment_codec) x
    | W_RefundPayment x => Marshal (JsonCodec := RefundPayment_codec) x
    | W_ReserveStock x => Marshal (JsonCodec := ReserveStock_codec) x
    | W_CreateShipment x => Marshal (JsonCodec := CreateShipment_codec) x
    end.

(** ** The contracts survive the wire *)

Definition order_placed_valid (e : OrderPlacedV1) : Prop :=
  utf8_valid (op_OrderID e) /\ utf8_valid (op_CustomerID e) /\ in_int64 (op_Cents e)
  /\ utf8_valid (op_Currency e) /\ in_int64 (op_Qty e).

Ltac flat := by vm_compute.

#[export] Instance OrderPlacedV1_roundtrip : JsonRoundtrip OrderPlacedV1 order_placed_valid.
Proof.
  intros [o c n cur q] (Ho & Hc & Hn & Hcur & Hq). exists (enc_order_placed (mkOrderPlacedV1 o c n cur q)). split; [done|].
  cbn [op_OrderID op_CustomerID op_Cents op_Currency op_Qty] in *.
  unfold Unmarshal, OrderPlacedV1_codec, enc_order_placed, dec_struct.
  cbn [op_OrderID op_CustomerID op_Cents op_Currency op_Qty].
  member_step. rewrite dec_enc_string by done. cbn [res_bind op_OrderID op_CustomerID op_Cents op_Currency op_Qty].
  member_step. rewrite dec_enc_string by done. cbn [res_bind op_OrderID op_CustomerID op_Cents op_Currency op_Qty].
  member_step. rewrite dec_enc_int by done. cbn [res_bind op_OrderID op_CustomerID op_Cents op_Currency op_Qty].
  member_step. rewrite dec_enc_string by done. cbn [res_bind op_OrderID op_CustomerID op_Cents op_Currency op_Qty].
  member_step. by rewrite dec_enc_int.
Qed.
#[export] Instance PaymentCapturedV1_roundtrip :
  JsonRoundtrip PaymentCapturedV1 (fun e => utf8_valid (pc_OrderID e) /\ in_int64 (pc_Cents e)).
Proof. intros [o n] [Ho Hn]. eexists. split; [done|]. unfold Unmarshal, PaymentCapturedV1_codec. by rewrite dec_enc_ref_int by (done || flat). Qed.
#[export] Instance PaymentFailedV1_roundtrip :
  JsonRoundtrip PaymentFailedV1 (fun e => utf8_valid (pf_OrderID e) /\ utf8_valid (pf_Reason e)).
Proof. intros [o t] [Ho Ht]. eexists. split; [done|]. unfold Unmarshal, PaymentFailedV1_codec. by rewrite dec_enc_ref_text by (done || flat). Qed.
#[export] Instance PaymentRefundedV1_roundtrip :
  JsonRoundtrip PaymentRefundedV1 (fun e => utf8_valid (pr_OrderID e)).
Proof. intros [o] Ho. eexists. split; [done|]. unfold Unmarshal, PaymentRefundedV1_codec. by rewrite dec_enc_ref. Qed.
#[export] Instance StockReservedV1_roundtrip :
  JsonRoundtrip StockReservedV1 (fun e => utf8_valid (sr_OrderID e) /\ in_int64 (sr_Qty e)).
Proof. intros [o n] [Ho Hn]. eexists. split; [done|]. unfold Unmarshal, StockReservedV1_codec. by rewrite dec_enc_ref_int by (done || flat). Qed.
#[export] Instance StockRejectedV1_roundtrip :
  JsonRoundtrip StockRejectedV1 (fun e => utf8_valid (sj_OrderID e) /\ utf8_valid (sj_Reason e)).
Proof. intros [o t] [Ho Ht]. eexists. split; [done|]. unfold Unmarshal, StockRejectedV1_codec. by rewrite dec_enc_ref_text by (done || flat). Qed.
#[export] Instance ShipmentDispatchedV1_roundtrip :
  JsonRoundtrip ShipmentDispatchedV1 (fun e => utf8_valid (sd_OrderID e)).
Proof. intros [o] Ho. eexists. split; [done|]. unfold Unmarshal, ShipmentDispatchedV1_codec. by rewrite dec_enc_ref. Qed.

#[export] Instance CapturePayment_ok : CommandType CapturePayment_type.
Proof. split; [split; [done | by intros [] ? [= ->]] | done]. Qed.
#[export] Instance RefundPayment_ok : CommandType RefundPayment_type.
Proof. split; [split; [done | by intros [] ? [= ->]] | done]. Qed.
#[export] Instance ReserveStock_ok : CommandType ReserveStock_type.
Proof. split; [split; [done | by intros [] ? [= ->]] | done]. Qed.
#[export] Instance CreateShipment_ok : CommandType CreateShipment_type.
Proof. split; [split; [done | by intros [] ? [= ->]] | done]. Qed.
