(* ===== verification/Services.v ===== *)
(** * What the example's command handlers share

    Each handler loads an aggregate by the order's id, decides, and saves. The
    shared steps, and the two facts its theorems need: a handler that decides
    a new aggregate stores its events in an empty stream or not at all,
    whatever happens between its load and its save; and what it does when
    nothing else happens. *)

From S2P Require Import Prelude Tail Errors GoTime Json Kernel EventStore MemoryStore Registry Checkpoint Repository.

(** [if err := kernel.Raise(a, e); err != nil { return nil, err }; return a, nil] *)
Definition raised {A} (p : A * res unit) : res A :=
  match p with
  | (a, Ok _) => Ok a
  | (_, Err e) => Err e
  | (_, Panic m) => Panic m
  end.

Section handler.
Context {S Ev W : Type} `{DomainEvent Ev} `{MarshalEvent Ev} `{Aggregate S Ev} `{Store W}.
Variables (now : W -> Time) (x : Extractor) (others : W -> W).
Implicit Types (repo : Repository S Ev) (id : string) (w : W * heap).

(** [return h.repo.Save(ctx, id, a)]; [others] is what the rest of the world
    does to the store since the load. *)
Definition save repo (ctx : Context) id (a : Agg S Ev) w : res unit * (W * heap) :=
  let w1 := others (fst w) in
  let '(r, _, w2, h2) := repo_Save repo (now w1) x ctx id a w1 (snd w) in (r, (w2, h2)).

(** Load; an existing aggregate is left alone; an absent one is decided by
    [build] and saved. *)
Definition decide_once repo (ctx : Context) id (build : res (Agg S Ev)) w : res unit * (W * heap) :=
  let '(loaded, w1) := repo_Load repo id (fst w) in
  match loaded with
  | Ok _ => (Ok tt, (w1, snd w))
  | Panic m => (Panic m, (w1, snd w))
  | Err e =>
    if negb (errors_Is e (EDomain ErrNotFound)) then (Err e, (w1, snd w)) else
    match build with
    | Ok a => save repo ctx id a (w1, snd w)
    | Err e => (Err e, (w1, snd w))
    | Panic m => (Panic m, (w1, snd w))
    end
  end.
End handler.

Section stored.
Context {S Ev : Type} `{DomainEvent Ev} `{MarshalEvent Ev} `{Aggregate S Ev}.
Implicit Types (repo : Repository S Ev) (id : string) (evs : list Ev) (log : list RecordedEvent).

(** The stream of [id] holds [evs]. *)
Definition stream_holds repo id log evs : Prop :=
  res_mapM (fun rec => Decode rec (repo_registry repo)) (stream_of (repo_stream repo id) log) = Ok evs.

Lemma stream_holds_nil repo id log : stream_holds repo id log [] <-> stream_of (repo_stream repo id) log = [].
Proof.
  unfold stream_holds. split; [|by intros ->]. intros Hd%res_mapM_length. by destruct (stream_of _ log).
Qed.

Lemma stream_holds_inj repo id log evs evs' :
  stream_holds repo id log evs -> stream_holds repo id log evs' -> evs = evs'.
Proof. unfold stream_holds. congruence. Qed.

Lemma stream_holds_other repo id log recs evs :
  Forall (fun r => Stream r <> repo_stream repo id) recs ->
  stream_holds repo id log evs -> stream_holds repo id (log ++ recs) evs.
Proof. intros Hr. unfold stream_holds. rewrite stream_of_app.
  assert (stream_of (repo_stream repo id) recs = []) as -> by (by apply filter_none). by rewrite app_nil_r. Qed.

Lemma stream_holds_same repo id log log' evs :
  stream_of (repo_stream repo id) log' = stream_of (repo_stream repo id) log ->
  stream_holds repo id log evs -> stream_holds repo id log' evs.
Proof. unfold stream_holds. by intros ->. Qed.

(** An append of carried events extends the stream it goes to, and no other. *)
Lemma stream_holds_appended repo id id' md log log' v es data evs :
  Forall (carries repo) es -> encode_pending repo md es = Ok data ->
  appended (repo_stream repo id) v data log log' ->
  stream_holds repo id' log evs ->
  stream_holds repo id' log' (if decide (id' = id) then evs ++ es else evs).
Proof.
  intros Hc Henc (recs & -> & Hst) Hh.
  destruct (encode_pending_carried repo md _ Hc) as (data' & Henc' & _ & Hdec).
  rewrite Henc in Henc'. injection Henc' as <-. case_decide as Hid.
  - subst id'. unfold stream_holds. rewrite stream_of_app, (stored_stream _ _ _ _ Hst).
    apply res_mapM_app; [exact Hh|]. apply Hdec, Hst.
  - apply stream_holds_other; [|done]. destruct Hst as (_ & Hin & _).
    eapply Forall_impl; [exact Hin|]. intros r Hr Hr'. simpl in Hr. rewrite Hr in Hr'. unfold repo_stream in Hr'. congruence.
Qed.

(** The aggregate of a stream that replays. *)
Lemma stream_holds_holds repo id log evs s :
  stream_holds repo id log evs -> replay (newAgg repo) evs = Some s ->
  holds repo id log (mkAgg (mkRoot (wrap64 (zlen evs)) []) s).
Proof. intros Hh Hr. exists evs. split; [done|]. split; simpl; [by rewrite app_nil_r | done]. Qed.
End stored.

(** ** With interference *)

Section concurrent.
Context {S Ev W : Type} `{DomainEvent Ev} `{MarshalEvent Ev} `{Aggregate S Ev} `{StoreSpec W}.
Implicit Types (repo : Repository S Ev) (id : string) (a : Agg S Ev) (evs : list Ev).

(** A save that stores anything stores the pending events in a stream that
    is where the aggregate left it. *)
Lemma save_atomic repo now x others ctx id a (w : W) h r w' h' :
  store_inv (others w) -> UncommittedEvents a <> [] ->
  last_seq (log_of (others w)) + zlen (UncommittedEvents a) <= int64_max ->
  save now x others repo ctx id a (w, h) = (r, (w', h')) ->
  store_inv w'
  /\ (log_of w' = log_of (others w)
      \/ (Version a = stream_version (repo_stream repo id) (log_of (others w))
          /\ exists data, encode_pending repo (MetadataFromContext x ctx) (UncommittedEvents a) = Ok data
             /\ appended (repo_stream repo id) (Version a) data (log_of (others w)) (log_of w'))).
Proof.
  intros Hinv Hne Hsize. unfold save. cbn [fst snd].
  destruct (repo_Save _ _ _ _ _ _ _ _) as [[[g a'] w2] h2] eqn:E. intros [= _ <- _].
  destruct (repo_Save_atomic _ _ _ _ _ _ _ _ _ _ _ _ Hinv Hne Hsize E) as [Hi [[Hl _]|(Hv & _ & Hd)]]; auto.
Qed.
(** Every stream of the repository's category decodes, to events of a legal
    life. *)
Definition streams_ok repo (legal : string -> list Ev -> Prop) (log : list RecordedEvent) : Prop :=
  forall id, exists evs, stream_holds repo id log evs /\ legal id evs.

(** What the rest of the world may do meanwhile: append, also to the same
    streams, as long as every stream stays legal. *)
Record rely repo (legal : string -> list Ev -> Prop) (others : W -> W) (w : W) (n : Z) : Prop := {
  rely_inv v : store_inv v -> log_of v = log_of w -> store_inv (others v);
  rely_legal v : store_inv v -> log_of v = log_of w -> streams_ok repo legal (log_of (others v));
  rely_grows v : store_inv v -> log_of v = log_of w -> exists recs, log_of (others v) = log_of v ++ recs;
  rely_size v : store_inv v -> log_of v = log_of w -> last_seq (log_of (others v)) + n <= int64_max;
}.

Lemma streams_ok_appended repo legal id md log log' v es data evs :
  streams_ok repo legal log -> Forall (carries repo) es -> encode_pending repo md es = Ok data ->
  appended (repo_stream repo id) v data log log' -> stream_holds repo id log evs -> legal id (evs ++ es) ->
  streams_ok repo legal log'.
Proof.
  intros Hok Hc Henc Happ Hh Hl id'. destruct (Hok id') as (evs' & Hh' & Hl').
  pose proof (stream_holds_appended _ _ _ _ _ _ _ _ _ _ Hc Henc Happ Hh') as Hnew.
  case_decide as Hid; [|by exists evs']. subst id'.
  rewrite (stream_holds_inj _ _ _ _ _ Hh' Hh) in Hnew. by eexists.
Qed.

(** A new aggregate with one event is saved to an empty stream or not at all. *)
Lemma save_new_preserves repo legal now x others ctx id a e (w w1 : W) h r w' h' :
  rely repo legal others w 1 -> store_inv w1 -> log_of w1 = log_of w ->
  UncommittedEvents a = [e] -> Version a = 0 -> carries repo e -> legal id [e] ->
  save now x others repo ctx id a (w1, h) = (r, (w', h')) ->
  store_inv w' /\ streams_ok repo legal (log_of w').
Proof.
  intros Hrely Hinv1 Hl1 Hu Hv Hc Hleg Hs.
  destruct (save_atomic _ _ _ _ _ _ _ _ _ _ _ _ (rely_inv _ _ _ _ _ Hrely w1 Hinv1 Hl1) ltac:(by rewrite Hu)
    ltac:(rewrite Hu; exact (rely_size _ _ _ _ _ Hrely w1 Hinv1 Hl1)) Hs) as [Hinv' Hcase].
  split; [done|]. pose proof (rely_legal _ _ _ _ _ Hrely w1 Hinv1 Hl1) as Hok1.
  destruct Hcase as [->|(Hver & data & Henc & Happ)]; [done|]. rewrite Hu in Henc.
  refine (streams_ok_appended _ _ _ _ _ _ _ _ _ [] Hok1 _ Henc Happ _ Hleg); [by constructor|].
  apply stream_holds_nil, zlen_zero. unfold stream_version in Hver. lia.
Qed.

(** A save with nothing to save stores nothing. *)
Lemma save_nothing_preserves repo legal now x others ctx id a (w w1 : W) h r w' h' :
  rely repo legal others w 1 -> store_inv w1 -> log_of w1 = log_of w -> UncommittedEvents a = [] ->
  save now x others repo ctx id a (w1, h) = (r, (w', h')) ->
  store_inv w' /\ streams_ok repo legal (log_of w').
Proof.
  intros Hrely Hinv1 Hl1 Hu. unfold save, repo_Save. cbn [fst snd]. rewrite Hu, decide_True by done.
  intros [= _ <- _]. split; [by eapply rely_inv | by eapply rely_legal].
Qed.

Lemma decide_once_preserves repo legal now x others ctx id build (w : W) h r w' h' :
  store_inv w -> streams_ok repo legal (log_of w) -> rely repo legal others w 1 ->
  (forall a, build = Ok a -> exists e, UncommittedEvents a = [e] /\ Version a = 0 /\ carries repo e /\ legal id [e]) ->
  decide_once now x others repo ctx id build (w, h) = (r, (w', h')) ->
  store_inv w' /\ streams_ok repo legal (log_of w').
Proof.
  intros Hinv Hok Hrely Hbuild. unfold decide_once. cbn [fst snd].
  destruct (repo_Load repo id w) as [loaded w1] eqn:El.
  assert (store_inv w1 /\ log_of w1 = log_of w) as [Hinv1 Hl1].
  { unfold repo_Load in El. destruct (Load _ 0 w) as [l w2] eqn:E. injection El as _ <-.
    by destruct (Load_spec _ _ _ _ _ Hinv E) as (? & ? & _). }
  destruct loaded as [a|e|m]; [by intros [= _ <- _]; rewrite Hl1 | | by intros [= _ <- _]; rewrite Hl1].
  destruct (negb _); [by intros [= _ <- _]; rewrite Hl1|].
  destruct build as [a|e'|m]; [|by intros [= _ <- _]; rewrite Hl1..].
  destruct (Hbuild a eq_refl) as (ev & Hu & Hv & Hc & Hleg).
  by apply (save_new_preserves repo legal _ _ _ _ _ _ ev w).
Qed.
(** A handler that loads, raises one event and saves. *)
Lemma load_save_preserves repo legal now x others ctx id a a' e (w w1 : W) h r w' h' :
  store_inv w -> streams_ok repo legal (log_of w) -> rely repo legal others w 1 ->
  repo_Load repo id w = (Ok a, w1) -> Raise a e = (a', Ok tt) -> carries repo e ->
  (forall evs, legal id evs -> replay (newAgg repo) evs = Some (state a) -> evs <> [] -> legal id (evs ++ [e])) ->
  save now x others repo ctx id a' (w1, h) = (r, (w', h')) ->
  store_inv w' /\ streams_ok repo legal (log_of w').
Proof.
  intros Hinv Hok Hrely Hload Hraise Hc Hleg Hs.
  destruct (repo_Load_ok _ _ _ _ _ Hinv Hload) as (Hinv1 & Hl1 & Hh & Hp & Hne).
  pose proof (Raise_ok_inv _ _ _ _ Hraise) as [_ Hroot]. unfold UncommittedEvents in Hp. rewrite Hp in Hroot.
  assert (UncommittedEvents a' = [e]) as Hu by (unfold UncommittedEvents; by rewrite Hroot).
  destruct (save_atomic _ _ _ _ _ _ _ _ _ _ _ _ (rely_inv _ _ _ _ _ Hrely w1 Hinv1 Hl1) ltac:(by rewrite Hu)
    ltac:(rewrite Hu; exact (rely_size _ _ _ _ _ Hrely w1 Hinv1 Hl1)) Hs) as [Hinv' Hcase].
  split; [done|]. pose proof (rely_legal _ _ _ _ _ Hrely w1 Hinv1 Hl1) as Hok1.
  destruct Hcase as [->|(Hver & data & Henc & Happ)]; [done|]. rewrite Hu in Henc.
  destruct (rely_grows _ _ _ _ _ Hrely w1 Hinv1 Hl1) as [recs Hrecs]. rewrite Hl1 in Hrecs.
  pose proof (rely_size _ _ _ _ _ Hrely w1 Hinv1 Hl1) as Hsize.
  pose proof (store_log_ok _ (rely_inv _ _ _ _ _ Hrely w1 Hinv1 Hl1)) as Hlok.
  assert (last_seq (log_of w) <= last_seq (log_of (others w1))) as Hlast
    by (rewrite Hrecs in *; apply (head_of_app GlobalSeq), Hlok).
  pose proof (stream_version_le_last (repo_stream repo id) _ (store_log_ok _ Hinv)) as Hle.
  destruct (Hok id) as (evs & Hevs & Hlegal).
  assert (stream_holds repo id (log_of (others w1)) evs) as Hevs1.
  { apply (stream_holds_same _ _ (log_of w)); [|done]. rewrite Hrecs. apply stream_prefix_same.
    rewrite <-Hrecs, <-Hver. unfold Version. rewrite Hroot. simpl. apply (holds_version _ _ _ _ Hh). lia. }
  refine (streams_ok_appended _ _ _ _ _ _ _ _ _ evs Hok1 _ Henc Happ Hevs1 _); [by constructor|].
  destruct Hh as (evs' & Hd & Hrep & _). rewrite Hp, app_nil_r in Hrep.
  rewrite (stream_holds_inj _ _ _ _ _ Hevs Hd) in *. apply Hleg; [done..|].
  intros ->. apply Hne. by apply stream_holds_nil.
Qed.
End concurrent.

(** Nobody else. *)
Lemma rely_nobody {S Ev W} `{DomainEvent Ev} `{MarshalEvent Ev} `{StoreSpec W}
    (repo : Repository S Ev) legal (w : W) n :
  streams_ok repo legal (log_of w) -> last_seq (log_of w) + n <= int64_max -> rely repo legal (fun v => v) w n.
Proof. intros Hok Hn. split; intros v Hv Hl; rewrite ?Hl; try done. exists []. by rewrite app_nil_r. Qed.

Lemma streams_ok_nil {S Ev} `{DomainEvent Ev} (repo : Repository S Ev) legal :
  (forall id, legal id []) -> streams_ok repo legal [].
Proof. intros Hn id. by exists []. Qed.

(** ** Alone, on the in-memory store *)

Section alone.
Context {S Ev : Type} `{DomainEvent Ev} `{MarshalEvent Ev} `{Aggregate S Ev}.
Implicit Types (repo : Repository S Ev) (id : string) (a : Agg S Ev) (evs : list Ev) (w : MemoryStore).

Definition alone : MemoryStore -> MemoryStore := fun w => w.

(** Loading a stream that holds [evs]. *)
Lemma mem_Load_stream repo id w evs :
  mem_inv w -> stream_holds repo id (all w) evs ->
  match evs with
  | [] => repo_Load repo id w = (Err (not_found (repo_stream repo id)), w)
  | _ => forall s, replay (newAgg repo) evs = Some s ->
         repo_Load repo id w = (Ok (mkAgg (mkRoot (wrap64 (zlen evs)) []) s), w)
  end.
Proof.
  intros Hinv Hh. destruct evs as [|e evs].
  - apply stream_holds_nil in Hh. unfold repo_Load.
    change (Load (repo_stream repo id) 0 w) with (mem_Load (repo_stream repo id) 0 w).
    rewrite mem_Load_spec, (load_result_all _ _ (mem_log_ok _ Hinv)) by done.
    unfold rebuild. cbn [res_bind]. by rewrite decide_True.
  - intros s Hr. apply mem_Load_holds; [done | by apply stream_holds_holds | done |].
    intros Hn. apply stream_holds_nil in Hn. pose proof (stream_holds_inj _ _ _ _ _ Hh Hn). done.
Qed.

(** Saving the aggregate of a stream after it raised [es]. *)
Lemma mem_save_stream repo now x ctx id a w h evs s0 es :
  mem_inv w -> stream_holds repo id (all w) evs -> replay (newAgg repo) evs = Some s0 ->
  raise_all (mkAgg (mkRoot (wrap64 (zlen evs)) []) s0) es = (a, Ok tt) -> es <> [] -> Forall (carries repo) es ->
  zlen (all w) + zlen es <= int64_max ->
  exists w' recs,
    save now x alone repo ctx id a (w, h) = (Ok tt, (w', recordPosition ctx (zlen (all w')) h))
    /\ mem_inv w' /\ all w' = all w ++ recs /\ Forall (in_stream (repo_stream repo id)) recs
    /\ stream_holds repo id (all w') (evs ++ es).
Proof.
  intros Hinv Hh Hr Hraise Hne Hc Hsize.
  pose proof (raise_all_root _ _ _ Hraise) as Hroot. simpl in Hroot.
  assert (UncommittedEvents a = es) as Hu by (unfold UncommittedEvents; by rewrite Hroot).
  pose proof (holds_raise _ _ _ _ _ _ (stream_holds_holds _ _ _ _ _ Hh Hr) Hraise) as Hholds.
  pose proof (stream_version_le_all (repo_stream repo id) (all w)) as Hle. pose proof (zlen_nonneg es).
  destruct (mem_Save_stores repo (now w) x ctx id a w h) as (w' & recs & Hsave & Hall & Hin & Hdec & _ & Hinv' & _);
    rewrite ?Hu; try done.
  { by apply (holds_version _ _ _ _ Hholds ltac:(lia)). }
  exists w', recs. split_and!; try done.
  - unfold save, alone. cbn [fst snd]. by rewrite Hsave.
  - rewrite Hu in Hdec. unfold stream_holds. rewrite Hall, stream_of_app.
    assert (stream_of (repo_stream repo id) recs = recs) as -> by (by apply filter_all).
    by apply res_mapM_app.
Qed.

(** Saving an aggregate that is not where its stream is. *)
Lemma mem_save_conflict repo now x ctx id a w h :
  mem_inv w -> UncommittedEvents a <> [] -> Forall (carries repo) (UncommittedEvents a) ->
  Version a <> stream_version (repo_stream repo id) (all w) ->
  save now x alone repo ctx id a (w, h)
  = (Err (version_conflict (repo_stream repo id) (stream_version (repo_stream repo id) (all w)) (Version a)), (w, h)).
Proof.
  intros Hinv Hne Hc Hv. unfold save, alone, repo_Save. cbn [fst snd]. rewrite decide_False by done.
  destruct (encode_pending_carried repo (MetadataFromContext x ctx) _ Hc) as (data & -> & Hlen & _).
  assert (data <> []) as Hdne by (destruct data; [|done]; destruct (UncommittedEvents a); done).
  change (Append (now w)) with (mem_Append (now w)). unfold mem_Append. rewrite decide_False by done.
  by rewrite (stream_index_length w _ Hinv), decide_True by congruence.
Qed.

Lemma decide_once_alone repo now x ctx id build w h evs s :
  mem_inv w -> stream_holds repo id (all w) evs -> replay (newAgg repo) evs = Some s ->
  match evs with
  | _ :: _ => decide_once now x alone repo ctx id build (w, h) = (Ok tt, (w, h))
  | [] =>
    match build with
    | Ok a => forall e, raise_all (new_agg (newAgg repo)) [e] = (a, Ok tt) -> carries repo e ->
        zlen (all w) + 1 <= int64_max ->
        exists w' recs,
          decide_once now x alone repo ctx id build (w, h) = (Ok tt, (w', recordPosition ctx (zlen (all w')) h))
          /\ mem_inv w' /\ all w' = all w ++ recs /\ Forall (in_stream (repo_stream repo id)) recs
          /\ stream_holds repo id (all w') [e]
    | Err c => decide_once now x alone repo ctx id build (w, h) = (Err c, (w, h))
    | Panic m => decide_once now x alone repo ctx id build (w, h) = (Panic m, (w, h))
    end
  end.
Proof.
  intros Hinv Hh Hr. pose proof (mem_Load_stream _ _ _ _ Hinv Hh) as Hl. unfold decide_once. cbn [fst snd].
  destruct evs as [|e0 evs]; [|by rewrite (Hl s Hr)]. rewrite Hl.
  assert (errors_Is (not_found (repo_stream repo id)) (EDomain ErrNotFound) = true) as -> by done. cbn [negb].
  destruct build as [a|c|m]; [|done..]. intros e Hraise Hc Hsize.
  apply (mem_save_stream repo now x ctx id a w h [] (newAgg repo) [e]); auto.
Qed.

(** A handler run that answers as specified and takes the stream of [id] from
    [evs] to the specified events, growing no other stream, and changing
    nothing when the events are the same. *)
Definition runs_to repo id w (hp : heap) evs (run : res unit * (MemoryStore * heap)) (spec : res unit * list Ev) : Prop :=
  exists w' hp', run = (fst spec, (w', hp')) /\ mem_inv w'
    /\ stream_holds repo id (all w') (snd spec) /\ (snd spec = evs -> w' = w /\ hp' = hp)
    /\ exists recs, all w' = all w ++ recs /\ Forall (in_stream (repo_stream repo id)) recs.

Lemma runs_to_same repo id w hp evs run spec :
  mem_inv w -> stream_holds repo id (all w) evs ->
  run = (fst spec, (w, hp)) -> snd spec = evs -> runs_to repo id w hp evs run spec.
Proof.
  intros Hinv Hevs Hrun He. exists w, hp. rewrite He. split_and!; try done. exists []. by rewrite app_nil_r.
Qed.

Lemma decide_once_runs repo now x ctx id build w hp evs s spec :
  mem_inv w -> stream_holds repo id (all w) evs -> replay (newAgg repo) evs = Some s ->
  (evs <> [] -> spec = (Ok tt, evs)) ->
  (evs = [] -> (exists c, build = Err c /\ spec = (Err c, []))
               \/ exists a e, build = Ok a /\ raise_all (new_agg (newAgg repo)) [e] = (a, Ok tt)
                            /\ carries repo e /\ spec = (Ok tt, [e])) ->
  zlen (all w) + 1 <= int64_max ->
  runs_to repo id w hp evs (decide_once now x alone repo ctx id build (w, hp)) spec.
Proof.
  intros Hinv Hevs Hs Hdecided Hnew Hsize.
  pose proof (decide_once_alone repo now x ctx id build w hp evs s Hinv Hevs Hs) as Hd.
  destruct evs as [|e0 evs]; [|rewrite Hdecided by done; by apply runs_to_same].
  destruct (Hnew eq_refl) as [(c & -> & ->)|(a & e & -> & Hr & Hc & ->)]; [by apply runs_to_same|].
  destruct (Hd e Hr Hc Hsize) as (w' & recs & Hrun & Hinv' & Hall & Hin & Hst).
  exists w', (recordPosition ctx (zlen (all w')) hp). split_and!; try done. by exists recs.
Qed.
End alone.
