(* ===== verification/Billing.v ===== *)
(** * gohex-example/billing: payments

    The Payment aggregate, the command handlers and the registrations of the
    billing service. *)

From S2P Require Import Prelude Errors Utf8 GoTime Json Kernel EventStore MemoryStore Registry Checkpoint Repository Broker Cqrs Consumer Relay Flat Contracts Services.

(** ** internal/domain/payment.go *)

Definition CaptureLimitCents : Z := 99999.

Definition ErrNotCaptured : DomainError := NewDomainError "not_captured" "the payment was never captured".
Definition ErrAlreadyRefunded : DomainError := NewDomainError "already_refunded" "the payment is already refunded".
Definition ErrInvalidAmount : DomainError := NewDomainError "invalid_amount" "amount must be positive".

Record Amount := mkAmount { Cents : Z }.

Definition NewAmount (cents : Z) : res Amount :=
  if decide (cents <= 0) then Err (EDomain ErrInvalidAmount) else Ok (mkAmount cents).

Record PaymentCaptured := mkPaymentCaptured { captured_OrderID : string; captured_Cents : Z }.
Record PaymentFailed := mkPaymentFailed { failed_OrderID : string; failed_Reason : string }.
Record PaymentRefunded := mkPaymentRefunded { refunded_OrderID : string }.

(** The domain events of the service; [foreign] is any other type, by name. *)
Inductive payment_event :=
  | E_PaymentCaptured (e : PaymentCaptured)
  | E_PaymentFailed (e : PaymentFailed)
  | E_PaymentRefunded (e : PaymentRefunded)
  | E_foreign (name : string).

#[export] Instance payment_event_name : DomainEvent payment_event :=
  fun e => match e with
           | E_PaymentCaptured _ => "billing.payment_captured"
           | E_PaymentFailed _ => "billing.payment_failed"
           | E_PaymentRefunded _ => "billing.payment_refunded"
           | E_foreign name => name
           end.

Definition Category := "payment".

Inductive status := statusNone | statusCaptured | statusFailed | statusRefunded.
#[export] Instance status_eq_dec : EqDecision status.
Proof. solve_decision. Defined.

Record Payment := mkPayment { pay_order : string; pay_status : status }.

Definition NewPayment : Payment := mkPayment "" statusNone.

#[export] Instance payment_apply : Aggregate Payment payment_event :=
  fun p e => match e with
             | E_PaymentCaptured ev => (mkPayment (captured_OrderID ev) statusCaptured, Ok tt)
             | E_PaymentFailed ev => (mkPayment (failed_OrderID ev) statusFailed, Ok tt)
             | E_PaymentRefunded _ => (mkPayment (pay_order p) statusRefunded, Ok tt)
             | E_foreign name => (p, Err (EText ("payment: unknown event " +:+ Quote name)))
             end.

Definition Capture (order : string) (amount : Amount) : res (Agg Payment payment_event) :=
  let p := new_agg NewPayment in
  if decide (Cents amount > CaptureLimitCents)
  then raised (Raise p (E_PaymentFailed (mkPaymentFailed order "amount exceeds capture limit")))
  else raised (Raise p (E_PaymentCaptured (mkPaymentCaptured order (Cents amount)))).

Definition Refund (p : Agg Payment payment_event) : Agg Payment payment_event * res unit :=
  match pay_status (state p) with
  | statusRefunded => (p, Err (EDomain ErrAlreadyRefunded))
  | statusCaptured => Raise p (E_PaymentRefunded (mkPaymentRefunded (pay_order (state p))))
  | _ => (p, Err (EDomain ErrNotCaptured))
  end.

(** *** The events' JSON forms and types *)

Definition PaymentCaptured_type : GoType payment_event :=
  mkGoType _ PaymentCaptured (mkPaymentCaptured "" 0) E_PaymentCaptured
    (fun e => match e with E_PaymentCaptured x => Some x | _ => None end).
Definition PaymentFailed_type : GoType payment_event :=
  mkGoType _ PaymentFailed (mkPaymentFailed "" "") E_PaymentFailed
    (fun e => match e with E_PaymentFailed x => Some x | _ => None end).
Definition PaymentRefunded_type : GoType payment_event :=
  mkGoType _ PaymentRefunded (mkPaymentRefunded "") E_PaymentRefunded
    (fun e => match e with E_PaymentRefunded x => Some x | _ => None end).

#[export] Instance PaymentCaptured_codec : JsonCodec (carrier PaymentCaptured_type) :=
  { Marshal e := Ok (enc_ref_int "cents" (captured_OrderID e) (captured_Cents e));
    Unmarshal j := try p := dec_ref_int "cents" j in Ok (mkPaymentCaptured (fst p) (snd p)) }.
#[export] Instance PaymentFailed_codec : JsonCodec (carrier PaymentFailed_type) :=
  { Marshal e := Ok (enc_ref_text "reason" (failed_OrderID e) (failed_Reason e));
    Unmarshal j := try p := dec_ref_text "reason" j in Ok (mkPaymentFailed (fst p) (snd p)) }.
#[export] Instance PaymentRefunded_codec : JsonCodec (carrier PaymentRefunded_type) :=
  { Marshal e := Ok (enc_ref (refunded_OrderID e)); Unmarshal j := try o := dec_ref j in Ok (mkPaymentRefunded o) }.

#[export] Instance payment_marshal : MarshalEvent payment_event :=
  fun e => match e with
           | E_PaymentCaptured x => Marshal (JsonCodec := PaymentCaptured_codec) x
           | E_PaymentFailed x => Marshal (JsonCodec := PaymentFailed_codec) x
           | E_PaymentRefunded x => Marshal (JsonCodec := PaymentRefunded_codec) x
           | E_foreign _ => Err (EText "json: unsupported type")
           end.

(** ** internal/app/app.go *)

Definition RegisterEvents (r : Registry payment_event) : res (Registry payment_event) :=
  try r1 := Registry.Register PaymentCaptured_type r in
  try r2 := Registry.Register PaymentFailed_type r1 in
  Registry.Register PaymentRefunded_type r2.

Definition RegisterCommands (r : CommandRegistry wire_command) : res (CommandRegistry wire_command) :=
  try r1 := RegisterCommand CapturePayment_type r in
  RegisterCommand RefundPayment_type r1.

Definition RegisterTranslators (r : Relay payment_event contract) : res (Relay payment_event contract) :=
  try r1 := Translate PaymentCaptured_type
    (fun e => Some (C_PaymentCaptured (mkPaymentCapturedV1 (captured_OrderID e) (captured_Cents e)))) r in
  try r2 := Translate PaymentFailed_type
    (fun e => Some (C_PaymentFailed (mkPaymentFailedV1 (failed_OrderID e) (failed_Reason e)))) r1 in
  Translate PaymentRefunded_type
    (fun e => Some (C_PaymentRefunded (mkPaymentRefundedV1 (refunded_OrderID e)))) r2.

Record Handlers := mkHandlers { payments : Repository Payment payment_event }.

Definition New (registry : Registry payment_event) : Handlers :=
  mkHandlers (mkRepository registry Category NewPayment).

Section handlers.
Context {W : Type} `{Store W}.
Variables (now : W -> Time) (x : Extractor) (others : W -> W).
Implicit Types (h : Handlers) (ctx : Context) (w : W * heap).

Definition CapturePayment h ctx (cmd : Contracts.CapturePayment) w : res unit * (W * heap) :=
  let '(loaded, w1) := repo_Load (payments h) (cp_OrderID cmd) (fst w) in
  match loaded with
  | Ok _ => (Ok tt, (w1, snd w))
  | Panic m => (Panic m, (w1, snd w))
  | Err e =>
    if negb (errors_Is e (EDomain ErrNotFound)) then (Err e, (w1, snd w)) else
    match (try amount := NewAmount (cp_Cents cmd) in Capture (cp_OrderID cmd) amount) with
    | Ok p => save now x others (payments h) ctx (cp_OrderID cmd) p (w1, snd w)
    | Err e => (Err e, (w1, snd w))
    | Panic m => (Panic m, (w1, snd w))
    end
  end.

Definition RefundPayment h ctx (cmd : Contracts.RefundPayment) w : res unit * (W * heap) :=
  let '(loaded, w1) := repo_Load (payments h) (rp_OrderID cmd) (fst w) in
  match loaded with
  | Err e => (Err e, (w1, snd w))
  | Panic m => (Panic m, (w1, snd w))
  | Ok p =>
    match Refund p with
    | (_, Err e) => (if errors_Is e (EDomain ErrAlreadyRefunded) then Ok tt else Err e, (w1, snd w))
    | (_, Panic m) => (Panic m, (w1, snd w))
    | (p', Ok _) => save now x others (payments h) ctx (rp_OrderID cmd) p' (w1, snd w)
    end
  end.

Definition Register `{Clock (W * heap)} h (bus : Bus wire_command (W * heap)) : res (Bus wire_command (W * heap)) :=
  try b1 := Handle CapturePayment_type (CapturePayment h) bus in
  Handle RefundPayment_type (RefundPayment h) b1.
End handlers.

(** ** The life of a payment *)

Definition captured (order : string) (cents : Z) := E_PaymentCaptured (mkPaymentCaptured order cents).
Definition failed (order : string) := E_PaymentFailed (mkPaymentFailed order "amount exceeds capture limit").
Definition refunded (order : string) := E_PaymentRefunded (mkPaymentRefunded order).

(** Undecided; declined; captured; captured and refunded. *)
Definition payment_life (order : string) (evs : list payment_event) : Prop :=
  evs = [] \/ evs = [failed order]
  \/ exists cents, 0 < cents <= CaptureLimitCents
       /\ (evs = [captured order cents] \/ evs = [captured order cents; refunded order]).

(** What the commands promise of a payment's events. *)
Definition capture_spec (order : string) (cents : Z) (evs : list payment_event) : res unit * list payment_event :=
  match evs with
  | _ :: _ => (Ok tt, evs)
  | [] => if decide (cents <= 0) then (Err (EDomain ErrInvalidAmount), [])
          else (Ok tt, [if decide (cents > CaptureLimitCents) then failed order else captured order cents])
  end.

Definition refund_spec (order : string) (evs : list payment_event) : res unit * list payment_event :=
  match evs with
  | [] => (Err (not_found (mkStreamID Category order)), [])
  | [E_PaymentCaptured c] => (Ok tt, evs ++ [refunded order])
  | [E_PaymentFailed _] => (Err (EDomain ErrNotCaptured), evs)
  | _ => (Ok tt, evs)
  end.

(** Each event type is registered. *)
Definition payments_registered (r : Registry payment_event) : Prop :=
  registered PaymentCaptured_type r /\ registered PaymentFailed_type r /\ registered PaymentRefunded_type r.

Lemma payment_events_registered r r' : RegisterEvents r = Ok r' -> payments_registered r'.
Proof.
  unfold RegisterEvents. intros (r1 & H1 & (r2 & H2 & H3)%res_bind_ok)%res_bind_ok. split_and!.
  - exact (Register_keeps _ _ _ _ (Register_keeps _ _ _ _ (Register_registered _ _ _ H1) H2) H3).
  - exact (Register_keeps _ _ _ _ (Register_registered _ _ _ H2) H3).
  - exact (Register_registered _ _ _ H3).
Qed.

#[export] Instance PaymentCaptured_roundtrip :
  JsonRoundtrip (carrier PaymentCaptured_type) (fun e => utf8_valid (captured_OrderID e) /\ in_int64 (captured_Cents e)).
Proof. intros [o n] [Ho Hn]. eexists. split; [done|]. unfold Unmarshal, PaymentCaptured_codec. by rewrite dec_enc_ref_int by (done || flat). Qed.
#[export] Instance PaymentFailed_roundtrip :
  JsonRoundtrip (carrier PaymentFailed_type) (fun e => utf8_valid (failed_OrderID e) /\ utf8_valid (failed_Reason e)).
Proof. intros [o t] [Ho Ht]. eexists. split; [done|]. unfold Unmarshal, PaymentFailed_codec. by rewrite dec_enc_ref_text by (done || flat). Qed.
#[export] Instance PaymentRefunded_roundtrip :
  JsonRoundtrip (carrier PaymentRefunded_type) (fun e => utf8_valid (refunded_OrderID e)).
Proof. intros [o] Ho. eexists. split; [done|]. unfold Unmarshal, PaymentRefunded_codec. by rewrite dec_enc_ref. Qed.
#[export] Instance PaymentCaptured_event : EventType PaymentCaptured_type.
Proof. by split. Qed.
#[export] Instance PaymentFailed_event : EventType PaymentFailed_type.
Proof. by split. Qed.
#[export] Instance PaymentRefunded_event : EventType PaymentRefunded_type.
Proof. by split. Qed.

Section payment_facts.
Variable h : Handlers.
Hypothesis Hreg : payments_registered (repo_registry (payments h)).
Hypothesis Hcat : repo_category (payments h) = Category.
Hypothesis Hnew : newAgg (payments h) = NewPayment.

Lemma carries_captured order cents :
  utf8_valid order -> 0 < cents <= CaptureLimitCents -> carries (payments h) (captured order cents).
Proof.
  intros Ho Hc. refine (Encode_Decode PaymentCaptured_type _ _ (mkPaymentCaptured order cents) (proj1 Hreg) (conj Ho _)).
  unfold CaptureLimitCents, in_int64, int64_min, int64_max in *. simpl. lia.
Qed.

Lemma carries_failed order : utf8_valid order -> carries (payments h) (failed order).
Proof.
  intros Ho. refine (Encode_Decode PaymentFailed_type _ _ (mkPaymentFailed order _) (proj1 (proj2 Hreg)) (conj Ho _)).
  by vm_compute.
Qed.

Lemma carries_refunded order : utf8_valid order -> carries (payments h) (refunded order).
Proof. intros Ho. exact (Encode_Decode PaymentRefunded_type _ _ (mkPaymentRefunded order) (proj2 (proj2 Hreg)) Ho). Qed.

Lemma Capture_cases order cents :
  let build := try amount := NewAmount cents in Capture order amount in
  (cents <= 0 /\ build = Err (EDomain ErrInvalidAmount)) \/ (0 < cents /\ exists a, build = Ok a).
Proof.
  unfold NewAmount. destruct (decide (cents <= 0)) as [|Hpos]; [by left | right]. split; [lia|].
  cbn [res_bind]. unfold Capture. case_decide; by eexists.
Qed.

(** The payment a capture decides. *)
Lemma Capture_decides order cents a :
  (try amount := NewAmount cents in Capture order amount) = Ok a ->
  exists e, raise_all (new_agg (newAgg (payments h))) [e] = (a, Ok tt)
    /\ payment_life order [e] /\ (utf8_valid order -> carries (payments h) e)
    /\ snd (capture_spec order cents []) = [e] /\ 0 < cents.
Proof.
  rewrite Hnew. unfold NewAmount, capture_spec. destruct (decide (cents <= 0)) as [|Hpos]; [done|]. cbn [res_bind].
  unfold Capture. cbn [Cents].
  destruct (decide (cents > CaptureLimitCents)) as [Hbig|Hok]; intros [= <-].
  - exists (failed order). split_and!; [done | right; by left | by apply carries_failed | done | lia].
  - exists (captured order cents). split_and!; [done | | intros; apply carries_captured; [done|lia] | done | lia].
    right. right. exists cents. split; [lia | by left].
Qed.

Lemma payment_life_replays order evs : payment_life order evs ->
  exists s, replay NewPayment evs = Some s
    /\ (evs <> [] -> pay_order s = order)
    /\ pay_status s = match evs with
                      | [] => statusNone
                      | [E_PaymentCaptured _] => statusCaptured
                      | [E_PaymentFailed _] => statusFailed
                      | _ => statusRefunded
                      end.
Proof. intros [->|[->|(c & _ & [->| ->])]]; by eexists. Qed.

(** A refund of a captured payment. *)
Lemma Refund_raises order evs (a a' : Agg Payment payment_event) :
  payment_life order evs -> evs <> [] -> replay NewPayment evs = Some (state a) ->
  Refund a = (a', Ok tt) -> Raise a (refunded order) = (a', Ok tt) /\ payment_life order (evs ++ [refunded order]).
Proof.
  intros Hlife Hne Hr Href. destruct (payment_life_replays _ _ Hlife) as (s & Hs & Ho & Hst).
  rewrite Hr in Hs. injection Hs as <-. unfold Refund in Href.
  destruct Hlife as [->|[->|(c & Hc & [->| ->])]]; try done; simpl in Hst; rewrite Hst in Href; try done.
  rewrite Ho in Href by done. split; [done|]. right. right. exists c. auto.
Qed.
End payment_facts.

(** The service's handlers: [New] over a registry with the three events. *)
Record billing_ok (h : Handlers) : Prop := {
  bok_registry : payments_registered (repo_registry (payments h));
  bok_category : repo_category (payments h) = Category;
  bok_new : newAgg (payments h) = NewPayment;
}.

Lemma billing_New_ok r : payments_registered r -> billing_ok (New r).
Proof. by split. Qed.

Section alone.
Variables (h : Handlers) (now : MemoryStore -> Time) (x : Extractor) (ctx : Context) (order : string)
  (w : MemoryStore) (hp : heap) (evs : list payment_event).
Hypothesis (Hh : billing_ok h) (Hinv : mem_inv w) (Hu : utf8_valid order)
  (Hevs : stream_holds (payments h) order (all w) evs) (Hlife : payment_life order evs)
  (Hsize : zlen (all w) + 1 <= int64_max).

Lemma captures_as_specified cents :
  runs_to (payments h) order w hp evs (CapturePayment now x alone h ctx (mkCapturePayment order cents) (w, hp))
    (capture_spec order cents evs).
Proof.
  destruct Hh as [Hreg Hcat Hnew]. destruct (payment_life_replays _ _ Hlife) as (s & Hs & _). rewrite <-Hnew in Hs.
  refine (decide_once_runs _ _ _ _ _ (try amount := NewAmount cents in Capture order amount) _ _ _ s _ Hinv Hevs Hs _ _ Hsize).
  - by destruct evs.
  - intros ->. destruct (Capture_cases order cents) as [[Hle Hb]|[Hpos [a Hb]]]; [left | right].
    + eexists. split; [exact Hb|]. unfold capture_spec. by rewrite decide_True.
    + destruct (Capture_decides h Hreg Hnew _ _ _ Hb) as (e & Hr & _ & Hc & He & _). exists a, e.
      split_and!; [done..| by apply Hc |]. rewrite <-He. unfold capture_spec. by rewrite decide_False by lia.
Qed.

Lemma refunds_as_specified :
  runs_to (payments h) order w hp evs (RefundPayment now x alone h ctx (mkRefundPayment order) (w, hp)) (refund_spec order evs).
Proof.
  destruct Hh as [Hreg Hcat Hnew]. pose proof (mem_Load_stream _ _ _ _ Hinv Hevs) as Hl.
  destruct (payment_life_replays _ _ Hlife) as (s & Hs & Ho & Hst). rewrite <-Hnew in Hs.
  unfold RefundPayment. cbn [fst snd rp_OrderID].
  destruct Hlife as [->|[->|(c & Hc & [->| ->])]].
  - rewrite Hl. apply runs_to_same; try done. simpl. unfold repo_stream. by rewrite Hcat.
  - rewrite (Hl s Hs). unfold Refund. cbn [state]. rewrite Hst. by apply runs_to_same.
  - rewrite (Hl s Hs). unfold Refund. cbn [state]. rewrite Hst, Ho by done.
    destruct (mem_save_stream (payments h) now x ctx order _ w hp _ s [refunded order] Hinv Hevs Hs eq_refl)
      as (w' & recs & Hsave & Hinv' & Hall & Hin & Hst'); [done | by constructor; [apply carries_refunded|] | done |].
    exists w', (recordPosition ctx (zlen (all w')) hp). cbn [raise_all] in Hsave.
    unfold refunded in Hsave. split_and!; try done. by exists recs.
  - rewrite (Hl s Hs). unfold Refund. cbn [state]. rewrite Hst. by apply runs_to_same.
Qed.
End alone.

(** ** Properties *)

(** C10: Every payment has one life, on any store and under any interleaving. If
    every payment stream is undecided, declined, captured, or captured and
    then refunded, and other writers keep it so, then after a capture or a
    refund command - succeeding, failing or losing a race to whatever happens
    between its load and its save - every payment stream is still one of
    these: no payment is decided twice, and none is refunded that was not
    captured, or twice. *)
Theorem payment_has_one_life {W} `{StoreSpec W} (h : Handlers) (now : W -> Time) (x : Extractor) (others : W -> W)
    (ctx : Context) (capture : Contracts.CapturePayment) (refund : Contracts.RefundPayment)
    (w : W) (hp : heap) (Hh : billing_ok h)
    (Hinv : store_inv w) (Hok : streams_ok (payments h) payment_life (log_of w))
    (Hrely : rely (payments h) payment_life others w 1)
    (Huc : utf8_valid (cp_OrderID capture)) (Hur : utf8_valid (rp_OrderID refund)) :
  (forall r w' hp', CapturePayment now x others h ctx capture (w, hp) = (r, (w', hp')) ->
     store_inv w' /\ streams_ok (payments h) payment_life (log_of w'))
  /\ (forall r w' hp', RefundPayment now x others h ctx refund (w, hp) = (r, (w', hp')) ->
     store_inv w' /\ streams_ok (payments h) payment_life (log_of w')).
Proof.
  destruct Hh as [Hreg Hcat Hnew]. split; intros r w' hp' Hrun.
  - refine (decide_once_preserves _ _ _ _ _ _ _ _ _ _ _ _ _ Hinv Hok Hrely _ Hrun). intros a Ha.
    destruct (Capture_decides h Hreg Hnew _ _ _ Ha) as (e & Hr & Hl & Hc & _). exists e.
    pose proof (raise_all_root _ _ _ Hr) as Hroot. unfold UncommittedEvents, Version. rewrite Hroot. auto.
  - unfold RefundPayment in Hrun. cbn [fst snd] in Hrun.
    destruct (repo_Load (payments h) (rp_OrderID refund) w) as [[p|e|m] w1] eqn:El.
    2-3: unfold repo_Load in El; destruct (Load _ 0 w) as [l w2] eqn:E; injection El as _ <-;
         destruct (Load_spec _ _ _ _ _ Hinv E) as (? & Hl & _); injection Hrun as _ <- _; by rewrite Hl.
    destruct (repo_Load_ok _ _ _ _ _ Hinv El) as (Hinv1 & Hl1 & Hholds & Hp & Hne).
    destruct (Refund p) as [p' [[]|e|m]] eqn:Href; [|by injection Hrun as _ <- _; rewrite Hl1..].
    assert (Raise p (refunded (rp_OrderID refund)) = (p', Ok tt)) as Hraise.
    { destruct (Hok (rp_OrderID refund)) as (evs & Hevs & Hlife). destruct Hholds as (evs' & Hd & Hrep & _).
      rewrite (stream_holds_inj _ _ _ _ _ Hevs Hd) in *. unfold UncommittedEvents in Hp.
      rewrite Hp, app_nil_r, Hnew in Hrep.
      eapply (Refund_raises _ evs'); eauto. intros ->. apply Hne. by apply stream_holds_nil. }
    refine (load_save_preserves _ _ _ _ _ _ _ _ _ _ _ _ _ _ _ _ Hinv Hok Hrely El Hraise _ _ Hrun).
    + by apply carries_refunded.
    + rewrite Hnew. intros evs Hl Hrep Hn. by apply (Refund_raises _ evs p p').
Qed.

(** What the billing commands do, alone on the in-memory store, is the
    specification: a capture of an undecided order is refused for an amount
    that is not positive, declined above the limit and captured otherwise; a
    refund appends the refund to a captured payment and is refused for an
    unknown or declined one; any repetition of a decided command succeeds.
    The answer is the specification's, the payment's stream then holds the
    specification's events, only that stream grew, and nothing at all changed
    when its events did not. *)
Theorem billing_refines_spec (h : Handlers) (now : MemoryStore -> Time) (x : Extractor) (ctx : Context) (order : string)
    (cents : Z) (w : MemoryStore) (hp : heap) (evs : list payment_event)
    (Hh : billing_ok h) (Hinv : mem_inv w) (Hu : utf8_valid order)
    (Hevs : stream_holds (payments h) order (all w) evs) (Hlife : payment_life order evs)
    (Hsize : zlen (all w) + 1 <= int64_max) :
  runs_to (payments h) order w hp evs (CapturePayment now x alone h ctx (mkCapturePayment order cents) (w, hp))
    (capture_spec order cents evs)
  /\ runs_to (payments h) order w hp evs (RefundPayment now x alone h ctx (mkRefundPayment order) (w, hp)) (refund_spec order evs).
Proof.
  split; [by apply captures_as_specified | by apply refunds_as_specified].
Qed.

(** ** Witnesses *)

Module Sample.
Definition empty_registry : Registry payment_event := mkRegistry ∅.
Definition registry : Registry payment_event :=
  match RegisterEvents empty_registry with Ok r => r | _ => empty_registry end.
Definition service : Handlers := New registry.
Definition midnight : MemoryStore -> Time := fun _ => zero_time.
Definition paid : MemoryStore :=
  fst (snd (CapturePayment midnight None (fun v => v) service background (mkCapturePayment "o-1" 500) (NewMemoryStore, []))).
Lemma billing_service_ok : billing_ok service.
Proof. exact (billing_New_ok _ (payment_events_registered empty_registry registry eq_refl)). Qed.
Lemma nothing_yet : streams_ok (payments service) payment_life (all NewMemoryStore).
Proof. apply streams_ok_nil. by left. Qed.
End Sample.
Import Sample.

Lemma payment_has_one_life_witness :
  stream_holds (payments service) "o-1" (all paid) [captured "o-1" 500]
  /\ store_inv paid /\ streams_ok (payments service) payment_life (log_of paid).
Proof.
  split; [by vm_compute|].
  refine (proj1 (payment_has_one_life service midnight None (fun v => v) background (mkCapturePayment "o-1" 500)
    (mkRefundPayment "o-1") NewMemoryStore [] billing_service_ok mem_inv_new nothing_yet _ _ _) (Ok tt) paid [] _).
  - apply rely_nobody; [exact nothing_yet | vm_compute; discriminate].
  - vm_compute. reflexivity.
  - vm_compute. reflexivity.
  - reflexivity.
Defined.

Lemma billing_refines_spec_witness :
  runs_to (payments service) "o-1" NewMemoryStore [] []
    (CapturePayment midnight None alone service background (mkCapturePayment "o-1" 100000) (NewMemoryStore, []))
    (Ok tt, [failed "o-1"]).
Proof.
  refine (proj1 (billing_refines_spec service midnight None background "o-1" 100000 NewMemoryStore [] []
    billing_service_ok mem_inv_new _ _ _ _)).
  - vm_compute. reflexivity.
  - by apply stream_holds_nil.
  - by left.
  - vm_compute. discriminate.
Defined.
