(* ===== verification/Inventory.v ===== *)
(** * gohex-example/inventory: stock reservations

    The Reservation aggregate, the command handler and the registrations of
    the inventory service. *)

From S2P Require Import Prelude Errors Utf8 GoTime Json Kernel EventStore MemoryStore Registry Checkpoint Repository Broker Cqrs Consumer Relay Flat Contracts Services.

(** ** internal/domain/reservation.go *)

Definition AvailableStock : Z := 10.

Definition ErrInvalidQuantity : DomainError := NewDomainError "invalid_quantity" "quantity must be positive".

Record Quantity := mkQuantity { Int : Z }.

Definition NewQuantity (n : Z) : res Quantity :=
  if decide (n <= 0) then Err (EDomain ErrInvalidQuantity) else Ok (mkQuantity n).

Record StockReserved := mkStockReserved { reserved_OrderID : string; reserved_Qty : Z }.
Record StockRejected := mkStockRejected { rejected_OrderID : string; rejected_Reason : string }.

(** The domain events of the service; [foreign] is any other type, by name. *)
Inductive stock_event :=
  | E_StockReserved (e : StockReserved)
  | E_StockRejected (e : StockRejected)
  | E_foreign (name : string).

#[export] Instance stock_event_name : DomainEvent stock_event :=
  fun e => match e with
           | E_StockReserved _ => "inventory.stock_reserved"
           | E_StockRejected _ => "inventory.stock_rejected"
           | E_foreign name => name
           end.

Definition Category := "reservation".

Record Reservation := mkReservation { res_order : string; decided : bool }.

Definition NewReservation : Reservation := mkReservation "" false.

Definition Decided (r : Agg Reservation stock_event) : bool := decided (state r).

#[export] Instance reservation_apply : Aggregate Reservation stock_event :=
  fun r e => match e with
             | E_StockReserved ev => (mkReservation (reserved_OrderID ev) true, Ok tt)
             | E_StockRejected ev => (mkReservation (rejected_OrderID ev) true, Ok tt)
             | E_foreign name => (r, Err (EText ("reservation: unknown event " +:+ Quote name)))
             end.

Definition Reserve (order : string) (qty : Quantity) : res (Agg Reservation stock_event) :=
  let r := new_agg NewReservation in
  if decide (Int qty > AvailableStock)
  then raised (Raise r (E_StockRejected (mkStockRejected order "insufficient stock")))
  else raised (Raise r (E_StockReserved (mkStockReserved order (Int qty)))).

(** *** The events' JSON forms and types *)

Definition StockReserved_type : GoType stock_event :=
  mkGoType _ StockReserved (mkStockReserved "" 0) E_StockReserved
    (fun e => match e with E_StockReserved x => Some x | _ => None end).
Definition StockRejected_type : GoType stock_event :=
  mkGoType _ StockRejected (mkStockRejected "" "") E_StockRejected
    (fun e => match e with E_StockRejected x => Some x | _ => None end).

#[export] Instance StockReserved_codec : JsonCodec (carrier StockReserved_type) :=
  { Marshal e := Ok (enc_ref_int "qty" (reserved_OrderID e) (reserved_Qty e));
    Unmarshal j := try p := dec_ref_int "qty" j in Ok (mkStockReserved (fst p) (snd p)) }.
#[export] Instance StockRejected_codec : JsonCodec (carrier StockRejected_type) :=
  { Marshal e := Ok (enc_ref_text "reason" (rejected_OrderID e) (rejected_Reason e));
    Unmarshal j := try p := dec_ref_text "reason" j in Ok (mkStockRejected (fst p) (snd p)) }.

#[export] Instance stock_marshal : MarshalEvent stock_event :=
  fun e => match e with
           | E_StockReserved x => Marshal (JsonCodec := StockReserved_codec) x
           | E_StockRejected x => Marshal (JsonCodec := StockRejected_codec) x
           | E_foreign _ => Err (EText "json: unsupported type")
           end.

(** ** internal/app/app.go *)

Definition RegisterEvents (r : Registry stock_event) : res (Registry stock_event) :=
  try r1 := Registry.Register StockReserved_type r in
  Registry.Register StockRejected_type r1.

Definition RegisterCommands (r : CommandRegistry wire_command) : res (CommandRegistry wire_command) :=
  RegisterCommand ReserveStock_type r.

Definition RegisterTranslators (r : Relay stock_event contract) : res (Relay stock_event contract) :=
  try r1 := Translate StockReserved_type
    (fun e => Some (C_StockReserved (mkStockReservedV1 (reserved_OrderID e) (reserved_Qty e)))) r in
  Translate StockRejected_type
    (fun e => Some (C_StockRejected (mkStockRejectedV1 (rejected_OrderID e) (rejected_Reason e)))) r1.

Record Handlers := mkHandlers { reservations : Repository Reservation stock_event }.

Definition New (registry : Registry stock_event) : Handlers :=
  mkHandlers (mkRepository registry Category NewReservation).

Section handlers.
Context {W : Type} `{Store W}.
Variables (now : W -> Time) (x : Extractor) (others : W -> W).
Implicit Types (h : Handlers) (ctx : Context) (w : W * heap).

Definition ReserveStock h ctx (cmd : Contracts.ReserveStock) w : res unit * (W * heap) :=
  let '(loaded, w1) := repo_Load (reservations h) (rs_OrderID cmd) (fst w) in
  match loaded with
  | Ok _ => (Ok tt, (w1, snd w))
  | Panic m => (Panic m, (w1, snd w))
  | Err e =>
    if negb (errors_Is e (EDomain ErrNotFound)) then (Err e, (w1, snd w)) else
    match (try qty := NewQuantity (rs_Qty cmd) in Reserve (rs_OrderID cmd) qty) with
    | Ok r => save now x others (reservations h) ctx (rs_OrderID cmd) r (w1, snd w)
    | Err e => (Err e, (w1, snd w))
    | Panic m => (Panic m, (w1, snd w))
    end
  end.

Definition Register `{Clock (W * heap)} h (bus : Bus wire_command (W * heap)) : res (Bus wire_command (W * heap)) :=
  Handle ReserveStock_type (ReserveStock h) bus.
End handlers.

(** ** The life of a reservation *)

Definition reserved (order : string) (qty : Z) := E_StockReserved (mkStockReserved order qty).
Definition rejected (order : string) := E_StockRejected (mkStockRejected order "insufficient stock").

(** Undecided; rejected; reserved. *)
Definition reservation_life (order : string) (evs : list stock_event) : Prop :=
  evs = [] \/ evs = [rejected order] \/ exists qty, 0 < qty <= AvailableStock /\ evs = [reserved order qty].

Definition reserve_spec (order : string) (qty : Z) (evs : list stock_event) : res unit * list stock_event :=
  match evs with
  | _ :: _ => (Ok tt, evs)
  | [] => if decide (qty <= 0) then (Err (EDomain ErrInvalidQuantity), [])
          else (Ok tt, [if decide (qty > AvailableStock) then rejected order else reserved order qty])
  end.

Definition stock_registered (r : Registry stock_event) : Prop :=
  registered StockReserved_type r /\ registered StockRejected_type r.

Lemma stock_events_registered r r' : RegisterEvents r = Ok r' -> stock_registered r'.
Proof.
  unfold RegisterEvents. intros (r1 & H1 & H2)%res_bind_ok. split.
  - exact (Register_keeps _ _ _ _ (Register_registered _ _ _ H1) H2).
  - exact (Register_registered _ _ _ H2).
Qed.

#[export] Instance StockReserved_roundtrip :
  JsonRoundtrip (carrier StockReserved_type) (fun e => utf8_valid (reserved_OrderID e) /\ in_int64 (reserved_Qty e)).
Proof. intros [o n] [Ho Hn]. eexists. split; [done|]. unfold Unmarshal, StockReserved_codec. by rewrite dec_enc_ref_int by (done || flat). Qed.
#[export] Instance StockRejected_roundtrip :
  JsonRoundtrip (carrier StockRejected_type) (fun e => utf8_valid (rejected_OrderID e) /\ utf8_valid (rejected_Reason e)).
Proof. intros [o t] [Ho Ht]. eexists. split; [done|]. unfold Unmarshal, StockRejected_codec. by rewrite dec_enc_ref_text by (done || flat). Qed.
#[export] Instance StockReserved_event : EventType StockReserved_type.
Proof. by split. Qed.
#[export] Instance StockRejected_event : EventType StockRejected_type.
Proof. by split. Qed.

Record inventory_ok (h : Handlers) : Prop := {
  iok_registry : stock_registered (repo_registry (reservations h));
  iok_new : newAgg (reservations h) = NewReservation;
}.

Lemma inventory_New_ok r : stock_registered r -> inventory_ok (New r).
Proof. by split. Qed.

(** A reservation decided: refused, or one event. *)
Lemma Reserve_decides h order qty :
  inventory_ok h -> utf8_valid order ->
  let build := try q := NewQuantity qty in Reserve order q in
  (qty <= 0 /\ build = Err (EDomain ErrInvalidQuantity))
  \/ exists a e, build = Ok a /\ raise_all (new_agg (newAgg (reservations h))) [e] = (a, Ok tt)
       /\ carries (reservations h) e /\ reserve_spec order qty [] = (Ok tt, [e]) /\ reservation_life order [e].
Proof.
  intros [[Hr1 Hr2] Hnew] Hu. rewrite Hnew. unfold NewQuantity, reserve_spec.
  destruct (decide (qty <= 0)) as [|Hpos]; [by left | right]. cbn [res_bind]. unfold Reserve. cbn [Int].
  destruct (decide (qty > AvailableStock)) as [Hbig|Hok].
  - eexists _, (rejected order). split_and!; [done..| | done | right; by left].
    refine (Encode_Decode StockRejected_type _ _ (mkStockRejected order _) Hr2 (conj Hu _)). by vm_compute.
  - eexists _, (reserved order qty). split_and!; [done..| | done |].
    + refine (Encode_Decode StockReserved_type _ _ (mkStockReserved order qty) Hr1 (conj Hu _)).
      unfold AvailableStock, in_int64, int64_min, int64_max in *. simpl. lia.
    + right. right. exists qty. split; [lia | done].
Qed.

Lemma reservation_life_replays order evs : reservation_life order evs -> exists s, replay NewReservation evs = Some s.
Proof. intros [->|[->|(q & _ & ->)]]; by eexists. Qed.

(** A reservation is decided once, and as specified. Under any
    interleaving and on any store, a reserve command leaves every reservation
    stream undecided, rejected or reserved - one decision, never two. Alone on
    the in-memory store it refuses a quantity that is not positive, rejects
    one above the stock, reserves otherwise, and is a no-op on a decided
    reservation. *)
Theorem stock_is_decided_once {W} `{StoreSpec W} (h : Handlers) (x : Extractor) (ctx : Context) (order : string) (qty : Z)
    (Hh : inventory_ok h) (Hu : utf8_valid order) :
  (forall now others (w : W) hp r w' hp',
     store_inv w -> streams_ok (reservations h) reservation_life (log_of w) ->
     rely (reservations h) reservation_life others w 1 ->
     ReserveStock now x others h ctx (mkReserveStock order qty) (w, hp) = (r, (w', hp')) ->
     store_inv w' /\ streams_ok (reservations h) reservation_life (log_of w'))
  /\ forall now (w : MemoryStore) hp evs,
       mem_inv w -> stream_holds (reservations h) order (all w) evs -> reservation_life order evs ->
       zlen (all w) + 1 <= int64_max ->
       runs_to (reservations h) order w hp evs
         (ReserveStock now x alone h ctx (mkReserveStock order qty) (w, hp)) (reserve_spec order qty evs).
Proof.
  pose proof (Reserve_decides h order qty Hh Hu) as Hd. cbv zeta in Hd. split.
  - intros now others w hp r w' hp' Hinv Hok Hrely Hrun.
    refine (decide_once_preserves _ _ _ _ _ _ _ _ _ _ _ _ _ Hinv Hok Hrely _ Hrun). cbn [rs_Qty rs_OrderID].
    intros a Ha. destruct Hd as [[_ Hb]|(a' & e & Hb & Hr & Hc & _ & Hl)]; rewrite Hb in Ha; [done|].
    injection Ha as ->. exists e. pose proof (raise_all_root _ _ _ Hr) as Hroot.
    unfold UncommittedEvents, Version. rewrite Hroot. auto.
  - intros now w hp evs Hinv Hevs Hlife Hsize. destruct (reservation_life_replays _ _ Hlife) as [s Hs].
    rewrite <-(iok_new _ Hh) in Hs.
    refine (decide_once_runs _ _ _ _ _ (try q := NewQuantity qty in Reserve order q) _ _ _ s _ Hinv Hevs Hs _ _ Hsize).
    + by destruct evs.
    + intros ->. destruct Hd as [[Hle Hb]|(a & e & Hb & Hr & Hc & Hs' & _)]; [left | right].
      * eexists. split; [exact Hb|]. unfold reserve_spec. by rewrite decide_True.
      * by exists a, e.
Qed.

(** ** Witness *)

Module Sample.
Definition empty_registry : Registry stock_event := mkRegistry ∅.
Definition registry : Registry stock_event :=
  match RegisterEvents empty_registry with Ok r => r | _ => empty_registry end.
Definition service : Handlers := New registry.
Definition midnight : MemoryStore -> Time := fun _ => zero_time.
Lemma inventory_service_ok : inventory_ok service.
Proof. exact (inventory_New_ok _ (stock_events_registered empty_registry registry eq_refl)). Qed.
End Sample.
Import Sample.

Lemma stock_is_decided_once_witness :
  runs_to (reservations service) "o-1" NewMemoryStore [] []
    (ReserveStock midnight None alone service background (mkReserveStock "o-1" 11) (NewMemoryStore, []))
    (Ok tt, [rejected "o-1"]).
Proof.
  refine (proj2 (stock_is_decided_once (W := MemoryStore) service None background "o-1" 11 inventory_service_ok _)
    midnight NewMemoryStore [] [] mem_inv_new _ _ _).
  - vm_compute. reflexivity.
  - by apply stream_holds_nil.
  - by left.
  - vm_compute. discriminate.
Defined.
