(* ===== verification/Shipping.v ===== *)
(** * gohex-example/shipping: shipments

    The Shipment aggregate, the command handler and the registrations of the
    shipping service. *)

From S2P Require Import Prelude Errors Utf8 GoTime Json Kernel EventStore MemoryStore Registry Checkpoint Repository Broker Cqrs Consumer Relay Flat Contracts Services.

(** ** internal/domain/shipment.go *)

Record ShipmentDispatched := mkShipmentDispatched { dispatched_OrderID : string }.

(** The domain events of the service; [foreign] is any other type, by name. *)
Inductive shipment_event :=
  | E_ShipmentDispatched (e : ShipmentDispatched)
  | E_foreign (name : string).

#[export] Instance shipment_event_name : DomainEvent shipment_event :=
  fun e => match e with
           | E_ShipmentDispatched _ => "shipping.shipment_dispatched"
           | E_foreign name => name
           end.

Definition Category := "shipment".

Record Shipment := mkShipment { ship_order : string; dispatched : bool }.

Definition NewShipment : Shipment := mkShipment "" false.

Definition Dispatched (s : Agg Shipment shipment_event) : bool := dispatched (state s).

#[export] Instance shipment_apply : Aggregate Shipment shipment_event :=
  fun s e => match e with
             | E_ShipmentDispatched ev => (mkShipment (dispatched_OrderID ev) true, Ok tt)
             | E_foreign name => (s, Err (EText ("shipment: unknown event " +:+ Quote name)))
             end.

Definition Create (order : string) : res (Agg Shipment shipment_event) :=
  raised (Raise (new_agg NewShipment) (E_ShipmentDispatched (mkShipmentDispatched order))).

(** *** The event's JSON form and type *)

Definition ShipmentDispatched_type : GoType shipment_event :=
  mkGoType _ ShipmentDispatched (mkShipmentDispatched "") E_ShipmentDispatched
    (fun e => match e with E_ShipmentDispatched x => Some x | _ => None end).

#[export] Instance ShipmentDispatched_codec : JsonCodec (carrier ShipmentDispatched_type) :=
  { Marshal e := Ok (enc_ref (dispatched_OrderID e));
    Unmarshal j := try o := dec_ref j in Ok (mkShipmentDispatched o) }.

#[export] Instance shipment_marshal : MarshalEvent shipment_event :=
  fun e => match e with
           | E_ShipmentDispatched x => Marshal (JsonCodec := ShipmentDispatched_codec) x
           | E_foreign _ => Err (EText "json: unsupported type")
           end.

(** ** internal/app/app.go *)

Definition RegisterEvents (r : Registry shipment_event) : res (Registry shipment_event) :=
  Registry.Register ShipmentDispatched_type r.

Definition RegisterCommands (r : CommandRegistry wire_command) : res (CommandRegistry wire_command) :=
  RegisterCommand CreateShipment_type r.

Definition RegisterTranslators (r : Relay shipment_event contract) : res (Relay shipment_event contract) :=
  Translate ShipmentDispatched_type
    (fun e => Some (C_ShipmentDispatched (mkShipmentDispatchedV1 (dispatched_OrderID e)))) r.

Record Handlers := mkHandlers { shipments : Repository Shipment shipment_event }.

Definition New (registry : Registry shipment_event) : Handlers :=
  mkHandlers (mkRepository registry Category NewShipment).

Section handlers.
Context {W : Type} `{Store W}.
Variables (now : W -> Time) (x : Extractor) (others : W -> W).
Implicit Types (h : Handlers) (ctx : Context) (w : W * heap).

Definition CreateShipment h ctx (cmd : Contracts.CreateShipment) w : res unit * (W * heap) :=
  let '(loaded, w1) := repo_Load (shipments h) (cs_OrderID cmd) (fst w) in
  match loaded with
  | Ok _ => (Ok tt, (w1, snd w))
  | Panic m => (Panic m, (w1, snd w))
  | Err e =>
    if negb (errors_Is e (EDomain ErrNotFound)) then (Err e, (w1, snd w)) else
    match Create (cs_OrderID cmd) with
    | Ok s => save now x others (shipments h) ctx (cs_OrderID cmd) s (w1, snd w)
    | Err e => (Err e, (w1, snd w))
    | Panic m => (Panic m, (w1, snd w))
    end
  end.

Definition Register `{Clock (W * heap)} h (bus : Bus wire_command (W * heap)) : res (Bus wire_command (W * heap)) :=
  Handle CreateShipment_type (CreateShipment h) bus.
End handlers.

(** ** The life of a shipment *)

Definition dispatch_of (order : string) := E_ShipmentDispatched (mkShipmentDispatched order).

Definition shipment_life (order : string) (evs : list shipment_event) : Prop := evs = [] \/ evs = [dispatch_of order].

#[export] Instance ShipmentDispatched_roundtrip :
  JsonRoundtrip (carrier ShipmentDispatched_type) (fun e => utf8_valid (dispatched_OrderID e)).
Proof. intros [o] Ho. eexists. split; [done|]. unfold Unmarshal, ShipmentDispatched_codec. by rewrite dec_enc_ref. Qed.
#[export] Instance ShipmentDispatched_event : EventType ShipmentDispatched_type.
Proof. by split. Qed.

Record shipping_ok (h : Handlers) : Prop := {
  sok_registry : registered ShipmentDispatched_type (repo_registry (shipments h));
  sok_new : newAgg (shipments h) = NewShipment;
}.

Lemma shipping_New_ok r r' : RegisterEvents r = Ok r' -> shipping_ok (New r').
Proof. intros Hr. split; [exact (Register_registered _ _ _ Hr) | done]. Qed.

Lemma Create_dispatches h order :
  shipping_ok h -> utf8_valid order ->
  exists a, Create order = Ok a /\ raise_all (new_agg (newAgg (shipments h))) [dispatch_of order] = (a, Ok tt)
    /\ carries (shipments h) (dispatch_of order).
Proof.
  intros [Hr Hnew] Hu. rewrite Hnew. eexists. split_and!; [done..|].
  exact (Encode_Decode ShipmentDispatched_type _ _ (mkShipmentDispatched order) Hr Hu).
Qed.

(** An order is shipped once: under any interleaving and on any store, a
    create-shipment command leaves every shipment stream empty or with its one
    dispatch; alone on the in-memory store it dispatches an order that was not
    shipped and is a no-op for one that was. *)
Theorem order_ships_once {W} `{StoreSpec W} (h : Handlers) (x : Extractor) (ctx : Context) (order : string)
    (Hh : shipping_ok h) (Hu : utf8_valid order) :
  (forall now others (w : W) hp r w' hp',
     store_inv w -> streams_ok (shipments h) shipment_life (log_of w) ->
     rely (shipments h) shipment_life others w 1 ->
     CreateShipment now x others h ctx (mkCreateShipment order) (w, hp) = (r, (w', hp')) ->
     store_inv w' /\ streams_ok (shipments h) shipment_life (log_of w'))
  /\ forall now (w : MemoryStore) hp evs,
       mem_inv w -> stream_holds (shipments h) order (all w) evs -> shipment_life order evs ->
       zlen (all w) + 1 <= int64_max ->
       runs_to (shipments h) order w hp evs
         (CreateShipment now x alone h ctx (mkCreateShipment order) (w, hp)) (Ok tt, [dispatch_of order]).
Proof.
  destruct (Create_dispatches h order Hh Hu) as (a & Hb & Hr & Hc). split.
  - intros now others w hp r w' hp' Hinv Hok Hrely Hrun.
    refine (decide_once_preserves _ _ now x _ ctx order (Create order) _ _ _ _ _ Hinv Hok Hrely _ Hrun).
    intros a' Ha. rewrite Hb in Ha. injection Ha as <-. exists (dispatch_of order).
    pose proof (raise_all_root _ _ _ Hr) as Hroot. unfold UncommittedEvents, Version. rewrite Hroot.
    split_and!; [done..|]. by right.
  - intros now w hp evs Hinv Hevs Hlife Hsize.
    assert (exists s, replay (newAgg (shipments h)) evs = Some s) as [s Hs]
      by (rewrite (sok_new _ Hh); destruct Hlife as [->| ->]; by eexists).
    refine (decide_once_runs _ _ _ _ _ (Create order) _ _ _ s _ Hinv Hevs Hs _ _ Hsize).
    + destruct Hlife as [->| ->]; done.
    + intros ->. right. by exists a, (dispatch_of order).
Qed.

(** ** Witness *)

Module Sample.
Definition empty_registry : Registry shipment_event := mkRegistry ∅.
Definition registry : Registry shipment_event :=
  match RegisterEvents empty_registry with Ok r => r | _ => empty_registry end.
Definition service : Handlers := New registry.
Definition midnight : MemoryStore -> Time := fun _ => zero_time.
Lemma shipping_service_ok : shipping_ok service.
Proof. exact (shipping_New_ok empty_registry registry eq_refl). Qed.
End Sample.
Import Sample.

Lemma order_ships_once_witness :
  runs_to (shipments service) "o-1" NewMemoryStore [] []
    (CreateShipment midnight None alone service background (mkCreateShipment "o-1") (NewMemoryStore, []))
    (Ok tt, [dispatch_of "o-1"]).
Proof.
  refine (proj2 (order_ships_once (W := MemoryStore) service None background "o-1" shipping_service_ok _)
    midnight NewMemoryStore [] [] mem_inv_new _ _ _).
  - vm_compute. reflexivity.
  - by apply stream_holds_nil.
  - by left.
  - vm_compute. discriminate.
Defined.
