(* ===== verification/Order.v ===== *)
(** * gohex-example/ordering/internal/domain: orders

    The value objects, the events with their JSON forms, and the Order
    aggregate. The service's domain events are the order's and the saga
    stream's in one registry, so the aggregate's [Apply] is on both. *)

From S2P Require Import Prelude Errors Utf8 GoTime Json KernelId Kernel EventStore MemoryStore Registry Checkpoint Repository Broker Envelope Cqrs Consumer Relay Saga Services.

Definition ErrEmptyOrder : DomainError := NewDomainError "empty_order" "an order needs a positive total".
Definition ErrInvalidAmount : DomainError := NewDomainError "invalid_amount" "amount must be positive".
Definition ErrInvalidCurrency : DomainError := NewDomainError "invalid_currency" "currency must be a 3-letter code".
Definition ErrInvalidQuantity : DomainError := NewDomainError "invalid_quantity" "quantity must be positive".
Definition ErrEmptyReason : DomainError := NewDomainError "empty_reason" "a notification needs a reason".

(** Marker types. *)
Inductive Customer := .
Inductive OrderMarker := .

Definition OrderID : Type := ID OrderMarker.
Definition CustomerID : Type := ID Customer.

(** ** Money *)

Record Money := mkMoney { cents : Z; currency : string }.

#[export] Instance Money_eq_dec : EqDecision Money.
Proof. solve_decision. Defined.

Definition zero_Money : Money := mkMoney 0 "".

Definition NewMoney (cents : Z) (currency : string) : res Money :=
  if decide (cents <= 0) then Err (EDomain ErrInvalidAmount) else
  if decide (String.length currency <> 3%nat) then Err (EDomain ErrInvalidCurrency) else
  Ok (mkMoney cents currency).

Definition Money_IsZero (m : Money) : bool := bool_decide (m = zero_Money).

Definition enc_money (m : Money) : res json :=
  if Money_IsZero m
  then Err (EWrap "json: error calling MarshalJSON for type domain.Money: "
              (EWrap "" (EDomain ErrInvalidAmount) ": marshaling zero Money") "")
  else Ok (JObj [("cents", enc_int (cents m)); ("currency", enc_string (currency m))]).

Definition set_moneyJSON (key : string) (v : json) (raw : Money) : res Money :=
  on_field "cents" (dec_int (cents raw)) (fun x => mkMoney x (currency raw)) key v
  (on_field "currency" (dec_string (currency raw)) (fun x => mkMoney (cents raw) x) key v
  (Ok raw)).

(** [UnmarshalJSON], also called on [null]; it replaces the old value. *)
Definition dec_money (_ : Money) (j : json) : res Money :=
  try raw := dec_struct set_moneyJSON zero_Money j in NewMoney (cents raw) (currency raw).

(** ** Quantity *)

Record Quantity := mkQuantity { Int : Z }.

Definition NewQuantity (n : Z) : res Quantity :=
  if decide (n <= 0) then Err (EDomain ErrInvalidQuantity) else Ok (mkQuantity n).

Definition enc_quantity (q : Quantity) : res json :=
  if decide (Int q <= 0)
  then Err (EWrap "json: error calling MarshalJSON for type domain.Quantity: "
              (EWrap "" (EDomain ErrInvalidQuantity) ": marshaling zero Quantity") "")
  else Ok (enc_int (Int q)).

Definition dec_quantity (_ : Quantity) (j : json) : res Quantity := try n := dec_int 0 j in NewQuantity n.

(** ** Events *)

Record OrderPlaced := mkOrderPlaced { placed_ID : OrderID; placed_Customer : CustomerID; placed_Total : Money; placed_Qty : Quantity }.
Record CustomerNotified := mkCustomerNotified { notified_ID : OrderID; notified_Reason : string }.

(** The order's events; [foreign] is any other type, by name. *)
Inductive order_event :=
  | E_OrderPlaced (e : OrderPlaced)
  | E_CustomerNotified (e : CustomerNotified)
  | E_foreign (name : string).

#[export] Instance order_event_name : DomainEvent order_event :=
  fun e => match e with
           | E_OrderPlaced _ => "ordering.order_placed"
           | E_CustomerNotified _ => "ordering.customer_notified"
           | E_foreign name => name
           end.

(** The values of [kernel.DomainEvent] in the ordering service. *)
Abbreviation ordering_event := (saga_event order_event).

Definition Category := "order".

(** ** The aggregate *)

Record Order := mkOrder {
  ord_id : OrderID;
  ord_customer : CustomerID;
  ord_total : Money;
  ord_qty : Quantity;
  notified : gmap string bool; (* a nil map reads like an empty one *)
}.

Definition NewOrder : Order := mkOrder zero_ID zero_ID zero_Money (mkQuantity 0) ∅.

#[export] Instance order_apply : Aggregate Order ordering_event :=
  fun o e =>
    match e with
    | other (E_OrderPlaced ev) =>
      (mkOrder (placed_ID ev) (placed_Customer ev) (placed_Total ev) (placed_Qty ev) (notified o), Ok tt)
    | other (E_CustomerNotified ev) =>
      (mkOrder (ord_id o) (ord_customer o) (ord_total o) (ord_qty o) (<[notified_Reason ev := true]> (notified o)), Ok tt)
    | _ => (o, Err (EText ("order: unknown event " +:+ Quote (EventName e))))
    end.

Definition Place (id : OrderID) (customer : CustomerID) (total : Money) (qty : Quantity) : res (Agg Order ordering_event) :=
  if Money_IsZero total then Err (EDomain ErrEmptyOrder) else
  raised (Raise (new_agg NewOrder) (other (E_OrderPlaced (mkOrderPlaced id customer total qty)))).

Definition Notify (reason : string) (o : Agg Order ordering_event) : Agg Order ordering_event * res unit :=
  if decide (reason = "") then (o, Err (EDomain ErrEmptyReason)) else
  if default false (notified (state o) !! reason) then (o, Ok tt) else
  Raise o (other (E_CustomerNotified (mkCustomerNotified (ord_id (state o)) reason))).

(** ** The events' JSON forms and types *)

Definition OrderPlaced_type : GoType ordering_event :=
  mkGoType _ OrderPlaced (mkOrderPlaced zero_ID zero_ID zero_Money (mkQuantity 0)) (fun x => other (E_OrderPlaced x))
    (fun e => match e with other (E_OrderPlaced x) => Some x | _ => None end).
Definition CustomerNotified_type : GoType ordering_event :=
  mkGoType _ CustomerNotified (mkCustomerNotified zero_ID "") (fun x => other (E_CustomerNotified x))
    (fun e => match e with other (E_CustomerNotified x) => Some x | _ => None end).

Section codecs.
(** [unicode.ToLower], which [ParseID] uses. *)
Variable u : N -> N.

(** [ID[T]] is a [TextMarshaler]: a JSON string. *)
Definition enc_id {T} (type_name : string) (i : ID T) : res json :=
  try text := res_wrap ("json: error calling MarshalText for type " +:+ type_name +:+ ": ") "" (MarshalText i) in
  Ok (enc_string text).
Definition dec_id {T} (old : ID T) (j : json) : res (ID T) :=
  match j with
  | JNull => Ok old
  | JStr s => match UnmarshalText u old s with (i, Ok _) => Ok i | (_, Err e) => Err e | (_, Panic m) => Panic m end
  | _ => Err type_mismatch
  end.

Definition order_id_type := "kernel.ID[github.com/akaporn-katip/gohex-example/ordering/internal/domain.Order]".
Definition customer_id_type := "kernel.ID[github.com/akaporn-katip/gohex-example/ordering/internal/domain.Customer]".

Definition enc_placed (e : OrderPlaced) : res json :=
  try i := enc_id order_id_type (placed_ID e) in
  try c := enc_id customer_id_type (placed_Customer e) in
  try t := enc_money (placed_Total e) in
  try q := enc_quantity (placed_Qty e) in
  Ok (JObj [("id", i); ("customer", c); ("total", t); ("qty", q)]).
Definition set_placed (key : string) (v : json) (e : OrderPlaced) : res OrderPlaced :=
  on_field "id" (dec_id (placed_ID e)) (fun x => mkOrderPlaced x (placed_Customer e) (placed_Total e) (placed_Qty e)) key v
  (on_field "customer" (dec_id (placed_Customer e)) (fun x => mkOrderPlaced (placed_ID e) x (placed_Total e) (placed_Qty e)) key v
  (on_field "total" (dec_money (placed_Total e)) (fun x => mkOrderPlaced (placed_ID e) (placed_Customer e) x (placed_Qty e)) key v
  (on_field "qty" (dec_quantity (placed_Qty e)) (fun x => mkOrderPlaced (placed_ID e) (placed_Customer e) (placed_Total e) x) key v
  (Ok e)))).

Definition enc_notified (e : CustomerNotified) : res json :=
  try i := enc_id order_id_type (notified_ID e) in
  Ok (JObj [("id", i); ("reason", enc_string (notified_Reason e))]).
Definition set_notified (key : string) (v : json) (e : CustomerNotified) : res CustomerNotified :=
  on_field "id" (dec_id (notified_ID e)) (fun x => mkCustomerNotified x (notified_Reason e)) key v
  (on_field "reason" (dec_string (notified_Reason e)) (fun x => mkCustomerNotified (notified_ID e) x) key v
  (Ok e)).

Definition OrderPlaced_codec : JsonCodec (carrier OrderPlaced_type) :=
  {| Marshal := enc_placed; Unmarshal := dec_struct set_placed (zero_value OrderPlaced_type) |}.
Definition CustomerNotified_codec : JsonCodec (carrier CustomerNotified_type) :=
  {| Marshal := enc_notified; Unmarshal := dec_struct set_notified (zero_value CustomerNotified_type) |}.

End codecs.

#[export] Instance order_marshal : MarshalEvent order_event :=
  fun e => match e with
           | E_OrderPlaced x => enc_placed x
           | E_CustomerNotified x => enc_notified x
           | E_foreign _ => Err (EText "json: unsupported type")
           end.

(** ** The value objects *)

Record money_valid (m : Money) : Prop := {
  mov_cents : 0 < cents m <= int64_max;
  mov_length : String.length (currency m) = 3%nat;
  mov_currency : utf8_valid (currency m);
}.

Lemma NewMoney_ok c cur m : NewMoney c cur = Ok m <-> 0 < c /\ String.length cur = 3%nat /\ m = mkMoney c cur.
Proof.
  unfold NewMoney. destruct (decide (c <= 0)); [split; [done | lia]|].
  destruct (decide (String.length cur <> 3%nat)) as [Hn|Hl]; [naive_solver|].
  apply dec_stable in Hl. split; [intros [= <-]; auto with lia | by intros (_ & _ & ->)].
Qed.

Lemma NewQuantity_ok n q : NewQuantity n = Ok q <-> 0 < n /\ q = mkQuantity n.
Proof. unfold NewQuantity. case_decide; split; try done; [lia | intros [= <-]; auto with lia | by intros [_ ->]]. Qed.

Lemma valid_not_zero m : money_valid m -> Money_IsZero m = false.
Proof. intros [Hc _ _]. apply bool_decide_eq_false. intros ->. simpl in Hc. lia. Qed.

Lemma dec_enc_money m : money_valid m -> exists doc, enc_money m = Ok doc /\ forall old, dec_money old doc = Ok m.
Proof.
  intros Hv. unfold enc_money. rewrite (valid_not_zero _ Hv). destruct Hv as [Hc Hl Hu]. destruct m as [c cur].
  cbn [cents currency] in *. eexists. split; [done|]. intros old. unfold dec_money, dec_struct, zero_Money.
  member_step. cbn [cents currency]. rewrite dec_enc_int by (unfold in_int64, int64_min, int64_max in *; lia).
  cbn [res_bind]. member_step. cbn [cents currency]. rewrite dec_enc_string by done.
  cbn [res_bind dec_members]. apply NewMoney_ok. cbn [cents currency]. auto with lia.
Qed.

Lemma dec_enc_quantity q :
  0 < Int q <= int64_max -> exists doc, enc_quantity q = Ok doc /\ forall old, dec_quantity old doc = Ok q.
Proof.
  intros Hq. unfold enc_quantity. rewrite decide_False by lia. eexists. split; [done|]. intros old.
  unfold dec_quantity. rewrite dec_enc_int by (unfold in_int64, int64_min, int64_max in *; lia).
  apply NewQuantity_ok. destruct q. simpl in *. auto with lia.
Qed.

(** ** The events survive the store *)

Record placed_valid (e : OrderPlaced) : Prop := {
  plv_id : canonical (value (placed_ID e)) = true;
  plv_customer : canonical (value (placed_Customer e)) = true;
  plv_total : money_valid (placed_Total e);
  plv_qty : 0 < Int (placed_Qty e) <= int64_max;
}.

Definition notified_valid (e : CustomerNotified) : Prop :=
  canonical (value (notified_ID e)) = true /\ utf8_valid (notified_Reason e).

Lemma canonical_utf8 s : canonical s = true -> utf8_valid s.
Proof. intros [_ Hs]%andb_prop. apply utf8_valid_ascii. by apply (id_chars_ok_ascii 0). Qed.

Section roundtrips.
Variable u : N -> N.
Hypothesis (u_ascii : forall r, (r < 128)%N -> u r = ascii_lower_rune r)
  (u_other : forall r, (128 <= r)%N -> (128 <= u r)%N \/ u r = 105%N \/ u r = 107%N).

Lemma enc_canonical_id {T} type_name (i : ID T) :
  canonical (value i) = true -> enc_id type_name i = Ok (enc_string (value i)).
Proof. intros Hc. unfold enc_id. by rewrite MarshalText_canonical. Qed.

Lemma dec_canonical_id {T} (old i : ID T) : canonical (value i) = true -> dec_id u old (enc_string (value i)) = Ok i.
Proof.
  intros Hc. unfold enc_string, dec_id, UnmarshalText. pose proof (canonical_utf8 _ Hc) as Hu. unfold utf8_valid in Hu.
  rewrite Hu, ParseID_canonical by done. by destruct i.
Qed.

Lemma placed_roundtrip e : placed_valid e -> exists doc, enc_placed e = Ok doc
  /\ dec_struct (set_placed u) (zero_value OrderPlaced_type) doc = Ok e.
Proof.
  intros [Hi Hc Ht Hq]. destruct e as [i c t q]. cbn [placed_ID placed_Customer placed_Total placed_Qty] in *.
  destruct (dec_enc_money t Ht) as (tdoc & Het & Hdt). destruct (dec_enc_quantity q Hq) as (qdoc & Heq & Hdq).
  unfold enc_placed. cbn [placed_ID placed_Customer placed_Total placed_Qty].
  rewrite !enc_canonical_id, Het, Heq by done. cbn [res_bind]. eexists. split; [done|].
  unfold dec_struct. cbn [zero_value OrderPlaced_type].
  member_step. rewrite dec_canonical_id by done. cbn [res_bind placed_ID placed_Customer placed_Total placed_Qty].
  member_step. rewrite dec_canonical_id by done. cbn [res_bind placed_ID placed_Customer placed_Total placed_Qty].
  member_step. rewrite Hdt. cbn [res_bind placed_ID placed_Customer placed_Total placed_Qty].
  member_step. by rewrite Hdq.
Qed.

Lemma notified_roundtrip e : notified_valid e -> exists doc, enc_notified e = Ok doc
  /\ dec_struct (set_notified u) (zero_value CustomerNotified_type) doc = Ok e.
Proof.
  intros [Hi Hr]. destruct e as [i r]. cbn [notified_ID notified_Reason] in *.
  unfold enc_notified. cbn [notified_ID notified_Reason]. rewrite enc_canonical_id by done. cbn [res_bind].
  eexists. split; [done|]. unfold dec_struct. cbn [zero_value CustomerNotified_type].
  member_step. rewrite dec_canonical_id by done. cbn [res_bind notified_ID notified_Reason].
  member_step. by rewrite dec_enc_string.
Qed.
End roundtrips.

(** ** Properties *)

(** C36: Value objects are parsed, never merely validated: whatever JSON a Money
    or a Quantity is decoded from, a decoded one is positive and its currency
    has three bytes; and every one that [NewMoney] or [NewQuantity] accepts
    from an int64 (and valid UTF-8) is encoded and decoded to itself, whatever
    the receiver held. The zero values are refused by the encoder. *)
Theorem value_objects_are_parsed (c n : Z) (cur : string) (Hc : in_int64 c) (Hn : in_int64 n) (Hu : utf8_valid cur) :
  (forall old j m, dec_money old j = Ok m -> 0 < cents m /\ String.length (currency m) = 3%nat)
  /\ (forall old j q, dec_quantity old j = Ok q -> 0 < Int q)
  /\ (forall m, NewMoney c cur = Ok m -> exists doc, enc_money m = Ok doc /\ forall old, dec_money old doc = Ok m)
  /\ (forall q, NewQuantity n = Ok q -> exists doc, enc_quantity q = Ok doc /\ forall old, dec_quantity old doc = Ok q)
  /\ is_ok (enc_money zero_Money) = false /\ is_ok (enc_quantity (mkQuantity 0)) = false.
Proof.
  unfold in_int64 in *. split_and!; [| | | |done..].
  - intros old j m (raw & _ & (H1 & H2 & ->)%NewMoney_ok)%res_bind_ok. done.
  - intros old j q (k & _ & [H1 ->]%NewQuantity_ok)%res_bind_ok. done.
  - intros m (H1 & H2 & ->)%NewMoney_ok. apply dec_enc_money. split; simpl; [lia | done..].
  - intros q [H1 ->]%NewQuantity_ok. apply dec_enc_quantity. simpl. lia.
Qed.

Lemma value_objects_are_parsed_witness :
  exists doc, enc_money (mkMoney 500 "THB") = Ok doc /\ forall old, dec_money old doc = Ok (mkMoney 500 "THB").
Proof.
  refine (proj1 (proj2 (proj2 (value_objects_are_parsed 500 3 "THB" _ _ _))) (mkMoney 500 "THB") eq_refl).
  - by vm_compute.
  - by vm_compute.
  - vm_compute. reflexivity.
Defined.

(** A 3-letter code need not be letters, nor three of them: the length counts
    bytes. *)
Example currency_is_three_bytes :
  NewMoney 500 "123" = Ok (mkMoney 500 "123") /\ NewMoney 500 "€" = Ok (mkMoney 500 "€").
Proof. by split. Qed.
