(* ===== verification/Ordering.v ===== *)
(** * gohex-example/ordering/internal/app: placing and notifying

    The registrations, the commands and the command handlers of the ordering
    service. *)

From S2P Require Import Prelude Errors Utf8 GoTime Json KernelId Kernel EventStore MemoryStore Registry Checkpoint Repository Broker Envelope Cqrs Consumer Relay Saga Contracts Services Order.

(** ** Commands *)

Record PlaceOrder := mkPlaceOrder { po_ID : OrderID; po_Customer : CustomerID; po_Total : Money; po_Qty : Quantity }.
Record NotifyCustomer := mkNotifyCustomer { nc_OrderID : string; nc_Reason : string }.

(** The service's local commands. *)
Inductive local_command :=
  | L_PlaceOrder (c : PlaceOrder)
  | L_NotifyCustomer (c : NotifyCustomer).

#[export] Instance local_command_name : Command local_command :=
  fun c => match c with
           | L_PlaceOrder _ => "ordering.place_order"
           | L_NotifyCustomer _ => "ordering.notify_customer"
           end.

Definition PlaceOrder_type : GoType local_command :=
  mkGoType _ PlaceOrder (mkPlaceOrder zero_ID zero_ID zero_Money (mkQuantity 0)) L_PlaceOrder
    (fun c => match c with L_PlaceOrder x => Some x | _ => None end).
Definition NotifyCustomer_type : GoType local_command :=
  mkGoType _ NotifyCustomer (mkNotifyCustomer "" "") L_NotifyCustomer
    (fun c => match c with L_NotifyCustomer x => Some x | _ => None end).

Section app.
(** [unicode.ToLower], which [ParseID] uses. *)
Variable u : N -> N.
#[local] Instance placed_codec : JsonCodec (carrier OrderPlaced_type) := OrderPlaced_codec u.
#[local] Instance notified_codec : JsonCodec (carrier CustomerNotified_type) := CustomerNotified_codec u.

(** ** Registrations *)

Definition RegisterEvents (r : Registry ordering_event) : res (Registry ordering_event) :=
  try r1 := Registry.Register OrderPlaced_type r in
  try r2 := Registry.Register CustomerNotified_type r1 in
  Saga.RegisterEvents r2.

Definition RegisterTranslators (r : Relay ordering_event contract) : res (Relay ordering_event contract) :=
  try r1 := Translate OrderPlaced_type
    (fun e => Some (C_OrderPlaced (mkOrderPlacedV1 (value (placed_ID e)) (value (placed_Customer e))
                     (cents (placed_Total e)) (currency (placed_Total e)) (Int (placed_Qty e))))) r in
  RegisterCommandRouting r1.

(** ** Handlers *)

Record Handlers := mkHandlers { orders : Repository Order ordering_event }.

Definition New (registry : Registry ordering_event) : Handlers := mkHandlers (mkRepository registry Category NewOrder).

Section handlers.
Context {W : Type} `{Store W}.
Variables (now : W -> Time) (x : Extractor) (others : W -> W).
Implicit Types (h : Handlers) (ctx : Context) (w : W * heap).

Definition PlaceOrder_handler h ctx (cmd : PlaceOrder) w : res unit * (W * heap) :=
  match Place (po_ID cmd) (po_Customer cmd) (po_Total cmd) (po_Qty cmd) with
  | Ok o => save now x others (orders h) ctx (value (po_ID cmd)) o w
  | Err e => (Err e, w)
  | Panic m => (Panic m, w)
  end.

Definition NotifyCustomer_handler h ctx (cmd : NotifyCustomer) w : res unit * (W * heap) :=
  match @ParseID u OrderMarker (nc_OrderID cmd) with
  | Err e => (Err e, w)
  | Panic m => (Panic m, w)
  | Ok id =>
    let '(loaded, w1) := repo_Load (orders h) (value id) (fst w) in
    match loaded with
    | Err e => (Err e, (w1, snd w))
    | Panic m => (Panic m, (w1, snd w))
    | Ok o =>
      match Notify (nc_Reason cmd) o with
      | (_, Err e) => (Err e, (w1, snd w))
      | (_, Panic m) => (Panic m, (w1, snd w))
      | (o', Ok _) => save now x others (orders h) ctx (value id) o' (w1, snd w)
      end
    end
  end.

(** [Register], the commands. *)
Definition Register `{Clock (W * heap)} h (bus : Bus local_command (W * heap)) : res (Bus local_command (W * heap)) :=
  try b1 := Handle PlaceOrder_type (PlaceOrder_handler h) bus in
  Handle NotifyCustomer_type (NotifyCustomer_handler h) b1.
End handlers.

(** ** The life of an order *)

Definition placed_event (id : OrderID) c t q : ordering_event := other (E_OrderPlaced (mkOrderPlaced id c t q)).
Definition notified_event (id : OrderID) (reason : string) : ordering_event :=
  other (E_CustomerNotified (mkCustomerNotified id reason)).

(** Never placed; or placed once, with valid values, and then the customer told
    each of some distinct reasons. *)
Definition order_life (key : string) (evs : list ordering_event) : Prop :=
  evs = [] \/ exists c t q reasons,
    evs = placed_event (mkID key) c t q :: (notified_event (mkID key) <$> reasons) /\ NoDup reasons /\ "" ∉ reasons
    /\ placed_valid (mkOrderPlaced (mkID key) c t q).

Record ordering_ok (h : Handlers) : Prop := {
  ook_placed : registered OrderPlaced_type (repo_registry (orders h));
  ook_notified : registered CustomerNotified_type (repo_registry (orders h));
  ook_category : repo_category (orders h) = Category;
  ook_new : newAgg (orders h) = NewOrder;
}.

Hypothesis (u_ascii : forall r, (r < 128)%N -> u r = ascii_lower_rune r)
  (u_other : forall r, (128 <= r)%N -> (128 <= u r)%N \/ u r = 105%N \/ u r = 107%N).

#[local] Instance placed_json : JsonRoundtrip (carrier OrderPlaced_type) placed_valid.
Proof. intros e He. exact (placed_roundtrip u u_ascii u_other e He). Qed.
#[local] Instance notified_json : JsonRoundtrip (carrier CustomerNotified_type) notified_valid.
Proof. intros e He. exact (notified_roundtrip u u_ascii u_other e He). Qed.
#[local] Instance placed_event_type : EventType OrderPlaced_type.
Proof. by split. Qed.
#[local] Instance notified_event_type : EventType CustomerNotified_type.
Proof. by split. Qed.

Lemma carries_placed h e : ordering_ok h -> placed_valid e -> carries (orders h) (other (E_OrderPlaced e)).
Proof. intros Hh Hv. exact (Encode_Decode OrderPlaced_type _ _ e (ook_placed _ Hh) Hv). Qed.

Lemma carries_notified h e : ordering_ok h -> notified_valid e -> carries (orders h) (other (E_CustomerNotified e)).
Proof. intros Hh Hv. exact (Encode_Decode CustomerNotified_type _ _ e (ook_notified _ Hh) Hv). Qed.

Lemma RegisterEvents_ok r r' : RegisterEvents r = Ok r' -> ordering_ok (New r') /\ saga_registered r'.
Proof.
  unfold RegisterEvents. intros (r1 & H1 & (r2 & H2 & H3)%res_bind_ok)%res_bind_ok.
  split; [|by eapply saga_events_registered].
  unfold Saga.RegisterEvents in H3. apply res_bind_ok in H3 as (r3 & H3 & (r4 & H4 & H5)%res_bind_ok).
  pose proof (Register_registered _ _ _ H1) as Hp. pose proof (Register_registered _ _ _ H2) as Hn.
  split; [| | done | done]; cbn [New orders repo_registry].
  - exact (Register_keeps _ _ _ _ (Register_keeps _ _ _ _ (Register_keeps _ _ _ _ (Register_keeps _ _ _ _ Hp H2) H3) H4) H5).
  - exact (Register_keeps _ _ _ _ (Register_keeps _ _ _ _ (Register_keeps _ _ _ _ Hn H3) H4) H5).
Qed.

(** Replaying an order's life. *)
Lemma notified_replay id rs (o : Order) :
  replay o (notified_event id <$> rs)
  = Some (mkOrder (ord_id o) (ord_customer o) (ord_total o) (ord_qty o)
            (foldl (fun m r => <[r := true]> m) (notified o) rs)).
Proof.
  revert o. induction rs as [|r rs IH]; intros o; [by destruct o|].
  rewrite fmap_cons. cbn [replay]. unfold Apply, order_apply at 1, notified_event at 1. rewrite IH. done.
Qed.

Lemma foldl_notified (rs : list string) (m : gmap string bool) r :
  default false (foldl (fun m r => <[r := true]> m) m rs !! r) = bool_decide (r ∈ rs) || default false (m !! r).
Proof.
  revert m. induction rs as [|x rs IH]; intros m; [done|]. simpl. rewrite IH.
  destruct (decide (x = r)) as [->|Hne].
  - rewrite lookup_insert_eq, (bool_decide_true (r ∈ r :: rs)) by (by left). simpl. by rewrite orb_true_r.
  - rewrite lookup_insert_ne by done. f_equal. apply bool_decide_ext. rewrite elem_of_cons. naive_solver.
Qed.

(** The order a life leaves: its id, and which reasons were told. *)
Lemma order_life_replays key c t q rs :
  exists s, replay NewOrder (placed_event (mkID key) c t q :: (notified_event (mkID key) <$> rs)) = Some s
    /\ ord_id s = mkID key /\ forall r, default false (notified s !! r) = bool_decide (r ∈ rs).
Proof.
  cbn [replay]. unfold Apply, order_apply at 1, placed_event at 1. rewrite notified_replay. cbn [NewOrder notified placed_ID].
  eexists. split_and!; [done..|]. intros r. cbn [notified]. by rewrite foldl_notified, lookup_empty, orb_false_r.
Qed.
(** The reasons told so far. *)
Definition told (evs : list ordering_event) : list string :=
  omap (fun e => match e with other (E_CustomerNotified n) => Some (notified_Reason n) | _ => None end) evs.

Lemma told_life id c t q rs : told (placed_event id c t q :: (notified_event id <$> rs)) = rs.
Proof.
  unfold told. csimpl. induction rs as [|r rs IH]; [done|]. rewrite fmap_cons. csimpl. by rewrite IH.
Qed.

Lemma life_told_more key evs reason :
  order_life key evs -> evs <> [] -> reason <> "" -> reason ∉ told evs ->
  order_life key (evs ++ [notified_event (mkID key) reason]).
Proof.
  intros [->|(c & t & q & rs & -> & Hnd & Hne & Hv)]; [done|]. intros _ Hr. rewrite told_life. intros Hnew.
  right. exists c, t, q, (rs ++ [reason]). rewrite fmap_app. split_and!; [done | | |done].
  - apply NoDup_app. split_and!; [done | | apply NoDup_singleton].
    intros y Hy ->%list_elem_of_singleton. done.
  - rewrite elem_of_app, list_elem_of_singleton. naive_solver.
Qed.

(** The state an order's life leaves. *)
Lemma life_state key evs s :
  order_life key evs -> evs <> [] -> replay NewOrder evs = Some s ->
  ord_id s = mkID key /\ forall r, default false (notified s !! r) = bool_decide (r ∈ told evs).
Proof.
  intros [->|(c & t & q & rs & -> & _)]; [done|]. intros _ Hr.
  destruct (order_life_replays key c t q rs) as (s' & Hs & Hid & Hn). rewrite Hr in Hs. injection Hs as <-.
  split; [done|]. intros r. by rewrite Hn, told_life.
Qed.

(** What [Notify] does to an order that lived [evs]. *)
Lemma Notify_life key evs reason (o : Agg Order ordering_event) :
  order_life key evs -> evs <> [] -> replay NewOrder evs = Some (state o) ->
  Notify reason o
  = if decide (reason = "") then (o, Err (EDomain ErrEmptyReason)) else
    if decide (reason ∈ told evs) then (o, Ok tt) else Raise o (notified_event (mkID key) reason).
Proof.
  intros Hlife Hne Hr. destruct (life_state _ _ _ Hlife Hne Hr) as [Hid Hn].
  unfold Notify. destruct (decide (reason = "")); [done|]. rewrite Hn, Hid.
  destruct (decide (reason ∈ told evs)); [by rewrite bool_decide_true | by rewrite bool_decide_false].
Qed.

Lemma Place_places h id c t q :
  ordering_ok h -> Money_IsZero t = false ->
  exists a, Place id c t q = Ok a /\ raise_all (new_agg (newAgg (orders h))) [placed_event id c t q] = (a, Ok tt).
Proof. intros Hh Ht. unfold Place. rewrite Ht, (ook_new _ Hh). by eexists. Qed.

(** ** What the commands promise *)

Definition place_spec (cmd : PlaceOrder) (evs : list ordering_event) : res unit * list ordering_event :=
  if Money_IsZero (po_Total cmd) then (Err (EDomain ErrEmptyOrder), evs) else
  match evs with
  | [] => (Ok tt, [placed_event (po_ID cmd) (po_Customer cmd) (po_Total cmd) (po_Qty cmd)])
  | _ => (Err (version_conflict (mkStreamID Category (value (po_ID cmd))) (zlen evs) 0), evs)
  end.

Definition notify_spec (id : OrderID) (reason : string) (evs : list ordering_event) : res unit * list ordering_event :=
  match evs with
  | [] => (Err (not_found (mkStreamID Category (value id))), [])
  | _ => if decide (reason = "") then (Err (EDomain ErrEmptyReason), evs) else
         if decide (reason ∈ told evs) then (Ok tt, evs) else (Ok tt, evs ++ [notified_event id reason])
  end.

Section alone.
Variables (h : Handlers) (now : MemoryStore -> Time) (x : Extractor) (ctx : Context) (w : MemoryStore) (hp : heap)
  (evs : list ordering_event).
Hypothesis (Hh : ordering_ok h) (Hinv : mem_inv w) (Hsize : zlen (all w) + 1 <= int64_max).

Lemma places_as_specified cmd :
  placed_valid (mkOrderPlaced (po_ID cmd) (po_Customer cmd) (po_Total cmd) (po_Qty cmd)) ->
  stream_holds (orders h) (value (po_ID cmd)) (all w) evs ->
  runs_to (orders h) (value (po_ID cmd)) w hp evs (PlaceOrder_handler now x alone h ctx cmd (w, hp)) (place_spec cmd evs).
Proof.
  intros Hv Hevs. unfold PlaceOrder_handler, place_spec.
  destruct (Money_IsZero (po_Total cmd)) eqn:Hz.
  { unfold Place. rewrite Hz. by apply runs_to_same. }
  destruct (Place_places h (po_ID cmd) (po_Customer cmd) (po_Total cmd) (po_Qty cmd) Hh Hz) as (a & -> & Hr).
  pose proof (carries_placed _ _ Hh Hv) as Hc. pose proof (raise_all_root _ _ _ Hr) as Hroot.
  assert (UncommittedEvents a = [placed_event (po_ID cmd) (po_Customer cmd) (po_Total cmd) (po_Qty cmd)]) as Hu
    by (unfold UncommittedEvents; by rewrite Hroot).
  destruct evs as [|e evs'].
  - destruct (mem_save_stream (orders h) now x ctx (value (po_ID cmd)) a w hp [] (newAgg (orders h)) _ Hinv Hevs eq_refl Hr)
      as (w' & recs & Hsave & Hinv' & Hall & Hin & Hst'); [done | by constructor | done |].
    exists w', (recordPosition ctx (zlen (all w')) hp). split_and!; try done. by exists recs.
  - apply runs_to_same; [done..| |done].
    assert (stream_version (repo_stream (orders h) (value (po_ID cmd))) (all w) = zlen (e :: evs')) as Hver.
    { unfold stream_version, zlen. by rewrite (res_mapM_length _ _ _ Hevs). }
    pose proof (zlen_nonneg evs'). assert (Version a = 0) as Hva by (unfold Version; by rewrite Hroot).
    rewrite mem_save_conflict; rewrite ?Hu; try done.
    + rewrite Hver, Hva. unfold repo_stream. by rewrite (ook_category _ Hh).
    + by constructor.
    + rewrite Hver, Hva, zlen_cons. lia.
Qed.

Lemma notifies_as_specified text id reason :
  @ParseID u OrderMarker text = Ok id -> utf8_valid reason ->
  stream_holds (orders h) (value id) (all w) evs -> order_life (value id) evs ->
  runs_to (orders h) (value id) w hp evs
    (NotifyCustomer_handler now x alone h ctx (mkNotifyCustomer text reason) (w, hp)) (notify_spec id reason evs).
Proof.
  intros Hid Hr Hevs Hlife. unfold NotifyCustomer_handler, notify_spec. cbn [nc_OrderID nc_Reason]. rewrite Hid. cbn [fst snd].
  pose proof (ParseID_value u u_ascii u_other _ _ Hid) as Hcan.
  pose proof (mem_Load_stream _ _ _ _ Hinv Hevs) as Hl. destruct evs as [|e evs'] eqn:He.
  { rewrite Hl. apply runs_to_same; [done..| |done]. simpl. unfold repo_stream. by rewrite (ook_category _ Hh). }
  rewrite <-He in *.
  assert (exists s, replay NewOrder evs = Some s) as [s Hs].
  { destruct Hlife as [Hn|(c & t & q & rs & -> & _)]; [by rewrite He in Hn|].
    destruct (order_life_replays (value id) c t q rs) as (s & Hs & _). by exists s. }
  rewrite <-(ook_new _ Hh) in Hs. rewrite (Hl s Hs).
  rewrite (Notify_life (value id) evs reason) by (first [done | by rewrite He | by rewrite <-(ook_new _ Hh)]).
  destruct id as [key]. cbn [value] in *.
  destruct (decide (reason = "")) as [|Hne]; [by apply runs_to_same|].
  destruct (decide (reason ∈ told evs)) as [Hin|Hnew].
  { apply runs_to_same; try done. }
  destruct (mem_save_stream (orders h) now x ctx key _ w hp evs s [notified_event (mkID key) reason] Hinv Hevs Hs eq_refl)
    as (w' & recs & Hsave & Hinv' & Hall & Hin & Hst'); [done | | done |].
  { constructor; [|done]. by apply carries_notified. }
  cbn [raise_all] in Hsave. exists w', (recordPosition ctx (zlen (all w')) hp). split_and!; try done.
  - cbn [snd]. intros Hsame%(f_equal length). rewrite length_app in Hsame. simpl in Hsame. lia.
  - by exists recs.
Qed.
End alone.
End app.

Section interleaved.
Context {W : Type} `{StoreSpec W}.
Variable u : N -> N.
Hypothesis (u_ascii : forall r, (r < 128)%N -> u r = ascii_lower_rune r)
  (u_other : forall r, (128 <= r)%N -> (128 <= u r)%N \/ u r = 105%N \/ u r = 107%N).
Variables (h : Handlers) (now : W -> Time) (x : Extractor) (others : W -> W) (ctx : Context) (w : W) (hp : heap).
Hypothesis (Hh : ordering_ok u h) (Hinv : store_inv w) (Hok : streams_ok (orders h) order_life (log_of w))
  (Hrely : rely (orders h) order_life others w 1).

Lemma place_preserves place r w' hp' :
  placed_valid (mkOrderPlaced (po_ID place) (po_Customer place) (po_Total place) (po_Qty place)) ->
  PlaceOrder_handler now x others h ctx place (w, hp) = (r, (w', hp')) ->
  store_inv w' /\ streams_ok (orders h) order_life (log_of w').
Proof.
  intros Hplace. unfold PlaceOrder_handler.
  pose proof (valid_not_zero _ (plv_total _ Hplace)) as Hz. cbn [placed_Total] in Hz.
  destruct (Place_places u h (po_ID place) (po_Customer place) (po_Total place) (po_Qty place) Hh Hz) as (a & -> & Hr).
  pose proof (raise_all_root _ _ _ Hr) as Hroot.
  apply (save_new_preserves (orders h) order_life _ _ _ _ _ _
    (placed_event (po_ID place) (po_Customer place) (po_Total place) (po_Qty place)) w); try done.
  + unfold UncommittedEvents. by rewrite Hroot.
  + unfold Version. by rewrite Hroot.
  + by apply (carries_placed u u_ascii u_other).
  + right. destruct (po_ID place) as [key]. eexists _, _, _, []. split_and!; [done | constructor | set_solver | done].
Qed.

Lemma notify_preserves notify r w' hp' :
  utf8_valid (nc_Reason notify) ->
  NotifyCustomer_handler u now x others h ctx notify (w, hp) = (r, (w', hp')) ->
  store_inv w' /\ streams_ok (orders h) order_life (log_of w').
Proof.
  intros Hnotify. unfold NotifyCustomer_handler. cbn [fst snd].
  destruct (@ParseID u OrderMarker (nc_OrderID notify)) as [id|e|m] eqn:Hid; [|by intros [= _ <- _]..].
  destruct (repo_Load (orders h) (value id) w) as [[o|e|m] w1] eqn:El.
  2-3: unfold repo_Load in El; destruct (Load _ 0 w) as [l w2] eqn:E; injection El as _ <-;
       destruct (Load_spec _ _ _ _ _ Hinv E) as (? & Hl & _); intros [= _ <- _]; by rewrite Hl.
  destruct (repo_Load_ok _ _ _ _ _ Hinv El) as (Hinv1 & Hl1 & Hholds & Hp & Hne).
  destruct (Hok (value id)) as (evs & Hevs & Hlife). destruct Hholds as (evs' & Hd & Hrep & _).
  rewrite <-(stream_holds_inj _ _ _ _ _ Hevs Hd) in *. unfold UncommittedEvents in Hp.
  rewrite Hp, app_nil_r, (ook_new _ _ Hh) in Hrep.
  assert (evs <> []) as Hnil by (intros ->; apply Hne; by apply stream_holds_nil).
  rewrite (Notify_life (value id) evs (nc_Reason notify) o Hlife Hnil Hrep).
  destruct (decide (nc_Reason notify = "")) as [|Hreason]; [by intros [= _ <- _]; rewrite Hl1|].
  destruct (decide (nc_Reason notify ∈ told evs)) as [Hin|Hnew].
  { by apply (save_nothing_preserves (orders h) order_life _ _ _ _ _ _ w). }
  destruct (Raise o _) as [o' [[]|e|m]] eqn:Hraise; [|by intros [= _ <- _]; rewrite Hl1..].
  apply (load_save_preserves (orders h) order_life _ _ _ _ _ o _ (notified_event (mkID (value id)) (nc_Reason notify)) w); try done.
  + apply (carries_notified u u_ascii u_other); [done|]. split; [|done].
    destruct id. by apply (ParseID_value u u_ascii u_other _ _ Hid).
  + intros evs2 Hl2 Hrep2 Hn2. apply life_told_more; [done..|].
    rewrite (ook_new _ _ Hh) in Hrep2. destruct (life_state _ _ _ Hl2 Hn2 Hrep2) as [_ Ht2].
    destruct (life_state _ _ _ Hlife Hnil Hrep) as [_ Ht]. specialize (Ht2 (nc_Reason notify)).
    rewrite Ht in Ht2. intros Hin2. by rewrite (bool_decide_true _ Hin2), bool_decide_false in Ht2.
Qed.
End interleaved.

(** ** Properties *)

(** Every order has one life, on any store and under any interleaving: it
    is placed at most once, and its customer told each reason at most once and
    never an empty one. Whatever other writers append between a handler's load
    and its save - also to the same order, as long as they keep this - and
    whether the handler succeeds, is refused or loses a race, every order
    stream still has that shape afterwards. *)
Theorem order_has_one_life {W} `{StoreSpec W} (u : N -> N)
    (u_ascii : forall r, (r < 128)%N -> u r = ascii_lower_rune r)
    (u_other : forall r, (128 <= r)%N -> (128 <= u r)%N \/ u r = 105%N \/ u r = 107%N)
    (h : Handlers) (now : W -> Time) (x : Extractor) (others : W -> W) (ctx : Context)
    (place : PlaceOrder) (notify : NotifyCustomer) (w : W) (hp : heap)
    (Hh : ordering_ok u h) (Hinv : store_inv w) (Hok : streams_ok (orders h) order_life (log_of w))
    (Hrely : rely (orders h) order_life others w 1)
    (Hplace : placed_valid (mkOrderPlaced (po_ID place) (po_Customer place) (po_Total place) (po_Qty place)))
    (Hnotify : utf8_valid (nc_Reason notify)) :
  (forall r w' hp', PlaceOrder_handler now x others h ctx place (w, hp) = (r, (w', hp')) ->
     store_inv w' /\ streams_ok (orders h) order_life (log_of w'))
  /\ (forall r w' hp', NotifyCustomer_handler u now x others h ctx notify (w, hp) = (r, (w', hp')) ->
     store_inv w' /\ streams_ok (orders h) order_life (log_of w')).
Proof.
  split; intros r w' hp'; [by apply (place_preserves u) | by apply (notify_preserves u)].
Qed.

(** What the ordering commands do, alone on the in-memory store, is the
    specification. Placing stores [OrderPlaced] as the first event of a new
    order, and is a version conflict on an existing one. Notifying parses the
    identifier, is refused for an unknown order or an empty reason, records a
    new reason, and succeeds without storing anything for a reason already
    told - which is what makes the worker's repeated dispatch harmless. *)
Theorem ordering_refines_spec (u : N -> N)
    (u_ascii : forall r, (r < 128)%N -> u r = ascii_lower_rune r)
    (u_other : forall r, (128 <= r)%N -> (128 <= u r)%N \/ u r = 105%N \/ u r = 107%N)
    (h : Handlers) (now : MemoryStore -> Time) (x : Extractor) (ctx : Context) (w : MemoryStore) (hp : heap)
    (Hh : ordering_ok u h) (Hinv : mem_inv w) (Hsize : zlen (all w) + 1 <= int64_max) :
  (forall cmd evs,
     placed_valid (mkOrderPlaced (po_ID cmd) (po_Customer cmd) (po_Total cmd) (po_Qty cmd)) ->
     stream_holds (orders h) (value (po_ID cmd)) (all w) evs ->
     runs_to (orders h) (value (po_ID cmd)) w hp evs (PlaceOrder_handler now x alone h ctx cmd (w, hp)) (place_spec cmd evs))
  /\ (forall text id reason evs,
     @ParseID u OrderMarker text = Ok id -> utf8_valid reason ->
     stream_holds (orders h) (value id) (all w) evs -> order_life (value id) evs ->
     runs_to (orders h) (value id) w hp evs
       (NotifyCustomer_handler u now x alone h ctx (mkNotifyCustomer text reason) (w, hp)) (notify_spec id reason evs)).
Proof.
  split; intros; [by eapply places_as_specified | by eapply notifies_as_specified].
Qed.

(** ** Witnesses *)

Module Sample.
Definition lower := sample_ToLower.
Definition empty_registry : Registry ordering_event := mkRegistry ∅.
Definition registry : Registry ordering_event :=
  match RegisterEvents lower empty_registry with Ok r => r | _ => empty_registry end.
Definition service : Handlers := New registry.
Definition midnight : MemoryStore -> Time := fun _ => zero_time.
Definition text := "01234567-89ab-4def-8123-456789abcdef".
Definition cmd : PlaceOrder := mkPlaceOrder (mkID text) (mkID text) (mkMoney 500 "THB") (mkQuantity 2).
Definition placed : MemoryStore := fst (snd (PlaceOrder_handler midnight None alone service background cmd (NewMemoryStore, []))).
Lemma ordering_service_ok : ordering_ok lower service.
Proof. exact (proj1 (RegisterEvents_ok lower empty_registry registry eq_refl)). Qed.
Lemma no_orders : streams_ok (orders service) order_life (all NewMemoryStore).
Proof. apply streams_ok_nil. by left. Qed.
Lemma cmd_valid : placed_valid (mkOrderPlaced (po_ID cmd) (po_Customer cmd) (po_Total cmd) (po_Qty cmd)).
Proof. split; [done | done | split; [vm_compute; split; [done | discriminate] | done | by vm_compute] | vm_compute; split; [done | discriminate]]. Qed.
End Sample.
Import Sample.

Lemma order_has_one_life_witness :
  length (all placed) = 1%nat /\ store_inv placed /\ streams_ok (orders service) order_life (log_of placed).
Proof.
  split; [by vm_compute|].
  refine (proj1 (order_has_one_life lower sample_ToLower_ascii sample_ToLower_other service midnight None (fun v => v)
    background cmd (mkNotifyCustomer text "shipped") NewMemoryStore [] ordering_service_ok mem_inv_new no_orders _ cmd_valid _)
    (Ok tt) placed [] _).
  - apply rely_nobody; [exact no_orders | vm_compute; discriminate].
  - vm_compute. reflexivity.
  - reflexivity.
Defined.

Lemma ordering_refines_spec_witness :
  runs_to (orders service) text NewMemoryStore [] []
    (PlaceOrder_handler midnight None alone service background cmd (NewMemoryStore, []))
    (Ok tt, [placed_event (mkID text) (mkID text) (mkMoney 500 "THB") (mkQuantity 2)]).
Proof.
  refine (proj1 (ordering_refines_spec lower sample_ToLower_ascii sample_ToLower_other service midnight None background
    NewMemoryStore [] ordering_service_ok mem_inv_new _) cmd [] cmd_valid _).
  - vm_compute. discriminate.
  - by apply stream_holds_nil.
Defined.
