(* ===== verification/Fulfillment.v ===== *)
(** * gohex-example/ordering/internal/app/saga.go: the fulfillment workflow

    The saga's definition, run by the saga engine on the in-memory store, and
    the workflow it promises: a machine that reacts to the contracts of one
    order. *)

From S2P Require Import Prelude Errors Utf8 GoTime Json KernelId Kernel EventStore MemoryStore Registry Checkpoint Repository Broker Envelope Cqrs Consumer Relay Saga Flat Contracts Services Order.

(** ** The definition *)

Record Fulfillment := mkFulfillment { ful_Cents : Z; ful_Qty : Z }.

Definition SagaTopics : list string :=
  [TopicOrderingEvents; TopicBillingEvents; TopicInventoryEvents; TopicShippingEvents].

Abbreviation decision := (Fulfillment * res (Decisions wire_command))%type.

Definition on_order_placed (s : Fulfillment) (e : OrderPlacedV1) : decision :=
  (mkFulfillment (op_Cents e) (op_Qty e),
   Ok (Send [mkOutCommand TopicBillingCommands "" (W_CapturePayment (mkCapturePayment (op_OrderID e) (op_Cents e)))])).
Definition on_payment_captured (s : Fulfillment) (e : PaymentCapturedV1) : decision :=
  (s, Ok (Send [mkOutCommand TopicInventoryCommands "" (W_ReserveStock (mkReserveStock (pc_OrderID e) (ful_Qty s)))])).
Definition on_payment_failed (s : Fulfillment) (e : PaymentFailedV1) : decision := (s, Ok End_saga).
Definition on_stock_reserved (s : Fulfillment) (e : StockReservedV1) : decision :=
  (s, Ok (Send [mkOutCommand TopicShippingCommands "" (W_CreateShipment (mkCreateShipment (sr_OrderID e)))])).
Definition on_stock_rejected (s : Fulfillment) (e : StockRejectedV1) : decision :=
  (s, Ok (mkDecisions [mkOutCommand TopicBillingCommands "" (W_RefundPayment (mkRefundPayment (sj_OrderID e)))] true)).
Definition on_shipment_dispatched (s : Fulfillment) (e : ShipmentDispatchedV1) : decision := (s, Ok End_saga).

Definition NewFulfillmentSaga : res (SagaDefinition Fulfillment wire_command) :=
  try d := Saga.New "order_fulfillment" in
  try d := OnEvent (mkOrderPlacedV1 "" "" 0 "" 0) op_OrderID on_order_placed d in
  try d := OnEvent (mkPaymentCapturedV1 "" 0) pc_OrderID on_payment_captured d in
  try d := OnEvent (mkPaymentFailedV1 "" "") pf_OrderID on_payment_failed d in
  try d := OnEvent (mkStockReservedV1 "" 0) sr_OrderID on_stock_reserved d in
  try d := OnEvent (mkStockRejectedV1 "" "") sj_OrderID on_stock_rejected d in
  OnEvent (mkShipmentDispatchedV1 "") sd_OrderID on_shipment_dispatched d.

(** The definition it returns. *)
Definition fulfillment : SagaDefinition Fulfillment wire_command :=
  match NewFulfillmentSaga with Ok d => d | _ => mkDefinition "" ∅ end.

Lemma NewFulfillmentSaga_ok : NewFulfillmentSaga = Ok fulfillment.
Proof. reflexivity. Qed.

(** ** The workflow

    What the saga promises for one order, without store, registry or codec: a
    machine over the contracts it is delivered. *)

Definition order_of (c : contract) : option string :=
  match c with
  | C_OrderPlaced e => Some (op_OrderID e)
  | C_PaymentCaptured e => Some (pc_OrderID e)
  | C_PaymentFailed e => Some (pf_OrderID e)
  | C_PaymentRefunded _ => None (* not this saga's event *)
  | C_StockReserved e => Some (sr_OrderID e)
  | C_StockRejected e => Some (sj_OrderID e)
  | C_ShipmentDispatched e => Some (sd_OrderID e)
  end.

Record flow := mkFlow { flow_state : Fulfillment; flow_ended : bool; flow_seen : list string }.
Definition flow_start : flow := mkFlow (mkFulfillment 0 0) false [].

(** The next step of the workflow: what it remembers, what it asks for, and
    whether it is over. *)
Definition flow_decide (s : Fulfillment) (c : contract) : Fulfillment * list (string * wire_command) * bool :=
  match c with
  | C_OrderPlaced e => (mkFulfillment (op_Cents e) (op_Qty e),
      [(TopicBillingCommands, W_CapturePayment (mkCapturePayment (op_OrderID e) (op_Cents e)))], false)
  | C_PaymentCaptured e => (s, [(TopicInventoryCommands, W_ReserveStock (mkReserveStock (pc_OrderID e) (ful_Qty s)))], false)
  | C_StockReserved e => (s, [(TopicShippingCommands, W_CreateShipment (mkCreateShipment (sr_OrderID e)))], false)
  | C_StockRejected e => (s, [(TopicBillingCommands, W_RefundPayment (mkRefundPayment (sj_OrderID e)))], true)
  | C_PaymentFailed _ | C_ShipmentDispatched _ => (s, [], true)
  | C_PaymentRefunded _ => (s, [], false)
  end.

Definition wire_payload (c : wire_command) : json :=
  match c with
  | W_CapturePayment c => enc_ref_int "cents" (cp_OrderID c) (cp_Cents c)
  | W_RefundPayment c => enc_ref (rp_OrderID c)
  | W_ReserveStock c => enc_ref_int "qty" (rs_OrderID c) (rs_Qty c)
  | W_CreateShipment c => enc_ref (cs_OrderID c)
  end.

(** A command of the workflow as the saga's stream records it. *)
Definition recorded (order : string) (md : strmap) (out : string * wire_command) : ordering_event :=
  commandRequested (mkCommandRequested (fst out) order (CommandName (snd out)) 1 (RawJSON (wire_payload (snd out))) md).

Definition flow_step (order : string) (md : strmap) (msg : Message) (c : contract) (f : flow) : flow * list ordering_event :=
  match order_of c with
  | None => (f, [])
  | Some _ =>
    if flow_ended f || bool_decide (msg_ID msg ∈ flow_seen f) then (f, []) else
    let '(s, outs, over) := flow_decide (flow_state f) c in
    (mkFlow s over (msg_ID msg :: flow_seen f),
     eventReceived (mkEventReceived msg) :: (recorded order md <$> outs) ++ (if over then [ended] else []))
  end.

(** ** The saga's reactions are the workflow's *)

(** [msg] carries the contract [c]. *)
Record envelope_of (msg : Message) (c : contract) : Prop := {
  env_type : msg_Type msg = ContractName c;
  env_version : msg_Version msg = ContractVersion c;
  env_payload : exists doc, marshal_event c = Ok doc /\ msg_Payload msg = RawJSON doc;
  env_valid : message_valid msg;
}.

Definition contract_valid (c : contract) : Prop :=
  match c with
  | C_OrderPlaced e => order_placed_valid e
  | C_PaymentCaptured e => utf8_valid (pc_OrderID e) /\ in_int64 (pc_Cents e)
  | C_PaymentFailed e => utf8_valid (pf_OrderID e) /\ utf8_valid (pf_Reason e)
  | C_PaymentRefunded e => utf8_valid (pr_OrderID e)
  | C_StockReserved e => utf8_valid (sr_OrderID e) /\ in_int64 (sr_Qty e)
  | C_StockRejected e => utf8_valid (sj_OrderID e) /\ utf8_valid (sj_Reason e)
  | C_ShipmentDispatched e => utf8_valid (sd_OrderID e)
  end.

(** A payload that decodes reaches the typed functions. *)
Lemma event_handler_decodes {S Cmd C} `{JsonCodec C} (valid : C -> Prop) `{!JsonRoundtrip C valid}
    name key (corr : C -> string) (fn : S -> C -> S * res (Decisions Cmd)) msg (e : C) doc :
  valid e -> Marshal e = Ok doc -> msg_Payload msg = RawJSON doc ->
  correlate (event_handler name key corr fn) msg = Ok (corr e)
  /\ forall s, handle (event_handler name key corr fn) s msg = fn s e.
Proof.
  intros Hv Hm Hp. destruct (json_roundtrip e Hv) as (doc' & Hm' & Hu). rewrite Hm in Hm'. injection Hm' as <-.
  unfold event_handler. cbn [correlate handle]. rewrite Hp. unfold Unmarshal_raw. rewrite Hu. done.
Qed.

(** The decisions of the workflow as the handlers return them. *)
Definition decisions_of (outs : list (string * wire_command)) (over : bool) : Decisions wire_command :=
  mkDecisions ((fun o => mkOutCommand (fst o) "" (snd o)) <$> outs) over.

Lemma fulfillment_handles msg c order :
  envelope_of msg c -> contract_valid c -> order_of c = Some order ->
  exists hd, def_handlers fulfillment !! eventKey (msg_Type msg) (msg_Version msg) = Some hd
    /\ correlate hd msg = Ok order
    /\ forall s, let '(s', outs, over) := flow_decide s c in handle hd s msg = (s', Ok (decisions_of outs over)).
Proof.
  intros [-> -> (doc & Hm & Hp) _] Hv Ho.
  destruct c as [e|e|e|e|e|e|e]; simpl in Ho; try discriminate Ho; injection Ho as <-.
  - exists (event_handler "order_fulfillment" "ordering.order_placed@v1" op_OrderID on_order_placed). split; [reflexivity|].
    exact (event_handler_decodes (C := OrderPlacedV1) _ _ _ op_OrderID on_order_placed msg e doc Hv Hm Hp).
  - exists (event_handler "order_fulfillment" "billing.payment_captured@v1" pc_OrderID on_payment_captured). split; [reflexivity|].
    exact (event_handler_decodes (C := PaymentCapturedV1) _ _ _ pc_OrderID on_payment_captured msg e doc Hv Hm Hp).
  - exists (event_handler "order_fulfillment" "billing.payment_failed@v1" pf_OrderID on_payment_failed). split; [reflexivity|].
    exact (event_handler_decodes (C := PaymentFailedV1) _ _ _ pf_OrderID on_payment_failed msg e doc Hv Hm Hp).
  - exists (event_handler "order_fulfillment" "inventory.stock_reserved@v1" sr_OrderID on_stock_reserved). split; [reflexivity|].
    exact (event_handler_decodes (C := StockReservedV1) _ _ _ sr_OrderID on_stock_reserved msg e doc Hv Hm Hp).
  - exists (event_handler "order_fulfillment" "inventory.stock_rejected@v1" sj_OrderID on_stock_rejected). split; [reflexivity|].
    exact (event_handler_decodes (C := StockRejectedV1) _ _ _ sj_OrderID on_stock_rejected msg e doc Hv Hm Hp).
  - exists (event_handler "order_fulfillment" "shipping.shipment_dispatched@v1" sd_OrderID on_shipment_dispatched). split; [reflexivity|].
    exact (event_handler_decodes (C := ShipmentDispatchedV1) _ _ _ sd_OrderID on_shipment_dispatched msg e doc Hv Hm Hp).
Qed.

Section simulation.
Variables (registry : Registry ordering_event) (x : Extractor) (now : nat -> Time) (order : string).

Definition runner : Runner Fulfillment wire_command order_event := NewRunner (mkFulfillment 0 0) fulfillment registry.

(** Deliveries to the order's saga, each in its context. *)
Abbreviation delivery := (Context * Message * contract)%type.

Definition undisturbed : nat -> MemoryStore -> MemoryStore := fun _ w => w.

Fixpoint deliver (ds : list delivery) (w : MemoryStore) (h : heap) : list (res unit) * MemoryStore * heap :=
  match ds with
  | [] => ([], w, h)
  | (ctx, msg, _) :: rest =>
    let '(r, w1, h1) := saga_Handler runner now x undisturbed ctx msg w h in
    let '(rs, w2, h2) := deliver rest w1 h1 in (r :: rs, w2, h2)
  end.

Fixpoint flow_run (ds : list delivery) (f : flow) : flow * list ordering_event :=
  match ds with
  | [] => (f, [])
  | (ctx, msg, c) :: rest =>
    let '(f1, es) := flow_step order (command_metadata x ctx msg) msg c f in
    let '(f2, es2) := flow_run rest f1 in (f2, es ++ es2)
  end.

Definition delivery_ok (d : delivery) : Prop :=
  let '(ctx, msg, c) := d in
  envelope_of msg c /\ contract_valid c /\ optional_map_valid (command_metadata x ctx msg)
  /\ (order_of c = Some order \/ order_of c = None).

(** The stored instance is where the workflow is. *)
Record simulates (w : MemoryStore) (f : flow) : Prop := {
  sim_inv : mem_inv w;
  sim_agg : exists a, stored_instance runner order w a /\ inst_def (state a) = fulfillment
              /\ inst_state (state a) = flow_state f /\ inst_ended (state a) = flow_ended f
              /\ forall id, was_seen (state a) id = bool_decide (id ∈ flow_seen f);
}.

Lemma flow_topics s c s' outs over : flow_decide s c = (s', outs, over) -> Forall (fun o => fst o <> "") outs.
Proof. destruct c; intros [= <- <- <-]; repeat constructor; done. Qed.

Lemma requests_recorded md outs over :
  Forall (fun o => fst o <> "") outs ->
  exists crs, res_mapM (request runner order md) (Commands (decisions_of outs over)) = Ok crs
    /\ commandRequested <$> crs = recorded order md <$> outs.
Proof.
  cbn [decisions_of Commands]. induction 1 as [|[topic cmd] outs Ht _ (crs & Hcrs & Hrec)]; [by exists []|].
  eexists (_ :: crs). rewrite !fmap_cons. cbn [res_mapM fst snd]. unfold request at 1. cbn [out_Topic out_Cmd out_Key].
  rewrite decide_False by done.
  assert (marshal_event cmd = Ok (wire_payload cmd)) as -> by (by destruct cmd).
  cbn [res_wrap res_bind]. rewrite Hcrs. cbn [res_bind]. split; [done|]. by rewrite Hrec.
Qed.

(** Replaying a reaction. *)
Lemma replay_reaction (i i1 : instance Fulfillment wire_command) msg (crs : list CommandRequested) (over : bool) :
  Apply i (eventReceived (mkEventReceived msg) : ordering_event) = (i1, Ok tt) ->
  replay i (eventReceived (mkEventReceived msg) :: (commandRequested <$> crs) ++ (if over then [ended] else []) : list ordering_event)
  = Some (if over then mkInstance (inst_def i1) (inst_state i1) true (inst_seen i1) (lastDecisions i1) else i1).
Proof.
  intros Happ. cbn [replay]. rewrite Happ. induction crs as [|cr crs IH]; [by destruct over|].
  rewrite fmap_cons. exact IH.
Qed.

Lemma reacts_as_workflow (i : instance Fulfillment wire_command) md msg c s' outs (over : bool) :
  inst_def i = fulfillment -> inst_ended i = false -> envelope_of msg c -> contract_valid c -> order_of c = Some order ->
  flow_decide (inst_state i) c = (s', outs, over) ->
  let evs := eventReceived (mkEventReceived msg) :: (recorded order md <$> outs) ++ (if over then [ended] else []) in
  reaction runner order md msg i = Ok evs
  /\ exists i', replay i evs = Some i'
       /\ inst_def i' = fulfillment /\ inst_state i' = s' /\ inst_ended i' = over.
Proof.
  intros Hdef Hend Henv Hv Ho Hf evs.
  destruct (fulfillment_handles msg c order Henv Hv Ho) as (hd & Hhd & _ & Hh). specialize (Hh (inst_state i)).
  rewrite Hf in Hh.
  assert (Apply i (eventReceived (mkEventReceived msg) : ordering_event)
    = (mkInstance (inst_def i) s' (inst_ended i) (<[msg_ID msg := true]> (inst_seen i)) (decisions_of outs over), Ok tt)) as Happ.
  { unfold Apply, saga_apply. cbn [Envelope]. rewrite Hdef, Hhd, Hh. by rewrite <-Hdef. }
  destruct (requests_recorded md outs over) as (crs & Hcrs & Hrec); [by eapply flow_topics|].
  unfold evs. rewrite <-Hrec. split.
  - unfold reaction. rewrite Happ. cbn [lastDecisions]. rewrite Hcrs. done.
  - rewrite (replay_reaction _ _ _ _ _ Happ). eexists. split; [reflexivity|].
    destruct over; (split_and!; [exact Hdef | reflexivity | first [reflexivity | exact Hend]]).
Qed.

Lemma recorded_valid md topic cmd :
  utf8_valid topic -> utf8_valid order -> optional_map_valid md -> event_valid (recorded order md (topic, cmd)).
Proof.
  intros Ht Ho Hmd. split; [exact Ht | exact Ho | destruct cmd; vm_compute; reflexivity
    | vm_compute; split; discriminate | by eexists | exact Hmd].
Qed.

Lemma reaction_valid ctx msg outs (over : bool) s c s' :
  message_valid msg -> optional_map_valid (command_metadata x ctx msg) -> utf8_valid order ->
  flow_decide s c = (s', outs, over) ->
  Forall event_valid (eventReceived (mkEventReceived msg) :: (recorded order (command_metadata x ctx msg) <$> outs)
                      ++ (if over then [ended] else []) : list ordering_event).
Proof.
  intros Hm Hmd Hu Hf. constructor; [done|]. apply Forall_app. split; [|by destruct over; repeat constructor].
  apply Forall_fmap. assert (Forall (fun o => utf8_valid (fst o)) outs) as Ht.
  { destruct c; injection Hf as <- <- <-; (constructor; [vm_compute; reflexivity | constructor]) || constructor. }
  eapply Forall_impl; [exact Ht|]. intros [t cmd] Hto. by apply recorded_valid.
Qed.

Hypothesis (Hreg : saga_registered registry) (Hu : utf8_valid order) (Hne : order <> "").

Abbreviation saga_repo := (run_repo runner).

(** A delivery the saga has no handler for. *)
Lemma unhandled ctx msg c w h :
  envelope_of msg c -> order_of c = None -> saga_Handler runner now x undisturbed ctx msg w h = (Ok tt, w, h).
Proof.
  intros [Ht Hv _ _] Ho. unfold saga_Handler. rewrite Ht, Hv. destruct c; try discriminate Ho. reflexivity.
Qed.

(** A delivery the workflow ignores. *)
Lemma ignored ctx msg c w h f hd :
  simulates w f -> def_handlers fulfillment !! eventKey (msg_Type msg) (msg_Version msg) = Some hd ->
  correlate hd msg = Ok order -> flow_ended f || bool_decide (msg_ID msg ∈ flow_seen f) = true ->
  envelope_of msg c -> saga_Handler runner now x undisturbed ctx msg w h = (Ok tt, w, h).
Proof.
  intros [Hinv (a & Hst & _ & _ & He & Hs)] Hhd Hc Hno _. unfold saga_Handler. cbn [run_def runner NewRunner].
  rewrite Hhd, Hc, decide_False by done. apply attempt_first. eapply process_nothing; [done | exact Hst|].
  by rewrite He, Hs.
Qed.

#[local] Opaque fulfillment.

Lemma requests_not_received id md outs over :
  existsb (received_id id) ((recorded order md <$> outs) ++ (if over : bool then [ended] else []) : list ordering_event) = false.
Proof.
  rewrite existsb_app. apply orb_false_iff. split; [|by destruct over].
  induction outs as [|o outs IH]; [reflexivity|]. rewrite fmap_cons. exact IH.
Qed.

(** The step of a workflow that is not over on a contract it has not seen. *)
Lemma delivery_reacts ctx msg c w h f s' outs (over : bool) :
  envelope_of msg c -> contract_valid c -> optional_map_valid (command_metadata x ctx msg) -> order_of c = Some order ->
  simulates w f -> flow_ended f = false -> bool_decide (msg_ID msg ∈ flow_seen f) = false ->
  flow_decide (flow_state f) c = (s', outs, over) -> zlen (all w) + 3 <= int64_max ->
  let evs := eventReceived (mkEventReceived msg) :: (recorded order (command_metadata x ctx msg) <$> outs)
             ++ (if over then [ended] else []) in
  exists w' h' recs, saga_Handler runner now x undisturbed ctx msg w h = (Ok tt, w', h')
    /\ simulates w' (mkFlow s' over (msg_ID msg :: flow_seen f))
    /\ all w' = all w ++ recs /\ Forall (in_stream (saga_stream runner order)) recs
    /\ res_mapM (fun rec => Decode rec (repo_registry saga_repo)) recs = Ok evs.
Proof.
  intros Henv Hv Hmd Ho Hsim Hnend Hnseen Hf Hsize evs.
  destruct (fulfillment_handles msg c order Henv Hv Ho) as (hd & Hhd & Hcorr & _).
  destruct Hsim as [Hinv (a & Hst & Hdef & Hfs & He & Hs)].
  rewrite <-Hfs in Hf. rewrite Hnend in He. pose proof (Hs (msg_ID msg)) as Hsm. rewrite Hnseen in Hsm.
  destruct (reacts_as_workflow (state a) (command_metadata x ctx msg) msg c s' outs over Hdef He Henv Hv Ho Hf) as [Hreact Hafter].
  pose proof (reaction_valid ctx msg outs over _ c s' (env_valid _ _ Henv) Hmd Hu Hf) as Hvalid.
  assert (zlen evs <= 3) as Hlen by (unfold evs, zlen; destruct c; injection Hf as <- <- <-; simpl; lia).
  assert (Forall (carries saga_repo) evs) as Hcar.
  { eapply Forall_impl; [exact Hvalid|]. intros ev Hev. exact (event_carried saga_repo ev Hreg Hev). }
  assert (zlen (all w) + zlen evs <= int64_max) as Hsz by lia.
  destruct (process_reacts runner (now (conflictRetries runner)) x ctx order msg w h a evs Hinv Hst He Hsm Hreact Hcar Hsz)
    as (w' & saved & recs & Hp & Hall & Hin & Hdec & Hinv' & Hst' & Hrep & _).
  destruct Hafter as (i' & Hrep' & Hd' & Hs' & He'). assert (Some i' = Some (state saved)) as [= ->] by exact (eq_trans (eq_sym Hrep') Hrep).
  exists w', (recordPosition ctx (zlen (all w')) h), recs. split; [|split; [|split; [|split]]]; [| |assumption..].
  - unfold saga_Handler. cbn [run_def runner NewRunner]. rewrite Hhd, Hcorr, decide_False by exact Hne. apply attempt_first. exact Hp.
  - split; [exact Hinv'|]. exists saved. split; [exact Hst'|]. split; [exact Hd'|]. split; [exact Hs'|]. split; [exact He'|].
    intros id. destruct (replay_knows _ _ _ Hrep) as [Hseen _]. rewrite Hseen, Hs. unfold evs. cbn [existsb flow_seen].
    rewrite requests_not_received, orb_false_r. cbn [received_id Envelope].
    rewrite (bool_decide_ext (id ∈ msg_ID msg :: flow_seen f) (id ∈ flow_seen f \/ msg_ID msg = id)).
    2: { rewrite elem_of_cons. split; intros [?|?]; auto. }
    by rewrite bool_decide_or.
Qed.

(** One delivery takes the stored saga where the workflow goes, appending the
    workflow's events to the order's stream. *)
Lemma delivery_simulates ctx msg c w h f evs0 :
  delivery_ok (ctx, msg, c) -> simulates w f -> stream_holds saga_repo order (all w) evs0 ->
  zlen (all w) + 3 <= int64_max ->
  let '(f', evs) := flow_step order (command_metadata x ctx msg) msg c f in
  exists w' h' recs, saga_Handler runner now x undisturbed ctx msg w h = (Ok tt, w', h')
    /\ simulates w' f' /\ stream_holds saga_repo order (all w') (evs0 ++ evs)
    /\ all w' = all w ++ recs /\ Forall (in_stream (saga_stream runner order)) recs /\ zlen recs <= 3.
Proof.
  intros (Henv & Hv & Hmd & Ho) Hsim Hst0 Hsize. unfold flow_step.
  assert (saga_Handler runner now x undisturbed ctx msg w h = (Ok tt, w, h) ->
    exists w' h' recs, saga_Handler runner now x undisturbed ctx msg w h = (Ok tt, w', h')
    /\ simulates w' f /\ stream_holds saga_repo order (all w') (evs0 ++ [])
    /\ all w' = all w ++ recs /\ Forall (in_stream (saga_stream runner order)) recs /\ zlen recs <= 3) as Hsame.
  { intros Hr. exists w, h, []. rewrite !app_nil_r. split; [exact Hr|]. split; [exact Hsim|]. split; [exact Hst0|].
    split; [reflexivity|]. split; [constructor | vm_compute; discriminate]. }
  destruct Ho as [Ho|Ho]; rewrite Ho; [|apply Hsame; exact (unhandled ctx msg c w h Henv Ho)].
  destruct (fulfillment_handles msg c order Henv Hv Ho) as (hd & Hhd & Hcorr & _).
  destruct (flow_ended f || bool_decide (msg_ID msg ∈ flow_seen f)) eqn:Hno;
    [apply Hsame; exact (ignored ctx msg c w h f hd Hsim Hhd Hcorr Hno Henv)|].
  apply orb_false_iff in Hno as [Hnend Hnseen]. destruct (flow_decide (flow_state f) c) as [[s' outs] over] eqn:Hf.
  destruct (delivery_reacts ctx msg c w h f s' outs over Henv Hv Hmd Ho Hsim Hnend Hnseen Hf Hsize)
    as (w' & h' & recs & Hrun & Hsim' & Hall & Hin & Hdec).
  exists w', h', recs. split; [exact Hrun|]. split; [exact Hsim'|]. split; [|split; [exact Hall|split; [exact Hin|]]].
  - unfold stream_holds. rewrite Hall, stream_of_app.
    assert (stream_of (repo_stream saga_repo order) recs = recs) as -> by (apply filter_all; exact Hin).
    exact (res_mapM_app _ _ _ _ _ Hst0 Hdec).
  - unfold zlen. rewrite <-(res_mapM_length _ _ _ Hdec). destruct c; injection Hf as <- <- <-; simpl; lia.
Qed.

Lemma deliveries_simulate ds : forall w h f evs0,
  Forall delivery_ok ds -> simulates w f -> stream_holds saga_repo order (all w) evs0 ->
  zlen (all w) + 3 * zlen ds <= int64_max ->
  exists w' h' recs, deliver ds w h = (replicate (length ds) (Ok tt), w', h')
    /\ simulates w' (fst (flow_run ds f)) /\ stream_holds saga_repo order (all w') (evs0 ++ snd (flow_run ds f))
    /\ all w' = all w ++ recs /\ Forall (in_stream (saga_stream runner order)) recs.
Proof.
  induction ds as [|[[ctx msg] c] ds IH]; intros w h f evs0 Hds Hsim Hst Hsize; cbn [deliver flow_run].
  { exists w, h, []. rewrite !app_nil_r. split; [reflexivity|]. split; [exact Hsim|]. split; [exact Hst|].
    split; [reflexivity | constructor]. }
  apply Forall_cons in Hds as [Hd Hds]. rewrite zlen_cons in Hsize. pose proof (zlen_nonneg ds) as Hnn.
  assert (zlen (all w) + 3 <= int64_max) as Hsz by lia.
  pose proof (delivery_simulates ctx msg c w h f evs0 Hd Hsim Hst Hsz) as Hstep.
  destruct (flow_step _ _ _ _ _) as [f1 es] eqn:Hfs. destruct Hstep as (w1 & h1 & recs1 & Hrun & Hsim1 & Hst1 & Hall1 & Hin1 & Hl1).
  assert (zlen (all w1) + 3 * zlen ds <= int64_max) as Hsz1 by (rewrite Hall1, zlen_app; lia).
  destruct (IH w1 h1 f1 _ Hds Hsim1 Hst1 Hsz1) as (w2 & h2 & recs2 & Hrest & Hsim2 & Hst2 & Hall2 & Hin2).
  rewrite Hrun, Hrest. destruct (flow_run ds f1) as [f2 es2]. exists w2, h2, (recs1 ++ recs2). cbn [fst snd] in *.
  split; [reflexivity|]. split; [exact Hsim2|]. rewrite app_assoc. split; [exact Hst2|].
  split; [rewrite Hall2, Hall1, app_assoc; reflexivity | apply Forall_app; split; assumption].
Qed.
End simulation.

(** ** What the workflow promises *)

(** The marker is the last event of a workflow, and there when it is over. *)
Definition ends_once (f : flow) (evs : list ordering_event) : Prop :=
  existsb is_ended evs = flow_ended f /\ forall k, evs !! k = Some ended -> S k = length evs.

Definition asks_refund (e : ordering_event) : bool :=
  match e with commandRequested c => bool_decide (cr_CommandName c = "billing.refund_payment") | _ => false end.

(** A refund is asked for only in the step that ends the workflow. *)
Definition refund_closes (evs : list ordering_event) : Prop :=
  forall k e, evs !! k = Some e -> asks_refund e = true -> evs !! S k = Some ended.

Lemma flow_run_over order x ds f : flow_ended f = true -> flow_run x order ds f = (f, []).
Proof.
  intros He. induction ds as [|[[ctx msg] c] ds IH]; [reflexivity|]. cbn [flow_run]. unfold flow_step.
  destruct (order_of c); [rewrite He; cbn [orb]|]; by rewrite IH.
Qed.

(** One step: either it asks for work and the workflow goes on, or it closes. *)
Lemma flow_step_closes order md msg c f :
  flow_ended f = false ->
  let '(f', evs) := flow_step order md msg c f in
  (flow_ended f' = false /\ Forall (fun e => is_ended e = false /\ asks_refund e = false) evs)
  \/ (flow_ended f' = true /\ ends_once f' evs /\ refund_closes evs).
Proof.
  intros He. unfold flow_step. destruct (order_of c); [rewrite He; cbn [orb]|by left].
  case_bool_decide; [by left|].
  destruct c; cbn [flow_decide]; first [left; split; [reflexivity | repeat constructor] | right];
    (split; [reflexivity|split; [split; [reflexivity|]|]]); unfold refund_closes;
    intros k; do 3 (destruct k as [|k]; try (intros; simpl in *; simplify_eq; fail || reflexivity));
    intros; simpl in *; simplify_eq.
Qed.

Lemma flow_run_closes order x ds : forall f,
  flow_ended f = false ->
  ends_once (fst (flow_run x order ds f)) (snd (flow_run x order ds f)) /\ refund_closes (snd (flow_run x order ds f)).
Proof.
  induction ds as [|[[ctx msg] c] ds IH]; intros f He; cbn [flow_run].
  { cbn [fst snd]. split; [split; [by rewrite He|]|]; intros k; rewrite lookup_nil; discriminate. }
  pose proof (flow_step_closes order (command_metadata x ctx msg) msg c f He) as Hstep.
  destruct (flow_step _ _ _ _ _) as [f1 es]. destruct Hstep as [(He1 & Hno)|(He1 & Honce & Href)].
  2: { rewrite (flow_run_over _ _ _ _ He1). cbn [fst snd]. by rewrite app_nil_r. }
  destruct (IH f1 He1) as [[Hex Hlast] Href]. destruct (flow_run x order ds f1) as [f2 es2]. cbn [fst snd] in *.
  assert (existsb is_ended es = false) as Hnone.
  { clear -Hno. induction Hno as [|e es [He _] _ IH]; [done|]. simpl. by rewrite He. }
  split; [split|].
  - by rewrite existsb_app, Hnone.
  - intros k. rewrite lookup_app_Some. intros [Hk|[Hle Hk]].
    + by destruct (Forall_lookup_1 _ _ _ _ Hno Hk).
    + apply Hlast in Hk. rewrite length_app. lia.
  - intros k e. rewrite lookup_app_Some. intros [Hk|[Hle Hk]] Hr.
    + destruct (Forall_lookup_1 _ _ _ _ Hno Hk) as [_ Hr']. congruence.
    + rewrite lookup_app_r by lia. replace (S k - length es)%nat with (S (k - length es)) by lia. by eapply Href.
Qed.

(** C11: the saga is its workflow. Whatever contracts of an order are delivered
    to the engine, in whatever order and however often, every delivery is
    acknowledged, the stored instance is where the workflow is, the order's
    saga stream holds exactly the workflow's events and no other stream
    changed; the end marker is its last event, written when the workflow is
    over, and a refund is only ever asked for right before it. *)
Theorem fulfillment_follows_workflow registry x now order ds w h :
  saga_registered registry -> utf8_valid order -> order <> "" ->
  Forall (delivery_ok x order) ds -> mem_inv w ->
  stream_of (saga_stream (runner registry) order) (all w) = [] ->
  zlen (all w) + 3 * zlen ds <= int64_max ->
  let '(f, evs) := flow_run x order ds flow_start in
  (exists w' h' recs, deliver registry x now ds w h = (replicate (length ds) (Ok tt), w', h')
    /\ simulates registry order w' f
    /\ stream_holds (run_repo (runner registry)) order (all w') evs
    /\ all w' = all w ++ recs /\ Forall (in_stream (saga_stream (runner registry) order)) recs)
  /\ ends_once f evs /\ refund_closes evs.
Proof.
  intros Hreg Hu Hne Hds Hinv Hempty Hsize.
  pose proof (flow_run_closes order x ds flow_start eq_refl) as Hclose.
  assert (simulates registry order w flow_start) as Hstart.
  { split; [exact Hinv|]. eexists. split; [right; split; [reflexivity | exact Hempty]|].
    split; [reflexivity|]. split; [reflexivity|]. split; [reflexivity|]. intros id. reflexivity. }
  destruct (deliveries_simulate registry x now order Hreg Hu Hne ds w h flow_start [] Hds Hstart
    (proj2 (stream_holds_nil _ _ _) Hempty) Hsize) as (w' & h' & recs & Hrun & Hsim & Hst & Hall & Hin).
  destruct (flow_run x order ds flow_start) as [f evs]. cbn [fst snd app] in *.
  split; [|exact Hclose]. exists w', h', recs. split; [exact Hrun|]. split; [exact Hsim|]. split; [exact Hst|].
  split; [exact Hall | exact Hin].
Qed.

(** ** A run of it *)

Module Sample.
Import Consumer.Sample.

Definition envelope (id : string) (c : contract) : Message :=
  mkMessage id "o-1" (ContractName c) (ContractVersion c) zero_time
    (RawJSON (match marshal_event c with Ok d => d | _ => JNull end)) None.
Definition o_placed : contract := C_OrderPlaced (mkOrderPlacedV1 "o-1" "c-1" 500 "THB" 2).
Definition o_captured : contract := C_PaymentCaptured (mkPaymentCapturedV1 "o-1" 500).
Definition o_rejected : contract := C_StockRejected (mkStockRejectedV1 "o-1" "none left").

(** Placed, captured, the placement again, and stock rejected. *)
Definition history : list (Context * Message * contract) :=
  [(background, envelope "m-1" o_placed, o_placed); (background, envelope "m-2" o_captured, o_captured);
   (background, envelope "m-1" o_placed, o_placed); (background, envelope "m-3" o_rejected, o_rejected)].
Definition empty_saga_registry : Registry ordering_event := mkRegistry ∅.
Definition sagas : Registry ordering_event :=
  match Saga.RegisterEvents empty_saga_registry with Ok r => r | _ => empty_saga_registry end.
Definition workflow : list ordering_event :=
  [eventReceived (mkEventReceived (envelope "m-1" o_placed));
   recorded "o-1" None (TopicBillingCommands, W_CapturePayment (mkCapturePayment "o-1" 500));
   eventReceived (mkEventReceived (envelope "m-2" o_captured));
   recorded "o-1" None (TopicInventoryCommands, W_ReserveStock (mkReserveStock "o-1" 2));
   eventReceived (mkEventReceived (envelope "m-3" o_rejected));
   recorded "o-1" None (TopicBillingCommands, W_RefundPayment (mkRefundPayment "o-1")); ended].

Lemma envelope_ok id c doc :
  marshal_event c = Ok doc -> utf8_valid id -> utf8_valid (ContractName c) ->
  in_int64 (ContractVersion c) -> envelope_of (envelope id c) c.
Proof.
  intros Hm Hid Hn Hver. split; [reflexivity | reflexivity | | ].
  - exists doc. split; [exact Hm|]. cbn. by rewrite Hm.
  - split; [exact Hid | vm_compute; reflexivity | exact Hn | exact Hver | apply zero_time_valid
      | cbn; rewrite Hm; by eexists | done].
Qed.
End Sample.
Import Consumer.Sample Sample.

Lemma fulfillment_follows_workflow_witness :
  flow_run None "o-1" history flow_start = (mkFlow (mkFulfillment 500 2) true ["m-3"; "m-2"; "m-1"], workflow)
  /\ exists w' h', deliver sagas None Saga.Sample.now history NewMemoryStore [] = (replicate 4 (Ok tt), w', h')
       /\ stream_holds (run_repo (runner sagas)) "o-1" (all w') workflow /\ refund_closes workflow.
Proof.
  split; [reflexivity|].
  destruct (fulfillment_follows_workflow sagas None Saga.Sample.now "o-1" history NewMemoryStore [])
    as [(w' & h' & recs & Hrun & _ & Hst & _) [_ Href]].
  - exact (saga_events_registered empty_saga_registry sagas eq_refl).
  - vm_compute. reflexivity.
  - discriminate.
  - assert (forall id c doc, marshal_event c = Ok doc -> utf8_valid id -> utf8_valid (ContractName c) ->
      in_int64 (ContractVersion c) -> contract_valid c -> order_of c = Some "o-1" ->
      delivery_ok None "o-1" (background, envelope id c, c)) as Hok.
    { intros id c doc Hm Hid Hn Hv Hc Ho. split; [exact (envelope_ok id c doc Hm Hid Hn Hv)|]. split; [exact Hc|].
      split; [exact I | left; exact Ho]. }
    apply Forall_cons; split; [|apply Forall_cons; split; [|apply Forall_cons; split; [|apply Forall_cons; split; [|constructor]]]];
      (eapply Hok; [reflexivity | vm_compute; reflexivity | vm_compute; reflexivity
      | vm_compute; split; discriminate | | reflexivity]); vm_compute; repeat split; discriminate.
  - exact mem_inv_new.
  - reflexivity.
  - vm_compute. discriminate.
  - exists w', h'. split; [exact Hrun|]. split; [exact Hst | exact Href].
Defined.
