(* ===== verification/Wiring.v ===== *)
(** * gohex-example/<service>/cmd/<service>/main.go: the composition roots

    What [run] builds in each service from the registrations of its
    application layer - registry, handlers, command registry, relay, saga
    runner, bus - and how it waits for its database. *)

From S2P Require Import Prelude Errors Utf8 GoTime Json KernelId Kernel EventStore MemoryStore Registry Checkpoint Repository Broker Envelope Cqrs Consumer Relay Saga Flat Contracts Services Order Ordering Fulfillment Billing Inventory Shipping.

(** ** What one more registration contributes *)

Lemma Translate_contributes {Ev C} `{DomainEvent Ev} `{MarshalEvent Ev} `{IntegrationEvent C} `{MarshalEvent C}
    (E : GoType Ev) (fn : carrier E -> option C) (r r' : Relay Ev C) :
  Relay.Translate E fn r = Ok r' ->
  relay_registry r' = relay_registry r /\ cfg r' = cfg r
  /\ forall rec t m, translate r' rec = Ok (t, m, true) ->
       translate r rec = Ok (t, m, true)
       \/ exists e x c, Decode rec (relay_registry r) = Ok e /\ type_assert E e = Some x /\ fn x = Some c
            /\ t = cfg_Topic (cfg r)
            /\ NewMessage (MessageID rec) (StreamKey (Stream rec)) (OccurredAt rec) c (rec_Metadata rec) = Ok m.
Proof.
  unfold Relay.Translate. destruct (translators r !! _) eqn:Ht; [done|]. destruct (routes r !! _) eqn:Hr; [done|].
  intros [= <-]. split_and!; [done..|]. intros rec t m. unfold translate. cbn [routes translators relay_registry cfg].
  destruct (routes r !! rec_EventName rec) as [route|]; [by left|].
  destruct (decide (EventName (to_interface E (zero_value E)) = rec_EventName rec)) as [<-|Hne].
  2: { rewrite lookup_insert_ne by done. by left. }
  rewrite lookup_insert_eq. intros (e & He & (i & Hi & Hm)%res_bind_ok)%res_bind_ok. right.
  destruct (type_assert E e) as [x|] eqn:Hx; [|done]. injection Hi as <-. destruct (fn x) as [c|] eqn:Hc; [|done].
  apply res_bind_ok in Hm as (m' & Hm & [= <- <-]). eauto 10.
Qed.

Lemma RegisterCommand_contributes {Cmd} `{Command Cmd} (C : GoType Cmd) `{JsonCodec (carrier C)} (r r' : CommandRegistry Cmd) :
  RegisterCommand C r = Ok r' ->
  forall msg cmd, cmd_Decode r' msg = Ok cmd ->
    cmd_Decode r msg = Ok cmd
    \/ (msg_Type msg = CommandName (to_interface C (zero_value C))
        /\ exists x, Unmarshal_raw (T := carrier C) (msg_Payload msg) = Ok x /\ cmd = to_interface C x).
Proof.
  unfold RegisterCommand. case_decide; [done|]. destruct (decoders r !! _) eqn:Hd; [done|]. intros [= <-] msg cmd.
  unfold cmd_Decode. cbn [decoders].
  destruct (decide (CommandName (to_interface C (zero_value C)) = msg_Type msg)) as [Heq|Hne].
  2: { rewrite lookup_insert_ne by done. by left. }
  rewrite <-Heq, lookup_insert_eq. unfold command_decoder. intros (x & Hx & [= <-])%res_bind_ok.
  right. split; [done|]. exists x. split; [|done].
  destruct (Unmarshal_raw (msg_Payload msg)); simpl in Hx; congruence.
Qed.

Lemma Handle_contributes {Cmd W} `{Command Cmd} (C : GoType Cmd) (fn : Context -> carrier C -> W -> res unit * W)
    (b b' : Bus Cmd W) name f :
  Handle C fn b = Ok b' -> handlers b' !! name = Some f ->
  handlers b !! name = Some f
  \/ (name = CommandName (to_interface C (zero_value C)) /\ f = typed_handler C fn).
Proof.
  unfold Handle. case_decide; [done|]. destruct (handlers b !! _) eqn:Hd; [done|]. intros [= <-]. cbn [handlers].
  rewrite lookup_insert_Some. intros [[<- <-]|[_ ?]]; auto.
Qed.

(** ** The services *)

(** What [run] builds of billing, inventory and shipping. *)
Record CommandService (Ev H : Type) := mkCommandService {
  svc_registry : Registry Ev;
  svc_handlers : H;
  svc_commands : CommandRegistry wire_command;
  svc_relay : Relay Ev contract;
}.
Arguments mkCommandService {Ev H} _ _ _ _.
Arguments svc_registry {Ev H} _.
Arguments svc_handlers {Ev H} _.
Arguments svc_commands {Ev H} _.
Arguments svc_relay {Ev H} _.

(** [relay.Config] with only the name and the topic set. *)
Definition relay_config (name topic : string) : Config := mkConfig name topic 0 0 0.

Definition billing_run : res (CommandService payment_event Billing.Handlers) :=
  try registry := Billing.RegisterEvents NewRegistry in
  try commandRegistry := Billing.RegisterCommands NewCommandRegistry in
  try rly := Relay.New registry (relay_config "billing.relay" TopicBillingEvents) in
  try rly := Billing.RegisterTranslators rly in
  Ok (mkCommandService registry (Billing.New registry) commandRegistry rly).

Definition inventory_run : res (CommandService stock_event Inventory.Handlers) :=
  try registry := Inventory.RegisterEvents NewRegistry in
  try commandRegistry := Inventory.RegisterCommands NewCommandRegistry in
  try rly := Relay.New registry (relay_config "inventory.relay" TopicInventoryEvents) in
  try rly := Inventory.RegisterTranslators rly in
  Ok (mkCommandService registry (Inventory.New registry) commandRegistry rly).

Definition shipping_run : res (CommandService shipment_event Shipping.Handlers) :=
  try registry := Shipping.RegisterEvents NewRegistry in
  try commandRegistry := Shipping.RegisterCommands NewCommandRegistry in
  try rly := Relay.New registry (relay_config "shipping.relay" TopicShippingEvents) in
  try rly := Shipping.RegisterTranslators rly in
  Ok (mkCommandService registry (Shipping.New registry) commandRegistry rly).

(** What [run] builds of ordering: it consumes no wire commands, and hosts the
    saga. *)
Record OrderingService := mkOrderingService {
  os_registry : Registry ordering_event;
  os_handlers : Ordering.Handlers;
  os_relay : Relay ordering_event contract;
  os_fulfillment : Runner Fulfillment wire_command order_event;
}.

Definition ordering_run (u : N -> N) : res OrderingService :=
  try registry := Ordering.RegisterEvents u NewRegistry in
  try rly := Relay.New registry (relay_config "ordering.relay" TopicOrderingEvents) in
  try rly := Ordering.RegisterTranslators rly in
  try def := NewFulfillmentSaga in
  Ok (mkOrderingService registry (Ordering.New registry) rly (NewRunner (mkFulfillment 0 0) def registry)).

(** The buses; the middleware traces. *)
Section buses.
Context {W : Type} `{Store W} `{Clock (W * heap)}.
Variables (now : W -> Time) (x : Extractor) (others : W -> W).

Definition billing_bus (mw : list (Middleware wire_command (W * heap))) (h : Billing.Handlers) : res (Bus wire_command (W * heap)) :=
  Billing.Register now x others h (NewBus [WithMiddleware mw]).
Definition inventory_bus (mw : list (Middleware wire_command (W * heap))) (h : Inventory.Handlers) : res (Bus wire_command (W * heap)) :=
  Inventory.Register now x others h (NewBus [WithMiddleware mw]).
Definition shipping_bus (mw : list (Middleware wire_command (W * heap))) (h : Shipping.Handlers) : res (Bus wire_command (W * heap)) :=
  Shipping.Register now x others h (NewBus [WithMiddleware mw]).
Definition ordering_bus (u : N -> N) (mw : list (Middleware local_command (W * heap))) (h : Ordering.Handlers) : res (Bus local_command (W * heap)) :=
  Ordering.Register u now x others h (NewBus [WithMiddleware mw]).
End buses.

(** Nothing in the wiring panics. *)
Lemma services_run u :
  is_ok (ordering_run u) = true /\ is_ok billing_run = true /\ is_ok inventory_run = true /\ is_ok shipping_run = true.
Proof. by split_and!. Qed.

(** ** What the wired pieces do *)

(** The contracts the translators make of the services' events. *)
Definition placed_contract (p : OrderPlaced) : OrderPlacedV1 :=
  mkOrderPlacedV1 (value (placed_ID p)) (value (placed_Customer p)) (cents (placed_Total p))
    (currency (placed_Total p)) (Order.Int (placed_Qty p)).
Definition order_contract (e : ordering_event) : option contract :=
  match e with other (E_OrderPlaced p) => Some (C_OrderPlaced (placed_contract p)) | _ => None end.
Definition payment_contract (e : payment_event) : option contract :=
  match e with
  | E_PaymentCaptured e => Some (C_PaymentCaptured (mkPaymentCapturedV1 (captured_OrderID e) (captured_Cents e)))
  | E_PaymentFailed e => Some (C_PaymentFailed (mkPaymentFailedV1 (failed_OrderID e) (failed_Reason e)))
  | E_PaymentRefunded e => Some (C_PaymentRefunded (mkPaymentRefundedV1 (refunded_OrderID e)))
  | Billing.E_foreign _ => None
  end.
Definition stock_contract (e : stock_event) : option contract :=
  match e with
  | E_StockReserved e => Some (C_StockReserved (mkStockReservedV1 (reserved_OrderID e) (reserved_Qty e)))
  | E_StockRejected e => Some (C_StockRejected (mkStockRejectedV1 (rejected_OrderID e) (rejected_Reason e)))
  | Inventory.E_foreign _ => None
  end.
Definition shipment_contract (e : shipment_event) : option contract :=
  match e with
  | E_ShipmentDispatched e => Some (C_ShipmentDispatched (mkShipmentDispatchedV1 (dispatched_OrderID e)))
  | Shipping.E_foreign _ => None
  end.

Section facts.
Context {Ev C : Type} `{DomainEvent Ev} `{MarshalEvent Ev} `{IntegrationEvent C} `{MarshalEvent C}.

(** A new relay publishes nothing. *)
Lemma New_publishes (registry : Registry Ev) c (r : Relay Ev C) :
  Relay.New registry c = Ok r ->
  relay_registry r = registry /\ cfg_Topic (cfg r) = cfg_Topic c
  /\ translators r = ∅ /\ routes r = ∅ /\ forall rec t m, translate r rec <> Ok (t, m, true).
Proof.
  unfold Relay.New. case_decide; [done|]. intros [= <-]. split_and!; [done..|]. intros rec t m.
  unfold translate. cbn [routes translators]. rewrite !lookup_empty. by intros [=].
Qed.

(** The relay publishes for [rec] the contract of its event. *)
Definition publishes (contract_of : Ev -> option C) (r : Relay Ev C) : Prop :=
  forall rec t m, translate r rec = Ok (t, m, true) ->
    exists e c, Decode rec (relay_registry r) = Ok e /\ contract_of e = Some c /\ t = cfg_Topic (cfg r)
      /\ NewMessage (MessageID rec) (StreamKey (Stream rec)) (OccurredAt rec) c (rec_Metadata rec) = Ok m.
End facts.

(** One more translator that follows [contract_of]. *)
Lemma Translate_publishes {Ev C} `{DomainEvent Ev} `{MarshalEvent Ev} `{IntegrationEvent C} `{MarshalEvent C}
    (E : GoType Ev) (fn : carrier E -> option C) (contract_of : Ev -> option C) (r r' : Relay Ev C) :
  Relay.Translate E fn r = Ok r' -> publishes contract_of r ->
  (forall e x, type_assert E e = Some x -> contract_of e = fn x) -> publishes contract_of r'.
Proof.
  intros (Hreg & Hcfg & Hadd)%Translate_contributes Hr Hfn rec t m Ht. rewrite Hreg, Hcfg.
  apply Hadd in Ht as [Ht|(e & x & c & Hd & Hx & Hc & Htopic & Hm)]; [by apply Hr|].
  exists e, c. split_and!; try done. by rewrite (Hfn e x Hx).
Qed.

Lemma New_publishes_contracts {Ev C} `{DomainEvent Ev} `{MarshalEvent Ev} `{IntegrationEvent C} `{MarshalEvent C}
    (registry : Registry Ev) c (contract_of : Ev -> option C) r :
  Relay.New registry c = Ok r -> publishes contract_of r /\ relay_registry r = registry.
Proof. intros (Hreg & _ & _ & _ & Hno)%New_publishes. split; [|done]. intros rec t m Ht. by destruct (Hno rec t m). Qed.

Ltac contract_of_event := intros e y He; destruct e; by simplify_eq/=.

Lemma billing_run_ok bs :
  billing_run = Ok bs ->
  billing_ok (svc_handlers bs) /\ relay_registry (svc_relay bs) = repo_registry (payments (svc_handlers bs))
  /\ publishes payment_contract (svc_relay bs).
Proof.
  intros (reg & Hreg & (cmds & Hcmds & (r0 & H0 & (r & Hr & [= <-])%res_bind_ok)%res_bind_ok)%res_bind_ok)%res_bind_ok.
  destruct (New_publishes_contracts _ _ payment_contract _ H0) as [Hp Hr0].
  unfold Billing.RegisterTranslators in Hr. apply res_bind_ok in Hr as (r1 & H1 & (r2 & H2 & H3)%res_bind_ok).
  cbn [svc_handlers svc_relay Billing.New payments repo_registry]. split_and!.
  - exact (billing_New_ok _ (payment_events_registered _ _ Hreg)).
  - destruct (Translate_contributes _ _ _ _ H1) as [E1 _], (Translate_contributes _ _ _ _ H2) as [E2 _],
      (Translate_contributes _ _ _ _ H3) as [E3 _]. congruence.
  - apply (Translate_publishes _ _ _ _ _ H3); [|contract_of_event].
    apply (Translate_publishes _ _ _ _ _ H2); [|contract_of_event].
    apply (Translate_publishes _ _ _ _ _ H1); [done|contract_of_event].
Qed.

Lemma inventory_run_ok ns :
  inventory_run = Ok ns ->
  inventory_ok (svc_handlers ns) /\ relay_registry (svc_relay ns) = repo_registry (reservations (svc_handlers ns))
  /\ repo_category (reservations (svc_handlers ns)) = Inventory.Category /\ publishes stock_contract (svc_relay ns).
Proof.
  intros (reg & Hreg & (cmds & Hcmds & (r0 & H0 & (r & Hr & [= <-])%res_bind_ok)%res_bind_ok)%res_bind_ok)%res_bind_ok.
  destruct (New_publishes_contracts _ _ stock_contract _ H0) as [Hp Hr0].
  unfold Inventory.RegisterTranslators in Hr. apply res_bind_ok in Hr as (r1 & H1 & H2).
  cbn [svc_handlers svc_relay Inventory.New reservations repo_registry repo_category]. split_and!; [| |done|].
  - exact (inventory_New_ok _ (stock_events_registered _ _ Hreg)).
  - destruct (Translate_contributes _ _ _ _ H1) as [E1 _], (Translate_contributes _ _ _ _ H2) as [E2 _]. congruence.
  - apply (Translate_publishes _ _ _ _ _ H2); [|contract_of_event].
    apply (Translate_publishes _ _ _ _ _ H1); [done|contract_of_event].
Qed.

Lemma shipping_run_ok ss :
  shipping_run = Ok ss ->
  shipping_ok (svc_handlers ss) /\ relay_registry (svc_relay ss) = repo_registry (shipments (svc_handlers ss))
  /\ repo_category (shipments (svc_handlers ss)) = Shipping.Category /\ publishes shipment_contract (svc_relay ss).
Proof.
  intros (reg & Hreg & (cmds & Hcmds & (r0 & H0 & (r & Hr & [= <-])%res_bind_ok)%res_bind_ok)%res_bind_ok)%res_bind_ok.
  destruct (New_publishes_contracts _ _ shipment_contract _ H0) as [Hp Hr0].
  unfold Shipping.RegisterTranslators in Hr.
  cbn [svc_handlers svc_relay Shipping.New shipments repo_registry repo_category]. split_and!; [| |done|].
  - exact (shipping_New_ok _ _ Hreg).
  - destruct (Translate_contributes _ _ _ _ Hr) as [E1 _]. congruence.
  - apply (Translate_publishes _ _ _ _ _ Hr); [done|contract_of_event].
Qed.

(** The routing of recorded commands joins what the relay published before. *)
Lemma RegisterCommandRouting_contributes {X C} `{DomainEvent X} `{MarshalEvent X} `{IntegrationEvent C} `{MarshalEvent C}
    (r r' : Relay (saga_event X) C) :
  RegisterCommandRouting r = Ok r' ->
  relay_registry r' = relay_registry r
  /\ forall rec t m, translate r' rec = Ok (t, m, true) ->
       translate r rec = Ok (t, m, true)
       \/ exists cr, Decode rec (relay_registry r) = Ok (commandRequested cr) /\ t = cr_Topic cr /\ m = command_message rec cr.
Proof.
  unfold RegisterCommandRouting, Route. destruct (routes r !! _) eqn:Hr; [done|].
  destruct (translators r !! _) eqn:Ht; [done|]. intros [= <-]. split; [done|]. intros rec t m.
  unfold translate at 1. cbn [routes relay_registry translators].
  destruct (decide (EventName (commandRequested zero_requested : saga_event X) = rec_EventName rec)) as [<-|Hne].
  2: { rewrite lookup_insert_ne by done. by left. }
  rewrite lookup_insert_eq. intros (e & He & Hm)%res_bind_ok. right. destruct e as [ev|cr| |y]; try done.
  exists cr. split; [done|]. cbn [route_command] in Hm. injection Hm as <- <-. done.
Qed.

Lemma ordering_run_ok u os :
  ordering_run u = Ok os ->
  ordering_ok u (os_handlers os) /\ saga_registered (repo_registry (orders (os_handlers os)))
  /\ os_fulfillment os = Fulfillment.runner (repo_registry (orders (os_handlers os)))
  /\ relay_registry (os_relay os) = repo_registry (orders (os_handlers os))
  /\ forall rec t m, translate (os_relay os) rec = Ok (t, m, true) ->
       (exists p, Decode rec (relay_registry (os_relay os)) = Ok (other (E_OrderPlaced p))
          /\ NewMessage (MessageID rec) (StreamKey (Stream rec)) (OccurredAt rec) (C_OrderPlaced (placed_contract p)) (rec_Metadata rec) = Ok m)
       \/ exists cr, Decode rec (relay_registry (os_relay os)) = Ok (commandRequested cr) /\ t = cr_Topic cr /\ m = command_message rec cr.
Proof.
  intros (reg & Hreg & (r0 & H0 & (r & Hr & (def & Hdef & [= <-])%res_bind_ok)%res_bind_ok)%res_bind_ok)%res_bind_ok.
  destruct (New_publishes_contracts _ _ order_contract _ H0) as [Hp Hr0].
  unfold Ordering.RegisterTranslators in Hr. apply res_bind_ok in Hr as (r1 & H1 & H2).
  destruct (Ordering.RegisterEvents_ok u _ _ Hreg) as [Hok Hsaga].
  rewrite NewFulfillmentSaga_ok in Hdef. injection Hdef as <-.
  destruct (RegisterCommandRouting_contributes _ _ H2) as [E2 Hadd], (Translate_contributes _ _ _ _ H1) as [E1 _].
  cbn [os_handlers os_relay os_fulfillment Ordering.New orders repo_registry]. split_and!; try done; [congruence|].
  intros rec t m [Ht|(cr & Hd & ? & ?)]%Hadd.
  - left. assert (publishes order_contract r1) as Hp1.
    { apply (Translate_publishes _ _ _ _ _ H1); [done|]. intros e y He. destruct e as [| | |[]]; by simplify_eq/=. }
    destruct (Hp1 _ _ _ Ht) as (e & c & Hd & Hc & _ & Hm). rewrite E2. destruct e as [| | |[p| |]]; try done.
    injection Hc as <-. by exists p.
  - right. exists cr. rewrite E2. done.
Qed.

(** *** The command registries *)

Lemma billing_decodes bs msg cmd :
  billing_run = Ok bs -> cmd_Decode (svc_commands bs) msg = Ok cmd ->
  (msg_Type msg = "billing.capture_payment"
   /\ exists y, Unmarshal_raw (T := carrier CapturePayment_type) (msg_Payload msg) = Ok y /\ cmd = W_CapturePayment y)
  \/ (msg_Type msg = "billing.refund_payment"
   /\ exists y, Unmarshal_raw (T := carrier RefundPayment_type) (msg_Payload msg) = Ok y /\ cmd = W_RefundPayment y).
Proof.
  intros (reg & _ & (cmds & Hcmds & (r0 & _ & (r & _ & [= <-])%res_bind_ok)%res_bind_ok)%res_bind_ok)%res_bind_ok.
  unfold Billing.RegisterCommands in Hcmds. apply res_bind_ok in Hcmds as (c1 & H1 & H2). cbn [svc_commands].
  intros [[Hd|?]%(RegisterCommand_contributes _ _ _ H1)|?]%(RegisterCommand_contributes _ _ _ H2); [|by left|by right].
  unfold cmd_Decode, NewCommandRegistry in Hd. cbn [decoders] in Hd. by rewrite lookup_empty in Hd.
Qed.

Lemma inventory_decodes ns msg cmd :
  inventory_run = Ok ns -> cmd_Decode (svc_commands ns) msg = Ok cmd ->
  msg_Type msg = "inventory.reserve_stock"
  /\ exists y, Unmarshal_raw (T := carrier ReserveStock_type) (msg_Payload msg) = Ok y /\ cmd = W_ReserveStock y.
Proof.
  intros (reg & _ & (cmds & Hcmds & (r0 & _ & (r & _ & [= <-])%res_bind_ok)%res_bind_ok)%res_bind_ok)%res_bind_ok.
  unfold Inventory.RegisterCommands in Hcmds. cbn [svc_commands].
  intros [Hd|?]%(RegisterCommand_contributes _ _ _ Hcmds); [|done].
  unfold cmd_Decode, NewCommandRegistry in Hd. cbn [decoders] in Hd. by rewrite lookup_empty in Hd.
Qed.

Lemma shipping_decodes ss msg cmd :
  shipping_run = Ok ss -> cmd_Decode (svc_commands ss) msg = Ok cmd ->
  msg_Type msg = "shipping.create_shipment"
  /\ exists y, Unmarshal_raw (T := carrier CreateShipment_type) (msg_Payload msg) = Ok y /\ cmd = W_CreateShipment y.
Proof.
  intros (reg & _ & (cmds & Hcmds & (r0 & _ & (r & _ & [= <-])%res_bind_ok)%res_bind_ok)%res_bind_ok)%res_bind_ok.
  unfold Shipping.RegisterCommands in Hcmds. cbn [svc_commands].
  intros [Hd|?]%(RegisterCommand_contributes _ _ _ Hcmds); [|done].
  unfold cmd_Decode, NewCommandRegistry in Hd. cbn [decoders] in Hd. by rewrite lookup_empty in Hd.
Qed.

(** *** The buses *)

(** One attempt of the handler the bus has for the command. *)
Definition handle_once {Cmd W} `{Command Cmd} (b : Bus Cmd W) (ctx : Context) (cmd : Cmd) (w : W) : option (res unit * W) :=
  match handlers b !! CommandName cmd with Some f => Some (f ctx cmd w) | None => None end.

Section handling.
Context {W : Type} `{Store W} `{Clock (W * heap)}.
Variables (now : W -> Time) (x : Extractor) (others : W -> W).

Lemma handle_once_new {Cmd} `{Command Cmd} (mw : list (Middleware Cmd (W * heap))) name :
  handlers (NewBus [WithMiddleware mw]) !! name = None.
Proof. apply lookup_empty. Qed.

Lemma billing_handles mw h b ctx cmd (w : W * heap) out :
  billing_bus now x others mw h = Ok b -> handle_once b ctx cmd w = Some out ->
  match cmd with
  | W_CapturePayment c => out = CapturePayment now x others h ctx c w
  | W_RefundPayment c => out = RefundPayment now x others h ctx c w
  | _ => False
  end.
Proof.
  unfold billing_bus, Billing.Register. intros (b1 & H1 & H2)%res_bind_ok. unfold handle_once.
  destruct (handlers b !! _) as [f|] eqn:Hf; [|done]. intros [= <-].
  apply (Handle_contributes _ _ _ _ _ _ H2) in Hf as [Hf|[Hn ->]].
  - apply (Handle_contributes _ _ _ _ _ _ H1) in Hf as [Hf|[Hn ->]].
    + by rewrite handle_once_new in Hf.
    + by destruct cmd.
  - by destruct cmd.
Qed.

Lemma inventory_handles mw h b ctx cmd (w : W * heap) out :
  inventory_bus now x others mw h = Ok b -> handle_once b ctx cmd w = Some out ->
  match cmd with W_ReserveStock c => out = ReserveStock now x others h ctx c w | _ => False end.
Proof.
  unfold inventory_bus, Inventory.Register. intros H1. unfold handle_once.
  destruct (handlers b !! _) as [f|] eqn:Hf; [|done]. intros [= <-].
  apply (Handle_contributes _ _ _ _ _ _ H1) in Hf as [Hf|[Hn ->]].
  - by rewrite handle_once_new in Hf.
  - by destruct cmd.
Qed.

Lemma shipping_handles mw h b ctx cmd (w : W * heap) out :
  shipping_bus now x others mw h = Ok b -> handle_once b ctx cmd w = Some out ->
  match cmd with W_CreateShipment c => out = CreateShipment now x others h ctx c w | _ => False end.
Proof.
  unfold shipping_bus, Shipping.Register. intros H1. unfold handle_once.
  destruct (handlers b !! _) as [f|] eqn:Hf; [|done]. intros [= <-].
  apply (Handle_contributes _ _ _ _ _ _ H1) in Hf as [Hf|[Hn ->]].
  - by rewrite handle_once_new in Hf.
  - by destruct cmd.
Qed.

Lemma ordering_handles u mw h b ctx cmd (w : W * heap) out :
  ordering_bus now x others u mw h = Ok b -> handle_once b ctx cmd w = Some out ->
  match cmd with
  | L_PlaceOrder c => out = PlaceOrder_handler now x others h ctx c w
  | L_NotifyCustomer c => out = NotifyCustomer_handler u now x others h ctx c w
  end.
Proof.
  unfold ordering_bus, Ordering.Register. intros (b1 & H1 & H2)%res_bind_ok. unfold handle_once.
  destruct (handlers b !! _) as [f|] eqn:Hf; [|done]. intros [= <-].
  apply (Handle_contributes _ _ _ _ _ _ H2) in Hf as [Hf|[Hn ->]].
  - apply (Handle_contributes _ _ _ _ _ _ H1) in Hf as [Hf|[Hn ->]].
    + by rewrite handle_once_new in Hf.
    + by destruct cmd.
  - by destruct cmd.
Qed.
End handling.

(** ** Reaching the database

    [pgxpool] is a parameter: opening, pinging and closing a pool, and what
    [ctx.Err] says of an ended context. *)

Definition envOr (Getenv : string -> string) (key fallback : string) : string :=
  if decide (Getenv key <> "") then Getenv key else fallback.

Definition Second : Z := 1000000000.

Section connect.
Context {Pool W : Type} `{Clock W}.
Variables (pgxpool_New : Context -> string -> W -> res Pool * W) (Ping : Context -> Pool -> W -> res unit * W)
  (Close : Pool -> W -> W) (ctx_Err : Context -> error).

(** One attempt: an open pool, or the error it failed with. *)
Definition connect_once (ctx : Context) (dsn : string) (w : W) : res Pool * W :=
  match pgxpool_New ctx dsn w with
  | (Ok pool, w1) =>
    match Ping ctx pool w1 with
    | (Ok _, w2) => (Ok pool, w2)
    | (Err e, w2) => (Err e, Close pool w2)
    | (Panic m, w2) => (Panic m, w2)
    end
  | failed => failed
  end.

(** [for range left], the last error so far being [lastErr]. *)
Fixpoint connect_loop (left : nat) (lastErr : error) (ctx : Context) (dsn : string) (w : W) : res Pool * W :=
  match left with
  | O => (Err (EWrap "postgres unreachable: " lastErr ""), w)
  | S left' =>
    match connect_once ctx dsn w with
    | (Err e, w1) =>
      let '(fired, w2) := after ctx Second w1 in
      if fired then connect_loop left' e ctx dsn w2 else (Err (ctx_Err ctx), w2)
    | done => done
    end
  end.

(** [%w] of a nil error is not reached: the loop's range is not empty. *)
Definition connectPostgres (ctx : Context) (dsn : string) (w : W) : res Pool * W :=
  connect_loop 30 (EText "%!w(<nil>)") ctx dsn w.

(** The worlds after [n] attempts that failed with the timer running on. *)
Fixpoint retries (n : nat) (ctx : Context) (dsn : string) (w w' : W) : Prop :=
  match n with
  | O => w' = w
  | S n => exists e w1 w2, connect_once ctx dsn w = (Err e, w1) /\ after ctx Second w1 = (true, w2) /\ retries n ctx dsn w2 w'
  end.

(** At most [left] attempts, a second apart, and only failed ones before the
    last; a pool it returns has answered a ping. *)
Lemma connect_loop_result left lastErr ctx dsn w r w' :
  connect_loop left lastErr ctx dsn w = (r, w') ->
  (exists n wn, (n < left)%nat /\ retries n ctx dsn w wn
     /\ ((connect_once ctx dsn wn = (r, w') /\ forall e, r <> Err e)
         \/ exists e w1, connect_once ctx dsn wn = (Err e, w1) /\ after ctx Second w1 = (false, w') /\ r = Err (ctx_Err ctx)))
  \/ (retries left ctx dsn w w' /\ exists e, r = Err (EWrap "postgres unreachable: " e "")).
Proof.
  revert lastErr w. induction left as [|left IH]; intros lastErr w; cbn [connect_loop].
  { intros [= <- <-]. right. split; [done | by eexists]. }
  destruct (connect_once ctx dsn w) as [[pool|e|m] w1] eqn:E.
  - intros [= <- <-]. left. exists 0%nat, w. split; [lia|]. split; [done|]. by left.
  - destruct (after ctx Second w1) as [[] w2] eqn:Ea.
    + intros [(n & wn & Hn & Hr & Hcase)|[Hr He]]%IH; [left | right].
      * exists (S n), wn. split; [lia|]. split; [by exists e, w1, w2 | done].
      * split; [by exists e, w1, w2 | done].
    + intros [= <- <-]. left. exists 0%nat, w. split; [lia|]. split; [done|]. right. by exists e, w1.
  - intros [= <- <-]. left. exists 0%nat, w. split; [lia|]. split; [done|]. by left.
Qed.
End connect.
