(* ===== verification/Causality.v ===== *)
(** * What the four services' logs owe each other

    The facts a contract states, the commands the saga recorded, and the
    causal conditions under which each stream of each service is explained by
    the others. Nothing here runs: these are properties of four logs, monotone
    in them. *)

From S2P Require Import Prelude Errors Utf8 GoTime Json KernelId Kernel EventStore MemoryStore Registry Checkpoint Repository Broker Envelope Cqrs Consumer Relay Saga Flat Contracts Services Order Ordering Fulfillment Wiring Billing Inventory Shipping.

(** ** Logs that grow *)

Section growth.
Context {S Ev : Type} `{DomainEvent Ev}.
Implicit Types (repo : Repository S Ev) (id : string) (log recs : list RecordedEvent) (e : Ev).

(** The log grew, at its end, by records of one category. *)
Definition grows_in (cat : string) log log' : Prop :=
  exists recs, log' = log ++ recs /\ Forall (fun r => EventStore.Category (Stream r) = cat) recs.

(** The stream of [id] has the event. *)
Definition stored_in repo id log e : Prop := exists evs, stream_holds repo id log evs /\ e ∈ evs.

Lemma stream_holds_grows repo id log recs evs evs' :
  stream_holds repo id log evs -> stream_holds repo id (log ++ recs) evs' -> exists more, evs' = evs ++ more.
Proof.
  unfold stream_holds. rewrite stream_of_app, !res_mapM_ok. intros Hl (l1 & l2 & H1 & _ & ->)%Forall2_app_inv_l.
  exists l2. f_equal. clear -Hl H1. revert l1 H1. induction Hl as [|rec e recs evs Hd _ IH]; intros l1 H1.
  - by apply Forall2_nil_inv_l in H1.
  - apply Forall2_cons_inv_l in H1 as (e' & l1' & Hd' & Hr & ->). rewrite Hd in Hd'. injection Hd' as ->.
    f_equal. by apply IH.
Qed.

Lemma stored_in_grows repo legal id log log' e :
  log `prefix_of` log' -> streams_ok repo legal log' -> stored_in repo id log e -> stored_in repo id log' e.
Proof.
  intros [recs ->] Hok (evs & Hh & He). destruct (Hok id) as (evs' & Hh' & _).
  destruct (stream_holds_grows _ _ _ _ _ _ Hh Hh') as [more ->]. eexists. split; [exact Hh'|]. apply elem_of_app. by left.
Qed.

Lemma streams_ok_impl repo (legal legal' : string -> list Ev -> Prop) log :
  (forall id evs, legal id evs -> legal' id evs) -> streams_ok repo legal log -> streams_ok repo legal' log.
Proof. intros Hi Hok id. destruct (Hok id) as (evs & ? & ?). eauto. Qed.

(** Other categories do not matter. *)
Lemma streams_ok_elsewhere repo legal cat log log' :
  cat <> repo_category repo -> grows_in cat log log' -> streams_ok repo legal log -> streams_ok repo legal log'.
Proof.
  intros Hne (recs & -> & Hrecs) Hok id. destruct (Hok id) as (evs & Hh & Hl). exists evs. split; [|done].
  apply stream_holds_other; [|done]. eapply Forall_impl; [exact Hrecs|]. intros r Hr Hs. simpl in Hr. rewrite Hs in Hr. done.
Qed.

(** A record of the repository's category is an event of a stream. *)
Lemma stored_record repo legal log rec :
  streams_ok repo legal log -> rec ∈ log -> EventStore.Category (Stream rec) = repo_category repo ->
  exists evs e, stream_holds repo (StreamKey (Stream rec)) log evs /\ legal (StreamKey (Stream rec)) evs
    /\ Decode rec (repo_registry repo) = Ok e /\ e ∈ evs.
Proof.
  intros Hok Hin Hcat. destruct (Hok (StreamKey (Stream rec))) as (evs & Hh & Hl). pose proof Hh as Hall.
  unfold stream_holds in Hall. apply res_mapM_ok in Hall.
  assert (rec ∈ stream_of (repo_stream repo (StreamKey (Stream rec))) log) as Hs.
  { apply list_elem_of_filter. split; [|done]. unfold repo_stream. rewrite <-Hcat. by destruct (Stream rec). }
  apply list_elem_of_lookup in Hs as [i Hi]. destruct (Forall2_lookup_l _ _ _ _ _ Hall Hi) as (e & He & Hd).
  exists evs, e. split_and!; try done. by eapply list_elem_of_lookup_2.
Qed.
End growth.

(** ** What a handler's run adds to the log

    The handler loads from [w]; the rest of the world has made the store [cur]
    by the time it saves. *)

Section runs.
Context {S Ev W : Type} `{DomainEvent Ev} `{MarshalEvent Ev} `{Aggregate S Ev} `{StoreSpec W}.
Implicit Types (repo : Repository S Ev) (id : string) (a : Agg S Ev) (w cur : W).

Lemma appended_grows_in s v es log log' : appended s v es log log' -> grows_in (EventStore.Category s) log log'.
Proof.
  intros (recs & -> & _ & Hin & _). exists recs. split; [done|].
  eapply Forall_impl; [exact Hin|]. by intros r <-.
Qed.

Lemma save_grows repo now x ctx id a w cur h r w' h' :
  store_inv cur -> last_seq (log_of cur) + zlen (UncommittedEvents a) <= int64_max ->
  save now x (fun _ => cur) repo ctx id a (w, h) = (r, (w', h')) ->
  store_inv w' /\ grows_in (repo_category repo) (log_of cur) (log_of w').
Proof.
  intros Hinv Hsize Hs. destruct (decide (UncommittedEvents a = [])) as [Hn|Hne].
  - unfold save, repo_Save in Hs. cbn [fst snd] in Hs. rewrite decide_True in Hs by done. injection Hs as _ <- _.
    split; [done|]. exists []. by rewrite app_nil_r.
  - destruct (save_atomic repo now x (fun _ => cur) ctx id a w h r w' h' Hinv Hne Hsize Hs) as [Hinv' [->|(_ & data & _ & Happ)]].
    + split; [done|]. exists []. by rewrite app_nil_r.
    + split; [done|]. by apply (appended_grows_in _ _ _ _ _ Happ).
Qed.

(** The log the call loaded from, or the present one with more of the
    repository's records. *)
Definition settles repo w cur w' : Prop :=
  store_inv w' /\ (log_of w' = log_of w \/ grows_in (repo_category repo) (log_of cur) (log_of w')).

Lemma load_settles repo id w cur l w1 :
  store_inv w -> repo_Load repo id w = (l, w1) -> settles repo w cur w1.
Proof.
  intros Hinv. unfold repo_Load. destruct (Load _ 0 w) as [r w2] eqn:E. intros [= _ <-].
  destruct (Load_spec _ _ _ _ _ Hinv E) as (? & ? & _). split; [done | by left].
Qed.

Lemma save_settles repo now x ctx id a w w1 cur h r w' h' :
  store_inv cur -> last_seq (log_of cur) + zlen (UncommittedEvents a) <= int64_max ->
  save now x (fun _ => cur) repo ctx id a (w1, h) = (r, (w', h')) -> settles repo w cur w'.
Proof. intros Hinv Hsize Hs. destruct (save_grows _ _ _ _ _ _ _ _ _ _ _ _ Hinv Hsize Hs). split; auto. Qed.

Lemma decide_once_settles repo now x ctx id build w cur h r w' h' :
  store_inv w -> store_inv cur -> (forall a, build = Ok a -> zlen (UncommittedEvents a) <= 1) ->
  last_seq (log_of cur) + 1 <= int64_max ->
  decide_once now x (fun _ => cur) repo ctx id build (w, h) = (r, (w', h')) -> settles repo w cur w'.
Proof.
  intros Hinv Hcur Hb Hsize. unfold decide_once. cbn [fst snd].
  destruct (repo_Load repo id w) as [l w1] eqn:El. pose proof (load_settles _ _ _ cur _ _ Hinv El) as Hl.
  destruct l as [a|e|m]; [by intros [= _ <- _]| |by intros [= _ <- _]].
  destruct (negb _); [by intros [= _ <- _]|]. destruct build as [a|e'|m] eqn:Eb; [|by intros [= _ <- _]..].
  apply save_settles; [done|]. specialize (Hb a eq_refl). lia.
Qed.

(** Settling is what [rely] asks of the rest of the world. *)
Lemma rely_settled repo legal w cur n :
  store_inv cur -> streams_ok repo legal (log_of cur) -> log_of w `prefix_of` log_of cur ->
  last_seq (log_of cur) + n <= int64_max -> rely repo legal (fun _ => cur) w n.
Proof. intros Hinv Hok [recs Hrecs] Hsize. split; intros v Hv Hl; try done. exists recs. by rewrite Hl. Qed.
End runs.

(** ** Four logs *)

Record ledger := mkLedger {
  l_orders : list RecordedEvent; (* the ordering service's: orders and sagas *)
  l_payments : list RecordedEvent;
  l_stock : list RecordedEvent;
  l_shipments : list RecordedEvent;
}.

Section causes.
Variables (os : OrderingService) (bs : CommandService payment_event Billing.Handlers)
  (ns : CommandService stock_event Inventory.Handlers) (ss : CommandService shipment_event Shipping.Handlers).

Definition orders_repo : Repository Order ordering_event := orders (os_handlers os).
Definition sagas_repo : Repository (instance Fulfillment wire_command) ordering_event := run_repo (os_fulfillment os).
Definition payments_repo : Repository Payment payment_event := payments (svc_handlers bs).
Definition stock_repo : Repository Reservation stock_event := reservations (svc_handlers ns).
Definition shipments_repo : Repository Shipment shipment_event := shipments (svc_handlers ss).

Implicit Types (L : ledger) (order : string).

(** The contract states something that is on its service's log. *)
Definition fact L (c : contract) : Prop :=
  match c with
  | C_OrderPlaced e => exists p, placed_valid p /\ e = placed_contract p
      /\ stored_in orders_repo (op_OrderID e) (l_orders L) (other (E_OrderPlaced p))
  | C_PaymentCaptured e =>
      stored_in payments_repo (pc_OrderID e) (l_payments L) (E_PaymentCaptured (mkPaymentCaptured (pc_OrderID e) (pc_Cents e)))
  | C_PaymentFailed e =>
      stored_in payments_repo (pf_OrderID e) (l_payments L) (E_PaymentFailed (mkPaymentFailed (pf_OrderID e) (pf_Reason e)))
  | C_PaymentRefunded e =>
      stored_in payments_repo (pr_OrderID e) (l_payments L) (E_PaymentRefunded (mkPaymentRefunded (pr_OrderID e)))
  | C_StockReserved e =>
      stored_in stock_repo (sr_OrderID e) (l_stock L) (E_StockReserved (mkStockReserved (sr_OrderID e) (sr_Qty e)))
  | C_StockRejected e =>
      stored_in stock_repo (sj_OrderID e) (l_stock L) (E_StockRejected (mkStockRejected (sj_OrderID e) (sj_Reason e)))
  | C_ShipmentDispatched e =>
      stored_in shipments_repo (sd_OrderID e) (l_shipments L) (E_ShipmentDispatched (mkShipmentDispatched (sd_OrderID e)))
  end.

(** The saga of [order] has cause to send the command. *)
Definition justified L order (cmd : wire_command) : Prop :=
  match cmd with
  | W_CapturePayment c => cp_OrderID c = order
      /\ exists e, fact L (C_OrderPlaced e) /\ op_OrderID e = order /\ op_Cents e = cp_Cents c
  | W_ReserveStock c => rs_OrderID c = order
      /\ (exists n, fact L (C_PaymentCaptured (mkPaymentCapturedV1 order n)))
      /\ exists e, fact L (C_OrderPlaced e) /\ op_OrderID e = order /\ op_Qty e = rs_Qty c
  | W_CreateShipment c => cs_OrderID c = order
      /\ exists n, fact L (C_StockReserved (mkStockReservedV1 order n))
  | W_RefundPayment c => rp_OrderID c = order
      /\ exists t, fact L (C_StockRejected (mkStockRejectedV1 order t))
  end.

(** The lives a saga of [order] can have had: each step reacts to a contract
    that states a fact, and asks only for what it has cause to. *)
Inductive saga_history L order : flow -> list ordering_event -> Prop :=
  | history_start : saga_history L order flow_start []
  | history_reacts f evs md msg c s' outs (over : bool) :
      saga_history L order f evs ->
      envelope_of msg c -> contract_valid c -> order_of c = Some order -> fact L c ->
      flow_ended f = false -> msg_ID msg ∉ flow_seen f ->
      flow_decide (flow_state f) c = (s', outs, over) ->
      Forall (fun o => justified L order (snd o)) outs ->
      saga_history L order (mkFlow s' over (msg_ID msg :: flow_seen f))
        (evs ++ eventReceived (mkEventReceived msg) :: (recorded order md <$> outs) ++ (if over then [ended] else [])).

(** The saga of [order] recorded the command, with cause. *)
Definition commanded L order (cmd : wire_command) : Prop :=
  utf8_valid order /\ justified L order cmd
  /\ exists md topic, stored_in sagas_repo order (l_orders L) (recorded order md (topic, cmd)).

(** ** The streams, explained *)

Definition saga_legal L (id : string) (evs : list ordering_event) : Prop := exists f, saga_history L id f evs.

Definition payment_legal L (id : string) (evs : list payment_event) : Prop :=
  payment_life id evs
  /\ (evs <> [] -> exists n, commanded L id (W_CapturePayment (mkCapturePayment id n)) /\ take 1 evs = snd (capture_spec id n []))
  /\ (refunded id ∈ evs -> commanded L id (W_RefundPayment (mkRefundPayment id))).

Definition stock_legal L (id : string) (evs : list stock_event) : Prop :=
  reservation_life id evs
  /\ (evs <> [] -> exists n, commanded L id (W_ReserveStock (mkReserveStock id n)) /\ evs = snd (reserve_spec id n [])).

Definition shipment_legal L (id : string) (evs : list shipment_event) : Prop :=
  shipment_life id evs /\ (evs <> [] -> commanded L id (W_CreateShipment (mkCreateShipment id))).

(** ** Monotone *)

(** Each log a prefix, each stream of the longer ones readable. *)
Record ledger_le L L' : Prop := {
  le_orders : l_orders L `prefix_of` l_orders L';
  le_payments : l_payments L `prefix_of` l_payments L';
  le_stock : l_stock L `prefix_of` l_stock L';
  le_shipments : l_shipments L `prefix_of` l_shipments L';
  le_read_orders : streams_ok orders_repo (fun _ _ => True) (l_orders L');
  le_read_sagas : streams_ok sagas_repo (fun _ _ => True) (l_orders L');
  le_read_payments : streams_ok payments_repo (fun _ _ => True) (l_payments L');
  le_read_stock : streams_ok stock_repo (fun _ _ => True) (l_stock L');
  le_read_shipments : streams_ok shipments_repo (fun _ _ => True) (l_shipments L');
}.

Section mono.
Variables (L L' : ledger).
Hypothesis HL : ledger_le L L'.

Lemma fact_mono c : fact L c -> fact L' c.
Proof.
  destruct HL. destruct c as [e|e|e|e|e|e|e]; cbn [fact]; eauto using stored_in_grows.
  intros (p & ? & ? & ?). exists p. eauto using stored_in_grows.
Qed.

Lemma justified_mono order cmd : justified L order cmd -> justified L' order cmd.
Proof.
  destruct cmd as [c|c|c|c]; cbn [justified].
  - intros (? & e & ?%fact_mono & ?). eauto.
  - intros (? & t & ?%fact_mono). eauto.
  - intros (? & (n & ?%fact_mono) & e & ?%fact_mono & ?). eauto 6.
  - intros (? & n & ?%fact_mono). eauto.
Qed.

Lemma commanded_mono order cmd : commanded L order cmd -> commanded L' order cmd.
Proof.
  intros (Hu & Hj & md & topic & Hs). split_and!; [done | by apply justified_mono|]. exists md, topic.
  destruct HL. eauto using stored_in_grows.
Qed.

Lemma history_mono order f evs : saga_history L order f evs -> saga_history L' order f evs.
Proof.
  induction 1 as [|f evs md msg c s' outs over _ IH Henv Hv Ho Hf Hend Hseen Hd Hj]; [constructor|].
  econstructor; try done; [by apply fact_mono|]. eapply Forall_impl; [exact Hj|]. intros o. apply justified_mono.
Qed.

Lemma saga_legal_mono id evs : saga_legal L id evs -> saga_legal L' id evs.
Proof. intros [f Hf]. exists f. by apply history_mono. Qed.
Lemma payment_legal_mono id evs : payment_legal L id evs -> payment_legal L' id evs.
Proof. intros (? & Hc & Hr). split_and!; [done | | by intros ?%Hr%commanded_mono]. intros (n & ?%commanded_mono & ?)%Hc. eauto. Qed.
Lemma stock_legal_mono id evs : stock_legal L id evs -> stock_legal L' id evs.
Proof. intros (? & Hc). split; [done|]. intros (n & ?%commanded_mono & ?)%Hc. eauto. Qed.
Lemma shipment_legal_mono id evs : shipment_legal L id evs -> shipment_legal L' id evs.
Proof. intros (? & Hc). split; [done|]. by intros ?%Hc%commanded_mono. Qed.
End mono.

(** ** A saga's life *)

Lemma history_replays (registry : Registry ordering_event) L order f evs :
  saga_history L order f evs ->
  exists i, replay (newInstance (mkFulfillment 0 0) fulfillment) evs = Some i
    /\ inst_def i = fulfillment /\ inst_state i = flow_state f /\ inst_ended i = flow_ended f
    /\ forall id, was_seen i id = bool_decide (id ∈ flow_seen f).
Proof.
  induction 1 as [|f evs md msg c s' outs over _ (i & Hr & Hd & Hs & He & Hseen) Henv Hv Ho Hf Hend Hnew Hdec Hj].
  { eexists. split_and!; done. }
  rewrite <-Hs in Hdec. rewrite Hend in He.
  destruct (reacts_as_workflow registry order i md msg c s' outs over Hd He Henv Hv Ho Hdec) as (_ & i' & Hi' & Hd' & Hs' & He').
  exists i'. rewrite replay_app, Hr, Hi'. split_and!; [done..|]. intros id.
  destruct (replay_knows _ _ _ Hi') as [Hknow _]. rewrite Hknow, Hseen. cbn [existsb flow_seen].
  rewrite requests_not_received, orb_false_r. cbn [received_id Envelope].
  rewrite (bool_decide_ext (id ∈ msg_ID msg :: flow_seen f) (id ∈ flow_seen f \/ msg_ID msg = id)).
  2: { rewrite elem_of_cons. split; intros [?|?]; auto. }
  by rewrite bool_decide_or.
Qed.

(** What a reaction records. *)
Lemma elem_of_reaction (cr : CommandRequested) order md msg outs (over : bool) :
  (commandRequested cr : ordering_event)
    ∈ eventReceived (mkEventReceived msg) :: (recorded order md <$> outs) ++ (if over then [ended] else []) ->
  exists o, o ∈ outs /\ commandRequested cr = recorded order md o.
Proof.
  rewrite elem_of_cons, elem_of_app, list_elem_of_fmap. intros [?|[(o & Ho & Hin)|Hend]]; [done | by exists o|].
  destruct over; [by apply list_elem_of_singleton in Hend | by apply elem_of_nil in Hend].
Qed.

(** Every command on a saga's stream was asked for with cause. *)
Lemma history_commands L order f evs cr :
  saga_history L order f evs -> (commandRequested cr : ordering_event) ∈ evs ->
  exists md topic cmd, commandRequested cr = recorded order md (topic, cmd) /\ justified L order cmd.
Proof.
  induction 1 as [|f evs md msg c s' outs over _ IH _ _ _ _ _ _ _ Hj]; [by intros ?%elem_of_nil|].
  rewrite elem_of_app. intros [?|Hin]; [auto|].
  apply elem_of_reaction in Hin as ([topic cmd] & Hin & ->). exists md, topic, cmd. split; [done|].
  rewrite Forall_forall in Hj. exact (Hj _ Hin).
Qed.

(** A saga that asked for a capture remembers its order's figures. *)
Lemma history_remembers L order f evs md topic c :
  saga_history L order f evs -> recorded order md (topic, W_CapturePayment c) ∈ evs ->
  exists e, fact L (C_OrderPlaced e) /\ op_OrderID e = order /\ flow_state f = mkFulfillment (op_Cents e) (op_Qty e).
Proof.
  induction 1 as [|f evs md' msg c' s' outs over _ IH _ _ Ho Hf _ _ Hdec _]; [by intros ?%elem_of_nil|].
  cbn [flow_state]. rewrite elem_of_app. intros Hin.
  assert ((exists e, c' = C_OrderPlaced e) \/ (s' = flow_state f /\ Forall (fun o => CommandName (snd o) <> "billing.capture_payment") outs))
    as [[e ->]|[-> Hno]].
  { destruct c' as [e|e|e|e|e|e|e]; cbn [flow_decide] in Hdec; [left; by exists e | right..].
    all: injection Hdec as <- <- _; split; [done | repeat constructor; done]. }
  { injection Hdec as <- _ _. injection Ho as Ho. by exists e. }
  destruct Hin as [?|Hin]; [auto|]. apply elem_of_reaction in Hin as ([t cmd] & Hin & Heq).
  rewrite Forall_forall in Hno. destruct (Hno _ Hin). by injection Heq.
Qed.

(** ** Explained logs *)

Record explained L : Prop := {
  ex_orders : streams_ok orders_repo order_life (l_orders L);
  ex_sagas : streams_ok sagas_repo (saga_legal L) (l_orders L);
  ex_payments : streams_ok payments_repo (payment_legal L) (l_payments L);
  ex_stock : streams_ok stock_repo (stock_legal L) (l_stock L);
  ex_shipments : streams_ok shipments_repo (shipment_legal L) (l_shipments L);
}.

(** What one order's four streams say of each other: a payment is decided only
    for a placed order and over its amount; stock only for a captured payment
    and over the ordered quantity; a shipment goes out only for a payment
    still captured and stock reserved; a refund is paid only for rejected
    stock, and then nothing ships. *)
Record causal order (oevs : list ordering_event) (pevs : list payment_event) (revs : list stock_event)
    (sevs : list shipment_event) : Prop := {
  charged_as_placed : pevs <> [] -> exists p rest, oevs = other (E_OrderPlaced p) :: rest
      /\ value (placed_ID p) = order
      /\ take 1 pevs = [if decide (cents (placed_Total p) > CaptureLimitCents) then failed order
                        else captured order (cents (placed_Total p))];
  reserved_as_placed : revs <> [] -> exists p rest, oevs = other (E_OrderPlaced p) :: rest
      /\ captured order (cents (placed_Total p)) ∈ pevs
      /\ revs = [if decide (Order.Int (placed_Qty p) > AvailableStock) then rejected order
                 else reserved order (Order.Int (placed_Qty p))];
  shipped_when_paid : sevs <> [] -> exists p rest, oevs = other (E_OrderPlaced p) :: rest
      /\ pevs = [captured order (cents (placed_Total p))]
      /\ revs = [reserved order (Order.Int (placed_Qty p))]
      /\ sevs = [dispatch_of order];
  refunded_when_rejected : refunded order ∈ pevs -> revs = [rejected order] /\ sevs = [];
}.

Section explained.
Variable L : ledger.
Hypothesis HL : explained L.

(** The one placement of an order. *)
Lemma placed_once e oevs :
  fact L (C_OrderPlaced e) -> stream_holds orders_repo (op_OrderID e) (l_orders L) oevs ->
  exists p rest, oevs = other (E_OrderPlaced p) :: rest /\ e = placed_contract p /\ placed_valid p.
Proof.
  intros (p & Hp & -> & evs & Hevs & Hin) Ho. rewrite (stream_holds_inj _ _ _ _ _ Hevs Ho) in *.
  destruct (ex_orders _ HL (op_OrderID (placed_contract p))) as (evs' & Hevs' & Hlife).
  rewrite (stream_holds_inj _ _ _ _ _ Hevs' Ho) in *. clear Hevs Hevs' evs evs'.
  destruct Hlife as [->|(c & t & q & rs & -> & _)]; [by apply elem_of_nil in Hin|].
  apply elem_of_cons in Hin as [Heq|(r & Heq & _)%list_elem_of_fmap]; [|discriminate Heq].
  exists p. eexists. rewrite Heq. by split_and!.
Qed.

Lemma stored_in_evs {S Ev} `{DomainEvent Ev} (repo : Repository S Ev) id log e evs :
  stored_in repo id log e -> stream_holds repo id log evs -> e ∈ evs.
Proof. intros (evs' & Hh & He) Hevs. by rewrite <-(stream_holds_inj _ _ _ _ _ Hh Hevs). Qed.

Variables (order : string) (oevs : list ordering_event) (pevs : list payment_event) (revs : list stock_event)
  (sevs : list shipment_event).
Hypothesis (Ho : stream_holds orders_repo order (l_orders L) oevs)
  (Hp : stream_holds payments_repo order (l_payments L) pevs) (Hpl : payment_legal L order pevs)
  (Hr : stream_holds stock_repo order (l_stock L) revs) (Hrl : stock_legal L order revs)
  (Hs : stream_holds shipments_repo order (l_shipments L) sevs) (Hsl : shipment_legal L order sevs).

Lemma charged : pevs <> [] -> exists p rest, oevs = other (E_OrderPlaced p) :: rest
      /\ value (placed_ID p) = order /\ placed_valid p
      /\ take 1 pevs = [if decide (cents (placed_Total p) > CaptureLimitCents) then failed order
                        else captured order (cents (placed_Total p))].
Proof.
  destruct Hpl as (_ & Hc & _). intros (n & (_ & (_ & e & He & Hid & Hn) & _) & Htake)%Hc. cbn [cp_Cents] in Hn.
  destruct (placed_once e oevs He) as (p & rest & Hoe & -> & Hv); [by rewrite Hid|]. exists p, rest.
  split_and!; [done | exact Hid | done |]. rewrite Htake. cbn [op_Cents placed_contract] in Hn. subst n.
  unfold capture_spec. rewrite decide_False; [done|]. destruct (plv_total _ Hv). lia.
Qed.

Lemma stocked : revs <> [] -> exists p rest, oevs = other (E_OrderPlaced p) :: rest
      /\ captured order (cents (placed_Total p)) ∈ pevs
      /\ revs = [if decide (Order.Int (placed_Qty p) > AvailableStock) then rejected order
                 else reserved order (Order.Int (placed_Qty p))].
Proof.
  destruct Hrl as (_ & Hc). intros (q & (_ & (_ & (n & Hn) & e & He & Hid & Hq) & _) & Hrevs)%Hc. cbn [rs_Qty] in Hq.
  pose proof (stored_in_evs _ _ _ _ _ Hn Hp) as Hin. cbn [pc_OrderID pc_Cents] in Hin.
  assert (pevs <> []) as Hne by (intros ->; by apply elem_of_nil in Hin).
  destruct (charged Hne) as (p & rest & Hoe & _ & Hv & Htake). exists p, rest. split; [done|].
  assert (captured order n = captured order (cents (placed_Total p))) as Hcap.
  { destruct Hpl as ([->|[->|(c & _ & [->| ->])]] & _); [by apply elem_of_nil in Hin|..].
    - by apply list_elem_of_singleton in Hin.
    - apply list_elem_of_singleton in Hin. injection Hin as ->. case_decide; [done|]. by injection Htake as ->.
    - apply elem_of_cons in Hin as [Hin|Hin]; [|by apply list_elem_of_singleton in Hin].
      injection Hin as ->. case_decide; [done|]. by injection Htake as ->. }
  split; [rewrite <-Hcap; exact Hin|].
  destruct (placed_once e oevs He) as (p' & rest' & Heq & -> & _); [by rewrite Hid|].
  rewrite Hoe in Heq. injection Heq as <- <-.
  rewrite Hrevs. cbn [op_Qty placed_contract] in Hq. subst q. unfold reserve_spec. rewrite decide_False; [done|].
  pose proof (plv_qty _ Hv). lia.
Qed.

Lemma rejected_for_refund : refunded order ∈ pevs -> revs = [rejected order].
Proof.
  destruct Hpl as (_ & _ & Href). intros (_ & (_ & t & Ht) & _)%Href.
  pose proof (stored_in_evs _ _ _ _ _ Ht Hr) as Hin. cbn [sj_OrderID sj_Reason] in Hin.
  destruct Hrl as ([->|[->|(q & _ & ->)]] & _); [by apply elem_of_nil in Hin | done | by apply list_elem_of_singleton in Hin].
Qed.

Lemma shipped : sevs <> [] -> exists p rest, oevs = other (E_OrderPlaced p) :: rest
      /\ pevs = [captured order (cents (placed_Total p))]
      /\ revs = [reserved order (Order.Int (placed_Qty p))] /\ sevs = [dispatch_of order].
Proof.
  intros Hne. destruct Hsl as (Hlife & Hc). destruct (Hc Hne) as (_ & (_ & q & Hq) & _).
  pose proof (stored_in_evs _ _ _ _ _ Hq Hr) as Hin. cbn [sr_OrderID sr_Qty] in Hin.
  assert (revs <> []) as Hrn by (intros ->; by apply elem_of_nil in Hin).
  destruct (stocked Hrn) as (p & rest & Hoe & Hcap & Hrevs). exists p, rest. split; [done|].
  assert (revs = [reserved order (Order.Int (placed_Qty p))]) as Hres.
  { rewrite Hrevs in Hin |- *. case_decide; [by apply list_elem_of_singleton in Hin | done]. }
  split_and!; [|done|by destruct Hlife].
  destruct Hpl as ([Hpe|[Hpe|(c & _ & [Hpe|Hpe])]] & _); rewrite Hpe in Hcap |- *.
  - by apply elem_of_nil in Hcap.
  - by apply list_elem_of_singleton in Hcap.
  - apply list_elem_of_singleton in Hcap. by rewrite Hcap.
  - assert (revs = [rejected order]) as Hrej by (apply rejected_for_refund; rewrite Hpe; right; by left).
    by rewrite Hrej in Hres.
Qed.

Lemma explained_causal : causal order oevs pevs revs sevs.
Proof.
  split.
  - intros (p & rest & ? & ? & _ & ?)%charged. eauto.
  - exact stocked.
  - exact shipped.
  - intros Href. pose proof (rejected_for_refund Href) as Hrej. split; [done|].
    destruct (decide (sevs = [])) as [|Hne]; [done|]. destruct (shipped Hne) as (p & rest & _ & _ & Hres & _). by rewrite Hrej in Hres.
Qed.
End explained.
End causes.
