(* ===== verification/System.v ===== *)
(** * The four services together

    The services as their [run] functions wire them, each over a store of its
    own, and the broker between them, as a step relation: commands arrive, the
    relays publish, the saga and the consumers handle what is published, in
    any order and any number of times. One step is one attempt of one handler:
    it loads from the store as it was at some earlier point, and saves to the
    store as everyone else has made it since. A retry is one more attempt, a
    crash or a refusal an attempt that stored nothing, a redelivery one more
    delivery. *)

From S2P Require Import Prelude Tail Errors Utf8 GoTime Json KernelId Kernel EventStore MemoryStore Registry Checkpoint Repository Broker Envelope Cqrs Consumer Relay Saga Flat Contracts Services Order Ordering Fulfillment Wiring Causality Billing Inventory Shipping.

(** ** A service's store, and the stores its handlers may have loaded from *)

Record node (W : Type) := mkNode { store : W; earlier : list W }.
Arguments mkNode {W} _ _.
Arguments store {W} _.
Arguments earlier {W} _.

Section nodes.
Context {W : Type} `{StoreSpec W}.
Implicit Types (n : node W) (w : W).

Definition loads_from n w : Prop := w = store n \/ w ∈ earlier n.

(** The store after an attempt that returned [w']: an attempt that stored
    nothing returns the store it loaded from, and leaves the present one. *)
Definition settled n w' : node W :=
  mkNode (if decide (length (log_of (store n)) <= length (log_of w'))%nat then w' else store n) (store n :: earlier n).

(** [k] more records have sequence numbers. *)
Definition room n (k : Z) : Prop := last_seq (log_of (store n)) + k <= int64_max.

Definition node_ok (P : list RecordedEvent -> Prop) n : Prop :=
  forall w, loads_from n w -> store_inv w /\ P (log_of w) /\ log_of w `prefix_of` log_of (store n).

Lemma node_ok_impl (P Q : list RecordedEvent -> Prop) n : (forall log, P log -> Q log) -> node_ok P n -> node_ok Q n.
Proof. intros HPQ Hn w Hw. destruct (Hn w Hw) as (? & ? & ?). auto. Qed.

Lemma node_ok_store P n : node_ok P n -> store_inv (store n) /\ P (log_of (store n)).
Proof. intros Hn. destruct (Hn (store n)) as (? & ? & _); [by left | done]. Qed.

Lemma prefix_same_length {A} (l k : list A) : l `prefix_of` k -> (length k <= length l)%nat -> l = k.
Proof.
  intros [r ->] Hl. rewrite length_app in Hl. destruct r; [by rewrite app_nil_r | simpl in Hl; lia].
Qed.

Lemma node_ok_settled P n w w' :
  node_ok P n -> loads_from n w -> store_inv w' -> P (log_of w') ->
  log_of w' = log_of w \/ log_of (store n) `prefix_of` log_of w' ->
  node_ok P (settled n w') /\ log_of (store n) `prefix_of` log_of (store (settled n w')).
Proof.
  intros Hn Hw Hinv HP Hcase. destruct (Hn w Hw) as (_ & _ & Hpre).
  assert (log_of (store n) `prefix_of` log_of (store (settled n w'))) as Hgrow.
  { unfold settled. cbn [store]. case_decide as Hd; [|done]. destruct Hcase as [He|?]; [|done].
    rewrite He in Hd |- *. by rewrite (prefix_same_length _ _ Hpre Hd). }
  split; [|exact Hgrow]. intros v [->|[->|Hv]%elem_of_cons].
  - unfold settled. cbn [store]. case_decide; [done|]. apply Hn. by left.
  - destruct (node_ok_store _ _ Hn). done.
  - destruct (Hn v) as (? & ? & ?); [by right|]. split_and!; [done..|]. by etransitivity.
Qed.
End nodes.

(** ** The system *)

Record system (W : Type) := mkSystem {
  sys_ordering : node W;
  sys_billing : node W;
  sys_inventory : node W;
  sys_shipping : node W;
  channel : list (string * Message); (* what was published, with its topic *)
}.
Arguments mkSystem {W} _ _ _ _ _.
Arguments sys_ordering {W} _.
Arguments sys_billing {W} _.
Arguments sys_inventory {W} _.
Arguments sys_shipping {W} _.
Arguments channel {W} _.

Section machine.
Context {W : Type} `{StoreSpec W} `{Clock (W * heap)}.
Variable u : N -> N.
Variables (os : OrderingService) (bs : CommandService payment_event Billing.Handlers)
  (ns : CommandService stock_event Inventory.Handlers) (ss : CommandService shipment_event Shipping.Handlers).
Variable x : Extractor.
Implicit Types (s : system W) (w : W).

Definition set_ordering s n := mkSystem n (sys_billing s) (sys_inventory s) (sys_shipping s) (channel s).
Definition set_billing s n := mkSystem (sys_ordering s) n (sys_inventory s) (sys_shipping s) (channel s).
Definition set_inventory s n := mkSystem (sys_ordering s) (sys_billing s) n (sys_shipping s) (channel s).
Definition set_shipping s n := mkSystem (sys_ordering s) (sys_billing s) (sys_inventory s) n (channel s).
Definition publish s (topic : string) (msg : Message) :=
  mkSystem (sys_ordering s) (sys_billing s) (sys_inventory s) (sys_shipping s) ((topic, msg) :: channel s).

(** The rest of the world, as a handler of the node meets it at its save. *)
Definition meanwhile (n : node W) : W -> W := fun _ => store n.

Inductive system_step : system W -> system W -> Prop :=
  | places_order mw now b ctx cmd hp w r w' hp' s :
      placed_valid (mkOrderPlaced (po_ID cmd) (po_Customer cmd) (po_Total cmd) (po_Qty cmd)) ->
      loads_from (sys_ordering s) w -> room (sys_ordering s) 1 ->
      ordering_bus now x (meanwhile (sys_ordering s)) u mw (os_handlers os) = Ok b ->
      handle_once b ctx (L_PlaceOrder cmd) (w, hp) = Some (r, (w', hp')) ->
      system_step s (set_ordering s (settled (sys_ordering s) w'))
  | notifies_customer mw now b ctx cmd hp w r w' hp' s :
      utf8_valid (nc_Reason cmd) ->
      loads_from (sys_ordering s) w -> room (sys_ordering s) 1 ->
      ordering_bus now x (meanwhile (sys_ordering s)) u mw (os_handlers os) = Ok b ->
      handle_once b ctx (L_NotifyCustomer cmd) (w, hp) = Some (r, (w', hp')) ->
      system_step s (set_ordering s (settled (sys_ordering s) w'))
  | saga_reacts topic msg hd id now ctx hp w fin r w' hp' s :
      topic ∈ SagaTopics -> (topic, msg) ∈ channel s ->
      def_handlers (run_def (os_fulfillment os)) !! eventKey (msg_Type msg) (msg_Version msg) = Some hd ->
      correlate hd msg = Ok id -> id <> "" ->
      loads_from (sys_ordering s) w -> room (sys_ordering s) 3 ->
      process (os_fulfillment os) now x (meanwhile (sys_ordering s)) ctx id msg w hp = (fin, r, w', hp') ->
      system_step s (set_ordering s (settled (sys_ordering s) w'))
  | billing_consumes mw now b msg cmd ctx hp w r w' hp' s :
      (TopicBillingCommands, msg) ∈ channel s -> cmd_Decode (svc_commands bs) msg = Ok cmd ->
      loads_from (sys_billing s) w -> room (sys_billing s) 1 ->
      billing_bus now x (meanwhile (sys_billing s)) mw (svc_handlers bs) = Ok b ->
      handle_once b ctx cmd (w, hp) = Some (r, (w', hp')) ->
      system_step s (set_billing s (settled (sys_billing s) w'))
  | inventory_consumes mw now b msg cmd ctx hp w r w' hp' s :
      (TopicInventoryCommands, msg) ∈ channel s -> cmd_Decode (svc_commands ns) msg = Ok cmd ->
      loads_from (sys_inventory s) w -> room (sys_inventory s) 1 ->
      inventory_bus now x (meanwhile (sys_inventory s)) mw (svc_handlers ns) = Ok b ->
      handle_once b ctx cmd (w, hp) = Some (r, (w', hp')) ->
      system_step s (set_inventory s (settled (sys_inventory s) w'))
  | shipping_consumes mw now b msg cmd ctx hp w r w' hp' s :
      (TopicShippingCommands, msg) ∈ channel s -> cmd_Decode (svc_commands ss) msg = Ok cmd ->
      loads_from (sys_shipping s) w -> room (sys_shipping s) 1 ->
      shipping_bus now x (meanwhile (sys_shipping s)) mw (svc_handlers ss) = Ok b ->
      handle_once b ctx cmd (w, hp) = Some (r, (w', hp')) ->
      system_step s (set_shipping s (settled (sys_shipping s) w'))
  | ordering_relays rec topic msg s :
      rec ∈ log_of (store (sys_ordering s)) -> translate (os_relay os) rec = Ok (topic, msg, true) ->
      message_valid msg -> system_step s (publish s topic msg)
  | billing_relays rec topic msg s :
      rec ∈ log_of (store (sys_billing s)) -> translate (svc_relay bs) rec = Ok (topic, msg, true) ->
      message_valid msg -> system_step s (publish s topic msg)
  | inventory_relays rec topic msg s :
      rec ∈ log_of (store (sys_inventory s)) -> translate (svc_relay ns) rec = Ok (topic, msg, true) ->
      message_valid msg -> system_step s (publish s topic msg)
  | shipping_relays rec topic msg s :
      rec ∈ log_of (store (sys_shipping s)) -> translate (svc_relay ss) rec = Ok (topic, msg, true) ->
      message_valid msg -> system_step s (publish s topic msg).

Definition ledger_of s : ledger :=
  mkLedger (log_of (store (sys_ordering s))) (log_of (store (sys_billing s)))
    (log_of (store (sys_inventory s))) (log_of (store (sys_shipping s))).
End machine.

(** ** An executable schedule

    One attempt a move, with the background context, no captured position and
    no middleware; [back] counts the attempts ago a handler loaded, and a move
    that is not enabled does nothing. *)

Inductive move :=
  | place (back : nat) (cmd : PlaceOrder)
  | react (back : nat) (i : nat) (* the i-th published message *)
  | bill (back : nat) (i : nat)
  | stock (back : nat) (i : nat)
  | ship (back : nat) (i : nat)
  | relay_ordering (i : nat) (* the i-th record *)
  | relay_billing (i : nat)
  | relay_inventory (i : nat)
  | relay_shipping (i : nat).

Definition load_back {V} (n : node V) (back : nat) : V :=
  match back with O => store n | Datatypes.S k => default (store n) (earlier n !! k) end.

Definition placed_validb (e : OrderPlaced) : bool :=
  canonical (value (placed_ID e)) && canonical (value (placed_Customer e))
  && bool_decide (0 < cents (placed_Total e) <= int64_max)
  && bool_decide (String.length (currency (placed_Total e)) = 3%nat) && bool_decide (utf8_valid (currency (placed_Total e)))
  && bool_decide (0 < Order.Int (placed_Qty e) <= int64_max).

Definition message_validb (m : Message) : bool :=
  bool_decide (utf8_valid (msg_ID m)) && bool_decide (utf8_valid (msg_Key m)) && bool_decide (utf8_valid (msg_Type m))
  && bool_decide (int64_min <= msg_Version m <= int64_max) && bool_decide (msg_OccurredAt m = zero_time)
  && (match msg_Payload m with RawJSON _ => true | _ => false end)
  && (match msg_Metadata m with None => true | _ => false end).

Lemma placed_validb_ok e : placed_validb e = true -> placed_valid e.
Proof.
  unfold placed_validb. rewrite !andb_true_iff, !bool_decide_eq_true.
  intros [[[[[? ?] ?] ?] ?] ?]. by split.
Qed.

Lemma message_validb_ok m : message_validb m = true -> message_valid m.
Proof.
  unfold message_validb. rewrite !andb_true_iff, !bool_decide_eq_true.
  intros [[[[[[? ?] ?] ?] Ht] Hp] Hm]. split; try done.
  - rewrite Ht. apply zero_time_valid.
  - destruct (msg_Payload m); try done. by eexists.
  - by destruct (msg_Metadata m).
Qed.

Section schedule.
Context {W : Type} `{StoreSpec W} `{Clock (W * heap)}.
Variables (u : N -> N) (os : OrderingService) (bs : CommandService payment_event Billing.Handlers)
  (ns : CommandService stock_event Inventory.Handlers) (ss : CommandService shipment_event Shipping.Handlers) (x : Extractor).
Implicit Types (s : system W).
Abbreviation now := (fun _ : W => zero_time).

Lemma load_back_loads (n : node W) back : loads_from n (load_back n back).
Proof.
  destruct back as [|k]; [by left|]. cbn [load_back]. destruct (earlier n !! k) as [w|] eqn:Hk; [right | by left].
  by eapply list_elem_of_lookup_2.
Qed.

Definition roomb (n : node W) (k : Z) : bool := bool_decide (last_seq (log_of (store n)) + k <= int64_max).
Lemma roomb_ok n k : roomb n k = true -> room n k.
Proof. apply bool_decide_eq_true. Qed.

(** One attempt of a bus's handler, on the store it settles. *)
Definition attempted {Cmd} `{Command Cmd} (bus : res (Bus Cmd (W * heap))) (n : node W) (back : nat) (cmd : Cmd) : option W :=
  match bus with
  | Ok b => match handle_once b background cmd (load_back n back, []) with Some (_, (w', _)) => Some w' | None => None end
  | _ => None
  end.

(** The message a relay publishes for a record. *)
Definition relayed {Ev} `{DomainEvent Ev} (r : Relay Ev contract) (n : node W) (i : nat) : option (string * Message) :=
  match log_of (store n) !! i with
  | Some rec => match translate r rec with Ok (t, m, true) => if message_validb m then Some (t, m) else None | _ => None end
  | None => None
  end.

(** The command a consumer reads of its topic. *)
Definition consumed {Ev Hs} (svc : CommandService Ev Hs) (topic : string) s (i : nat) : option wire_command :=
  match channel s !! i with
  | Some (t, m) => if decide (t = topic) then match cmd_Decode (svc_commands svc) m with Ok cmd => Some cmd | _ => None end else None
  | None => None
  end.

Definition act (m : move) s : system W :=
  let o := sys_ordering s in let b := sys_billing s in let i := sys_inventory s in let h := sys_shipping s in
  match m with
  | place back cmd =>
    if placed_validb (mkOrderPlaced (po_ID cmd) (po_Customer cmd) (po_Total cmd) (po_Qty cmd)) && roomb o 1 then
      match attempted (ordering_bus now x (meanwhile o) u [] (os_handlers os)) o back (L_PlaceOrder cmd) with
      | Some w' => set_ordering s (settled o w')
      | None => s
      end
    else s
  | react back k =>
    match channel s !! k with
    | Some (t, msg) =>
      match def_handlers (run_def (os_fulfillment os)) !! eventKey (msg_Type msg) (msg_Version msg) with
      | Some hd =>
        match correlate hd msg with
        | Ok id => if bool_decide (t ∈ SagaTopics) && negb (bool_decide (id = "")) && roomb o 3 then
            let '(_, _, w', _) := process (os_fulfillment os) zero_time x (meanwhile o) background id msg (load_back o back) [] in
            set_ordering s (settled o w')
          else s
        | _ => s
        end
      | None => s
      end
    | None => s
    end
  | bill back k =>
    match consumed bs TopicBillingCommands s k with
    | Some cmd => if roomb b 1 then
        match attempted (billing_bus now x (meanwhile b) [] (svc_handlers bs)) b back cmd with
        | Some w' => set_billing s (settled b w')
        | None => s
        end else s
    | None => s
    end
  | stock back k =>
    match consumed ns TopicInventoryCommands s k with
    | Some cmd => if roomb i 1 then
        match attempted (inventory_bus now x (meanwhile i) [] (svc_handlers ns)) i back cmd with
        | Some w' => set_inventory s (settled i w')
        | None => s
        end else s
    | None => s
    end
  | ship back k =>
    match consumed ss TopicShippingCommands s k with
    | Some cmd => if roomb h 1 then
        match attempted (shipping_bus now x (meanwhile h) [] (svc_handlers ss)) h back cmd with
        | Some w' => set_shipping s (settled h w')
        | None => s
        end else s
    | None => s
    end
  | relay_ordering k => match relayed (os_relay os) o k with Some (t, m) => publish s t m | None => s end
  | relay_billing k => match relayed (svc_relay bs) b k with Some (t, m) => publish s t m | None => s end
  | relay_inventory k => match relayed (svc_relay ns) i k with Some (t, m) => publish s t m | None => s end
  | relay_shipping k => match relayed (svc_relay ss) h k with Some (t, m) => publish s t m | None => s end
  end.

Definition play (moves : list move) s : system W := foldl (fun s m => act m s) s moves.

Lemma attempted_ok {Cmd} `{Command Cmd} (bus : res (Bus Cmd (W * heap))) n back cmd w' :
  attempted bus n back cmd = Some w' ->
  exists b r hp', bus = Ok b /\ handle_once b background cmd (load_back n back, []) = Some (r, (w', hp')).
Proof.
  unfold attempted. destruct bus as [b|e|m]; [|done..]. destruct (handle_once _ _ _ _) as [[r [w1 hp']]|] eqn:E; [|done].
  intros [= ->]. eauto.
Qed.

Lemma relayed_ok {Ev} `{DomainEvent Ev} (r : Relay Ev contract) n i t m :
  relayed r n i = Some (t, m) ->
  exists rec, rec ∈ log_of (store n) /\ translate r rec = Ok (t, m, true) /\ message_valid m.
Proof.
  unfold relayed. destruct (_ !! i) as [rec|] eqn:Hr; [|done]. destruct (translate r rec) as [[[t' m'] []]|e|e] eqn:Ht; [|done..].
  destruct (message_validb m') eqn:Hm; [|done]. intros [= -> ->]. exists rec.
  split; [by eapply list_elem_of_lookup_2|]. split; [done | by apply message_validb_ok].
Qed.

Lemma consumed_ok {Ev Hs} (svc : CommandService Ev Hs) topic s i cmd :
  consumed svc topic s i = Some cmd -> exists m, (topic, m) ∈ channel s /\ cmd_Decode (svc_commands svc) m = Ok cmd.
Proof.
  unfold consumed. destruct (channel s !! i) as [[t m]|] eqn:Hm; [|done]. case_decide as Ht; [|done]. subst t.
  destruct (cmd_Decode _ m) as [c|e|e] eqn:Hd; [|done..]. intros [= ->]. exists m. split; [by eapply list_elem_of_lookup_2 | done].
Qed.

Lemma act_steps m s : act m s = s \/ system_step u os bs ns ss x s (act m s).
Proof.
  destruct m as [back cmd|back k|back k|back k|back k|k|k|k|k]; cbn [act].
  - destruct (placed_validb _ && _) eqn:Hv; [|by left]. apply andb_true_iff in Hv as [Hv%placed_validb_ok Hr%roomb_ok].
    destruct (attempted _ _ _ _) as [w'|] eqn:Ha; [|by left]. apply attempted_ok in Ha as (b & r & hp' & Hb & Hh).
    right. by eapply places_order; [|apply load_back_loads|..].
  - destruct (channel s !! k) as [[t msg]|] eqn:Hm; [|by left]. destruct (def_handlers _ !! _) as [hd|] eqn:Hhd; [|by left].
    destruct (correlate hd msg) as [id|e|e] eqn:Hc; [|by left..].
    destruct (_ && roomb _ _) eqn:Hv; [|by left]. rewrite !andb_true_iff, negb_true_iff, bool_decide_eq_true, bool_decide_eq_false in Hv.
    destruct Hv as [[Ht Hid] Hr%roomb_ok]. destruct (process _ _ _ _ _ _ _ _ _) as [[[fin r] w'] hp'] eqn:Hp.
    right. eapply saga_reacts; [exact Ht | by eapply list_elem_of_lookup_2 | exact Hhd | exact Hc | exact Hid
      | apply load_back_loads | exact Hr | exact Hp].
  - destruct (consumed _ _ _ _) as [cmd|] eqn:Hc; [|by left]. apply consumed_ok in Hc as (m & Hm & Hd).
    destruct (roomb _ _) eqn:Hr; [|by left]. apply roomb_ok in Hr.
    destruct (attempted _ _ _ _) as [w'|] eqn:Ha; [|by left]. apply attempted_ok in Ha as (b & r & hp' & Hb & Hh).
    right. by eapply billing_consumes; [..|apply load_back_loads| | |].
  - destruct (consumed _ _ _ _) as [cmd|] eqn:Hc; [|by left]. apply consumed_ok in Hc as (m & Hm & Hd).
    destruct (roomb _ _) eqn:Hr; [|by left]. apply roomb_ok in Hr.
    destruct (attempted _ _ _ _) as [w'|] eqn:Ha; [|by left]. apply attempted_ok in Ha as (b & r & hp' & Hb & Hh).
    right. by eapply inventory_consumes; [..|apply load_back_loads| | |].
  - destruct (consumed _ _ _ _) as [cmd|] eqn:Hc; [|by left]. apply consumed_ok in Hc as (m & Hm & Hd).
    destruct (roomb _ _) eqn:Hr; [|by left]. apply roomb_ok in Hr.
    destruct (attempted _ _ _ _) as [w'|] eqn:Ha; [|by left]. apply attempted_ok in Ha as (b & r & hp' & Hb & Hh).
    right. by eapply shipping_consumes; [..|apply load_back_loads| | |].
  - destruct (relayed _ _ _) as [[t m]|] eqn:Hr; [|by left]. apply relayed_ok in Hr as (rec & ? & ? & ?). right. by eapply ordering_relays.
  - destruct (relayed _ _ _) as [[t m]|] eqn:Hr; [|by left]. apply relayed_ok in Hr as (rec & ? & ? & ?). right. by eapply billing_relays.
  - destruct (relayed _ _ _) as [[t m]|] eqn:Hr; [|by left]. apply relayed_ok in Hr as (rec & ? & ? & ?). right. by eapply inventory_relays.
  - destruct (relayed _ _ _) as [[t m]|] eqn:Hr; [|by left]. apply relayed_ok in Hr as (rec & ? & ? & ?). right. by eapply shipping_relays.
Qed.

Lemma play_steps moves s : rtc (system_step u os bs ns ss x) s (play moves s).
Proof.
  revert s. induction moves as [|m moves IH]; intros s; [done|]. cbn [play foldl].
  destruct (act_steps m s) as [->|Hstep]; [apply IH|]. eapply rtc_l; [exact Hstep | apply IH].
Qed.
End schedule.

(** ** Every log explained, every message true *)

(** The services are what their [run] functions build. *)
Record wired (u : N -> N) (os : OrderingService) (bs : CommandService payment_event Billing.Handlers)
    (ns : CommandService stock_event Inventory.Handlers) (ss : CommandService shipment_event Shipping.Handlers) : Prop := {
  wired_ordering : ordering_run u = Ok os;
  wired_billing : billing_run = Ok bs;
  wired_inventory : inventory_run = Ok ns;
  wired_shipping : shipping_run = Ok ss;
}.

(** A single-aggregate service's log. *)
Definition service_log {S Ev} `{DomainEvent Ev} (repo : Repository S Ev) (legal : string -> list Ev -> Prop)
    (log : list RecordedEvent) : Prop :=
  streams_ok repo legal log /\ Forall (fun r => EventStore.Category (Stream r) = repo_category repo) log.

Lemma grows_in_prefix cat log log' : grows_in cat log log' -> log `prefix_of` log'.
Proof. intros (recs & -> & _). by exists recs. Qed.

Lemma settles_log {S Ev W} `{DomainEvent Ev} `{MarshalEvent Ev} `{StoreSpec W} (repo : Repository S Ev) legal
    (n : node W) w w' :
  node_ok (service_log repo legal) n -> loads_from n w -> streams_ok repo legal (log_of w') ->
  settles repo w (store n) w' ->
  store_inv w' /\ service_log repo legal (log_of w') /\ (log_of w' = log_of w \/ log_of (store n) `prefix_of` log_of w').
Proof.
  intros Hn Hw Hok [Hinv Hcase]. split_and!; [done | | destruct Hcase as [?|?%grows_in_prefix]; auto].
  split; [done|]. destruct Hcase as [->|(recs & -> & Hrecs)].
  - by destruct (Hn w Hw) as (_ & [_ ?] & _).
  - apply Forall_app. split; [|done]. by destruct (node_ok_store _ _ Hn) as [_ [_ ?]].
Qed.

(** The values the commands' JSON carries. *)
Definition command_valid (cmd : wire_command) : Prop :=
  match cmd with
  | W_CapturePayment c => utf8_valid (cp_OrderID c) /\ in_int64 (cp_Cents c)
  | W_RefundPayment c => utf8_valid (rp_OrderID c)
  | W_ReserveStock c => utf8_valid (rs_OrderID c) /\ in_int64 (rs_Qty c)
  | W_CreateShipment c => utf8_valid (cs_OrderID c)
  end.

Lemma wire_payload_decodes (cmd : wire_command) :
  command_valid cmd ->
  match cmd with
  | W_CapturePayment c => Unmarshal_raw (T := carrier CapturePayment_type) (RawJSON (wire_payload cmd)) = Ok c
  | W_RefundPayment c => Unmarshal_raw (T := carrier RefundPayment_type) (RawJSON (wire_payload cmd)) = Ok c
  | W_ReserveStock c => Unmarshal_raw (T := carrier ReserveStock_type) (RawJSON (wire_payload cmd)) = Ok c
  | W_CreateShipment c => Unmarshal_raw (T := carrier CreateShipment_type) (RawJSON (wire_payload cmd)) = Ok c
  end.
Proof.
  destruct cmd as [[o n]|[o]|[o n]|[o]]; cbn [command_valid cp_OrderID cp_Cents rp_OrderID rs_OrderID rs_Qty cs_OrderID].
  - intros [Ho Hn]. unfold Unmarshal_raw, Unmarshal, CapturePayment_codec. cbn [wire_payload cp_OrderID cp_Cents].
    by rewrite dec_enc_ref_int by (done || flat).
  - intros Ho. unfold Unmarshal_raw, Unmarshal, RefundPayment_codec. cbn [wire_payload rp_OrderID]. by rewrite dec_enc_ref.
  - intros [Ho Hn]. unfold Unmarshal_raw, Unmarshal, ReserveStock_codec. cbn [wire_payload rs_OrderID rs_Qty].
    by rewrite dec_enc_ref_int by (done || flat).
  - intros Ho. unfold Unmarshal_raw, Unmarshal, CreateShipment_codec. cbn [wire_payload cs_OrderID]. by rewrite dec_enc_ref.
Qed.

Section invariant.
Context {W : Type} `{StoreSpec W} `{Clock (W * heap)}.
Variable u : N -> N.
Hypothesis (u_ascii : forall r, (r < 128)%N -> u r = ascii_lower_rune r)
  (u_other : forall r, (128 <= r)%N -> (128 <= u r)%N \/ u r = 105%N \/ u r = 107%N).
Variables (os : OrderingService) (bs : CommandService payment_event Billing.Handlers)
  (ns : CommandService stock_event Inventory.Handlers) (ss : CommandService shipment_event Shipping.Handlers).
Hypothesis Hwired : wired u os bs ns ss.
Variable x : Extractor.
Hypothesis x_valid : forall ctx, optional_map_valid (MetadataFromContext x ctx).
Implicit Types (s : system W) (w : W) (L : ledger) (msg : Message).

Abbreviation fact := (fact os bs ns ss).
Abbreviation commanded := (commanded os bs ns ss).
Abbreviation ledger_le := (ledger_le os bs ns ss).

Definition ordering_log L (log : list RecordedEvent) : Prop :=
  streams_ok (orders_repo os) order_life log /\ streams_ok (sagas_repo os) (saga_legal os bs ns ss L) log
  /\ Forall (fun r => EventStore.Category (Stream r) = repo_category (orders_repo os)
                      \/ EventStore.Category (Stream r) = repo_category (sagas_repo os)) log.

(** A message states a fact, or carries a command the saga recorded. *)
Definition message_ok L msg : Prop :=
  (exists c, envelope_of msg c /\ contract_valid c /\ fact L c)
  \/ exists order cmd, commanded L order cmd /\ command_valid cmd
       /\ msg_Type msg = CommandName cmd /\ msg_Version msg = 1 /\ msg_Payload msg = RawJSON (wire_payload cmd).

Record inv_at L s : Prop := {
  at_ordering : node_ok (ordering_log L) (sys_ordering s);
  at_billing : node_ok (service_log (payments_repo bs) (payment_legal os bs ns ss L)) (sys_billing s);
  at_inventory : node_ok (service_log (stock_repo ns) (stock_legal os bs ns ss L)) (sys_inventory s);
  at_shipping : node_ok (service_log (shipments_repo ss) (shipment_legal os bs ns ss L)) (sys_shipping s);
  at_channel : Forall (fun tm => message_ok L (snd tm)) (channel s);
}.

Definition system_inv s : Prop := inv_at (ledger_of s) s.

Lemma message_ok_mono L L' msg : ledger_le L L' -> message_ok L msg -> message_ok L' msg.
Proof.
  intros HL [(c & ? & ? & Hf)|(order & cmd & Hc & ? & ? & ? & ?)]; [left | right].
  - exists c. split_and!; [done..|]. exact (fact_mono _ _ _ _ _ _ HL _ Hf).
  - exists order, cmd. split_and!; [|done..]. exact (commanded_mono _ _ _ _ _ _ HL _ _ Hc).
Qed.

Lemma service_log_impl {S Ev} `{DomainEvent Ev} (repo : Repository S Ev) (P Q : string -> list Ev -> Prop) log :
  (forall id evs, P id evs -> Q id evs) -> service_log repo P log -> service_log repo Q log.
Proof. intros HPQ [? ?]. split; [|done]. by eapply streams_ok_impl. Qed.

Lemma inv_at_mono L L' s : ledger_le L L' -> inv_at L s -> inv_at L' s.
Proof.
  intros HL [Ho Hb Hn Hs Hc]. split.
  - eapply node_ok_impl; [|exact Ho]. intros log (? & Hsaga & ?). split_and!; [done| |done].
    eapply streams_ok_impl; [|exact Hsaga]. intros id evs. exact (saga_legal_mono _ _ _ _ _ _ HL id evs).
  - eapply node_ok_impl; [|exact Hb]. intros log. apply service_log_impl. intros id evs. exact (payment_legal_mono _ _ _ _ _ _ HL id evs).
  - eapply node_ok_impl; [|exact Hn]. intros log. apply service_log_impl. intros id evs. exact (stock_legal_mono _ _ _ _ _ _ HL id evs).
  - eapply node_ok_impl; [|exact Hs]. intros log. apply service_log_impl. intros id evs. exact (shipment_legal_mono _ _ _ _ _ _ HL id evs).
  - eapply Forall_impl; [exact Hc|]. intros [t m]. by apply message_ok_mono.
Qed.

(** An invariant stated of shorter logs holds of the present ones. *)
Lemma system_inv_intro L s :
  inv_at L s ->
  l_orders L `prefix_of` l_orders (ledger_of s) -> l_payments L `prefix_of` l_payments (ledger_of s) ->
  l_stock L `prefix_of` l_stock (ledger_of s) -> l_shipments L `prefix_of` l_shipments (ledger_of s) ->
  system_inv s.
Proof.
  intros Hinv ? ? ? ?. apply (inv_at_mono L); [|done]. destruct Hinv as [Ho Hb Hn Hs _].
  apply node_ok_store in Ho as [_ (Ho1 & Ho2 & _)]. apply node_ok_store in Hb as [_ [Hb _]].
  apply node_ok_store in Hn as [_ [Hn _]]. apply node_ok_store in Hs as [_ [Hs _]].
  split; try done; by (eapply streams_ok_impl; [|eassumption]).
Qed.

(** The rest of the world, for a handler of a service whose log is explained. *)
Lemma node_rely {S Ev} `{DomainEvent Ev} `{MarshalEvent Ev} (repo : Repository S Ev) legal (n : node W) w k :
  node_ok (service_log repo legal) n -> loads_from n w -> room n k -> rely repo legal (meanwhile n) w k.
Proof.
  intros Hn Hw Hk. destruct (node_ok_store _ _ Hn) as [Hcur [Hok _]], (Hn w Hw) as (_ & _ & Hpre).
  exact (rely_settled repo legal w (store n) k Hcur Hok Hpre Hk).
Qed.

(** A command handler that decides a new aggregate, once. *)
Lemma decide_explained {S Ev} `{DomainEvent Ev} `{MarshalEvent Ev} `{Aggregate S Ev} (repo : Repository S Ev) legal
    (n : node W) now ctx id build w hp r w' hp' :
  node_ok (service_log repo legal) n -> loads_from n w -> room n 1 ->
  (forall a, build = Ok a -> exists e, UncommittedEvents a = [e] /\ Version a = 0 /\ carries repo e /\ legal id [e]) ->
  decide_once now x (meanwhile n) repo ctx id build (w, hp) = (r, (w', hp')) ->
  streams_ok repo legal (log_of w') /\ settles repo w (store n) w'.
Proof.
  intros Hn Hw Hroom Hbuild Hrun. destruct (Hn w Hw) as (Hinv & [Hok _] & _), (node_ok_store _ _ Hn) as [Hcur _]. split.
  - by destruct (decide_once_preserves _ _ now x _ ctx _ _ _ _ _ _ _ Hinv Hok (node_rely _ _ _ _ _ Hn Hw Hroom) Hbuild Hrun).
  - refine (decide_once_settles _ now x ctx _ _ _ _ _ _ _ _ Hinv Hcur _ Hroom Hrun). intros a Ha.
    destruct (Hbuild a Ha) as (e & -> & _). by vm_compute.
Qed.

(** *** Billing *)

Lemma commanded_order L order cmd : commanded L order cmd -> command_valid cmd -> utf8_valid order /\
  match cmd with
  | W_CapturePayment c => cp_OrderID c = order
  | W_RefundPayment c => rp_OrderID c = order
  | W_ReserveStock c => rs_OrderID c = order
  | W_CreateShipment c => cs_OrderID c = order
  end.
Proof. intros (Hu & Hj & _) _. split; [done|]. destruct cmd; by destruct Hj as [? _]. Qed.

Section billing.
Variables (L : ledger) (n : node W) (now : W -> Time) (ctx : Context) (w w' : W) (hp hp' : heap) (r : res unit).
Hypothesis (Hn : node_ok (service_log (payments_repo bs) (payment_legal os bs ns ss L)) n)
  (Hw : loads_from n w) (Hroom : room n 1).

Lemma capture_explained c :
  commanded L (cp_OrderID c) (W_CapturePayment c) ->
  CapturePayment now x (meanwhile n) (svc_handlers bs) ctx c (w, hp) = (r, (w', hp')) ->
  streams_ok (payments_repo bs) (payment_legal os bs ns ss L) (log_of w') /\ settles (payments_repo bs) w (store n) w'.
Proof.
  intros Hc. destruct (billing_run_ok _ (wired_billing _ _ _ _ _ Hwired)) as ([Hreg Hcat Hnew] & _).
  refine (decide_explained (payments_repo bs) _ n now ctx _ (try amount := NewAmount (cp_Cents c) in Capture (cp_OrderID c) amount)
    _ _ _ _ _ Hn Hw Hroom _).
  intros a Ha. destruct (Capture_decides _ Hreg Hnew _ _ _ Ha) as (e & Hr & Hl & Hcar & Hspec & _). exists e.
  pose proof (raise_all_root _ _ _ Hr) as Hroot. unfold UncommittedEvents, Version. rewrite Hroot.
  split; [reflexivity|]. split; [reflexivity|]. split; [apply Hcar, Hc|]. split; [exact Hl|]. split.
  - intros _. exists (cp_Cents c). split; [by destruct c | by rewrite Hspec].
  - intros Hin%list_elem_of_singleton. subst e. by destruct Hl as [[=]|[[=]|(cents & _ & [[=]|[=]])]].
Qed.

Lemma refund_explained c :
  commanded L (rp_OrderID c) (W_RefundPayment c) ->
  RefundPayment now x (meanwhile n) (svc_handlers bs) ctx c (w, hp) = (r, (w', hp')) ->
  streams_ok (payments_repo bs) (payment_legal os bs ns ss L) (log_of w') /\ settles (payments_repo bs) w (store n) w'.
Proof.
  intros Hc Hrun. destruct (billing_run_ok _ (wired_billing _ _ _ _ _ Hwired)) as ([Hreg Hcat Hnew] & _).
  destruct (Hn w Hw) as (Hinv & [Hok _] & _), (node_ok_store _ _ Hn) as [Hcur _].
  unfold RefundPayment in Hrun. cbn [fst snd] in Hrun.
  destruct (repo_Load (payments (svc_handlers bs)) (rp_OrderID c) w) as [l w1] eqn:El.
  pose proof (load_settles _ _ _ (store n) _ _ Hinv El) as Hset.
  assert (log_of w1 = log_of w) as Hl1.
  { unfold repo_Load in El. destruct (Load _ 0 w) as [l0 w2] eqn:E. injection El as _ <-.
    by destruct (Load_spec _ _ _ _ _ Hinv E) as (_ & ? & _). }
  assert (streams_ok (payments_repo bs) (payment_legal os bs ns ss L) (log_of w1)) as Hok1 by by rewrite Hl1.
  destruct l as [p|e|m]; [|by injection Hrun as _ <- _..].
  destruct (repo_Load_ok _ _ _ _ _ Hinv El) as (_ & _ & Hholds & Hp & Hne).
  destruct (Refund p) as [p' [[]|e|m]] eqn:Href; [|by injection Hrun as _ <- _..].
  destruct (Hok (rp_OrderID c)) as (evs & Hevs & Hlegal). destruct Hholds as (evs' & Hd & Hrep & _).
  rewrite (stream_holds_inj _ _ _ _ _ Hevs Hd) in *. unfold UncommittedEvents in Hp.
  rewrite Hp, app_nil_r, Hnew in Hrep.
  assert (evs' <> []) as Hnil by (intros ->; apply Hne; by apply stream_holds_nil).
  destruct (Refund_raises _ _ _ _ (proj1 Hlegal) Hnil Hrep Href) as [Hraise _].
  split.
  - refine (proj2 (load_save_preserves _ _ _ _ _ _ _ _ _ _ _ _ _ _ _ _ Hinv Hok (node_rely _ _ _ _ _ Hn Hw Hroom) El Hraise _ _ Hrun)).
    + apply (carries_refunded _ Hreg), Hc.
    + intros evs2 (Hlife & Hcap & _) Hrep2 Hn2. unfold payments_repo in Hrep2. rewrite Hnew in Hrep2. split_and!.
      * by apply (Refund_raises _ evs2 p p').
      * intros _. destruct (Hcap Hn2) as (k & Hk & Htake). exists k. split; [done|]. rewrite <-Htake. by destruct evs2.
      * intros _. by destruct c.
  - refine (save_settles _ now x ctx _ _ w _ _ _ _ _ _ Hcur _ Hrun).
    pose proof (Raise_ok_inv _ _ _ _ Hraise) as [_ Hroot]. rewrite Hp in Hroot.
    unfold UncommittedEvents. rewrite Hroot. exact Hroom.
Qed.
End billing.

(** *** Inventory and shipping *)

Lemma reserve_explained L n now ctx c w hp r w' hp' :
  node_ok (service_log (stock_repo ns) (stock_legal os bs ns ss L)) n -> loads_from n w -> room n 1 ->
  commanded L (rs_OrderID c) (W_ReserveStock c) ->
  ReserveStock now x (meanwhile n) (svc_handlers ns) ctx c (w, hp) = (r, (w', hp')) ->
  streams_ok (stock_repo ns) (stock_legal os bs ns ss L) (log_of w') /\ settles (stock_repo ns) w (store n) w'.
Proof.
  intros Hn Hw Hroom Hc. destruct (inventory_run_ok _ (wired_inventory _ _ _ _ _ Hwired)) as (Hok & _).
  refine (decide_explained (stock_repo ns) _ n now ctx _ (try qty := NewQuantity (rs_Qty c) in Reserve (rs_OrderID c) qty)
    _ _ _ _ _ Hn Hw Hroom _).
  intros a Ha. destruct (Reserve_decides _ (rs_OrderID c) (rs_Qty c) Hok (proj1 Hc)) as [[_ Hb]|(a' & e & Hb & Hr & Hcar & Hs & Hl)].
  { by rewrite Ha in Hb. }
  rewrite Ha in Hb. injection Hb as <-. exists e. pose proof (raise_all_root _ _ _ Hr) as Hroot.
  unfold UncommittedEvents, Version. rewrite Hroot. split_and!; [done..|]. split; [done|].
  intros _. exists (rs_Qty c). rewrite Hs. split; [by destruct c | done].
Qed.

Lemma create_explained L n now ctx c w hp r w' hp' :
  node_ok (service_log (shipments_repo ss) (shipment_legal os bs ns ss L)) n -> loads_from n w -> room n 1 ->
  commanded L (cs_OrderID c) (W_CreateShipment c) ->
  CreateShipment now x (meanwhile n) (svc_handlers ss) ctx c (w, hp) = (r, (w', hp')) ->
  streams_ok (shipments_repo ss) (shipment_legal os bs ns ss L) (log_of w') /\ settles (shipments_repo ss) w (store n) w'.
Proof.
  intros Hn Hw Hroom Hc. destruct (shipping_run_ok _ (wired_shipping _ _ _ _ _ Hwired)) as (Hok & _).
  refine (decide_explained (shipments_repo ss) _ n now ctx _ (Create (cs_OrderID c)) _ _ _ _ _ Hn Hw Hroom _).
  intros a Ha. destruct (Create_dispatches _ (cs_OrderID c) Hok (proj1 Hc)) as (a' & Hb & Hr & Hcar).
  rewrite Ha in Hb. injection Hb as <-. exists (dispatch_of (cs_OrderID c)). pose proof (raise_all_root _ _ _ Hr) as Hroot.
  unfold UncommittedEvents, Version. rewrite Hroot. split_and!; [done..|]. split; [by right|].
  intros _. by destruct c.
Qed.

(** *** A delivered command is the recorded one *)

Lemma event_not_command msg c cmd : envelope_of msg c -> msg_Type msg <> CommandName (cmd : wire_command).
Proof. intros [-> _ _ _]. by destruct c, cmd. Qed.

Lemma delivered_command L msg (cmd : wire_command) :
  message_ok L msg -> msg_Type msg = CommandName cmd ->
  exists order cmd', commanded L order cmd' /\ command_valid cmd' /\ CommandName cmd' = CommandName cmd
    /\ msg_Payload msg = RawJSON (wire_payload cmd').
Proof.
  intros [(c & Henv & _)|(order & cmd' & Hc & Hv & Ht & _ & Hp)] Hname; [by apply event_not_command with (cmd := cmd) in Henv|].
  exists order, cmd'. split_and!; [done..|congruence|done].
Qed.

Lemma in_channel L s topic msg : inv_at L s -> (topic, msg) ∈ channel s -> message_ok L msg.
Proof. intros Hinv Hin. pose proof (at_channel _ _ Hinv) as Hc. rewrite Forall_forall in Hc. exact (Hc _ Hin). Qed.

Lemma billing_delivered L msg cmd :
  message_ok L msg -> cmd_Decode (svc_commands bs) msg = Ok cmd ->
  match cmd with
  | W_CapturePayment c => commanded L (cp_OrderID c) cmd
  | W_RefundPayment c => commanded L (rp_OrderID c) cmd
  | _ => False
  end.
Proof.
  intros Hm [(Ht & y & Hy & ->)|(Ht & y & Hy & ->)]%(billing_decodes _ _ _ (wired_billing _ _ _ _ _ Hwired)).
  - destruct (delivered_command L msg (W_CapturePayment y) Hm Ht) as (order & cmd' & Hc & Hv & Hn & Hp).
    destruct cmd' as [c|c|c|c]; try done. rewrite Hp, (wire_payload_decodes (W_CapturePayment c) Hv) in Hy. injection Hy as <-.
    destruct (commanded_order _ _ _ Hc Hv) as [_ ->]. done.
  - destruct (delivered_command L msg (W_RefundPayment y) Hm Ht) as (order & cmd' & Hc & Hv & Hn & Hp).
    destruct cmd' as [c|c|c|c]; try done. rewrite Hp, (wire_payload_decodes (W_RefundPayment c) Hv) in Hy. injection Hy as <-.
    destruct (commanded_order _ _ _ Hc Hv) as [_ ->]. done.
Qed.

Lemma inventory_delivered L msg cmd :
  message_ok L msg -> cmd_Decode (svc_commands ns) msg = Ok cmd ->
  match cmd with W_ReserveStock c => commanded L (rs_OrderID c) cmd | _ => False end.
Proof.
  intros Hm (Ht & y & Hy & ->)%(inventory_decodes _ _ _ (wired_inventory _ _ _ _ _ Hwired)).
  destruct (delivered_command L msg (W_ReserveStock y) Hm Ht) as (order & cmd' & Hc & Hv & Hn & Hp).
  destruct cmd' as [c|c|c|c]; try done. rewrite Hp, (wire_payload_decodes (W_ReserveStock c) Hv) in Hy. injection Hy as <-.
  destruct (commanded_order _ _ _ Hc Hv) as [_ ->]. done.
Qed.

Lemma shipping_delivered L msg cmd :
  message_ok L msg -> cmd_Decode (svc_commands ss) msg = Ok cmd ->
  match cmd with W_CreateShipment c => commanded L (cs_OrderID c) cmd | _ => False end.
Proof.
  intros Hm (Ht & y & Hy & ->)%(shipping_decodes _ _ _ (wired_shipping _ _ _ _ _ Hwired)).
  destruct (delivered_command L msg (W_CreateShipment y) Hm Ht) as (order & cmd' & Hc & Hv & Hn & Hp).
  destruct cmd' as [c|c|c|c]; try done. rewrite Hp, (wire_payload_decodes (W_CreateShipment c) Hv) in Hy. injection Hy as <-.
  destruct (commanded_order _ _ _ Hc Hv) as [_ ->]. done.
Qed.

(** *** Ordering: placing and notifying *)

Lemma orders_category : repo_category (orders_repo os) = Order.Category.
Proof. exact (ook_category _ _ (proj1 (ordering_run_ok _ _ (wired_ordering _ _ _ _ _ Hwired)))). Qed.

Lemma sagas_category : repo_category (sagas_repo os) = "saga.order_fulfillment".
Proof. unfold sagas_repo. by rewrite (proj1 (proj2 (proj2 (ordering_run_ok _ _ (wired_ordering _ _ _ _ _ Hwired))))). Qed.

Lemma categories_differ : repo_category (orders_repo os) <> repo_category (sagas_repo os).
Proof. rewrite orders_category, sagas_category. discriminate. Qed.

(** A run of the order handlers leaves the sagas alone, and the other way
    round. *)
Lemma orders_settle L (n : node W) w w' :
  node_ok (ordering_log L) n -> loads_from n w -> streams_ok (orders_repo os) order_life (log_of w') ->
  settles (orders_repo os) w (store n) w' ->
  store_inv w' /\ ordering_log L (log_of w') /\ (log_of w' = log_of w \/ log_of (store n) `prefix_of` log_of w').
Proof.
  intros Hn Hw Hok [Hinv Hcase]. destruct (Hn w Hw) as (_ & Hlog & _), (node_ok_store _ _ Hn) as [_ (_ & Hsagas & Hcats)].
  split_and!; [done | | destruct Hcase as [?|?%grows_in_prefix]; auto].
  destruct Hcase as [He|Hg]; [by rewrite He|]. split_and!; [done | |].
  - apply (streams_ok_elsewhere _ _ _ _ _ categories_differ Hg Hsagas).
  - destruct Hg as (recs & -> & Hrecs). apply Forall_app. split; [done|]. eapply Forall_impl; [exact Hrecs|]. by left.
Qed.

Lemma sagas_settle L (n : node W) w w' :
  node_ok (ordering_log L) n -> loads_from n w -> streams_ok (sagas_repo os) (saga_legal os bs ns ss L) (log_of w') ->
  settles (sagas_repo os) w (store n) w' ->
  store_inv w' /\ ordering_log L (log_of w') /\ (log_of w' = log_of w \/ log_of (store n) `prefix_of` log_of w').
Proof.
  intros Hn Hw Hok [Hinv Hcase]. destruct (Hn w Hw) as (_ & Hlog & _), (node_ok_store _ _ Hn) as [_ (Horders & _ & Hcats)].
  split_and!; [done | | destruct Hcase as [?|?%grows_in_prefix]; auto].
  destruct Hcase as [He|Hg]; [by rewrite He|]. split_and!; [|done|].
  - apply (streams_ok_elsewhere _ _ _ _ _ (not_eq_sym categories_differ) Hg Horders).
  - destruct Hg as (recs & -> & Hrecs). apply Forall_app. split; [done|]. eapply Forall_impl; [exact Hrecs|]. by right.
Qed.

Section orders.
Variables (L : ledger) (n : node W) (now : W -> Time) (ctx : Context) (w w' : W) (hp hp' : heap) (r : res unit).
Hypothesis (Hn : node_ok (ordering_log L) n) (Hw : loads_from n w) (Hroom : room n 1).

Lemma orders_rely : rely (orders_repo os) order_life (meanwhile n) w 1.
Proof.
  destruct (node_ok_store _ _ Hn) as [Hcur [Hok _]], (Hn w Hw) as (_ & _ & Hpre).
  exact (rely_settled (orders_repo os) order_life w (store n) 1 Hcur Hok Hpre Hroom).
Qed.

Lemma place_explained cmd :
  placed_valid (mkOrderPlaced (po_ID cmd) (po_Customer cmd) (po_Total cmd) (po_Qty cmd)) ->
  PlaceOrder_handler now x (meanwhile n) (os_handlers os) ctx cmd (w, hp) = (r, (w', hp')) ->
  streams_ok (orders_repo os) order_life (log_of w') /\ settles (orders_repo os) w (store n) w'.
Proof.
  intros Hv Hrun. destruct (ordering_run_ok _ _ (wired_ordering _ _ _ _ _ Hwired)) as (Hok & _). destruct (Hn w Hw) as (Hinv & [Hord _] & _).
  destruct (node_ok_store _ _ Hn) as [Hcur _]. split.
  - exact (proj2 (place_preserves u u_ascii u_other _ now x _ ctx w hp Hok Hinv Hord orders_rely cmd r w' hp' Hv Hrun)).
  - unfold PlaceOrder_handler in Hrun.
    destruct (Place_places u _ (po_ID cmd) (po_Customer cmd) (po_Total cmd) (po_Qty cmd) Hok (valid_not_zero _ (plv_total _ Hv)))
      as (a & Ha & Hr). rewrite Ha in Hrun. refine (save_settles _ now x ctx _ _ w _ _ _ _ _ _ Hcur _ Hrun).
    pose proof (raise_all_root _ _ _ Hr) as Hroot. unfold UncommittedEvents. rewrite Hroot. exact Hroom.
Qed.

Lemma notify_explained cmd :
  utf8_valid (nc_Reason cmd) ->
  NotifyCustomer_handler u now x (meanwhile n) (os_handlers os) ctx cmd (w, hp) = (r, (w', hp')) ->
  streams_ok (orders_repo os) order_life (log_of w') /\ settles (orders_repo os) w (store n) w'.
Proof.
  intros Hv Hrun. destruct (ordering_run_ok _ _ (wired_ordering _ _ _ _ _ Hwired)) as (Hok & _). destruct (Hn w Hw) as (Hinv & [Hord _] & _).
  destruct (node_ok_store _ _ Hn) as [Hcur _]. split.
  - exact (proj2 (notify_preserves u u_ascii u_other _ now x _ ctx w hp Hok Hinv Hord orders_rely cmd r w' hp' Hv Hrun)).
  - unfold NotifyCustomer_handler in Hrun. cbn [fst snd] in Hrun.
    assert (settles (orders_repo os) w (store n) w) as Hsame by (split; [done | by left]).
    destruct (@ParseID u OrderMarker (nc_OrderID cmd)) as [id|e|m]; [|by injection Hrun as _ <- _..].
    destruct (repo_Load (orders (os_handlers os)) (value id) w) as [l w1] eqn:El.
    pose proof (load_settles _ _ _ (store n) _ _ Hinv El) as Hset.
    destruct l as [o|e|m]; [|by injection Hrun as _ <- _..].
    destruct (repo_Load_ok _ _ _ _ _ Hinv El) as (_ & _ & _ & Hp & _).
    destruct (Notify (nc_Reason cmd) o) as [o' [[]|e|m]] eqn:Hnot; [|by injection Hrun as _ <- _..].
    refine (save_settles _ now x ctx _ _ w _ _ _ _ _ _ Hcur _ Hrun). unfold room in Hroom.
    unfold Notify in Hnot. case_decide; [done|]. destruct (default false _).
    + injection Hnot as <-. rewrite Hp, zlen_nil. lia.
    + pose proof (Raise_ok_inv _ _ _ _ Hnot) as [_ Hroot]. unfold UncommittedEvents in *. rewrite Hroot, Hp. exact Hroom.
Qed.
End orders.
End invariant.
