(* ===== verification/Choreography.v ===== *)
(** * The choreography of an order

    Every step of the system keeps its logs explained by each other: the saga
    reacts only to messages that state facts, and asks only for what it has
    cause to; the relays publish only facts and recorded commands. So what
    any run of the four services stores about an order is causally right. *)

From S2P Require Import Prelude Tail Errors Utf8 GoTime Json KernelId Kernel EventStore MemoryStore Registry Checkpoint Repository Broker Envelope Cqrs Consumer Relay Saga Flat Contracts Services Order Ordering Fulfillment Wiring Causality System Billing Inventory Shipping.

(** The saga handles no command, and not the refund's event. *)
Lemma no_handler (name : string) :
  name ∈ ["billing.capture_payment"; "billing.refund_payment"; "inventory.reserve_stock"; "shipping.create_shipment";
          "billing.payment_refunded"] ->
  def_handlers fulfillment !! eventKey name 1 = None.
Proof. intros Hn. repeat (apply elem_of_cons in Hn as [->|Hn]; [by vm_compute|]). by apply elem_of_nil in Hn. Qed.

#[local] Opaque fulfillment.

Section steps.
Context {W : Type} `{StoreSpec W} `{Clock (W * heap)}.
Variable u : N -> N.
Hypothesis (u_ascii : forall r, (r < 128)%N -> u r = ascii_lower_rune r)
  (u_other : forall r, (128 <= r)%N -> (128 <= u r)%N \/ u r = 105%N \/ u r = 107%N).
Variables (os : OrderingService) (bs : CommandService payment_event Billing.Handlers)
  (ns : CommandService stock_event Inventory.Handlers) (ss : CommandService shipment_event Shipping.Handlers).
Hypothesis Hwired : wired u os bs ns ss.
Variable x : Extractor.
Hypothesis x_valid : forall ctx, optional_map_valid (MetadataFromContext x ctx).
Implicit Types (w : W) (L : ledger) (msg : Message).

Abbreviation fact := (fact os bs ns ss).
Abbreviation justified := (justified os bs ns ss).
Abbreviation commanded := (commanded os bs ns ss).
Abbreviation explained := (explained os bs ns ss).
Abbreviation saga_history := (saga_history os bs ns ss).
Abbreviation saga_legal := (saga_legal os bs ns ss).
Abbreviation message_ok := (message_ok os bs ns ss).
Abbreviation ordering_log := (ordering_log os bs ns ss).
Abbreviation system_inv := (system_inv os bs ns ss).
Abbreviation inv_at := (inv_at os bs ns ss).

(** ** The saga *)

(** What the saga has cause to ask for when it has been told [c]. *)
Lemma decides_justified L order f evs c s' outs over :
  explained L -> stream_holds (sagas_repo os) order (l_orders L) evs -> saga_history L order f evs ->
  order_of c = Some order -> fact L c -> flow_decide (flow_state f) c = (s', outs, over) ->
  Forall (fun o => justified L order (snd o)) outs.
Proof.
  intros Hex Hst Hh Ho Hf Hd. destruct c as [e|e|e|e|e|e|e]; cbn [order_of] in Ho; try discriminate Ho;
    injection Ho as Ho; injection Hd as <- <- <-; try apply Forall_nil_2; apply Forall_singleton; cbn [snd Causality.justified].
  - split; [done|]. exists e. done.
  - split; [done|]. split; [by exists (pc_Cents e); destruct e; subst|].
    pose proof Hf as (pevs & Hp & Hin). destruct (ex_payments _ _ _ _ _ Hex (pc_OrderID e)) as (pevs' & Hp' & _ & Hc & _).
    rewrite (stream_holds_inj _ _ _ _ _ Hp' Hp) in Hc.
    assert (pevs <> []) as Hne by (intros ->; by apply elem_of_nil in Hin).
    destruct (Hc Hne) as (n & (_ & _ & md & topic & Hrec) & _). rewrite Ho in Hrec.
    apply (stored_in_evs _ _ _ _ _ Hrec) in Hst. destruct (history_remembers _ _ _ _ _ _ _ _ _ _ _ Hh Hst) as (p & Hp2 & Hid & Hfl).
    exists p. rewrite Hfl. done.
  - split; [done|]. exists (sr_Qty e). by destruct e; subst.
  - split; [done|]. exists (sj_Reason e). by destruct e; subst.
Qed.

Lemma order_of_valid c :
  contract_valid c -> (exists order, order_of c = Some order /\ utf8_valid order) \/ exists e, c = C_PaymentRefunded e.
Proof.
  destruct c; intros Hv; first [right; eexists; reflexivity | left; eexists; split; [reflexivity|]; first [exact Hv | apply Hv]].
Qed.

(** A command is never taken for an event. *)
Lemma saga_reads_events L msg hd :
  message_ok L msg -> def_handlers fulfillment !! eventKey (msg_Type msg) (msg_Version msg) = Some hd ->
  exists c order, envelope_of msg c /\ contract_valid c /\ fact L c /\ order_of c = Some order
    /\ utf8_valid order /\ correlate hd msg = Ok order.
Proof.
  intros [(c & Henv & Hv & Hf)|(order & cmd & _ & _ & -> & -> & _)] Hhd.
  2: { rewrite no_handler in Hhd by (destruct cmd; by repeat constructor). discriminate Hhd. }
  destruct (order_of_valid c Hv) as [(order & Ho & Hu)|[e ->]].
  2: { destruct Henv as [Ht Hver _ _]. rewrite Ht, Hver, no_handler in Hhd by (by repeat constructor). discriminate Hhd. }
  exists c, order. destruct (fulfillment_handles msg c order Henv Hv Ho) as (hd' & Hhd' & Hc & _).
  rewrite Hhd in Hhd'. injection Hhd' as <-. by split_and!.
Qed.

Lemma last_seq_prefix log log' : log_ok log' -> log `prefix_of` log' -> last_seq log <= last_seq log'.
Proof. intros [Hi _] [recs ->]. by apply head_of_app. Qed.

(** The saga's instance, as its stream tells it. *)
Definition instance_at (f : flow) (i : instance Fulfillment wire_command) : Prop :=
  inst_def i = fulfillment /\ inst_state i = flow_state f /\ inst_ended i = flow_ended f
  /\ forall id, was_seen i id = bool_decide (id ∈ flow_seen f).

Lemma runner_eq : os_fulfillment os = Fulfillment.runner (repo_registry (orders (os_handlers os))).
Proof. exact (proj1 (proj2 (proj2 (ordering_run_ok _ _ (wired_ordering _ _ _ _ _ Hwired))))). Qed.

Lemma held_instance L id log (a : Agg (instance Fulfillment wire_command) ordering_event) :
  holds (sagas_repo os) id log a -> UncommittedEvents a = [] -> streams_ok (sagas_repo os) (saga_legal L) log ->
  exists f evs, stream_holds (sagas_repo os) id log evs /\ saga_history L id f evs /\ instance_at f (state a).
Proof.
  intros (evs & Hst & Hrep & _) Hu Hok. destruct (Hok id) as (evs' & Hst' & f & Hf).
  rewrite (stream_holds_inj _ _ _ _ _ Hst' Hst) in Hf. exists f, evs. split_and!; [done..|].
  destruct (history_replays _ _ _ _ (repo_registry (orders (os_handlers os))) _ _ _ _ Hf) as (i & Hi & Hat).
  unfold UncommittedEvents in Hu. rewrite Hu, app_nil_r in Hrep. unfold sagas_repo in Hrep. rewrite runner_eq in Hrep.
  cbn [run_repo Fulfillment.runner NewRunner newAgg] in Hrep. rewrite Hi in Hrep. by injection Hrep as <-.
Qed.

(** What the saga records of a message. *)
Lemma reaction_at L id f msg c ctx i evs :
  instance_at f i -> inst_ended i = false -> was_seen i (msg_ID msg) = false ->
  envelope_of msg c -> contract_valid c -> order_of c = Some id -> utf8_valid id ->
  reaction (os_fulfillment os) id (command_metadata x ctx msg) msg i = Ok evs ->
  flow_ended f = false /\ msg_ID msg ∉ flow_seen f /\ zlen evs <= 3 /\ Forall (carries (sagas_repo os)) evs
  /\ (explained L -> fact L c -> forall evs0, stream_holds (sagas_repo os) id (l_orders L) evs0 -> saga_history L id f evs0 ->
      saga_legal L id (evs0 ++ evs)).
Proof.
  intros (Hdef & Hs & He & Hseen) Hend Hnew Henv Hv Ho Hu Hr.
  destruct (flow_decide (flow_state f) c) as [[s' outs] over] eqn:Hd. pose proof Hd as Hd'. rewrite <-Hs in Hd'.
  rewrite runner_eq in Hr.
  destruct (reacts_as_workflow (repo_registry (orders (os_handlers os))) id i (command_metadata x ctx msg) msg c s' outs over
    Hdef Hend Henv Hv Ho Hd') as [Hreact _]. rewrite Hreact in Hr. injection Hr as <-.
  rewrite Hseen in Hnew. apply bool_decide_eq_false in Hnew. split_and!; [congruence | done | | |].
  - destruct c; injection Hd as <- <- <-; by vm_compute.
  - assert (optional_map_valid (command_metadata x ctx msg)) as Hmd.
    { pose proof (x_valid ctx) as Hx. unfold command_metadata. destruct (MetadataFromContext x ctx); [done|].
      exact (mv_Metadata _ (env_valid _ _ Henv)). }
    pose proof (reaction_valid x id ctx msg outs over _ c s' (env_valid _ _ Henv) Hmd Hu Hd) as Hval.
    eapply Forall_impl; [exact Hval|]. intros e. apply event_carried.
    unfold sagas_repo. rewrite runner_eq.
    exact (proj1 (proj2 (ordering_run_ok _ _ (wired_ordering _ _ _ _ _ Hwired)))).
  - intros Hex Hf evs0 Hst Hh. eexists.
    eapply history_reacts; [eassumption..|congruence|assumption|eassumption|].
    exact (decides_justified _ _ _ _ _ _ _ _ Hex Hst Hh Ho Hf Hd).
Qed.

Section reacting.
Variables (L : ledger) (n : node W) (w : W).
Hypothesis (Hn : node_ok (ordering_log L) n) (Hw : loads_from n w) (Hroom : room n 3)
  (Hex : explained L) (Hlog : l_orders L = log_of (store n)).

(** The instance the saga decides on: the stored one, or a new one. *)
Lemma loaded_instance id a w1 :
  load_instance (os_fulfillment os) id w = (Ok a, w1) ->
  UncommittedEvents a = [] /\ exists f, instance_at f (state a).
Proof.
  destruct (Hn w Hw) as (Hinv & (_ & Hok & _) & _). intros El.
  destruct (load_instance_ok _ _ _ _ _ Hinv El) as (_ & _ & Hu & [Hh|Ha]).
  - destruct (held_instance _ _ _ _ Hh Hu Hok) as (f & evs & _ & _ & Hat). eauto.
  - split; [done|]. exists flow_start. rewrite Ha, runner_eq. by split_and!.
Qed.

(** One attempt of the saga's handler. *)
Lemma saga_explained now ctx id hd msg hp fin r w' hp' :
  message_ok L msg -> def_handlers (run_def (os_fulfillment os)) !! eventKey (msg_Type msg) (msg_Version msg) = Some hd ->
  correlate hd msg = Ok id ->
  process (os_fulfillment os) now x (meanwhile n) ctx id msg w hp = (fin, r, w', hp') ->
  streams_ok (sagas_repo os) (saga_legal L) (log_of w') /\ settles (sagas_repo os) w (store n) w'.
Proof.
  intros Hm Hhd Hcorr. destruct (Hn w Hw) as (Hinv & (_ & Hok & _) & Hpre), (node_ok_store _ _ Hn) as [Hcur (_ & Hokc & _)].
  rewrite runner_eq in Hhd. destruct (saga_reads_events _ _ _ Hm Hhd) as (c & order & Henv & Hv & Hf & Ho & Hu & Hcorr').
  rewrite Hcorr in Hcorr'. injection Hcorr' as <-. clear Hhd Hcorr.
  unfold process. destruct (load_instance _ id w) as [l w1] eqn:El.
  destruct (load_instance_log _ _ _ _ _ Hinv El) as [Hinv1 Hl1].
  assert (streams_ok (sagas_repo os) (saga_legal L) (log_of w1) /\ settles (sagas_repo os) w (store n) w1) as Hsame.
  { rewrite Hl1. split; [done|]. split; [done | by left]. }
  destruct l as [a|e|m]; [|by intros [= _ _ <- _]..].
  destruct (loaded_instance _ _ _ El) as (Hua & f & Hat).
  destruct (decide_on _ _ _ _ _ a) as [[a' [[]|e|m]]|] eqn:Ed; [|by intros [= _ _ <- _]..].
  destruct (decide_on_reaction _ _ _ _ _ _ _ Ed) as (Hend & Hnew & evs & Hreact & Hraise).
  destruct (reaction_at L id f msg c ctx _ _ Hat Hend Hnew Henv Hv Ho Hu Hreact) as (_ & _ & Hlen & Hcar & _).
  pose proof (raise_all_root _ _ _ Hraise) as Hroot.
  assert (UncommittedEvents a' = evs) as Hevs by (unfold UncommittedEvents in *; by rewrite Hroot, Hua).
  destruct (repo_Save _ _ _ _ _ _ _ _) as [[[saved a2] w2] h2] eqn:Es. intros Hret.
  assert (w2 = w') as <- by (by destruct saved; injection Hret as _ _ <- _). clear Hret.
  destruct (decide (evs = [])) as [->|Hne].
  { unfold repo_Save in Es. rewrite decide_True in Es by done. injection Es as _ _ <- _. split; [done|].
    split; [done|]. right. exists []. by rewrite app_nil_r. }
  apply repo_Save_atomic in Es as [Hinv2 Hs]; [|done | by rewrite Hevs | rewrite Hevs; unfold room, meanwhile in *; lia].
  unfold meanwhile in Hs. destruct Hs as [[Hs _]|(Hver & _ & data & Henc & Happ)].
  { unfold settles. rewrite Hs. split; [done|]. split; [done|]. right. exists []. by rewrite app_nil_r. }
  rewrite Hevs in Henc. split; [|split; [done|]; right; by apply (appended_grows_in _ _ _ _ _ Happ)].
  pose proof (last_seq_prefix _ _ (store_log_ok _ Hcur) Hpre) as Hmax.
  destruct Hpre as [recs Hrecs]. rewrite Hrecs in Hver.
  destruct (decided_on_current _ _ _ _ _ _ _ recs Hinv El Hraise ltac:(unfold room in Hroom; lia) Hver) as (_ & Hh & Hst).
  rewrite <-Hrecs in Hst. destruct (held_instance _ _ _ _ Hh Hua Hok) as (f' & evs0 & Hevs0 & Hhist & Hat').
  destruct (reaction_at L id f' msg c ctx _ _ Hat' Hend Hnew Henv Hv Ho Hu Hreact) as (_ & _ & _ & _ & Hleg).
  apply (stream_holds_same _ _ _ _ _ Hst) in Hevs0.
  refine (streams_ok_appended _ _ _ _ _ _ _ _ _ _ Hokc Hcar Henc Happ Hevs0 _).
  apply Hleg; [done..| by rewrite Hlog | done].
Qed.
End reacting.

(** ** The relays *)

Lemma message_envelope {id key t md msg} (c : contract) :
  NewMessage id key t c md = Ok msg -> message_valid msg -> envelope_of msg c.
Proof.
  intros (doc & Hdoc & [= <-])%res_bind_ok Hv. split; [done..| |done]. exists doc. split; [|done].
  destruct (marshal_event c); simpl in Hdoc; congruence.
Qed.

(** A message about an event of a service. *)
Lemma contract_message L {id key t md msg} (c : contract) :
  NewMessage id key t c md = Ok msg -> message_valid msg -> contract_valid c -> fact L c -> message_ok L msg.
Proof. intros Hm Hv Hc Hf. left. exists c. split_and!; [by eapply message_envelope | done..]. Qed.

Lemma billing_relayed L log rec topic msg :
  l_payments L = log -> service_log (payments_repo bs) (payment_legal os bs ns ss L) log -> rec ∈ log ->
  translate (svc_relay bs) rec = Ok (topic, msg, true) -> message_valid msg -> message_ok L msg.
Proof.
  intros <- [Hok Hcats] Hin Htr Hv. destruct (billing_run_ok _ (wired_billing _ _ _ _ _ Hwired)) as (_ & Hreg & Hpub).
  destruct (Hpub _ _ _ Htr) as (e & c & Hd & Hc & _ & Hm).
  rewrite Forall_forall in Hcats. destruct (stored_record _ _ _ _ Hok Hin (Hcats _ Hin)) as (evs & e' & Hh & (Hlife & Hcmd & _) & Hd' & He).
  unfold payments_repo in Hd'. rewrite Hreg, Hd' in Hd. injection Hd as ->.
  assert (evs <> []) as Hne by (intros ->; by apply elem_of_nil in He).
  destruct (Hcmd Hne) as (n & (Hu & _) & _). set (key := StreamKey (Stream rec)) in *.
  assert (stored_in (payments_repo bs) key (l_payments L) e) as Hst by by exists evs.
  assert (e = failed key \/ (exists cents, e = captured key cents /\ 0 < cents <= CaptureLimitCents) \/ e = refunded key) as Hcase.
  { destruct Hlife as [->|[->|(cents & Hcents & [->| ->])]]; [done|..];
      repeat (apply elem_of_cons in He as [->|He]; [by eauto|]); by apply elem_of_nil in He. }
  destruct Hcase as [->|[(cents & -> & Hcents)| ->]]; injection Hc as <-; eapply contract_message; try done.
  split; [done|]. unfold CaptureLimitCents, in_int64, int64_min, int64_max in *. simpl. lia.
Qed.

Lemma inventory_relayed L log rec topic msg :
  l_stock L = log -> service_log (stock_repo ns) (stock_legal os bs ns ss L) log -> rec ∈ log ->
  translate (svc_relay ns) rec = Ok (topic, msg, true) -> message_valid msg -> message_ok L msg.
Proof.
  intros <- [Hok Hcats] Hin Htr Hv. destruct (inventory_run_ok _ (wired_inventory _ _ _ _ _ Hwired)) as (_ & Hreg & _ & Hpub).
  destruct (Hpub _ _ _ Htr) as (e & c & Hd & Hc & _ & Hm).
  rewrite Forall_forall in Hcats. destruct (stored_record _ _ _ _ Hok Hin (Hcats _ Hin)) as (evs & e' & Hh & (Hlife & Hcmd) & Hd' & He).
  unfold stock_repo in Hd'. rewrite Hreg, Hd' in Hd. injection Hd as ->.
  assert (evs <> []) as Hne by (intros ->; by apply elem_of_nil in He).
  destruct (Hcmd Hne) as (n & (Hu & _) & _). set (key := StreamKey (Stream rec)) in *.
  assert (stored_in (stock_repo ns) key (l_stock L) e) as Hst by by exists evs.
  destruct Hlife as [->|[->|(qty & Hq & ->)]]; [done|..]; apply list_elem_of_singleton in He; subst e;
    injection Hc as <-; eapply contract_message; try done.
  split; [done|]. unfold AvailableStock, in_int64, int64_min, int64_max in *. simpl. lia.
Qed.

Lemma shipping_relayed L log rec topic msg :
  l_shipments L = log -> service_log (shipments_repo ss) (shipment_legal os bs ns ss L) log -> rec ∈ log ->
  translate (svc_relay ss) rec = Ok (topic, msg, true) -> message_valid msg -> message_ok L msg.
Proof.
  intros <- [Hok Hcats] Hin Htr Hv. destruct (shipping_run_ok _ (wired_shipping _ _ _ _ _ Hwired)) as (_ & Hreg & _ & Hpub).
  destruct (Hpub _ _ _ Htr) as (e & c & Hd & Hc & _ & Hm).
  rewrite Forall_forall in Hcats. destruct (stored_record _ _ _ _ Hok Hin (Hcats _ Hin)) as (evs & e' & Hh & (Hlife & Hcmd) & Hd' & He).
  unfold shipments_repo in Hd'. rewrite Hreg, Hd' in Hd. injection Hd as ->.
  assert (evs <> []) as Hne by (intros ->; by apply elem_of_nil in He).
  destruct (Hcmd Hne) as (Hu & _). set (key := StreamKey (Stream rec)) in *.
  assert (stored_in (shipments_repo ss) key (l_shipments L) e) as Hst by by exists evs.
  destruct Hlife as [->| ->]; [done|]; apply list_elem_of_singleton in He; subst e.
  injection Hc as <-. by eapply contract_message.
Qed.

(** The ordering service's: placements, and the saga's commands. *)
Lemma placed_contract_valid p : placed_valid p -> contract_valid (C_OrderPlaced (placed_contract p)).
Proof.
  intros [Hid Hcu Ht Hq]. split; [by apply canonical_utf8|]. split; [by apply canonical_utf8|].
  destruct Ht as [Ht1 Ht2]. simpl. unfold in_int64, int64_min, int64_max in *. split_and!; try lia; try done.
Qed.

Lemma history_events L order f evs e :
  saga_history L order f evs -> e ∈ evs -> utf8_valid order /\ forall y, e <> other y.
Proof.
  induction 1 as [|f evs md msg c s' outs over _ IH _ Hv Ho _ _ _ _ _]; [by intros ?%elem_of_nil|].
  assert (utf8_valid order) as Hu.
  { destruct c; cbn [order_of contract_valid] in *; try discriminate Ho; injection Ho as <-; first [exact Hv | apply Hv]. }
  rewrite elem_of_app, elem_of_cons, elem_of_app, list_elem_of_fmap. intros [?|[->|[(o & -> & _)|Hend]]]; [by apply IH | done..|].
  split; [done|]. destruct over; [by apply list_elem_of_singleton in Hend as -> | by apply elem_of_nil in Hend].
Qed.

Lemma justified_valid L order cmd : utf8_valid order -> justified L order cmd -> command_valid cmd.
Proof.
  intros Hu. destruct cmd as [c|c|c|c]; cbn [command_valid Causality.justified].
  - intros (Ho & e & (p & Hp & -> & _) & _ & Hc). rewrite Ho. split; [done|]. rewrite <-Hc.
    destruct (placed_contract_valid p Hp) as (_ & _ & ? & _). done.
  - by intros [-> _].
  - intros (Ho & _ & e & (p & Hp & -> & _) & _ & Hq). rewrite Ho. split; [done|]. rewrite <-Hq.
    destruct (placed_contract_valid p Hp) as (_ & _ & _ & _ & ?). done.
  - by intros [-> _].
Qed.

Lemma ordering_relayed L log rec topic msg :
  l_orders L = log -> ordering_log L log -> rec ∈ log ->
  translate (os_relay os) rec = Ok (topic, msg, true) -> message_valid msg -> message_ok L msg.
Proof.
  intros <- (Hord & Hsag & Hcats) Hin Htr Hv.
  destruct (ordering_run_ok _ _ (wired_ordering _ _ _ _ _ Hwired)) as (_ & _ & Hrun & Hreg & Hpub).
  assert (repo_registry (orders_repo os) = relay_registry (os_relay os)
          /\ repo_registry (sagas_repo os) = relay_registry (os_relay os)) as [Ho Hs].
  { unfold orders_repo, sagas_repo. rewrite Hrun, Hreg. done. }
  rewrite Forall_forall in Hcats. destruct (Hcats _ Hin) as [Hcat|Hcat].
  - destruct (stored_record _ _ _ _ Hord Hin Hcat) as (evs & e & Hh & Hlife & Hd & He). rewrite Ho in Hd.
    set (key := StreamKey (Stream rec)) in *.
    destruct Hlife as [->|(cu & t & q & rs & Hevs & _ & _ & Hpv)]; [by apply elem_of_nil in He|].
    rewrite Hevs in He. destruct (Hpub _ _ _ Htr) as [(p & Hp & Hm)|(cr & Hcr & _)].
    + rewrite Hd in Hp. injection Hp as ->. apply elem_of_cons in He as [He|(y & Hy & _)%list_elem_of_fmap]; [|discriminate Hy].
      injection He as ->. eapply contract_message; [exact Hm | done | by apply placed_contract_valid|].
      eexists. split; [exact Hpv|]. split; [done|]. exists evs. split; [exact Hh|]. rewrite Hevs. by left.
    + rewrite Hd in Hcr. injection Hcr as ->. apply elem_of_cons in He as [He|(y & Hy & _)%list_elem_of_fmap]; [discriminate He | discriminate Hy].
  - destruct (stored_record _ _ _ _ Hsag Hin Hcat) as (evs & e & Hh & (f & Hhist) & Hd & He). rewrite Hs in Hd.
    set (key := StreamKey (Stream rec)) in *. destruct (history_events _ _ _ _ _ Hhist He) as [Hu Hno].
    destruct (Hpub _ _ _ Htr) as [(p & Hp & _)|(cr & Hcr & _ & ->)].
    + rewrite Hd in Hp. injection Hp as ->. by destruct (Hno (E_OrderPlaced p)).
    + rewrite Hd in Hcr. injection Hcr as ->.
      destruct (history_commands _ _ _ _ _ _ _ _ _ Hhist He) as (md & tp & cmd & Hrec & Hj).
      right. exists key, cmd. split.
      * split_and!; [done..|]. exists md, tp, evs. split; [exact Hh|]. by rewrite <-Hrec.
      * split; [by eapply justified_valid|]. injection Hrec as ->. done.
Qed.

(** ** Every step *)

Lemma system_explained s : system_inv s -> explained (ledger_of s).
Proof.
  intros [Ho Hb Hi Hs _]. destruct (node_ok_store _ _ Ho) as [_ (? & ? & _)], (node_ok_store _ _ Hb) as [_ [? _]],
    (node_ok_store _ _ Hi) as [_ [? _]], (node_ok_store _ _ Hs) as [_ [? _]]. constructor; assumption.
Qed.

Section set.
Variable s : system W.
Hypothesis Hs : system_inv s.

Lemma ordering_moves n w w' :
  sys_ordering s = n -> loads_from n w ->
  store_inv w' /\ ordering_log (ledger_of s) (log_of w')
    /\ (log_of w' = log_of w \/ log_of (store n) `prefix_of` log_of w') ->
  system_inv (set_ordering s (settled n w')).
Proof.
  intros <- Hw (? & ? & ?). pose proof Hs as [Ho ? ? ? ?]. destruct (node_ok_settled _ _ w w' Ho Hw) as [Hok Hgrow]; [done..|].
  by apply (system_inv_intro _ _ _ _ (ledger_of s)).
Qed.

Lemma billing_moves n w w' :
  sys_billing s = n -> loads_from n w ->
  store_inv w' /\ service_log (payments_repo bs) (payment_legal os bs ns ss (ledger_of s)) (log_of w')
    /\ (log_of w' = log_of w \/ log_of (store n) `prefix_of` log_of w') ->
  system_inv (set_billing s (settled n w')).
Proof.
  intros <- Hw (? & ? & ?). pose proof Hs as [? Hb ? ? ?]. destruct (node_ok_settled _ _ w w' Hb Hw) as [Hok Hgrow]; [done..|].
  by apply (system_inv_intro _ _ _ _ (ledger_of s)).
Qed.

Lemma inventory_moves n w w' :
  sys_inventory s = n -> loads_from n w ->
  store_inv w' /\ service_log (stock_repo ns) (stock_legal os bs ns ss (ledger_of s)) (log_of w')
    /\ (log_of w' = log_of w \/ log_of (store n) `prefix_of` log_of w') ->
  system_inv (set_inventory s (settled n w')).
Proof.
  intros <- Hw (? & ? & ?). pose proof Hs as [? ? Hi ? ?]. destruct (node_ok_settled _ _ w w' Hi Hw) as [Hok Hgrow]; [done..|].
  by apply (system_inv_intro _ _ _ _ (ledger_of s)).
Qed.

Lemma shipping_moves n w w' :
  sys_shipping s = n -> loads_from n w ->
  store_inv w' /\ service_log (shipments_repo ss) (shipment_legal os bs ns ss (ledger_of s)) (log_of w')
    /\ (log_of w' = log_of w \/ log_of (store n) `prefix_of` log_of w') ->
  system_inv (set_shipping s (settled n w')).
Proof.
  intros <- Hw (? & ? & ?). pose proof Hs as [? ? ? Hh ?]. destruct (node_ok_settled _ _ w w' Hh Hw) as [Hok Hgrow]; [done..|].
  by apply (system_inv_intro _ _ _ _ (ledger_of s)).
Qed.

Lemma message_published topic msg : message_ok (ledger_of s) msg -> system_inv (publish s topic msg).
Proof. intros Hm. pose proof Hs as [? ? ? ? ?]. split; try done. by constructor. Qed.
End set.

Lemma step_preserves s s' : system_step u os bs ns ss x s s' -> system_inv s -> system_inv s'.
Proof.
  intros Hstep Hs. pose proof (system_explained s Hs) as Hex. pose proof Hs as [Ho Hb Hi Hsh Hc].
  destruct Hstep as [mw now b ctx cmd hp w r w' hp' s Hv Hw Hroom Hbus Hrun | mw now b ctx cmd hp w r w' hp' s Hv Hw Hroom Hbus Hrun
    | topic msg hd id now ctx hp w fin r w' hp' s _ Hin Hhd Hcorr _ Hw Hroom Hrun
    | mw now b msg cmd ctx hp w r w' hp' s Hin Hdec Hw Hroom Hbus Hrun
    | mw now b msg cmd ctx hp w r w' hp' s Hin Hdec Hw Hroom Hbus Hrun
    | mw now b msg cmd ctx hp w r w' hp' s Hin Hdec Hw Hroom Hbus Hrun
    | rec topic msg s Hin Htr Hv | rec topic msg s Hin Htr Hv | rec topic msg s Hin Htr Hv | rec topic msg s Hin Htr Hv].
  - apply (ordering_handles _ _ _ _ _ _ _ _ _ _ _ Hbus) in Hrun. lazy iota beta in Hrun. symmetry in Hrun.
    destruct (place_explained u u_ascii u_other _ _ _ _ Hwired _ _ _ _ _ _ _ _ _ _ Ho Hw Hroom _ Hv Hrun) as [Hok Hset].
    by apply (ordering_moves _ Hs _ w); [done..|eapply orders_settle].
  - apply (ordering_handles _ _ _ _ _ _ _ _ _ _ _ Hbus) in Hrun. lazy iota beta in Hrun. symmetry in Hrun.
    destruct (notify_explained u u_ascii u_other _ _ _ _ Hwired _ _ _ _ _ _ _ _ _ _ Ho Hw Hroom _ Hv Hrun) as [Hok Hset].
    by apply (ordering_moves _ Hs _ w); [done..|eapply orders_settle].
  - pose proof (in_channel _ _ _ _ _ _ _ _ Hs Hin) as Hm.
    destruct (saga_explained _ _ _ Ho Hw Hroom Hex eq_refl _ _ _ _ _ _ _ _ _ _ Hm Hhd Hcorr Hrun) as [Hok Hset].
    by apply (ordering_moves _ Hs _ w); [done..|eapply sagas_settle].
  - apply (billing_handles _ _ _ _ _ _ _ _ _ _ Hbus) in Hrun. pose proof (in_channel _ _ _ _ _ _ _ _ Hs Hin) as Hm.
    pose proof (billing_delivered _ _ _ _ _ Hwired _ _ _ Hm Hdec) as Hcmd.
    apply (billing_moves _ Hs _ w); [done..|]. destruct cmd; try done; symmetry in Hrun; eapply settles_log; try done.
    + by eapply capture_explained.
    + by eapply capture_explained.
    + by eapply refund_explained.
    + by eapply refund_explained.
  - apply (inventory_handles _ _ _ _ _ _ _ _ _ _ Hbus) in Hrun. pose proof (in_channel _ _ _ _ _ _ _ _ Hs Hin) as Hm.
    pose proof (inventory_delivered _ _ _ _ _ Hwired _ _ _ Hm Hdec) as Hcmd.
    apply (inventory_moves _ Hs _ w); [done..|]. destruct cmd; try done; symmetry in Hrun; eapply settles_log; try done;
      by eapply reserve_explained.
  - apply (shipping_handles _ _ _ _ _ _ _ _ _ _ Hbus) in Hrun. pose proof (in_channel _ _ _ _ _ _ _ _ Hs Hin) as Hm.
    pose proof (shipping_delivered _ _ _ _ _ Hwired _ _ _ Hm Hdec) as Hcmd.
    apply (shipping_moves _ Hs _ w); [done..|]. destruct cmd; try done; symmetry in Hrun; eapply settles_log; try done;
      by eapply create_explained.
  - apply message_published; [done|]. destruct (node_ok_store _ _ Ho) as [_ Hlog]. by eapply ordering_relayed.
  - apply message_published; [done|]. destruct (node_ok_store _ _ Hb) as [_ Hlog]. by eapply billing_relayed.
  - apply message_published; [done|]. destruct (node_ok_store _ _ Hi) as [_ Hlog]. by eapply inventory_relayed.
  - apply message_published; [done|]. destruct (node_ok_store _ _ Hsh) as [_ Hlog]. by eapply shipping_relayed.
Qed.
End steps.

(** ** Every run *)

(** Four services with nothing stored, and nothing published. *)
Definition empty_node {W} `{StoreSpec W} (n : node W) : Prop :=
  store_inv (store n) /\ log_of (store n) = [] /\ earlier n = [].

Record system_starts {W} `{StoreSpec W} (s : system W) : Prop := {
  starts_ordering : empty_node (sys_ordering s);
  starts_billing : empty_node (sys_billing s);
  starts_inventory : empty_node (sys_inventory s);
  starts_shipping : empty_node (sys_shipping s);
  starts_channel : channel s = [];
}.

Lemma node_ok_starts {W} `{StoreSpec W} (P : list RecordedEvent -> Prop) (n : node W) :
  empty_node n -> P [] -> node_ok P n.
Proof.
  intros (Hinv & Hlog & He) HP w [->|Hw]; [by rewrite Hlog|]. rewrite He in Hw. by apply elem_of_nil in Hw.
Qed.

Section runs.
Context {W : Type} `{StoreSpec W} `{Clock (W * heap)}.
Variables (u : N -> N) (os : OrderingService) (bs : CommandService payment_event Billing.Handlers)
  (ns : CommandService stock_event Inventory.Handlers) (ss : CommandService shipment_event Shipping.Handlers) (x : Extractor).
Implicit Types s : system W.

Lemma start_inv s : system_starts s -> system_inv os bs ns ss s.
Proof.
  intros [Ho Hb Hi Hs Hc].
  assert (forall id, payment_legal os bs ns ss (ledger_of s) id []) as Hpay
    by (intros id; split; [by left|]; split; [done | by intros ?%elem_of_nil]).
  assert (forall id, stock_legal os bs ns ss (ledger_of s) id []) as Hstk by (intros id; split; [by left | done]).
  assert (forall id, shipment_legal os bs ns ss (ledger_of s) id []) as Hshp by (intros id; split; [by left | done]).
  split; [| | | |by rewrite Hc]; apply node_ok_starts; try done.
  - split_and!; [apply streams_ok_nil; by left | apply streams_ok_nil; intros id; exists flow_start; constructor | done].
  - split; [by apply streams_ok_nil | done].
  - split; [by apply streams_ok_nil | done].
  - split; [by apply streams_ok_nil | done].
Qed.

Lemma system_reachable_inv s0 s :
  (forall r, (r < 128)%N -> u r = ascii_lower_rune r) ->
  (forall r, (128 <= r)%N -> (128 <= u r)%N \/ u r = 105%N \/ u r = 107%N) ->
  wired u os bs ns ss -> (forall ctx, optional_map_valid (MetadataFromContext x ctx)) ->
  system_starts s0 -> rtc (system_step u os bs ns ss x) s0 s -> system_inv os bs ns ss s.
Proof.
  intros Hu1 Hu2 Hw Hx Hs Hrun. apply start_inv in Hs. revert Hs.
  induction Hrun as [|s0 s1 s2 Hstep _ IH]; [done|]. intros Hs. apply IH. by eapply step_preserves.
Qed.
End runs.

(** C1: What the four services store about an order is causally right, in every
    run: whatever the interleaving, however stale the store a handler loaded
    from, however often a message is delivered or an attempt lost. Each
    service holds for the order one of the lives its own rules allow, and the
    lives fit each other: a payment is decided only for a placed order and
    over exactly its amount; stock only for a payment that was captured, and
    over exactly the ordered quantity; a shipment goes out only when the
    payment is captured and not refunded and the stock is reserved; a refund
    is paid only for rejected stock, and then nothing ships. *)
Theorem fulfillment_is_causal {W} `{StoreSpec W} `{Clock (W * heap)} (u : N -> N) (os : OrderingService)
    (bs : CommandService payment_event Billing.Handlers) (ns : CommandService stock_event Inventory.Handlers)
    (ss : CommandService shipment_event Shipping.Handlers) (x : Extractor) (s0 s : system W) (order : string)
    (u_ascii : forall r, (r < 128)%N -> u r = ascii_lower_rune r)
    (u_other : forall r, (128 <= r)%N -> (128 <= u r)%N \/ u r = 105%N \/ u r = 107%N)
    (Hwired : wired u os bs ns ss) (x_valid : forall ctx, optional_map_valid (MetadataFromContext x ctx))
    (Hstart : system_starts s0) (Hrun : rtc (system_step u os bs ns ss x) s0 s) :
  exists oevs pevs revs sevs,
    stream_holds (orders_repo os) order (log_of (store (sys_ordering s))) oevs /\ order_life order oevs
    /\ stream_holds (payments_repo bs) order (log_of (store (sys_billing s))) pevs /\ payment_life order pevs
    /\ stream_holds (stock_repo ns) order (log_of (store (sys_inventory s))) revs /\ reservation_life order revs
    /\ stream_holds (shipments_repo ss) order (log_of (store (sys_shipping s))) sevs /\ shipment_life order sevs
    /\ causal order oevs pevs revs sevs.
Proof.
  pose proof (system_reachable_inv _ _ _ _ _ _ _ _ u_ascii u_other Hwired x_valid Hstart Hrun) as Hinv.
  pose proof (system_explained _ _ _ _ _ Hinv) as Hex.
  destruct (ex_orders _ _ _ _ _ Hex order) as (oevs & Ho & Hol), (ex_payments _ _ _ _ _ Hex order) as (pevs & Hp & Hpl),
    (ex_stock _ _ _ _ _ Hex order) as (revs & Hr & Hrl), (ex_shipments _ _ _ _ _ Hex order) as (sevs & Hs & Hsl).
  exists oevs, pevs, revs, sevs. split_and!; try done; [apply Hpl | apply Hrl | apply Hsl|].
  by eapply explained_causal.
Qed.

(** C2: Nothing false is ever published. In every run, each message on a topic
    either carries a contract event whose fact is on the log of the service
    it speaks for, or a command that the order's saga recorded with cause: to
    charge what the order placed, to reserve what it placed once it was
    charged, to ship once stock was reserved, to refund once it was
    rejected. *)
Theorem messages_state_facts {W} `{StoreSpec W} `{Clock (W * heap)} (u : N -> N) (os : OrderingService)
    (bs : CommandService payment_event Billing.Handlers) (ns : CommandService stock_event Inventory.Handlers)
    (ss : CommandService shipment_event Shipping.Handlers) (x : Extractor) (s0 s : system W) (topic : string) (msg : Message)
    (u_ascii : forall r, (r < 128)%N -> u r = ascii_lower_rune r)
    (u_other : forall r, (128 <= r)%N -> (128 <= u r)%N \/ u r = 105%N \/ u r = 107%N)
    (Hwired : wired u os bs ns ss) (x_valid : forall ctx, optional_map_valid (MetadataFromContext x ctx))
    (Hstart : system_starts s0) (Hrun : rtc (system_step u os bs ns ss x) s0 s) (Hmsg : (topic, msg) ∈ channel s) :
  message_ok os bs ns ss (ledger_of s) msg.
Proof.
  pose proof (system_reachable_inv _ _ _ _ _ _ _ _ u_ascii u_other Hwired x_valid Hstart Hrun) as Hinv.
  exact (in_channel _ _ _ _ _ _ _ _ Hinv Hmsg).
Qed.

(** ** A run of it *)

Module Sample.
#[export] Instance prompt : Clock (MemoryStore * heap) := fun _ _ w => (true, w).
Definition lower := sample_ToLower.
Definition no_ordering : OrderingService :=
  mkOrderingService (mkRegistry ∅) (Ordering.New (mkRegistry ∅)) (mkRelay (mkRegistry ∅) (relay_config "" "") ∅ ∅) (runner (mkRegistry ∅)).
Definition no_service {Ev H} (h : Registry Ev -> H) : CommandService Ev H :=
  mkCommandService (mkRegistry ∅) (h (mkRegistry ∅)) (mkCommandRegistry ∅) (mkRelay (mkRegistry ∅) (relay_config "" "") ∅ ∅).
Definition built {A} (d : A) (r : res A) : A := match r with Ok a => a | _ => d end.
Definition os : OrderingService := built no_ordering (ordering_run lower).
Definition bs := built (no_service Billing.New) billing_run.
Definition ns := built (no_service Inventory.New) inventory_run.
Definition ss := built (no_service Shipping.New) shipping_run.

Definition fresh : node MemoryStore := mkNode NewMemoryStore [].
Definition start : system MemoryStore := mkSystem fresh fresh fresh fresh [].

(** Placed; the placement relayed twice and each reacted to, the second time
    from the store before the first; captured twice, the second from a stale
    store; reserved; shipped. Published messages are counted from the last. *)
Definition moves : list move :=
  [place 0 Ordering.Sample.cmd; relay_ordering 0; relay_ordering 0; react 0 0; react 1 0; relay_ordering 2;
   bill 0 0; bill 1 0; relay_billing 0; react 0 0; relay_ordering 4; stock 0 0; relay_inventory 0; react 0 0;
   relay_ordering 6; ship 0 0; relay_shipping 0; react 0 0].
Definition finish : system MemoryStore := play lower os bs ns ss None moves start.
Definition order := Ordering.Sample.text.
Definition nothing_said : string * Message := ("", mkMessage "" "" "" 0 zero_time RawNil None).
Definition first_said : string * Message := default nothing_said (last (channel finish)).

Lemma built_ok {A} (d : A) r : is_ok r = true -> r = Ok (built d r).
Proof. by destruct r. Qed.
Lemma services_wired : wired lower os bs ns ss.
Proof. destruct (services_run lower) as (? & ? & ? & ?). by split; apply built_ok. Qed.
Lemma starts : system_starts start.
Proof. assert (empty_node fresh) by (split; [exact mem_inv_new | done]). by split. Qed.
Lemma runs : rtc (system_step lower os bs ns ss None) start finish.
Proof. apply play_steps. Qed.
End Sample.
Import Sample.

Lemma fulfillment_is_causal_witness :
  exists oevs, stream_holds (orders_repo os) order (log_of (store (sys_ordering finish))) oevs /\ order_life order oevs
    /\ causal order oevs [captured order 500] [reserved order 2] [dispatch_of order].
Proof.
  destruct (fulfillment_is_causal lower os bs ns ss None start finish order sample_ToLower_ascii sample_ToLower_other
    services_wired (fun _ => I) starts runs) as (oevs & pevs & revs & sevs & Ho & Hol & Hp & _ & Hr & _ & Hs & _ & Hc).
  exists oevs. split; [exact Ho|]. split; [exact Hol|].
  assert (pevs = [captured order 500]) as <- by (eapply stream_holds_inj; [exact Hp | vm_compute; reflexivity]).
  assert (revs = [reserved order 2]) as <- by (eapply stream_holds_inj; [exact Hr | vm_compute; reflexivity]).
  assert (sevs = [dispatch_of order]) as <- by (eapply stream_holds_inj; [exact Hs | vm_compute; reflexivity]).
  exact Hc.
Defined.

Lemma messages_state_facts_witness :
  msg_Type (snd first_said) = "ordering.order_placed" /\ message_ok os bs ns ss (ledger_of finish) (snd first_said).
Proof.
  split; [vm_compute; reflexivity|].
  refine (messages_state_facts lower os bs ns ss None start finish (fst first_said) (snd first_said)
    sample_ToLower_ascii sample_ToLower_other services_wired (fun _ => I) starts runs _).
  apply list_elem_of_lookup_2 with (i := 7%nat). vm_compute. reflexivity.
Defined.
