(* ===== verification/Postgres.v ===== *)
(** * What the Postgres adapters share

    The database is no code of this repository. The adapters' statements are:
    each is a function of its table, run by a round trip that may fail before
    or after the statement took effect. *)

From S2P Require Import Prelude Tail Errors.

(** How a round trip ends: answered; refused, and nothing happened; or lost,
    when the statement ran and the reply did not arrive. Any statement may be
    refused, for whatever reason the database has. *)
Inductive fate := Answered | Refused (e : error) | Lost (e : error).

(** ** Queries *)

Definition key_le {A} (key : A -> Z) (a b : A) : Prop := key a <= key b.
#[export] Instance key_le_dec {A} (key : A -> Z) : RelDecision (key_le key).
Proof. intros a b. unfold key_le. apply _. Defined.
#[export] Instance key_le_trans {A} (key : A -> Z) : Transitive (key_le key).
Proof. intros a b c. unfold key_le. lia. Qed.
#[export] Instance key_le_total {A} (key : A -> Z) : Total (key_le key).
Proof. intros a b. unfold key_le. lia. Qed.

(** [ORDER BY key]. *)
Definition order_by {A} (key : A -> Z) (rs : list A) : list A := merge_sort (key_le key) rs.

(** [coalesce(max(key), 0)]. *)
Definition max_or_zero (keys : list Z) : Z :=
  match keys with [] => 0 | k :: ks => foldl Z.max k ks end.

Lemma elem_of_order_by {A} (key : A -> Z) (rs : list A) x : x ∈ order_by key rs <-> x ∈ rs.
Proof. unfold order_by. by rewrite merge_sort_Permutation. Qed.

(** Ordering rows that are in order already. *)
Lemma order_by_sorted {A} (key : A -> Z) (rs : list A) : StronglySorted Z.lt (key <$> rs) -> order_by key rs = rs.
Proof.
  intros Hs. assert (StronglySorted (key_le key) rs) as Hle.
  { induction rs as [|r rs IH]; [constructor|]. rewrite fmap_cons in Hs. apply StronglySorted_inv in Hs as [Hs Hr].
    constructor; [by apply IH|]. rewrite Forall_fmap in Hr. eapply Forall_impl; [exact Hr|]. unfold key_le. simpl. lia. }
  assert (NoDup (key <$> rs)) as Hnd.
  { clear Hle. induction rs as [|r rs IH]; [constructor|]. rewrite fmap_cons in *. apply StronglySorted_inv in Hs as [Hs Hr].
    constructor; [|by apply IH]. rewrite Forall_forall in Hr. intros Hin%Hr. lia. }
  unfold order_by. clear Hs. pose proof (merge_sort_Permutation (key_le key) rs) as Hp.
  pose proof (StronglySorted_merge_sort (key_le key) rs) as Hm. revert Hp Hm. generalize (merge_sort (key_le key) rs).
  revert Hle Hnd. induction rs as [|r rs IH]; intros Hle Hnd l Hp Hm; [by apply Permutation_nil_r in Hp|].
  destruct l as [|x l]; [by apply Permutation_nil_l in Hp|].
  apply StronglySorted_inv in Hle as [Hle Hr]. apply StronglySorted_inv in Hm as [Hm Hx].
  rewrite fmap_cons in Hnd. apply NoDup_cons in Hnd as [Hnin Hnd].
  assert (x = r) as ->.
  { assert (x ∈ r :: rs) as Hxin by (rewrite <-Hp; by left). assert (r ∈ x :: l) as Hrin by (rewrite Hp; by left).
    apply elem_of_cons in Hxin as [?|Hxin]; [done|]. apply elem_of_cons in Hrin as [?|Hrin]; [done|].
    rewrite Forall_forall in Hr, Hx. pose proof (Hr _ Hxin). pose proof (Hx _ Hrin). unfold key_le in *.
    exfalso. apply Hnin. replace (key r) with (key x) by lia. by apply list_elem_of_fmap_2. }
  f_equal. apply IH; try done. by apply Permutation_cons_inv in Hp.
Qed.

Lemma max_or_zero_snoc keys k : Forall (fun x => x < k) (0 :: keys) -> max_or_zero (keys ++ [k]) = k.
Proof.
  intros [H0 Hk]%Forall_cons. destruct keys as [|x keys]; [done|]. cbn [app max_or_zero].
  rewrite foldl_app. simpl. apply Forall_cons in Hk as [Hx Hks].
  assert (foldl Z.max x keys < k); [|lia]. clear H0. revert x Hx. induction Hks as [|y keys Hy _ IH]; intros x Hx; simpl; [done|].
  apply IH. lia.
Qed.

(** The maximum of increasing positive keys is the last one. *)
Lemma max_or_zero_last keys : StronglySorted Z.lt (0 :: keys) -> max_or_zero keys = default 0 (last keys).
Proof.
  destruct keys as [|k keys _] using rev_ind; [done|]. rewrite last_snoc. intros Hs. simpl.
  apply max_or_zero_snoc. rewrite app_comm_cons in Hs. generalize dependent (0 :: keys). clear. intros l.
  induction l as [|x l IH]; simpl; intros Hs; [constructor|]. apply StronglySorted_inv in Hs as [Hs Hx].
  constructor; [|by apply IH]. apply Forall_app in Hx as [_ Hx]. exact (Forall_inv Hx).
Qed.

Lemma max_or_zero_versions n : 0 <= n -> max_or_zero (seqZ 1 n) = n.
Proof.
  intros Hn. rewrite max_or_zero_last.
  - destruct (decide (n = 0)) as [->|Hne]; [done|]. replace n with (n - 1 + 1) at 1 by lia.
    rewrite <-seqZ_snoc by lia. rewrite last_snoc. simpl. lia.
  - constructor; [apply StronglySorted_seqZ|]. rewrite Forall_forall. intros x Hx%elem_of_seqZ. lia.
Qed.

Lemma filter_map {A B} (f : A -> B) (P : B -> Prop) `{forall x, Decision (P x)} (l : list A) :
  filter P (f <$> l) = f <$> filter (fun x => P (f x)) l.
Proof. induction l as [|x l IH]; [done|]. rewrite fmap_cons, !filter_cons, IH. by case_decide. Qed.

Lemma order_by_strict {A} (key : A -> Z) (l : list A) :
  NoDup (key <$> l) -> StronglySorted Z.lt (key <$> order_by key l).
Proof.
  unfold order_by. pose proof (StronglySorted_merge_sort (key_le key) l) as Hs.
  rewrite <-(fmap_Permutation key _ _ (merge_sort_Permutation (key_le key) l)).
  induction Hs as [|x k Hs IH Hx]; [constructor|]. rewrite fmap_cons, NoDup_cons. intros [Hnin Hnd].
  constructor; [by apply IH|]. rewrite Forall_fmap, Forall_forall in *. intros y Hy. specialize (Hx y Hy).
  unfold key_le in Hx. simpl. assert (key x <> key y); [|lia]. intros Heq. apply Hnin. rewrite Heq.
  by apply list_elem_of_fmap_2.
Qed.
