(* ===== verification/PgTables.v ===== *)
(** * eventstore-postgres/checkpoints.go and cqrs-postgres/dedup.go

    Two adapters of one statement per method. The state carries how the coming
    round trips will end, so that the port classes, which know nothing of a
    network, get the failures a database adds. *)

From S2P Require Import Prelude Tail Errors Json Checkpoint Broker Cqrs Consumer Postgres.

(** A table, and the fates of the coming round trips: answered once the list
    is used up. *)
Record Pg (T : Type) := mkPg { table : T; fates : list fate }.
Arguments mkPg {T} table fates.
Arguments table {T} p.
Arguments fates {T} p.

(** Send one statement. *)
Definition round_trip {T A} (before : string) (stmt : T -> A * T) (p : Pg T) : res A * Pg T :=
  let '(a, t) := stmt (table p) in
  match fates p with
  | [] => (Ok a, mkPg t [])
  | Answered :: fs => (Ok a, mkPg t fs)
  | Refused e :: fs => (Err (EWrap before e ""), mkPg (table p) fs)
  | Lost e :: fs => (Err (EWrap before e ""), mkPg t fs)
  end.

(** What every single-statement method promises: the answer is the
    statement's on the table as it was, and a failure left the table as it was
    or as the statement leaves it. *)
Lemma round_trip_spec {T A} before (stmt : T -> A * T) p r p' :
  round_trip before stmt p = (r, p') ->
  (r = Ok (fst (stmt (table p))) /\ table p' = snd (stmt (table p)))
  \/ (is_ok r = false /\ (table p' = table p \/ table p' = snd (stmt (table p)))).
Proof.
  unfold round_trip. destruct (stmt (table p)) as [a t]. destruct (fates p) as [|[|e|e] fs]; intros [= <- <-]; simpl; auto.
Qed.

(** A statement the server may refuse itself. *)
Definition exec {T A} (before : string) (stmt : T -> res A * T) (p : Pg T) : res A * Pg T :=
  let '(r, p') := round_trip before stmt p in (try a := r in res_wrap before "" a, p').

Lemma exec_spec {T A} before (stmt : T -> res A * T) p r p' :
  exec before stmt p = (r, p') ->
  (r = res_wrap before "" (fst (stmt (table p))) /\ table p' = snd (stmt (table p)))
  \/ (is_ok r = false /\ (table p' = table p \/ table p' = snd (stmt (table p)))).
Proof.
  unfold exec. destruct (round_trip before stmt p) as [r1 p1] eqn:E. intros [= <- <-].
  apply round_trip_spec in E as [[-> Ht]|[Hr Ht]]; [by left|right]. split; [by destruct r1 | done].
Qed.

(** ** Checkpoints: the rows (name, seq) *)

Definition PgCheckpoints : Type := Pg (gmap string Z).

(** [SELECT coalesce((SELECT seq ... WHERE name = $1), 0)] *)
Definition pg_Get (name : string) : PgCheckpoints -> res Z * PgCheckpoints :=
  round_trip ("espostgres: checkpoint get " +:+ name +:+ ": ") (fun t => (default 0 (t !! name), t)).

(** [INSERT ... ON CONFLICT (name) DO UPDATE SET seq = excluded.seq] *)
Definition pg_Set (name : string) (seq : Z) : PgCheckpoints -> res unit * PgCheckpoints :=
  round_trip ("espostgres: checkpoint set " +:+ name +:+ ": ") (fun t => (tt, <[name := seq]> t)).

#[export] Instance PgCheckpoints_store : CheckpointStore PgCheckpoints := { cp_Get := pg_Get; cp_Set := pg_Set }.

#[export] Program Instance PgCheckpoints_spec : CheckpointSpec PgCheckpoints := { positions_of := table }.
Next Obligation.
  intros name c r c' E. change (pg_Get name c = (r, c')) in E. unfold pg_Get in E. apply round_trip_spec in E as [[-> ->]|[Hr Ht]].
  - split; [done|]. by intros seq [= <-].
  - split; [by destruct Ht|]. by intros seq ->.
Qed.
Next Obligation. intros name seq c r c' E. change (pg_Set name seq c = (r, c')) in E. unfold pg_Set in E. apply round_trip_spec in E as [[-> ->]|[Hr [->| ->]]]; auto. Qed.

(** ** Deduplicator: the processed identifiers *)

Definition PgDeduplicator : Type := Pg (gset string).

(** [SELECT EXISTS (SELECT 1 ... WHERE id = $1)] *)
Definition pg_Processed (id : string) : PgDeduplicator -> res bool * PgDeduplicator :=
  round_trip ("cqrspg: processed " +:+ id +:+ ": ") (fun t => (bool_decide (id ∈ t), t)).

(** [INSERT ... ON CONFLICT (id) DO NOTHING] *)
Definition pg_MarkProcessed (id : string) : PgDeduplicator -> res unit * PgDeduplicator :=
  round_trip ("cqrspg: mark " +:+ id +:+ ": ") (fun t => (tt, if decide (id ∈ t) then t else {[id]} ∪ t)).

#[export] Instance PgDeduplicator_dedup : Deduplicator PgDeduplicator := {
  Processed := pg_Processed; MarkProcessed := pg_MarkProcessed;
}.

#[export] Program Instance PgDeduplicator_spec : DeduplicatorSpec PgDeduplicator := { marked := table }.
Next Obligation.
  intros id d r d' E. change (pg_Processed id d = (r, d')) in E. unfold pg_Processed in E. apply round_trip_spec in E as [[-> ->]|[Hr Ht]].
  - split; [done|]. by intros b [= <-].
  - split; [by destruct Ht|]. by intros b ->.
Qed.
Next Obligation.
  intros id d r d' E. change (pg_MarkProcessed id d = (r, d')) in E. unfold pg_MarkProcessed in E. apply round_trip_spec in E as [[-> ->]|[Hr [->| ->]]]; [|by right|]; simpl; left;
    case_decide; [set_solver | done | set_solver | done].
Qed.

(** ** What the clients get

    The ports' clients are proved against the classes; two instances of that
    on a database that fails. *)

(** The calls of [Set] and [Get] one client makes. *)
Inductive cp_call := CpGet (name : string) | CpSet (name : string) (seq : Z).

Definition cp_answer (c : cp_call) (p : PgCheckpoints) : res Z * PgCheckpoints :=
  match c with
  | CpGet name => pg_Get name p
  | CpSet name seq => let '(r, p') := pg_Set name seq p in (try _ := r in Ok seq, p')
  end.

Fixpoint cp_answers (cs : list cp_call) (p : PgCheckpoints) : list (res Z) * PgCheckpoints :=
  match cs with
  | [] => ([], p)
  | c :: rest => let '(r, p1) := cp_answer c p in let '(rs, p2) := cp_answers rest p1 in (r :: rs, p2)
  end.

(** The values a checkpoint may hold after those calls, given their answers:
    a failed [Set] leaves both possible until a [Get] or a [Set] succeeds. *)
Fixpoint cp_possible (name : string) (cs : list cp_call) (rs : list (res Z)) (vs : list Z) : list Z :=
  match cs, rs with
  | c :: cs, r :: rs =>
    let vs' :=
      match c, r with
      | CpSet n seq, Ok _ => if decide (n = name) then [seq] else vs
      | CpSet n seq, _ => if decide (n = name) then seq :: vs else vs
      | CpGet n, Ok v => if decide (n = name) then [v] else vs
      | CpGet _, _ => vs
      end in
    cp_possible name cs rs vs'
  | _, _ => vs
  end.

(** A checkpoint holds what the answers allow: after a [Set] that was
    answered, its value; after one that failed, that or what it may have been
    before; and a [Get] that is answered settles it and changes nothing. *)
Theorem pg_checkpoints_hold name cs p :
  forall vs, default 0 (table p !! name) ∈ vs ->
  let '(rs, p') := cp_answers cs p in default 0 (table p' !! name) ∈ cp_possible name cs rs vs.
Proof.
  revert p. induction cs as [|c cs IH]; intros p vs Hv; cbn [cp_answers]; [done|].
  destruct (cp_answer c p) as [r p1] eqn:E. specialize (IH p1).
  destruct (cp_answers cs p1) as [rs p2]. cbn [cp_possible]. apply IH. clear IH.
  destruct c as [n|n seq]; unfold cp_answer in E.
  - unfold pg_Get in E. apply round_trip_spec in E as [[-> Ht]|[Hr Ht]]; simpl in Ht; assert (table p1 = table p) as -> by tauto.
    + case_decide as Hn; [subst|done]. by apply list_elem_of_singleton.
    + by destruct r.
  - destruct (pg_Set n seq p) as [r' p1'] eqn:Es. injection E as <- <-.
    unfold pg_Set in Es. apply round_trip_spec in Es as [[-> Ht]|[Hr Ht]]; simpl in Ht.
    + rewrite Ht. cbn [res_bind]. case_decide as Hn; [subst; rewrite lookup_insert_eq; by apply list_elem_of_singleton|].
      by rewrite lookup_insert_ne.
    + destruct r' as [[]|e|m]; [done| |]; cbn [res_bind]; (case_decide as Hn; [subst; apply elem_of_cons|]);
        destruct Ht as [->| ->]; rewrite ?lookup_insert_eq, ?lookup_insert_ne by done; auto.
Qed.

Lemma pg_checkpoints_hold_witness :
  let lost := Lost (EText "connection reset") in
  let '(rs, p') := cp_answers [CpSet "relay" 7; CpSet "relay" 9; CpGet "relay"] (mkPg ∅ [Answered; lost; Answered]) in
  is_ok <$> rs = [true; false; true] /\ default 0 (table p' !! "relay") = 9
  /\ default 0 (table p' !! "relay") ∈ cp_possible "relay" [CpSet "relay" 7; CpSet "relay" 9; CpGet "relay"] rs [0].
Proof.
  split; [reflexivity|]. split; [reflexivity|].
  exact (pg_checkpoints_hold "relay" [CpSet "relay" 7; CpSet "relay" 9; CpGet "relay"]
    (mkPg ∅ [Answered; Lost (EText "connection reset"); Answered]) [0] (proj2 (list_elem_of_singleton _ _) eq_refl)).
Defined.
