(* ===== verification/PgStore.v ===== *)
(** * eventstore-postgres/store.go: the event store on Postgres

    The statements the adapter sends, as functions of the events table, and
    [Append] as a machine of one round trip per step, so that any number of
    calls can interleave, lose their connection or crash. The port's promise
    to tailing readers rests on the advisory lock. *)

From S2P Require Import Prelude Tail Errors Utf8 GoTime Json EventStore MemoryStore Postgres.

(** ** The database *)

(** An error of the driver: no sentinel of this program. *)
Definition driver_error (e : error) : Prop :=
  errors_Is e ErrVersionConflict = false /\ AsDomainError e = None.

Definition fate_ok (f : fate) : Prop :=
  match f with Answered => True | Refused e | Lost e => driver_error e end.

(** A row of the events table. *)
Record row := mkRow {
  row_seq : Z;
  row_stream : StreamID; (* category, stream_id *)
  row_version : Z;
  row_name : string;
  row_schema : Z;
  row_payload : json;
  row_metadata : json;
  row_at : Time;
}.

(** The committed rows in commit order, the last value of the identity
    sequence, and the session that holds the append lock. *)
Record Db := mkDb { rows : list row; sequence : Z; lock : option nat }.

Definition empty_db : Db := mkDb [] 0 None.

Definition in_int32 (z : Z) : Prop := - 2 ^ 31 <= z < 2 ^ 31.
#[export] Instance in_int32_dec z : Decision (in_int32 z).
Proof. unfold in_int32. apply _. Defined.

Definition marshalMetadata (m : strmap) : json :=
  match m with
  | None => JObj []
  | Some md => if decide (md = ∅) then JObj [] else enc_map m
  end.

Definition unmarshalMetadata (data : json) : res strmap :=
  match data with
  | JObj [] => Ok None
  | _ =>
    try m := dec_map None data in
    Ok (match m with Some md => if decide (md = ∅) then None else m | None => None end)
  end.

Section store.
(** What a jsonb column holds of a JSON text: the same value in Postgres's own
    form, or a refusal. *)
Variable jsonb : json -> option json.

Definition json_column (r : RawMessage) : option json :=
  match r with RawJSON doc => jsonb doc | RawNil | RawInvalid _ => None end.

(** ** Append *)

Record call := mkCall { c_stream : StreamID; c_expected : Z; c_events : list EventData }.

(** Where a call stands: the next round trip, or its result. *)
Inductive place :=
  | Start
  | Locking
  | Reading
  | Inserting (i : nat) (lastSeq : Z)
  | Rollback (r : res Z)
  | Finished (r : res Z).

(** A call, and the rows its transaction has inserted. *)
Record session := mkSession { ses_call : call; ses_place : place; ses_rows : list row }.

Definition begin_session (c : call) : session := mkSession c Start [].

Definition append_error (what : string) (e : error) : res Z := Err (EWrap ("espostgres: append: " +:+ what +:+ ": ") e "").

Definition lock_free (k : nat) (d : Db) : bool := bool_decide (lock d = None \/ lock d = Some k).
Definition take_lock (k : nat) (d : Db) : Db := mkDb (rows d) (sequence d) (Some k).
Definition release (k : nat) (d : Db) : Db :=
  if decide (lock d = Some k) then mkDb (rows d) (sequence d) None else d.

Definition current_version (s : StreamID) (d : Db) : Z :=
  max_or_zero (row_version <$> filter (fun r => row_stream r = s) (rows d)).

(** The row an INSERT adds, if the columns accept their values and the version
    is new in its stream. *)
Definition new_row (now : Time) (s : StreamID) (version : Z) (e : EventData) (d : Db) (pending : list row) : option row :=
  match json_column (ed_Payload e), jsonb (marshalMetadata (ed_Metadata e)) with
  | Some payload, Some metadata =>
    if decide (in_int32 (ed_SchemaVersion e) /\ sequence d < int64_max
               /\ Forall (fun r => ~ (row_stream r = s /\ row_version r = version)) (rows d ++ pending))
    then Some (mkRow (sequence d + 1) s version (ed_EventName e) (ed_SchemaVersion e) payload metadata now)
    else None
  | _, _ => None
  end.

(** A value of the sequence is used up whether or not its row stays. *)
Definition burn (d : Db) : Db :=
  if decide (sequence d < int64_max) then mkDb (rows d) (sequence d + 1) (lock d) else d.

Definition constraint_error : error := EText "ERROR: the row is not accepted".

Definition store_step (k : nat) (f : fate) (now : Time) (d : Db) (ses : session) : option (Db * session) :=
  let c := ses_call ses in
  let roll d r := Some (d, mkSession c (Rollback r) []) in
  match ses_place ses with
  | Start =>
    if decide (c_events c = []) then Some (d, mkSession c (Finished (Ok 0)) []) else
    match f with
    | Answered => Some (d, mkSession c Locking [])
    | Refused e | Lost e => Some (d, mkSession c (Finished (append_error "begin" e)) [])
    end
  | Locking =>
    match f with
    | Answered => if lock_free k d then Some (take_lock k d, mkSession c Reading []) else None (* waits *)
    | Refused e => roll d (append_error "lock" e)
    | Lost e => if lock_free k d then roll (take_lock k d) (append_error "lock" e) else None
    end
  | Reading =>
    match f with
    | Answered =>
      let current := current_version (c_stream c) d in
      if decide (current <> c_expected c) then roll d (Err (version_conflict (c_stream c) current (c_expected c)))
      else Some (d, mkSession c (Inserting 0 0) [])
    | Refused e | Lost e => roll d (append_error "current version" e)
    end
  | Inserting i lastSeq =>
    match c_events c !! i with
    | Some e =>
      match f, new_row now (c_stream c) (add64 (add64 (c_expected c) (Z.of_nat i)) 1) e d (ses_rows ses) with
      | Answered, Some r => Some (burn d, mkSession c (Inserting (S i) (row_seq r)) (ses_rows ses ++ [r]))
      | Answered, None => roll (burn d) (append_error "insert" constraint_error)
      | (Refused e | Lost e), _ => roll (burn d) (append_error "insert" e)
      end
    | None =>
      let committed := mkDb (rows d ++ ses_rows ses) (sequence d) (lock d) in
      match f with
      | Answered => Some (release k committed, mkSession c (Finished (Ok lastSeq)) [])
      | Refused e => Some (release k d, mkSession c (Finished (append_error "commit" e)) [])
      | Lost e => Some (release k committed, mkSession c (Finished (append_error "commit" e)) [])
      end
    end
  | Rollback r => Some (release k d, mkSession c (Finished r) [])
  | Finished _ => None
  end.

(** ** Reads *)

Definition scan_row (r : row) : res RecordedEvent :=
  try md := res_wrap "espostgres: scan metadata: " "" (unmarshalMetadata (row_metadata r)) in
  Ok (mkRecordedEvent (row_seq r) (row_stream r) (row_version r) (row_name r) (row_schema r)
        (RawJSON (row_payload r)) md (row_at r)).

Definition scanEvents (rs : list row) : res (list RecordedEvent) := res_mapM scan_row rs.

(** A query's answer; a lost connection surfaces from the query or from the
    rows. *)
Definition query {A} (what : string) (f : fate) (answer : res A) : res A :=
  match f with
  | Answered => answer
  | Refused e => Err (EWrap ("espostgres: " +:+ what +:+ ": ") e "")
  | Lost e => Err (EWrap "espostgres: rows: " e "")
  end.

Definition pg_Load (f : fate) (s : StreamID) (after : Z) (d : Db) : res (list RecordedEvent) :=
  query "load" f (scanEvents (order_by row_version
    (filter (fun r => row_stream r = s /\ after < row_version r) (rows d)))).

Definition pg_ReadAll (f : fate) (after limit : Z) (d : Db) : res (list RecordedEvent) :=
  query "readall" f (scanEvents (limited limit (order_by row_seq (filter (fun r => after < row_seq r) (rows d))))).

Definition pg_Head (f : fate) (d : Db) : res Z :=
  match f with
  | Answered => Ok (max_or_zero (row_seq <$> rows d))
  | Refused e | Lost e => Err (EWrap "espostgres: head: " e "")
  end.

(** ** The system

    Calls in flight, and one tailing reader: its cursor and what it has read. *)
Record system := mkSystem {
  sys_db : Db;
  sys_sessions : gmap nat session;
  sys_cursor : Z;
  sys_read : list RecordedEvent;
}.

Definition new_system : system := mkSystem empty_db ∅ 0 [].

Inductive label :=
  | Call (k : nat) (c : call)
  | Trip (k : nat) (f : fate) (now : Time)
  | Drop (k : nat) (* the client dies; the server rolls back *)
  | Tail (f : fate) (limit : Z).

Definition sys_step (l : label) (st : system) : option system :=
  let '(mkSystem d ss cur seen) := st in
  match l with
  | Call k c => if decide (ss !! k = None) then Some (mkSystem d (<[k := begin_session c]> ss) cur seen) else None
  | Trip k f now =>
    match ss !! k with
    | None => None
    | Some ses =>
      match store_step k f now d ses with
      | None => None
      | Some (d', ses') => Some (mkSystem d' (<[k := ses']> ss) cur seen)
      end
    end
  | Drop k => if decide (ss !! k = None) then None else Some (mkSystem (release k d) (delete k ss) cur seen)
  | Tail f limit =>
    match pg_ReadAll f cur limit d with
    | Ok page => Some (mkSystem d ss (default cur (GlobalSeq <$> last page)) (seen ++ page))
    | _ => Some st
    end
  end.

Fixpoint sys_run (ls : list label) (st : system) : option system :=
  match ls with
  | [] => Some st
  | l :: rest => match sys_step l st with Some st' => sys_run rest st' | None => None end
  end.

(** ** What the rows say *)

Definition row_ok (r : row) : Prop := exists md, unmarshalMetadata (row_metadata r) = Ok md.

Definition row_record (r : row) : RecordedEvent :=
  mkRecordedEvent (row_seq r) (row_stream r) (row_version r) (row_name r) (row_schema r) (RawJSON (row_payload r))
    (match unmarshalMetadata (row_metadata r) with Ok md => md | _ => None end) (row_at r).

Definition pg_log (d : Db) : list RecordedEvent := row_record <$> rows d.

(** An event as the columns hold it and [scanEvents] returns it. *)
Definition stored_form (e : EventData) : EventData :=
  mkEventData (ed_EventName e) (ed_SchemaVersion e)
    (match json_column (ed_Payload e) with Some doc => RawJSON doc | None => RawNil end)
    (match jsonb (marshalMetadata (ed_Metadata e)) with
     | Some m => match unmarshalMetadata m with Ok md => md | _ => None end
     | None => None
     end).

Definition string_member (m : string * json) : Prop := exists s, snd m = JStr s.

(** A jsonb object has the members of the text it was made of; of several with
    the same key it keeps one. *)
Definition keeps_members : Prop := forall ms doc,
  Forall string_member ms -> jsonb (JObj ms) = Some doc ->
  exists ms', doc = JObj ms' /\ (forall m, m ∈ ms' -> m ∈ ms) /\ (NoDup (fst <$> ms) -> ms' ≡ₚ ms).
Hypothesis jsonb_members : keeps_members.

Lemma dec_map_members ms :
  Forall string_member ms ->
  exists kvs, res_mapM (fun '(k, v) => try s := dec_string "" v in Ok (k, s)) ms = Ok kvs
    /\ kvs = (fun m => (fst m, match snd m with JStr s => s | _ => "" end)) <$> ms.
Proof.
  induction 1 as [|[k v] ms [s Hs] _ (kvs & Hkvs & ->)]; [by exists []|]. simpl in Hs. subst v.
  eexists. split; [|reflexivity]. cbn [res_mapM]. rewrite Hkvs. done.
Qed.

Lemma unmarshal_members ms : Forall string_member ms -> exists md, unmarshalMetadata (JObj ms) = Ok md.
Proof.
  intros Hms. destruct (dec_map_members ms Hms) as (kvs & Hkvs & _). unfold unmarshalMetadata.
  destruct ms as [|m ms]; [by eexists|]. cbn [dec_map]. rewrite Hkvs. by eexists.
Qed.

Lemma marshal_members m : exists ms, marshalMetadata m = JObj ms /\ Forall string_member ms.
Proof.
  destruct m as [m|]; [|by exists []]. unfold marshalMetadata. case_decide; [by exists []|].
  eexists. split; [reflexivity|]. apply Forall_fmap. rewrite Forall_forall. intros [k v] _. by eexists.
Qed.

Lemma stored_metadata m doc : jsonb (marshalMetadata m) = Some doc -> exists md, unmarshalMetadata doc = Ok md.
Proof.
  destruct (marshal_members m) as (ms & -> & Hms). intros (ms' & -> & Hin & _)%jsonb_members; [|done].
  apply unmarshal_members. rewrite Forall_forall in *. auto.
Qed.

Lemma new_row_stored now s version e d pending r :
  new_row now s version e d pending = Some r ->
  row_ok r /\ row_stream r = s /\ row_version r = version /\ row_seq r = sequence d + 1 /\ sequence d < int64_max
  /\ rec_data (row_record r) = stored_form e.
Proof.
  unfold new_row. destruct (json_column _) as [payload|] eqn:Hp; [|done].
  destruct (jsonb _) as [metadata|] eqn:Hm; [|done]. case_decide as Hok; [|done]. intros [= <-].
  destruct (stored_metadata _ _ Hm) as [md Hmd]. split_and!; try done; [by exists md | tauto |].
  unfold rec_data, stored_form. simpl. by rewrite Hp, Hm, Hmd.
Qed.

(** ** Invariant *)

Record db_ok (d : Db) : Prop := {
  dok_log : log_ok (pg_log d);
  dok_rows : Forall row_ok (rows d);
  dok_bound : Forall (fun r => row_seq r <= sequence d) (rows d);
  dok_seq : 0 <= sequence d <= int64_max;
}.

(** The uncommitted rows of a transaction that has inserted [i] events. *)
Record pending_ok (d : Db) (c : call) (i : nat) (lastSeq : Z) (pend : list row) : Prop := {
  pend_len : length pend = i;
  pend_data : rec_data <$> (row_record <$> pend) = stored_form <$> take i (c_events c);
  pend_stream : Forall (fun r => row_stream r = c_stream c) pend;
  pend_versions : row_version <$> pend = seqZ (c_expected c + 1) (zlen pend);
  pend_seqs : StronglySorted Z.lt (last_seq (pg_log d) :: (row_seq <$> pend));
  pend_bound : Forall (fun r => row_seq r <= sequence d) pend;
  pend_rows : Forall row_ok pend;
  pend_last : lastSeq = default 0 (row_seq <$> last pend);
}.

Definition session_ok (k : nat) (d : Db) (ses : session) : Prop :=
  match ses_place ses with
  | Reading => lock d = Some k
  | Inserting i lastSeq =>
    lock d = Some k /\ c_expected (ses_call ses) = stream_version (c_stream (ses_call ses)) (pg_log d)
    /\ c_events (ses_call ses) <> [] /\ pending_ok d (ses_call ses) i lastSeq (ses_rows ses)
  | _ => True
  end.

Definition result_of (p : place) : option (res Z) :=
  match p with Rollback r | Finished r => Some r | _ => None end.

Lemma GlobalSeq_rows (rs : list row) : GlobalSeq <$> (row_record <$> rs) = row_seq <$> rs.
Proof. by rewrite <-list_fmap_compose. Qed.

Lemma rows_sorted d : db_ok d -> StronglySorted Z.lt (0 :: (row_seq <$> rows d)).
Proof. intros Hd. destruct (dok_log _ Hd) as [Hs _]. unfold increasing, pg_log in Hs. by rewrite GlobalSeq_rows in Hs. Qed.

Lemma last_seq_bound d : db_ok d -> 0 <= last_seq (pg_log d) <= sequence d.
Proof.
  intros Hd. split; [apply last_seq_nonneg, Hd|]. pose proof (dok_seq _ Hd). unfold last_seq, head_of, pg_log.
  rewrite fmap_last. pose proof (dok_bound _ Hd) as Hb. destruct (last (rows d)) as [r|] eqn:E; simpl; [|lia].
  rewrite Forall_forall in Hb. apply Hb. by apply last_Some_elem_of.
Qed.

Lemma current_version_is d s : db_ok d -> current_version s d = stream_version s (pg_log d).
Proof.
  intros Hd. destruct (dok_log _ Hd) as [_ Hv]. specialize (Hv s).
  assert (rec_Version <$> stream_of s (pg_log d) = row_version <$> filter (fun r => row_stream r = s) (rows d)) as Heq.
  { unfold stream_of, pg_log. rewrite filter_map. by rewrite <-list_fmap_compose. }
  unfold current_version. rewrite <-Heq, Hv. apply max_or_zero_versions, stream_version_nonneg.
Qed.

(** Increasing integers between two bounds are no more than the gap. *)
Lemma sorted_room p q (ks : list Z) : StronglySorted Z.lt (p :: ks) -> Forall (fun k => k <= q) (p :: ks) -> p + zlen ks <= q.
Proof.
  revert p. induction ks as [|k ks IH]; intros p Hs Hb; [apply Forall_cons in Hb as [Hb _]; rewrite zlen_nil; lia|].
  apply StronglySorted_inv in Hs as [Hs Hp]. apply Forall_cons in Hb as [_ Hb].
  apply Forall_cons in Hp as [Hp _]. specialize (IH k Hs Hb). rewrite zlen_cons. lia.
Qed.

Lemma pending_version d c i lastSeq pend :
  db_ok d -> c_expected c = stream_version (c_stream c) (pg_log d) -> sequence d < int64_max ->
  pending_ok d c i lastSeq pend ->
  add64 (add64 (c_expected c) (Z.of_nat i)) 1 = c_expected c + zlen pend + 1.
Proof.
  intros Hd Hv Hroom Hp. pose proof (stream_version_le_last (c_stream c) _ (dok_log _ Hd)) as Hle.
  pose proof (stream_version_nonneg (c_stream c) (pg_log d)). pose proof (last_seq_bound d Hd).
  assert (last_seq (pg_log d) + zlen (row_seq <$> pend) <= sequence d) as Hlen.
  { apply sorted_room; [apply Hp|]. constructor; [lia|]. rewrite Forall_fmap. apply Hp. }
  unfold zlen in Hlen. rewrite length_fmap in Hlen. rewrite <-(pend_len _ _ _ _ _ Hp). unfold zlen.
  rewrite (add64_id (c_expected c)) by (unfold in_int64, int64_min; lia). apply add64_id. unfold in_int64, int64_min. lia.
Qed.

(** One INSERT extends what is pending. *)
Lemma pending_insert now d c i lastSeq pend e r :
  db_ok d -> c_expected c = stream_version (c_stream c) (pg_log d) -> pending_ok d c i lastSeq pend ->
  c_events c !! i = Some e ->
  new_row now (c_stream c) (add64 (add64 (c_expected c) (Z.of_nat i)) 1) e d pend = Some r ->
  pending_ok (burn d) c (S i) (row_seq r) (pend ++ [r]).
Proof.
  intros Hd Hv Hp He Hr. destruct (new_row_stored _ _ _ _ _ _ _ Hr) as (Hrok & Hst & Hver & Hseq & Hroom & Hdata).
  rewrite (pending_version d c i lastSeq pend Hd Hv Hroom Hp) in Hver.
  pose proof (pend_bound _ _ _ _ _ Hp) as Hb. pose proof (last_seq_bound d Hd).
  unfold burn. rewrite decide_True by done. split; cbn [sequence].
  - rewrite length_app, (pend_len _ _ _ _ _ Hp). simpl. lia.
  - rewrite !fmap_app, (pend_data _ _ _ _ _ Hp), (take_S_r _ _ _ He), fmap_app. simpl. by rewrite Hdata.
  - apply Forall_app. split; [apply Hp|]. by repeat constructor.
  - rewrite fmap_app, (pend_versions _ _ _ _ _ Hp), zlen_app. simpl. rewrite Hver.
    change (zlen [r]) with 1. rewrite <-seqZ_snoc by apply zlen_nonneg. do 2 f_equal. lia.
  - rewrite fmap_app, app_comm_cons. apply StronglySorted_app_2; [|apply Hp | repeat constructor].
    intros a b Ha ->%list_elem_of_singleton. rewrite Hseq. apply elem_of_cons in Ha as [->|Ha]; [change (pg_log (mkDb _ _ _)) with (pg_log d); lia|].
    apply list_elem_of_fmap in Ha as (x & -> & Hx). rewrite Forall_forall in Hb. specialize (Hb x Hx). lia.
  - apply Forall_app. split; [|constructor; [lia|constructor]]. eapply Forall_impl; [exact Hb|]. simpl. lia.
  - apply Forall_app. split; [apply Hp | by repeat constructor].
  - by rewrite last_snoc.
Qed.

Lemma burn_ok d : db_ok d -> db_ok (burn d) /\ pg_log (burn d) = pg_log d /\ lock (burn d) = lock d /\ sequence d <= sequence (burn d).
Proof.
  intros Hd. unfold burn. case_decide; [|split_and!; done || lia]. split_and!; try done; [|simpl; lia].
  destruct Hd as [Hl Hr Hb Hs]. split; simpl; [exact Hl | exact Hr | | lia].
  eapply Forall_impl; [exact Hb|]. simpl. lia.
Qed.

(** The commit stores what the call asked for. *)
Lemma commit_appends d c i lastSeq pend :
  db_ok d -> c_expected c = stream_version (c_stream c) (pg_log d) -> c_events c <> [] ->
  c_events c !! i = None -> pending_ok d c i lastSeq pend ->
  let d' := mkDb (rows d ++ pend) (sequence d) (lock d) in
  db_ok d' /\ appended (c_stream c) (c_expected c) (stored_form <$> c_events c) (pg_log d) (pg_log d')
  /\ lastSeq = last_seq (pg_log d').
Proof.
  intros Hd Hv Hne Hi Hp d'. apply lookup_ge_None in Hi.
  assert (take i (c_events c) = c_events c) as Htake by (by apply take_ge).
  pose proof (pend_data _ _ _ _ _ Hp) as Hdata. rewrite Htake in Hdata.
  assert (pg_log d' = pg_log d ++ (row_record <$> pend)) as Hlog by (unfold pg_log; simpl; apply fmap_app).
  assert (appended (c_stream c) (c_expected c) (stored_form <$> c_events c) (pg_log d) (pg_log d')) as Happ.
  { exists (row_record <$> pend). split; [exact Hlog|]. split; [exact Hdata|]. split.
    - rewrite Forall_fmap. eapply Forall_impl; [apply Hp|]. done.
    - rewrite <-Hdata. unfold zlen. rewrite !length_fmap, <-list_fmap_compose. apply (pend_versions _ _ _ _ _ Hp). }
  assert (pend <> []) as Hpne.
  { intros ->. apply Hne. apply (fmap_nil_inv stored_form). by rewrite <-Hdata. }
  split; [split|split; [exact Happ|]].
  - split.
    + rewrite Hlog. apply increasing_extend; [apply (dok_log _ Hd)|]. rewrite GlobalSeq_rows. apply (pend_seqs _ _ _ _ _ Hp).
    + intros s. eapply versions_appended; [apply (dok_log _ Hd) | exact Hv | exact Happ].
  - apply Forall_app. split; [apply Hd | apply Hp].
  - apply Forall_app. split; [apply Hd | apply Hp].
  - apply Hd.
  - rewrite (pend_last _ _ _ _ _ Hp), Hlog. unfold last_seq, head_of. rewrite last_app.
    rewrite fmap_last. destruct (last pend) eqn:E; [done|]. by apply last_None in E.
Qed.

(** What one round trip of session [k] does: the store stays in order, the
    session where it should be, whoever else holds the lock undisturbed; and
    the trip that settles the call's answer honours the port's contract. *)
Record step_post (k : nat) (d : Db) (ses : session) (d' : Db) (ses' : session) : Prop := {
  post_db : db_ok d';
  post_session : session_ok k d' ses';
  post_call : ses_call ses' = ses_call ses;
  post_holder k' : k' <> k -> lock d = Some k' -> lock d' = Some k' /\ rows d' = rows d;
  post_seq : sequence d <= sequence d';
  post_grows : exists new, rows d' = rows d ++ new;
  post_answer :
    match result_of (ses_place ses), result_of (ses_place ses') with
    | None, Some r => append_post (c_stream (ses_call ses)) (c_expected (ses_call ses))
                        (stored_form <$> c_events (ses_call ses)) (pg_log d) r (pg_log d')
    | None, None => rows d' = rows d
    | Some r, p => p = Some r /\ rows d' = rows d
    end;
}.

Lemma release_ok k d : db_ok d -> db_ok (release k d).
Proof. intros []. unfold release. case_decide; by split. Qed.
Lemma release_rows k d : rows (release k d) = rows d.
Proof. unfold release. by case_decide. Qed.
Lemma release_seq k d : sequence (release k d) = sequence d.
Proof. unfold release. by case_decide. Qed.
Lemma release_other k k' d : k' <> k -> lock d = Some k' -> lock (release k d) = Some k'.
Proof. intros Hne Hl. unfold release. rewrite Hl, decide_False; congruence. Qed.
Lemma release_log k d : pg_log (release k d) = pg_log d.
Proof. unfold pg_log. by rewrite release_rows. Qed.

(** A step that only moves the session, the lock or the sequence. *)
Lemma step_quiet k d ses d' ses' :
  db_ok d' -> session_ok k d' ses' -> ses_call ses' = ses_call ses -> rows d' = rows d -> sequence d <= sequence d' ->
  (forall k', k' <> k -> lock d = Some k' -> lock d' = Some k') ->
  (match result_of (ses_place ses), result_of (ses_place ses') with
   | None, Some r => append_post (c_stream (ses_call ses)) (c_expected (ses_call ses))
                       (stored_form <$> c_events (ses_call ses)) (pg_log d) r (pg_log d)
   | None, None => True
   | Some r, p => p = Some r
   end) ->
  step_post k d ses d' ses'.
Proof.
  intros Hd Hs Hc Hr Hq Hl Ha. split; try done; [by auto | by exists []; rewrite app_nil_r |].
  assert (pg_log d' = pg_log d) as -> by (unfold pg_log; by rewrite Hr).
  destruct (result_of (ses_place ses)), (result_of (ses_place ses')); auto.
Qed.

(** A failed statement stores nothing. *)
Lemma refused_post what s v es log e : driver_error e -> append_post s v es log (append_error what e) log.
Proof.
  intros [He _]. unfold append_error. cbn [append_post].
  assert (errors_Is (EWrap ("espostgres: append: " +:+ what +:+ ": ") e "") ErrVersionConflict = false) as ->; [|by left].
  exact He.
Qed.

Lemma take_lock_ok k d : db_ok d -> db_ok (take_lock k d).
Proof. intros []. by split. Qed.

Lemma take_lock_other k k' d : lock_free k d = true -> k' <> k -> lock d = Some k' -> lock (take_lock k d) = Some k'.
Proof. intros Hf%bool_decide_eq_true Hne Hl. simpl. destruct Hf as [Hf|Hf]; congruence. Qed.

Lemma locking_step k f d c d' ses' :
  db_ok d -> fate_ok f -> store_step k f zero_time d (mkSession c Locking []) = Some (d', ses') ->
  step_post k d (mkSession c Locking []) d' ses'.
Proof.
  intros Hd Hf. unfold store_step. cbn [ses_place ses_call]. destruct f as [|e|e]; [| |].
  - destruct (lock_free k d) eqn:Hfree; [|done]. intros [= <- <-].
    apply step_quiet; try done; [by apply take_lock_ok|]. intros k' Hne Hl. by apply take_lock_other.
  - intros [= <- <-]. apply step_quiet; try done. by apply refused_post.
  - destruct (lock_free k d) eqn:Hfree; [|done]. intros [= <- <-].
    apply step_quiet; try done; [by apply take_lock_ok| |by apply refused_post]. intros k' Hne Hl. by apply take_lock_other.
Qed.

Lemma reading_step k f now d c rs d' ses' :
  db_ok d -> fate_ok f -> c_events c <> [] -> lock d = Some k ->
  store_step k f now d (mkSession c Reading rs) = Some (d', ses') -> step_post k d (mkSession c Reading rs) d' ses'.
Proof.
  intros Hd Hf Hne Hl. unfold store_step. cbn [ses_place ses_call]. rewrite (current_version_is d _ Hd). destruct f as [|e|e]; [| |].
  - case_decide as Hv; intros [= <- <-].
    + by apply step_quiet.
    + apply step_quiet; try done. split_and!; try done.
      split; try done; repeat constructor.
  - intros [= <- <-]. apply step_quiet; try done. by apply refused_post.
  - intros [= <- <-]. apply step_quiet; try done. by apply refused_post.
Qed.

Lemma inserting_step k f now d c i lastSeq rs d' ses' e :
  db_ok d -> fate_ok f -> session_ok k d (mkSession c (Inserting i lastSeq) rs) -> c_events c !! i = Some e ->
  store_step k f now d (mkSession c (Inserting i lastSeq) rs) = Some (d', ses') ->
  step_post k d (mkSession c (Inserting i lastSeq) rs) d' ses'.
Proof.
  intros Hd Hf (Hl & Hv & Hne & Hp) He. unfold store_step. cbn [ses_place ses_call ses_rows] in *. rewrite He.
  destruct (burn_ok d Hd) as (Hbd & Hblog & Hbl & Hbs).
  assert (rows (burn d) = rows d) as Hbr by (unfold burn; by case_decide).
  assert (forall k', k' <> k -> lock d = Some k' -> lock (burn d) = Some k') as Hother by (intros; congruence).
  assert (forall what err, driver_error err \/ err = constraint_error ->
    step_post k d (mkSession c (Inserting i lastSeq) rs) (burn d) (mkSession c (Rollback (append_error what err)) [])) as Hfail.
  { intros what err Herr. apply step_quiet; try done. apply refused_post. destruct Herr as [?| ->]; [done | by split]. }
  destruct f as [|err|err]; [|by intros [= <- <-]; apply Hfail; left..].
  destruct (new_row _ _ _ _ _ _) as [r|] eqn:Hr; intros [= <- <-]; [|apply Hfail; by right].
  apply step_quiet; try done. split_and!; try done; [congruence | by rewrite Hblog |].
  exact (pending_insert now d c i lastSeq rs e r Hd Hv Hp He Hr).
Qed.

Lemma commit_step k f now d c i lastSeq rs d' ses' :
  db_ok d -> fate_ok f -> session_ok k d (mkSession c (Inserting i lastSeq) rs) -> c_events c !! i = None ->
  store_step k f now d (mkSession c (Inserting i lastSeq) rs) = Some (d', ses') ->
  step_post k d (mkSession c (Inserting i lastSeq) rs) d' ses'.
Proof.
  intros Hd Hf (Hl & Hv & Hne & Hp) He. unfold store_step. cbn [ses_place ses_call ses_rows] in *. rewrite He.
  destruct (commit_appends d c i lastSeq rs Hd Hv Hne He Hp) as (Hcd & Happ & Hlast).
  set (committed := mkDb (rows d ++ rs) (sequence d) (lock d)) in *.
  assert (stored_form <$> c_events c <> []) as Hne' by (intros Hnil; by apply Hne, (fmap_nil_inv stored_form)).
  assert (forall k', k' <> k -> lock d = Some k' -> False) as Hother by (intros; congruence).
  assert (forall r, append_post (c_stream c) (c_expected c) (stored_form <$> c_events c) (pg_log d) r (pg_log committed) ->
    step_post k d (mkSession c (Inserting i lastSeq) rs) (release k committed) (mkSession c (Finished r) [])) as Hdone.
  { intros r Hr. split; try done; [by apply release_ok | by intros ? ? ?%Hother | by rewrite release_seq
      | exists rs; by rewrite release_rows|]. cbn [ses_place result_of]. by rewrite release_log. }
  destruct f as [|err|err]; intros [= <- <-].
  - apply Hdone. right. split_and!; done.
  - apply step_quiet; try done; [by apply release_ok | apply release_rows | by rewrite release_seq | by intros ? ? ?%Hother |].
    by apply refused_post.
  - apply Hdone. unfold append_error. cbn [append_post]. destruct Hf as [Hf _].
    assert (errors_Is (EWrap "espostgres: append: commit: " err "") ErrVersionConflict = false) as Hx by exact Hf.
    change ("espostgres: append: " +:+ "commit" +:+ ": ") with "espostgres: append: commit: ". rewrite Hx. by right.
Qed.

(** A session is past its start only for a call with events. *)
Definition session_started (ses : session) : Prop :=
  match ses_place ses with
  | Locking => ses_rows ses = [] /\ c_events (ses_call ses) <> []
  | Reading => c_events (ses_call ses) <> []
  | _ => True
  end.

Lemma store_step_ok k f now d ses d' ses' :
  db_ok d -> session_ok k d ses -> session_started ses -> fate_ok f ->
  store_step k f now d ses = Some (d', ses') -> step_post k d ses d' ses' /\ session_started ses'.
Proof.
  intros Hd Hs Hst Hf Hstep. assert (session_started ses') as Hst'.
  { destruct ses as [c [| | |i lastSeq|r|r] rs], f; unfold store_step in Hstep; cbn in Hst, Hstep;
      repeat case_decide; repeat case_match; simplify_eq; cbn; intuition. }
  split; [|exact Hst']. destruct ses as [c p rs]. destruct p as [| | |i lastSeq|r|r].
  - unfold store_step in Hstep. cbn [ses_place ses_call] in Hstep. case_decide as Hnil.
    + injection Hstep as <- <-. apply step_quiet; try done. cbn. rewrite Hnil. by left.
    + destruct f; injection Hstep as <- <-; apply step_quiet; try done; by apply refused_post.
  - destruct Hst as [Hrs _]. cbn in Hrs. subst rs. exact (locking_step k f d c d' ses' Hd Hf Hstep).
  - exact (reading_step k f now d c rs d' ses' Hd Hf Hst Hs Hstep).
  - destruct (c_events c !! i) as [e|] eqn:He.
    + exact (inserting_step k f now d c i lastSeq rs d' ses' e Hd Hf Hs He Hstep).
    + exact (commit_step k f now d c i lastSeq rs d' ses' Hd Hf Hs He Hstep).
  - unfold store_step in Hstep. cbn [ses_place ses_call] in Hstep. injection Hstep as <- <-.
    apply step_quiet; try done; [by apply release_ok | apply release_rows | by rewrite release_seq |].
    intros k' Hne Hl. by apply release_other.
  - discriminate Hstep.
Qed.

(** ** What readers get *)

Lemma scan_rows rs : Forall row_ok rs -> scanEvents rs = Ok (row_record <$> rs).
Proof.
  intros Hrs. apply res_mapM_total. intros r Hr. rewrite Forall_forall in Hrs. destruct (Hrs r Hr) as [md Hmd].
  unfold scan_row, row_record. by rewrite Hmd.
Qed.

Lemma row_ok_sub (P : row -> Prop) `{forall r, Decision (P r)} rs : Forall row_ok rs -> Forall row_ok (filter P rs).
Proof. rewrite !Forall_forall. intros Hrs r [_ Hr]%list_elem_of_filter. by apply Hrs. Qed.

Lemma limited_fmap {A B} (f : A -> B) limit l : limited limit (f <$> l) = f <$> limited limit l.
Proof. unfold limited. case_decide; [|done]. symmetry. apply fmap_take. Qed.

Lemma ReadAll_answer d after limit :
  db_ok d -> pg_ReadAll Answered after limit d = Ok (readall_result after limit (pg_log d)).
Proof.
  intros Hd. unfold pg_ReadAll, query. rewrite order_by_sorted.
  - rewrite scan_rows.
    + unfold readall_result, read_page, beyond, pg_log. by rewrite filter_map, limited_fmap.
    + destruct (limited_prefix limit (filter (fun r => after < row_seq r) (rows d))) as [rest Hr].
      pose proof (row_ok_sub (fun r => after < row_seq r) _ (dok_rows _ Hd)) as Hok. rewrite Hr in Hok.
      by apply Forall_app in Hok as [? _].
  - apply sorted_filter. pose proof (rows_sorted d Hd) as Hs. by apply StronglySorted_inv in Hs as [? _].
Qed.

Lemma Load_answer d s after :
  db_ok d -> pg_Load Answered s after d = Ok (load_result s after (pg_log d)).
Proof.
  intros Hd. unfold pg_Load, query.
  assert (load_result s after (pg_log d) = row_record <$> filter (fun r => row_stream r = s /\ after < row_version r) (rows d)) as ->.
  { unfold load_result, stream_of, pg_log. rewrite !filter_map, list_filter_filter. f_equal.
    apply list_filter_iff. intros r. simpl. tauto. }
  rewrite order_by_sorted; [by apply scan_rows, row_ok_sub, Hd|].
  assert (row_version <$> filter (fun r => row_stream r = s) (rows d) = seqZ 1 (stream_version s (pg_log d))) as Hv.
  { destruct (dok_log _ Hd) as [_ Hv]. rewrite <-(Hv s). unfold stream_of, pg_log.
    by rewrite filter_map, <-list_fmap_compose. }
  pose proof (StronglySorted_seqZ 1 (stream_version s (pg_log d))) as Hs. rewrite <-Hv in Hs.
  pose proof (sorted_filter row_version (fun r => after < row_version r) _ Hs) as Hf. rewrite list_filter_filter in Hf.
  erewrite list_filter_iff; [exact Hf|]. intros r. tauto.
Qed.

Lemma Head_answer d : db_ok d -> pg_Head Answered d = Ok (last_seq (pg_log d)).
Proof.
  intros Hd. unfold pg_Head. rewrite max_or_zero_last by by apply rows_sorted.
  unfold last_seq, head_of, pg_log. rewrite !fmap_last. by destruct (last (rows d)).
Qed.

(** ** The system *)

Record sys_ok (st : system) : Prop := {
  sok_db : db_ok (sys_db st);
  sok_sessions k ses : sys_sessions st !! k = Some ses -> session_ok k (sys_db st) ses /\ session_started ses;
  sok_read : sys_read st = upto GlobalSeq (sys_cursor st) (pg_log (sys_db st));
  sok_cursor : 0 <= sys_cursor st <= last_seq (pg_log (sys_db st));
}.

Definition label_ok (l : label) : Prop :=
  match l with Trip _ f _ | Tail f _ => fate_ok f | Call _ _ | Drop _ => True end.

Lemma new_system_ok : sys_ok new_system.
Proof.
  split; [|intros k ses; simpl; by rewrite lookup_empty | done | done].
  split; [split; [repeat constructor | by intros s] | constructor | constructor | vm_compute; by split].
Qed.

(** A session that keeps its lock while the rows stay is undisturbed. *)
Lemma session_ok_kept k d d' ses :
  session_ok k d ses -> sequence d <= sequence d' -> (lock d = Some k -> lock d' = Some k /\ rows d' = rows d) ->
  session_ok k d' ses.
Proof.
  intros Hs Hseq Hkept. unfold session_ok in *. destruct (ses_place ses) as [| | |i lastSeq|r|r]; try done.
  - by apply Hkept.
  - destruct Hs as (Hl & Hv & Hne & Hp). destruct (Hkept Hl) as [Hl' Hr].
    assert (pg_log d' = pg_log d) as Hlog by (unfold pg_log; by rewrite Hr).
    split_and!; [done | by rewrite Hlog | done |]. split; try apply Hp; [rewrite Hlog; apply Hp|].
    eapply Forall_impl; [apply (pend_bound _ _ _ _ _ Hp)|]. simpl. lia.
Qed.

(** Growth behind the cursor changes nothing the reader has read. *)
Lemma read_kept d d' cur seen :
  db_ok d' -> (exists new, rows d' = rows d ++ new) -> cur <= last_seq (pg_log d) -> 0 <= last_seq (pg_log d) ->
  seen = upto GlobalSeq cur (pg_log d) ->
  seen = upto GlobalSeq cur (pg_log d') /\ last_seq (pg_log d) <= last_seq (pg_log d').
Proof.
  intros Hd' [new Hr] Hc H0 ->. pose proof (log_ok_increasing _ (dok_log _ Hd')) as Hinc.
  unfold pg_log in *. rewrite Hr, fmap_app in *. split; [symmetry; by apply upto_app | by apply head_of_app].
Qed.

Lemma sys_step_ok l st st' :
  sys_ok st -> label_ok l -> sys_step l st = Some st' ->
  sys_ok st' /\ exists new, rows (sys_db st') = rows (sys_db st) ++ new.
Proof.
  intros [Hd Hss Hread Hcur] Hl. destruct st as [d ss cur seen]. cbn [sys_db sys_sessions sys_cursor sys_read] in *.
  destruct l as [k c|k f now|k|f limit]; cbn [sys_step].
  - case_decide; [|done]. intros [= <-]. split; [|exists []; by rewrite app_nil_r].
    split; try done. intros k' ses. simpl. rewrite lookup_insert_Some. intros [[<- <-]|[_ Hk]]; [done | by apply Hss].
  - destruct (ss !! k) as [ses|] eqn:Hk; [|done]. destruct (Hss _ _ Hk) as [Hs Hst].
    destruct (store_step k f now d ses) as [[d' ses']|] eqn:Hstep; [|done]. intros [= <-].
    destruct (store_step_ok k f now d ses d' ses' Hd Hs Hst Hl Hstep) as [[Hd' Hs' _ Hh Hseq Hg _] Hst'].
    split; [|exact Hg]. destruct (read_kept d d' cur seen Hd' Hg ltac:(lia) ltac:(lia) Hread) as [Hread' Hle].
    split; try done; [|simpl; lia]. intros k' s'. simpl. rewrite lookup_insert_Some.
    intros [[<- <-]|[Hne Hk']]; [done|]. destruct (Hss _ _ Hk') as [Hsk Hstk]. split; [|done].
    eapply session_ok_kept; [exact Hsk | exact Hseq |]. intros Hlk. by apply Hh.
  - case_decide; [done|]. intros [= <-]. split; [|exists []; simpl; by rewrite release_rows, app_nil_r].
    split; simpl; rewrite ?release_log; try done; [by apply release_ok|].
    intros k' ses. simpl. rewrite lookup_delete_Some. intros [Hne Hk]. destruct (Hss _ _ Hk) as [Hs Hst]. split; [|done].
    eapply session_ok_kept; [exact Hs | by rewrite release_seq |]. intros Hlk. rewrite release_rows. split; [|done].
    by apply release_other.
  - assert (forall s : system, s = mkSystem d ss cur seen -> sys_ok s /\ exists new, rows (sys_db s) = rows d ++ new) as Hsame.
    { intros s ->. split; [done|]. exists []. by rewrite app_nil_r. }
    destruct f as [|e|e]; [|by intros [= <-]; apply Hsame..]. rewrite (ReadAll_answer d cur limit Hd). intros [= <-].
    pose proof (log_ok_increasing _ (dok_log _ Hd)) as Hinc.
    destruct (last (readall_result cur limit (pg_log d))) as [x|] eqn:Hlast.
    + destruct (upto_page _ cur limit (pg_log d) _ x Hinc eq_refl Hlast) as [Hup Hle].
      split; [|exists []; by rewrite app_nil_r]. split; try done; simpl; [by rewrite Hup, Hread|].
      assert (x ∈ pg_log d) as Hx.
      { eapply elem_of_read_page. unfold readall_result in Hlast. apply last_Some_elem_of. exact Hlast. }
      pose proof (increasing_positive _ _ _ Hinc Hx). unfold last_seq. lia.
    + apply last_None in Hlast. rewrite Hlast, app_nil_r. by apply Hsame.
Qed.

Lemma sys_run_ok ls st st' :
  sys_ok st -> Forall label_ok ls -> sys_run ls st = Some st' ->
  sys_ok st' /\ exists new, rows (sys_db st') = rows (sys_db st) ++ new.
Proof.
  intros Hok Hls. revert st Hok. induction Hls as [|l ls Hl _ IH]; intros st Hok; cbn [sys_run].
  { intros [= <-]. split; [done|]. exists []. by rewrite app_nil_r. }
  destruct (sys_step l st) as [st1|] eqn:Hstep; [|done]. intros Hrun.
  destruct (sys_step_ok l st st1 Hok Hl Hstep) as [Hok1 [n1 Hr1]].
  destruct (IH st1 Hok1 Hrun) as [Hok' [n2 Hr2]]. split; [done|]. exists (n1 ++ n2). by rewrite Hr2, Hr1, app_assoc.
Qed.

Lemma sys_read_grows ls : forall st st', sys_run ls st = Some st' -> sys_read st `prefix_of` sys_read st'.
Proof.
  induction ls as [|l ls IH]; intros st st'; cbn [sys_run]; [by intros [= <-]|].
  destruct (sys_step l st) as [st1|] eqn:E; [|done]. intros Hrun. etrans; [|by apply (IH _ _ Hrun)].
  destruct st as [d ss cur seen]. destruct l as [k c|k f now|k|f limit]; cbn [sys_step] in E.
  - case_decide; by simplify_eq.
  - destruct (ss !! k); [|done]. destruct (store_step _ _ _ _ _) as [[]|]; by simplify_eq.
  - case_decide; by simplify_eq.
  - destruct (pg_ReadAll f cur limit d) as [page| |]; simplify_eq; [|done..]. simpl. by eexists.
Qed.

(** ** A call left alone *)

Definition storable (e : EventData) : Prop :=
  is_Some (json_column (ed_Payload e)) /\ is_Some (jsonb (marshalMetadata (ed_Metadata e))) /\ in_int32 (ed_SchemaVersion e).

Fixpoint run_alone (n : nat) (k : nat) (now : Time) (d : Db) (ses : session) : Db * session :=
  match n with
  | O => (d, ses)
  | S n =>
    match store_step k Answered now d ses with
    | Some (d', ses') => run_alone n k now d' ses'
    | None => (d, ses)
    end
  end.

Lemma run_step n k now d ses :
  run_alone (S n) k now d ses
  = match store_step k Answered now d ses with Some (d', ses') => run_alone n k now d' ses' | None => (d, ses) end.
Proof. done. Qed.

Lemma run_finished n k now d c r rs : run_alone n k now d (mkSession c (Finished r) rs) = (d, mkSession c (Finished r) rs).
Proof. by destruct n. Qed.

(** A storable event of a stream at its version makes a row. *)
Lemma storable_row now d c i lastSeq pend e :
  db_ok d -> c_expected c = stream_version (c_stream c) (pg_log d) -> pending_ok d c i lastSeq pend ->
  storable e -> sequence d < int64_max ->
  exists r, new_row now (c_stream c) (add64 (add64 (c_expected c) (Z.of_nat i)) 1) e d pend = Some r.
Proof.
  intros Hd Hv Hp ([payload Hpay] & [metadata Hmd] & Hs) Hroom. unfold new_row. rewrite Hpay, Hmd.
  rewrite (pending_version d c i lastSeq pend Hd Hv Hroom Hp).
  rewrite decide_True; [by eexists|]. split_and!; try done. apply Forall_app. split; rewrite Forall_forall; intros r Hr [Hst Hver].
  - destruct (dok_log _ Hd) as [_ Hvs]. specialize (Hvs (c_stream c)).
    assert (row_version r ∈ rec_Version <$> stream_of (c_stream c) (pg_log d)) as Hin.
    { apply (list_elem_of_fmap_2 rec_Version _ (row_record r)). unfold stream_of. apply list_elem_of_filter.
      split; [done|]. unfold pg_log. by apply list_elem_of_fmap_2. }
    rewrite Hvs in Hin. apply elem_of_seqZ in Hin. pose proof (zlen_nonneg pend). lia.
  - assert (row_version r ∈ row_version <$> pend) as Hin by (by apply list_elem_of_fmap_2).
    rewrite (pend_versions _ _ _ _ _ Hp) in Hin. apply elem_of_seqZ in Hin. lia.
Qed.

Lemma run_inserts now k c m : forall i lastSeq pend d,
  m = (length (c_events c) - i)%nat -> (i <= length (c_events c))%nat -> db_ok d ->
  session_ok k d (mkSession c (Inserting i lastSeq) pend) ->
  let '(d', ses') := run_alone (S m) k now d (mkSession c (Inserting i lastSeq) pend) in
  exists r, ses_place ses' = Finished r /\ lock d' = None
    /\ (Forall storable (drop i (c_events c)) -> sequence d + Z.of_nat m <= int64_max ->
        r = Ok (last_seq (pg_log d'))
        /\ appended (c_stream c) (c_expected c) (stored_form <$> c_events c) (pg_log d) (pg_log d')).
Proof.
  induction m as [|m IH]; intros i lastSeq pend d Hm Hi Hd Hs; destruct Hs as (Hl & Hv & Hne & Hp);
    cbn [ses_call ses_rows] in *.
  - assert (c_events c !! i = None) as He by (apply lookup_ge_None; lia).
    destruct (commit_appends d c i lastSeq pend Hd Hv Hne He Hp) as (_ & Happ & Hlast).
    cbn [run_alone]. unfold store_step. cbn [ses_place ses_call ses_rows]. rewrite He.
    eexists. split; [reflexivity|]. rewrite release_log. unfold release. rewrite decide_True by exact Hl.
    split; [done|]. intros _ _. by rewrite Hlast.
  - destruct (lookup_lt_is_Some_2 (c_events c) i ltac:(lia)) as [e He].
    destruct (burn_ok d Hd) as (Hbd & Hblog & Hbl & Hbs).
    cbn [run_alone]. unfold store_step. cbn [ses_place ses_call ses_rows]. rewrite He.
    destruct (new_row _ _ _ _ _ _) as [r|] eqn:Hr.
    + assert (session_ok k (burn d) (mkSession c (Inserting (S i) (row_seq r)) (pend ++ [r]))) as Hs'.
      { split_and!; [by rewrite Hbl | by rewrite Hblog | done |]. exact (pending_insert now d c i lastSeq pend e r Hd Hv Hp He Hr). }
      specialize (IH (S i) (row_seq r) (pend ++ [r]) (burn d) ltac:(lia) ltac:(lia) Hbd Hs').
      cbn [run_alone] in IH. destruct (match _ with Some _ => _ | None => _ end) as [d' ses'].
      destruct IH as (res & Hfin & Hfree & Hok). exists res. split; [exact Hfin|]. split; [exact Hfree|].
      rewrite (drop_S _ _ _ He). intros [_ Hst]%Forall_cons Hroom. rewrite <-Hblog. apply Hok; [done|].
      unfold burn. case_decide; simpl; lia.
    + cbn [store_step ses_place ses_call]. rewrite run_finished. eexists. split; [reflexivity|]. split.
      { unfold release. rewrite Hbl, decide_True; [done | exact Hl]. }
      rewrite (drop_S _ _ _ He). intros [Hst _]%Forall_cons Hroom.
      destruct (storable_row now d c i lastSeq pend e Hd Hv Hp Hst ltac:(lia)) as [r Hr']. congruence.
Qed.

Lemma run_append now k c d :
  db_ok d -> lock d = None ->
  let s := c_stream c in
  let '(d', ses') := run_alone (length (c_events c) + 4) k now d (begin_session c) in
  exists r, ses_place ses' = Finished r /\ lock d' = None
    /\ (c_events c = [] -> r = Ok 0 /\ d' = d)
    /\ (c_events c <> [] -> c_expected c <> stream_version s (pg_log d) ->
        r = Err (version_conflict s (stream_version s (pg_log d)) (c_expected c)) /\ d' = d)
    /\ (c_events c <> [] -> c_expected c = stream_version s (pg_log d) ->
        Forall storable (c_events c) -> sequence d + zlen (c_events c) <= int64_max ->
        r = Ok (last_seq (pg_log d'))
        /\ appended s (c_expected c) (stored_form <$> c_events c) (pg_log d) (pg_log d')).
Proof.
  intros Hd Hl s. replace (length (c_events c) + 4)%nat with (S (S (S (S (length (c_events c)))))) by lia.
  unfold begin_session. rewrite run_step. cbn [store_step ses_place ses_call]. case_decide as Hnil.
  { rewrite run_finished. eexists. split; [reflexivity|]. split; [exact Hl|]. by split_and!. }
  rewrite run_step. cbn [store_step ses_place ses_call].
  assert (lock_free k d = true) as -> by (apply bool_decide_eq_true; by left).
  rewrite run_step. cbn [store_step ses_place ses_call].
  rewrite (current_version_is (take_lock k d) _ (take_lock_ok k d Hd)). change (pg_log (take_lock k d)) with (pg_log d).
  case_decide as Hv.
  - rewrite run_step. cbn [store_step ses_place ses_call]. rewrite run_finished. eexists. split; [reflexivity|].
    assert (release k (take_lock k d) = d) as ->.
    { unfold release, take_lock. simpl. rewrite decide_True by done. destruct d; simpl in *; by subst. }
    split; [exact Hl|]. by split_and!.
  - assert (session_ok k (take_lock k d) (mkSession c (Inserting 0 0) [])) as Hs.
    { split_and!; try done. split; try done; repeat constructor. }
    pose proof (run_inserts now k c (length (c_events c)) 0 0 [] (take_lock k d) ltac:(lia) ltac:(lia)
      (take_lock_ok k d Hd) Hs) as Hrun.
    destruct (run_alone _ _ _ _ _) as [d' ses']. destruct Hrun as (r & Hfin & Hfree & Hok). exists r.
    split; [exact Hfin|]. split; [exact Hfree|]. split; [done|]. split; [by intros _ ?|]. intros _ _ Hst Hroom.
    apply Hok; [exact Hst|]. exact Hroom.
Qed.

(** ** Metadata survives its column *)

Lemma dec_map_permuted ms ms' m :
  Forall string_member ms -> NoDup (fst <$> ms) -> ms' ≡ₚ ms -> dec_map None (JObj ms) = Ok m -> dec_map None (JObj ms') = Ok m.
Proof.
  intros Hms Hnd Hp. assert (Forall string_member ms') as Hms' by (by rewrite Hp).
  destruct (dec_map_members ms Hms) as (kvs & Hkvs & Hk). destruct (dec_map_members ms' Hms') as (kvs' & Hkvs' & Hk').
  cbn [dec_map]. rewrite Hkvs, Hkvs'. cbn [res_bind]. intros [= <-]. do 2 f_equal. rewrite !foldl_insert_map.
  f_equal. assert (kvs' ≡ₚ kvs) as Hkk by (subst; by apply fmap_Permutation).
  apply list_to_map_proper; [|by rewrite !reverse_Permutation].
  apply (NoDup_Permutation_proper _ _ (fmap_Permutation fst _ _ (reverse_Permutation kvs'))).
  apply (NoDup_Permutation_proper _ _ (fmap_Permutation fst _ _ Hkk)). rewrite Hk, <-list_fmap_compose. exact Hnd.
Qed.

Lemma metadata_survives md doc :
  optional_map_valid md -> jsonb (marshalMetadata md) = Some doc -> unmarshalMetadata doc = Ok md.
Proof.
  destruct md as [m|]; cbn [optional_map_valid marshalMetadata].
  2: { intros _ (ms' & -> & Hin & _)%jsonb_members; [|constructor]. destruct ms' as [|x ms']; [done|].
       specialize (Hin x (list_elem_of_here _ _)). by apply elem_of_nil in Hin. }
  intros [Hne Hv]. rewrite decide_False by done. unfold enc_map. set (ms := prod_map sanitize enc_string <$> map_to_list m).
  assert (Forall string_member ms) as Hms.
  { apply Forall_fmap. rewrite Forall_forall. intros [k v] _. by eexists. }
  assert (fst <$> ms = fst <$> map_to_list m) as Hkeys.
  { unfold ms. rewrite <-list_fmap_compose. apply list_fmap_ext. intros i [k v] Hkv. simpl.
    apply list_elem_of_lookup_2, elem_of_map_to_list in Hkv. by destruct (Hv k v Hkv). }
  assert (NoDup (fst <$> ms)) as Hnd by (rewrite Hkeys; apply NoDup_fst_map_to_list).
  intros (ms' & -> & _ & Hp)%jsonb_members; [|done]. specialize (Hp Hnd).
  pose proof (dec_map_permuted ms ms' (Some m) Hms Hnd Hp (dec_enc_map m Hv)) as Hdec.
  unfold unmarshalMetadata. rewrite Hdec. cbn [res_bind]. rewrite decide_False by done.
  destruct ms'; [|done]. apply Permutation_nil_l in Hp. exfalso. apply Hne, map_to_list_empty_iff.
  unfold ms in Hp. by apply (fmap_nil_inv (prod_map sanitize enc_string)).
Qed.

(** What a storable event with faithful metadata comes back as. *)
Lemma stored_form_faithful e doc :
  json_column (ed_Payload e) = Some doc -> is_Some (jsonb (marshalMetadata (ed_Metadata e))) ->
  optional_map_valid (ed_Metadata e) ->
  stored_form e = mkEventData (ed_EventName e) (ed_SchemaVersion e) (RawJSON doc) (ed_Metadata e).
Proof.
  intros Hp [m Hm] Hv. unfold stored_form. rewrite Hp, Hm. by rewrite (metadata_survives _ _ Hv Hm).
Qed.
End store.

(** ** The port's promises *)

(** C12: tailing skips nothing. Whatever calls interleave, fail, lose their
    connection or crash, the log grows only at its end, in GlobalSeq order and
    with consecutive versions; a reader that follows its cursor has read
    exactly the log up to it; and the reads answer as the port promises. *)
Theorem pg_tail_skips_nothing jsonb ls st more st' :
  keeps_members jsonb -> Forall label_ok (ls ++ more) ->
  sys_run jsonb ls new_system = Some st -> sys_run jsonb more st = Some st' ->
  let log := pg_log (sys_db st) in
  log_ok log /\ log `prefix_of` pg_log (sys_db st')
  /\ sys_read st = upto GlobalSeq (sys_cursor st) log /\ sys_read st `prefix_of` sys_read st'
  /\ (forall s after, pg_Load Answered s after (sys_db st) = Ok (load_result s after log))
  /\ (forall after limit, pg_ReadAll Answered after limit (sys_db st) = Ok (readall_result after limit log))
  /\ pg_Head Answered (sys_db st) = Ok (last_seq log).
Proof.
  intros Hj [Hls Hmore]%Forall_app Hrun Hrun'.
  destruct (sys_run_ok jsonb Hj ls _ _ (new_system_ok jsonb) Hls Hrun) as [[Hd Hs Hr Hc] _].
  destruct (sys_run_ok jsonb Hj more _ _ (Build_sys_ok jsonb st Hd Hs Hr Hc) Hmore Hrun') as [Hok' [new Hn]].
  split_and!; [apply Hd | | exact Hr | | intros; by apply Load_answer | intros; by apply ReadAll_answer | by apply Head_answer].
  - exists (row_record <$> new). unfold pg_log. by rewrite Hn, fmap_app.
  - exact (sys_read_grows jsonb more st st' Hrun').
Qed.

(** C13: the round trip that settles an append, in whatever system it runs,
    honours the port's contract on the events as the columns hold them: on
    success they are in the log, all of them, at the expected version; a
    version conflict stores nothing; any other failure stores all or nothing.
    No other trip changes the log. *)
Theorem pg_append_honours_port jsonb ls st k f now st' ses ses' :
  keeps_members jsonb -> Forall label_ok ls -> fate_ok f ->
  sys_run jsonb ls new_system = Some st -> sys_step jsonb (Trip k f now) st = Some st' ->
  sys_sessions st !! k = Some ses -> sys_sessions st' !! k = Some ses' ->
  let c := ses_call ses in
  let log := pg_log (sys_db st) in let log' := pg_log (sys_db st') in
  match result_of (ses_place ses), result_of (ses_place ses') with
  | None, Some r => append_post (c_stream c) (c_expected c) (stored_form jsonb <$> c_events c) log r log'
  | Some r, r' => r' = Some r /\ log' = log
  | None, None => log' = log
  end.
Proof.
  intros Hj Hls Hf Hrun Hstep Hk Hk'. destruct (sys_run_ok jsonb Hj ls _ _ (new_system_ok jsonb) Hls Hrun) as [[Hd Hss _ _] _].
  destruct st as [d ss cur seen]. cbn [sys_db sys_sessions sys_step] in *. rewrite Hk in Hstep.
  destruct (Hss k ses Hk) as [Hs Hst].
  destruct (store_step jsonb k f now d ses) as [[d' ses2]|] eqn:E; [|done]. injection Hstep as <-.
  cbn [sys_sessions sys_db] in *. rewrite lookup_insert_eq in Hk'. injection Hk' as ->.
  destruct (store_step_ok jsonb Hj k f now d ses d' ses' Hd Hs Hst Hf E) as [[_ _ _ _ _ _ Ha] _].
  destruct (result_of (ses_place ses)), (result_of (ses_place ses')); unfold pg_log; simpl;
    [destruct Ha as [? ->] | destruct Ha as [? ->] | | rewrite Ha]; done.
Qed.

(** C33: an append that is left alone ends, within four round trips and one per
    event: with nothing done for no events, a version conflict when the stream
    is elsewhere, and otherwise, for values the columns accept, with the
    events stored and the last one's GlobalSeq; the lock is free again. *)
Theorem pg_append_completes jsonb ls st k now c :
  keeps_members jsonb -> Forall label_ok ls -> sys_run jsonb ls new_system = Some st -> lock (sys_db st) = None ->
  let d := sys_db st in let s := c_stream c in let v := stream_version s (pg_log d) in
  let '(d', ses') := run_alone jsonb (length (c_events c) + 4) k now d (begin_session c) in
  exists r, ses_place ses' = Finished r /\ lock d' = None
    /\ (c_events c = [] -> r = Ok 0 /\ d' = d)
    /\ (c_events c <> [] -> c_expected c <> v -> r = Err (version_conflict s v (c_expected c)) /\ d' = d)
    /\ (c_events c <> [] -> c_expected c = v -> Forall (storable jsonb) (c_events c) ->
        sequence d + zlen (c_events c) <= int64_max ->
        r = Ok (last_seq (pg_log d'))
        /\ appended s v (stored_form jsonb <$> c_events c) (pg_log d) (pg_log d')).
Proof.
  intros Hj Hls Hrun Hfree. destruct (sys_run_ok jsonb Hj ls _ _ (new_system_ok jsonb) Hls Hrun) as [[Hd _ _ _] _].
  intros d s v. pose proof (run_append jsonb Hj now k c d Hd Hfree) as Hend. cbv zeta in Hend.
  destruct (run_alone _ _ _ _ _ _) as [d' ses']. destruct Hend as (r & Hfin & Hl & Hnil & Hconf & Hok).
  exists r. do 4 (split; [assumption|]). intros Hne Hv. rewrite <-Hv. exact (Hok Hne Hv).
Qed.

(** ** Two racing appends *)

Module Sample.
(** A database that writes the members of an object in its own order. *)
Definition reordered (doc : json) : option json :=
  Some (match doc with JObj ms => JObj (reverse ms) | _ => doc end).

Lemma reordered_keeps : keeps_members reordered.
Proof.
  intros ms doc _ [= <-]. exists (reverse ms). split_and!; [done | intros m; by rewrite elem_of_reverse |].
  intros _. apply reverse_Permutation.
Qed.

Definition payment : StreamID := mkStreamID "payment" "p-1".
Definition captured : EventData := mkEventData "captured" 1 (RawJSON (JInt 5)) (Some {["trace" := "t-1"]}).
Definition capture : call := mkCall payment 0 [captured].
Definition trips (k n : nat) : list label := replicate n (Trip k Answered zero_time).

(** Two writers expect version 0, a third dies holding the lock, and the loser
    looks after the winner has committed; the reader reads in between. *)
Definition race : list label :=
  [Call 2 capture] ++ trips 2 4 ++ [Drop 2; Call 0 capture; Call 1 capture] ++ trips 0 1 ++ trips 1 2
  ++ [Tail Answered 0] ++ trips 1 2 ++ trips 1 1 ++ [Tail Answered 0; Trip 0 Answered zero_time; Trip 0 Answered zero_time].
Definition raced : system := default new_system (sys_run reordered race new_system).
Definition winner : RecordedEvent := mkRecordedEvent 2 payment 1 "captured" 1 (RawJSON (JInt 5)) (Some {["trace" := "t-1"]}) zero_time.
End Sample.
Import Sample.

Lemma race_ok : Forall label_ok race.
Proof. unfold race, trips. cbn. repeat constructor. Qed.

Lemma pg_tail_skips_nothing_witness :
  sys_run reordered race new_system = Some raced /\ pg_log (sys_db raced) = [winner]
  /\ sys_read raced = upto GlobalSeq (sys_cursor raced) (pg_log (sys_db raced)) /\ sys_cursor raced = 2.
Proof.
  split; [reflexivity|]. split; [reflexivity|]. split; [|reflexivity].
  assert (Forall label_ok (race ++ [])) as Hls by (rewrite app_nil_r; exact race_ok).
  exact (proj1 (proj2 (proj2 (pg_tail_skips_nothing reordered race raced [] raced reordered_keeps Hls eq_refl eq_refl)))).
Defined.

Lemma pg_append_honours_port_witness :
  exists st st' ses ses', sys_run reordered (take 14 race) new_system = Some st
    /\ sys_step reordered (Trip 1 Answered zero_time) st = Some st'
    /\ sys_sessions st !! 1%nat = Some ses /\ sys_sessions st' !! 1%nat = Some ses'
    /\ append_post payment 0 [captured] (pg_log (sys_db st)) (Ok 2) (pg_log (sys_db st')).
Proof.
  do 4 eexists. do 4 (split; [reflexivity|]).
  refine (pg_append_honours_port reordered (take 14 race) _ 1 Answered zero_time _ _ _ reordered_keeps _ I eq_refl eq_refl eq_refl eq_refl).
  apply Forall_take, race_ok.
Defined.

Lemma pg_append_completes_witness :
  exists d' ses', run_alone reordered 5 7 zero_time empty_db (begin_session capture) = (d', ses')
    /\ ses_place ses' = Finished (Ok 1) /\ lock d' = None.
Proof.
  do 2 eexists. split; [reflexivity|]. split; [reflexivity|].
  destruct (pg_append_completes reordered [] new_system 7 zero_time capture reordered_keeps (Forall_nil_2 _) eq_refl eq_refl)
    as (r & _ & Hl & _). exact Hl.
Defined.
