(* ===== verification/PgInbox.v ===== *)
(** * projection-postgres/inbox.go: the inbox on Postgres

    [Append] is one INSERT with an identity column and a unique identifier.
    The server takes the row's sequence value when it forms the row and makes
    the row visible when the statement commits; calls on different connections
    interleave between the two. What that keeps, and what it does not. *)

From S2P Require Import Prelude Tail Errors GoTime Json Broker Envelope Inbox Postgres.

(** A row of the inbox table: seq, id, message. *)
Record inbox_row := mkInboxRow { ir_seq : Z; ir_id : string; ir_message : json }.

(** The committed rows in commit order and the identity sequence. *)
Record InboxDb := mkInboxDb { inbox_rows : list inbox_row; inbox_sequence : Z }.

(** A call of [Append]: sending its INSERT, its row formed but not yet
    committed, or done. *)
Inductive append_place := Sending | Formed (r : inbox_row) | Appended (r : res unit).
Record append_call := mkAppendCall { ac_message : Message; ac_place : append_place }.

Definition formed_row (c : append_call) : option inbox_row :=
  match ac_place c with Formed r => Some r | _ => None end.

Definition append_failed (id : string) (e : error) : res unit := Err (EWrap ("projectionpg: append " +:+ id +:+ ": ") e "").
Definition row_refused : error := EText "ERROR: the row is not accepted".

Section inbox.
Variable jsonb : json -> option json.

(** The rows other calls have formed and not committed. *)
Definition in_flight (cs : gmap nat append_call) : list inbox_row := omap formed_row (map_to_list cs).*2.

(** [INSERT ... ON CONFLICT (id) DO NOTHING]: None when it waits for a call
    that is inserting the same identifier. (Postgres takes the sequence value
    before that wait; here it is taken when the wait is over.) *)
Definition insert_row (id : string) (payload : json) (d : InboxDb) (cs : gmap nat append_call)
    : option (InboxDb * append_place) :=
  match jsonb payload with
  | Some doc =>
    if decide (inbox_sequence d < int64_max) then
      let d' := mkInboxDb (inbox_rows d) (inbox_sequence d + 1) in
      if decide (id ∈ ir_id <$> inbox_rows d) then Some (d', Appended (Ok tt))
      else if decide (id ∈ ir_id <$> in_flight cs) then None
      else Some (d', Formed (mkInboxRow (inbox_sequence d + 1) id doc))
    else Some (d, Appended (append_failed id row_refused))
  | None => Some (d, Appended (append_failed id row_refused))
  end.

Definition append_step (f : fate) (d : InboxDb) (cs : gmap nat append_call) (c : append_call)
    : option (InboxDb * append_call) :=
  let msg := ac_message c in
  match ac_place c with
  | Sending =>
    match enc_message msg with
    | Err e => Some (d, mkAppendCall msg (Appended (Err (EWrap ("projectionpg: encoding " +:+ msg_ID msg +:+ ": ") e ""))))
    | Panic m => Some (d, mkAppendCall msg (Appended (Panic m)))
    | Ok payload =>
      match f with
      | Answered =>
        match insert_row (msg_ID msg) payload d cs with
        | Some (d', p) => Some (d', mkAppendCall msg p)
        | None => None
        end
      | Refused e | Lost e => Some (d, mkAppendCall msg (Appended (append_failed (msg_ID msg) e)))
      end
    end
  | Formed r =>
    let committed := mkInboxDb (inbox_rows d ++ [r]) (inbox_sequence d) in
    match f with
    | Answered => Some (committed, mkAppendCall msg (Appended (Ok tt)))
    | Refused e => Some (d, mkAppendCall msg (Appended (append_failed (msg_ID msg) e)))
    | Lost e => Some (committed, mkAppendCall msg (Appended (append_failed (msg_ID msg) e)))
    end
  | Appended _ => None
  end.

(** ** Reads *)

Definition scan_inbox_row (r : inbox_row) : res InboxMessage :=
  try msg := res_wrap ("projectionpg: decode seq " +:+ FormatInt (ir_seq r) +:+ ": ") ""
               (dec_message zero_Message (ir_message r)) in
  Ok (mkInboxMessage (ir_seq r) msg).

Definition scanInbox (rs : list inbox_row) : res (list InboxMessage) := res_mapM scan_inbox_row rs.

(** The rows a read selects. *)
Definition selected (after limit : Z) (d : InboxDb) : list inbox_row :=
  limited limit (order_by ir_seq (beyond ir_seq after (inbox_rows d))).

Definition pg_inbox_ReadAll (f : fate) (after limit : Z) (d : InboxDb) : res (list InboxMessage) :=
  match f with
  | Answered => scanInbox (selected after limit d)
  | Refused e => Err (EWrap "projectionpg: readall: " e "")
  | Lost e => Err (EWrap "projectionpg: rows: " e "")
  end.

Definition pg_inbox_Head (f : fate) (d : InboxDb) : res Z :=
  match f with
  | Answered => Ok (max_or_zero (ir_seq <$> inbox_rows d))
  | Refused e | Lost e => Err (EWrap "projectionpg: head: " e "")
  end.

(** ** The system

    Calls of the inbox writers, and a reader with its cursor, as the inbox
    reader of a projection keeps it in a checkpoint. *)
Record inbox_system := mkInboxSystem {
  is_db : InboxDb;
  is_calls : gmap nat append_call;
  is_cursor : Z;
  is_read : list InboxMessage;
}.

Definition new_inbox_system : inbox_system := mkInboxSystem (mkInboxDb [] 0) ∅ 0 [].

Inductive inbox_label :=
  | Deliver (k : nat) (msg : Message)
  | Exec (k : nat) (f : fate)
  | Kill (k : nat)
  | Read (f : fate) (limit : Z).

Definition inbox_step (l : inbox_label) (st : inbox_system) : option inbox_system :=
  let '(mkInboxSystem d cs cur seen) := st in
  match l with
  | Deliver k msg =>
    if decide (cs !! k = None) then Some (mkInboxSystem d (<[k := mkAppendCall msg Sending]> cs) cur seen) else None
  | Exec k f =>
    match cs !! k with
    | None => None
    | Some c =>
      match append_step f d cs c with
      | None => None
      | Some (d', c') => Some (mkInboxSystem d' (<[k := c']> cs) cur seen)
      end
    end
  | Kill k => if decide (cs !! k = None) then None else Some (mkInboxSystem d (delete k cs) cur seen)
  | Read f limit =>
    match pg_inbox_ReadAll f cur limit d with
    | Ok page => Some (mkInboxSystem d cs (default cur (ibx_Seq <$> last page)) (seen ++ page))
    | _ => Some st
    end
  end.

Fixpoint inbox_run (ls : list inbox_label) (st : inbox_system) : option inbox_system :=
  match ls with
  | [] => Some st
  | l :: rest => match inbox_step l st with Some st' => inbox_run rest st' | None => None end
  end.

(** The table as messages. *)
Definition row_message (r : inbox_row) : InboxMessage :=
  mkInboxMessage (ir_seq r) (match dec_message zero_Message (ir_message r) with Ok m => m | _ => zero_Message end).

(** ** Stored once *)

(** The row is the message's, as the columns hold it. *)
Definition row_of (msg : Message) (r : inbox_row) : Prop :=
  ir_id r = msg_ID msg /\ exists payload, enc_message msg = Ok payload /\ jsonb payload = Some (ir_message r).

Record inbox_sys_ok (st : inbox_system) : Prop := {
  io_seqs : NoDup (ir_seq <$> inbox_rows (is_db st));
  io_ids : NoDup (ir_id <$> inbox_rows (is_db st));
  io_bound : Forall (fun r => 0 < ir_seq r <= inbox_sequence (is_db st)) (inbox_rows (is_db st));
  io_rows : Forall (fun r => exists msg, row_of msg r) (inbox_rows (is_db st));
  io_formed k c r : is_calls st !! k = Some c -> formed_row c = Some r ->
    0 < ir_seq r <= inbox_sequence (is_db st) /\ ir_seq r ∉ ir_seq <$> inbox_rows (is_db st)
    /\ ir_id r ∉ ir_id <$> inbox_rows (is_db st) /\ row_of (ac_message c) r;
  io_apart k c r k' c' r' : k <> k' -> is_calls st !! k = Some c -> formed_row c = Some r ->
    is_calls st !! k' = Some c' -> formed_row c' = Some r' -> ir_seq r <> ir_seq r' /\ ir_id r <> ir_id r';
  io_done k c : is_calls st !! k = Some c -> ac_place c = Appended (Ok tt) ->
    msg_ID (ac_message c) ∈ ir_id <$> inbox_rows (is_db st);
  io_read : increasing ibx_Seq (is_read st);
  io_cursor : is_cursor st = head_of ibx_Seq (is_read st);
}.

Lemma new_inbox_system_ok : inbox_sys_ok new_inbox_system.
Proof.
  split; simpl; try (intros k c; rewrite lookup_empty; discriminate);
    try (intros k c r k' c' r' _; rewrite lookup_empty; discriminate); repeat constructor.
Qed.

Lemma elem_of_in_flight cs r : r ∈ in_flight cs <-> exists k c, cs !! k = Some c /\ formed_row c = Some r.
Proof.
  unfold in_flight. rewrite list_elem_of_omap. split.
  - intros (c & Hc & Hr). apply list_elem_of_fmap in Hc as ([k c'] & -> & Hk). apply elem_of_map_to_list in Hk. by exists k, c'.
  - intros (k & c & Hk & Hr). exists c. split; [|done]. apply list_elem_of_fmap. exists (k, c). split; [done|].
    by apply elem_of_map_to_list.
Qed.

(** A call that ends without a row, answered Ok only for a stored message. *)
Lemma settled d cs cur seen k c r n :
  inbox_sys_ok (mkInboxSystem d cs cur seen) -> cs !! k = Some c -> inbox_sequence d <= n ->
  (r = Ok tt -> msg_ID (ac_message c) ∈ ir_id <$> inbox_rows d) ->
  inbox_sys_ok (mkInboxSystem (mkInboxDb (inbox_rows d) n) (<[k := mkAppendCall (ac_message c) (Appended r)]> cs) cur seen).
Proof.
  intros [] Hk Hn Hr. simpl in *. split; simpl; try done.
  - eapply Forall_impl; [exact io_bound0|]. simpl. lia.
  - intros k' c' r'. rewrite lookup_insert_Some. intros [[<- <-]|[_ Hk']] Hf; [done|].
    destruct (io_formed0 k' c' r' Hk' Hf) as (? & ? & ? & ?). split_and!; try done; lia.
  - intros k1 c1 r1 k2 c2 r2 Hne. rewrite !lookup_insert_Some. intros [[<- <-]|[_ Hk1]] Hf1; [done|].
    intros [[<- <-]|[_ Hk2]] Hf2; [done|]. exact (io_apart0 _ _ _ _ _ _ Hne Hk1 Hf1 Hk2 Hf2).
  - intros k' c'. rewrite lookup_insert_Some. intros [[<- <-]|[_ Hk']]; [intros [= ->]; by apply Hr | exact (io_done0 k' c' Hk')].
Qed.

(** A row is formed. *)
Lemma row_formed d cs cur seen k c payload doc :
  inbox_sys_ok (mkInboxSystem d cs cur seen) -> cs !! k = Some c ->
  enc_message (ac_message c) = Ok payload -> jsonb payload = Some doc ->
  msg_ID (ac_message c) ∉ ir_id <$> inbox_rows d -> msg_ID (ac_message c) ∉ ir_id <$> in_flight cs ->
  let r := mkInboxRow (inbox_sequence d + 1) (msg_ID (ac_message c)) doc in 0 <= inbox_sequence d ->
  inbox_sys_ok (mkInboxSystem (mkInboxDb (inbox_rows d) (inbox_sequence d + 1)) (<[k := mkAppendCall (ac_message c) (Formed r)]> cs) cur seen).
Proof.
  intros [] Hk Henc Hdoc Hnew Hfree r Hpos. simpl in *.
  assert (forall k' c' r', cs !! k' = Some c' -> formed_row c' = Some r' -> ir_seq r <> ir_seq r' /\ ir_id r <> ir_id r') as Hother.
  { intros k' c' r' Hk' Hf. destruct (io_formed0 _ _ _ Hk' Hf) as ([? ?] & _). split; [simpl; lia|].
    intros Heq. apply Hfree. simpl in Heq. rewrite Heq. apply list_elem_of_fmap_2, elem_of_in_flight. by exists k', c'. }
  split; simpl; try done.
  - eapply Forall_impl; [exact io_bound0|]. simpl. lia.
  - intros k' c' r'. rewrite lookup_insert_Some. intros [[<- <-]|[_ Hk']] Hf.
    + injection Hf as <-. simpl. split_and!; [lia | lia | | done | by split; [|exists payload]].
      intros Hin. apply list_elem_of_fmap in Hin as (x & Hx & Hxin). rewrite Forall_forall in io_bound0.
      specialize (io_bound0 x Hxin). lia.
    + destruct (io_formed0 k' c' r' Hk' Hf) as (? & ? & ? & ?). split_and!; try done; lia.
  - intros k1 c1 r1 k2 c2 r2 Hne. rewrite !lookup_insert_Some.
    intros [[<- <-]|[_ Hk1]] Hf1 [[? <-]|[_ Hk2]] Hf2; [congruence | | | exact (io_apart0 _ _ _ _ _ _ Hne Hk1 Hf1 Hk2 Hf2)].
    + injection Hf1 as <-. exact (Hother _ _ _ Hk2 Hf2).
    + injection Hf2 as <-. destruct (Hother _ _ _ Hk1 Hf1). by split; apply not_eq_sym.
  - intros k' c'. rewrite lookup_insert_Some. intros [[<- <-]|[_ Hk']]; [discriminate | exact (io_done0 k' c' Hk')].
Qed.

(** A formed row is committed. *)
Lemma row_committed d cs cur seen k c r res :
  inbox_sys_ok (mkInboxSystem d cs cur seen) -> cs !! k = Some c -> formed_row c = Some r ->
  inbox_sys_ok (mkInboxSystem (mkInboxDb (inbox_rows d ++ [r]) (inbox_sequence d))
    (<[k := mkAppendCall (ac_message c) (Appended res)]> cs) cur seen).
Proof.
  intros [] Hk Hf. simpl in *. destruct (io_formed0 k c r Hk Hf) as (Hb & Hs & Hi & Hrow).
  assert (forall A (g : inbox_row -> A) x, x ∈ g <$> (inbox_rows d ++ [r]) <-> x ∈ g <$> inbox_rows d \/ x = g r) as Hin.
  { intros A g x. rewrite fmap_app, elem_of_app. simpl. by rewrite list_elem_of_singleton. }
  split; simpl; try done.
  - rewrite fmap_app. apply NoDup_app. split_and!; [done| |apply NoDup_singleton]. intros x Hx Hx'%list_elem_of_singleton. by subst.
  - rewrite fmap_app. apply NoDup_app. split_and!; [done| |apply NoDup_singleton]. intros x Hx Hx'%list_elem_of_singleton. by subst.
  - apply Forall_app. split; [done|]. by apply Forall_singleton.
  - apply Forall_app. split; [done|]. apply Forall_singleton. by exists (ac_message c).
  - intros k' c' r'. rewrite lookup_insert_Some. intros [[<- <-]|[Hne Hk']] Hf'; [done|].
    destruct (io_formed0 k' c' r' Hk' Hf') as (? & Hs' & Hi' & ?).
    destruct (io_apart0 k c r k' c' r' Hne Hk Hf Hk' Hf'). split_and!; try done; try lia; rewrite Hin; intros [?|?]; auto.
  - intros k1 c1 r1 k2 c2 r2 Hne. rewrite !lookup_insert_Some. intros [[<- <-]|[_ Hk1]] Hf1; [done|].
    intros [[<- <-]|[_ Hk2]] Hf2; [done|]. exact (io_apart0 _ _ _ _ _ _ Hne Hk1 Hf1 Hk2 Hf2).
  - intros k' c'. rewrite lookup_insert_Some, Hin. intros [[<- <-]|[_ Hk']]; [intros _; right; by destruct Hrow | intros Hp; left; exact (io_done0 k' c' Hk' Hp)].
Qed.

(** A page holds later rows only, in order. *)
Lemma page_sorted d after limit page :
  NoDup (ir_seq <$> inbox_rows d) -> scanInbox (selected after limit d) = Ok page ->
  StronglySorted Z.lt (after :: (ibx_Seq <$> page)).
Proof.
  intros Hnd Hscan.
  assert (ibx_Seq <$> page = ir_seq <$> selected after limit d) as ->.
  { apply res_mapM_ok in Hscan. induction Hscan as [|r m rs ms Hr _ IH]; [done|]. rewrite !fmap_cons, IH.
    unfold scan_inbox_row in Hr. res_inv. done. }
  set (rs := order_by ir_seq (beyond ir_seq after (inbox_rows d))).
  assert (StronglySorted Z.lt (after :: (ir_seq <$> rs))) as Hs.
  { constructor.
    - apply order_by_strict. unfold beyond. eapply sublist_NoDup; [exact Hnd|]. apply fmap_sublist, sublist_filter.
    - rewrite Forall_fmap, Forall_forall. intros r [Hr _]%elem_of_order_by%list_elem_of_filter. exact Hr. }
  destruct (limited_prefix limit rs) as [rest Hrest]. rewrite Hrest in Hs. rewrite fmap_app, app_comm_cons in Hs.
  by apply StronglySorted_app_1_l in Hs.
Qed.

Lemma append_step_ok f d cs cur seen k c d' c' :
  inbox_sys_ok (mkInboxSystem d cs cur seen) -> 0 <= inbox_sequence d -> cs !! k = Some c ->
  append_step f d cs c = Some (d', c') ->
  inbox_sys_ok (mkInboxSystem d' (<[k := c']> cs) cur seen) /\ inbox_sequence d <= inbox_sequence d'
  /\ ac_message c' = ac_message c /\ (exists new, inbox_rows d' = inbox_rows d ++ new).
Proof.
  intros Hok Hpos Hk. destruct d as [rs n]. unfold append_step. cbn [inbox_rows inbox_sequence] in *.
  assert (forall r n', n <= n' -> (r = Ok tt -> msg_ID (ac_message c) ∈ ir_id <$> rs) ->
    inbox_sys_ok (mkInboxSystem (mkInboxDb rs n') (<[k := mkAppendCall (ac_message c) (Appended r)]> cs) cur seen)
    /\ n <= n' /\ ac_message c = ac_message c /\ exists new, rs = rs ++ new) as Hsettle.
  { intros r n' Hn Hr. split; [exact (settled (mkInboxDb rs n) cs cur seen k c r n' Hok Hk Hn Hr)|].
    split_and!; try done. exists []. by rewrite app_nil_r. }
  destruct (ac_place c) as [|r|r] eqn:Hp; [| |done].
  - destruct (enc_message (ac_message c)) as [payload|e|m] eqn:Henc; [|by intros [= <- <-]; apply Hsettle..].
    destruct f as [|e|e]; [|by intros [= <- <-]; apply Hsettle..]. unfold insert_row. cbn [inbox_rows inbox_sequence].
    destruct (jsonb payload) as [doc|] eqn:Hdoc; [|by intros [= <- <-]; apply Hsettle].
    case_decide; [|by intros [= <- <-]; apply Hsettle]. case_decide as Hknown; [intros [= <- <-]; exact (Hsettle (Ok tt) (n + 1) ltac:(lia) (fun _ => Hknown))|].
    case_decide; [done|]. intros [= <- <-]. split; [exact (row_formed _ cs cur seen k c payload doc Hok Hk Henc Hdoc ltac:(done) ltac:(done) Hpos)|].
    split_and!; simpl; [lia | done | exists []; by rewrite app_nil_r].
  - assert (formed_row c = Some r) as Hf by (unfold formed_row; by rewrite Hp).
    assert (forall res, inbox_sys_ok (mkInboxSystem (mkInboxDb (rs ++ [r]) n) (<[k := mkAppendCall (ac_message c) (Appended res)]> cs) cur seen)
      /\ n <= n /\ ac_message c = ac_message c /\ exists new, rs ++ [r] = rs ++ new) as Hcommit.
    { intros res. split; [exact (row_committed _ cs cur seen k c r res Hok Hk Hf)|]. split_and!; try done. by exists [r]. }
    destruct f; intros [= <- <-]; [apply Hcommit | by apply Hsettle | apply Hcommit].
Qed.

Definition sequence_ok (st : inbox_system) : Prop := 0 <= inbox_sequence (is_db st).

Lemma inbox_step_ok l st st' :
  inbox_sys_ok st -> sequence_ok st -> inbox_step l st = Some st' ->
  inbox_sys_ok st' /\ sequence_ok st' /\ (exists new, inbox_rows (is_db st') = inbox_rows (is_db st) ++ new)
  /\ exists page, is_read st' = is_read st ++ page /\ Forall (fun m => is_cursor st < ibx_Seq m) page
                  /\ is_cursor st <= is_cursor st'.
Proof.
  intros Hok Hseq. destruct st as [d cs cur seen]. unfold sequence_ok in *. cbn [is_db is_read is_cursor] in *.
  assert (forall cs', inbox_sys_ok (mkInboxSystem d cs' cur seen) ->
    inbox_sys_ok (mkInboxSystem d cs' cur seen) /\ 0 <= inbox_sequence d
    /\ (exists new, inbox_rows d = inbox_rows d ++ new)
    /\ exists page, seen = seen ++ page /\ Forall (fun m => cur < ibx_Seq m) page /\ cur <= cur) as Hquiet.
  { intros cs' Hok'. split_and!; [done | done | exists []; by rewrite app_nil_r | exists []; by rewrite app_nil_r]. }
  destruct l as [k msg|k f|k|f limit]; cbn [inbox_step].
  - case_decide as Hk; [|done]. intros [= <-]. apply Hquiet. destruct Hok. split; simpl in *; try done.
    + intros k' c r. rewrite lookup_insert_Some. intros [[<- <-]|[_ Hk']]; [done | exact (io_formed0 k' c r Hk')].
    + intros k1 c1 r1 k2 c2 r2 Hne. rewrite !lookup_insert_Some. intros [[<- <-]|[_ Hk1]] Hf1; [done|].
      intros [[<- <-]|[_ Hk2]] Hf2; [done|]. exact (io_apart0 _ _ _ _ _ _ Hne Hk1 Hf1 Hk2 Hf2).
    + intros k' c. rewrite lookup_insert_Some. intros [[<- <-]|[_ Hk']]; [done | exact (io_done0 k' c Hk')].
  - destruct (cs !! k) as [c|] eqn:Hk; [|done].
    destruct (append_step f d cs c) as [[d' c']|] eqn:E; [|done]. intros [= <-].
    destruct (append_step_ok f d cs cur seen k c d' c' Hok Hseq Hk E) as (Hok' & Hle & _ & Hg).
    split_and!; [done | simpl; lia | done | exists []; by rewrite app_nil_r].
  - case_decide; [done|]. intros [= <-]. apply Hquiet. destruct Hok. split; simpl in *; try done.
    + intros k' c r. rewrite lookup_delete_Some. intros [_ Hk']. exact (io_formed0 k' c r Hk').
    + intros k1 c1 r1 k2 c2 r2 Hne. rewrite !lookup_delete_Some. intros [_ Hk1] Hf1 [_ Hk2] Hf2.
      exact (io_apart0 _ _ _ _ _ _ Hne Hk1 Hf1 Hk2 Hf2).
    + intros k' c. rewrite lookup_delete_Some. intros [_ Hk']. exact (io_done0 k' c Hk').
  - destruct f as [|e|e]; [|by intros [= <-]; apply Hquiet..]. cbn [pg_inbox_ReadAll].
    destruct (scanInbox (selected cur limit d)) as [page|e|m] eqn:Hscan; [|by intros [= <-]; apply Hquiet..].
    intros [= <-]. pose proof (page_sorted d cur limit page (io_seqs _ Hok) Hscan) as Hs.
    assert (increasing ibx_Seq (seen ++ page)) as Hinc.
    { apply increasing_extend; [apply Hok|]. pose proof (io_cursor _ Hok) as Hc. simpl in Hc. rewrite <-Hc. exact Hs. }
    assert (default cur (ibx_Seq <$> last page) = head_of ibx_Seq (seen ++ page)) as Hcur.
    { unfold head_of. rewrite last_app. destruct (last page); [done|]. simpl. exact (io_cursor _ Hok). }
    split_and!; [destruct Hok; split; simpl in *; try done | done | exists []; by rewrite app_nil_r|].
    exists page. split_and!; [done | |].
    + apply StronglySorted_inv in Hs as [_ Hlt]. by rewrite Forall_fmap in Hlt.
    + simpl. rewrite Hcur. pose proof (io_cursor _ Hok) as Hc. simpl in Hc. rewrite Hc. by apply head_of_app.
Qed.

Lemma inbox_run_ok ls st st' :
  inbox_sys_ok st -> sequence_ok st -> inbox_run ls st = Some st' ->
  inbox_sys_ok st' /\ sequence_ok st' /\ (exists new, inbox_rows (is_db st') = inbox_rows (is_db st) ++ new)
  /\ exists page, is_read st' = is_read st ++ page /\ Forall (fun m => is_cursor st < ibx_Seq m) page.
Proof.
  revert st. induction ls as [|l ls IH]; intros st Hok Hseq; cbn [inbox_run].
  { intros [= <-]. split_and!; [done | done | exists []; by rewrite app_nil_r | exists []; by rewrite app_nil_r]. }
  destruct (inbox_step l st) as [st1|] eqn:E; [|done]. intros Hrun.
  destruct (inbox_step_ok l st st1 Hok Hseq E) as (Hok1 & Hseq1 & [n1 Hn1] & p1 & Hp1 & Hf1 & Hc1).
  destruct (IH st1 Hok1 Hseq1 Hrun) as (Hok' & Hseq' & [n2 Hn2] & p2 & Hp2 & Hf2).
  split_and!; try done; [exists (n1 ++ n2); by rewrite Hn2, Hn1, app_assoc|].
  exists (p1 ++ p2). rewrite Hp2, Hp1, app_assoc. split; [done|]. apply Forall_app. split; [done|].
  eapply Forall_impl; [exact Hf2|]. simpl. lia.
Qed.

(** What was read is stored. *)
Definition read_stored (st : inbox_system) : Prop :=
  Forall (fun m => exists r, r ∈ inbox_rows (is_db st) /\ scan_inbox_row r = Ok m) (is_read st).

Lemma page_stored d after limit page :
  scanInbox (selected after limit d) = Ok page ->
  Forall (fun m => exists r, r ∈ inbox_rows d /\ scan_inbox_row r = Ok m) page.
Proof.
  intros Hscan%res_mapM_ok. rewrite Forall_forall. intros m Hm. apply list_elem_of_lookup in Hm as [i Hm].
  destruct (Forall2_lookup_r _ _ _ _ _ Hscan Hm) as (r & Hr & Hok). exists r. split; [|exact Hok].
  apply list_elem_of_lookup_2 in Hr. unfold selected in Hr.
  destruct (limited_prefix limit (order_by ir_seq (beyond ir_seq after (inbox_rows d)))) as [rest Hrest].
  assert (r ∈ order_by ir_seq (beyond ir_seq after (inbox_rows d))) as Hin by (rewrite Hrest; apply elem_of_app; by left).
  by apply elem_of_order_by, elem_of_beyond in Hin.
Qed.

Lemma inbox_run_stored ls st st' :
  inbox_sys_ok st -> sequence_ok st -> read_stored st -> inbox_run ls st = Some st' -> read_stored st'.
Proof.
  revert st. induction ls as [|l ls IH]; intros st Hok Hseq Hst; cbn [inbox_run]; [by intros [= <-]|].
  destruct (inbox_step l st) as [st1|] eqn:E; [|done].
  destruct (inbox_step_ok l st st1 Hok Hseq E) as (Hok1 & Hseq1 & [new Hnew] & _). apply IH; [done..|].
  unfold read_stored in *. rewrite Hnew.
  assert (Forall (fun m => exists r, r ∈ inbox_rows (is_db st) ++ new /\ scan_inbox_row r = Ok m) (is_read st)) as Hkeep.
  { eapply Forall_impl; [exact Hst|]. intros m (r & Hr & Hs). exists r. split; [apply elem_of_app; by left | done]. }
  destruct st as [d cs cur seen]. cbn [is_read is_db] in *. destruct l as [k msg|k f|k|f limit]; cbn [inbox_step] in E.
  - case_decide; by simplify_eq.
  - destruct (cs !! k) as [c|]; [|done]. destruct (append_step f d cs c) as [[]|]; by simplify_eq.
  - case_decide; by simplify_eq.
  - destruct f as [|e|e]; cbn [pg_inbox_ReadAll] in E; [|by simplify_eq..].
    destruct (scanInbox (selected cur limit d)) as [page|e|m] eqn:Hscan; [|by simplify_eq..]. injection E as <-.
    cbn [is_read is_db] in *. apply Forall_app. split; [exact Hkeep|].
    eapply Forall_impl; [exact (page_stored d cur limit page Hscan)|]. intros m (r & Hr & Hs). exists r. split; [apply elem_of_app; by left | done].
Qed.

(** ** One call at a time *)

Definition busy (c : append_call) : bool := match ac_place c with Appended _ => false | _ => true end.

(** No message is delivered while a call is under way. *)
Definition idle (st : inbox_system) : bool := bool_decide (map_Forall (fun _ c => busy c = false) (is_calls st)).
Fixpoint one_at_a_time (ls : list inbox_label) (st : inbox_system) : bool :=
  match ls with
  | [] => true
  | l :: rest =>
    (match l with Deliver _ _ => idle st | _ => true end)
    && match inbox_step l st with Some st' => one_at_a_time rest st' | None => true end
  end.

Record serial_ok (st : inbox_system) : Prop := {
  ser_rows : increasing ir_seq (inbox_rows (is_db st));
  ser_one k k' c c' : is_calls st !! k = Some c -> is_calls st !! k' = Some c' -> busy c = true -> busy c' = true -> k = k';
  ser_formed k c r : is_calls st !! k = Some c -> formed_row c = Some r -> head_of ir_seq (inbox_rows (is_db st)) < ir_seq r;
  ser_read : is_read st = row_message <$> upto ir_seq (is_cursor st) (inbox_rows (is_db st));
  ser_cursor : 0 <= is_cursor st <= head_of ir_seq (inbox_rows (is_db st));
}.

Lemma formed_busy c r : formed_row c = Some r -> busy c = true.
Proof. unfold formed_row, busy. by destruct (ac_place c). Qed.

Lemma head_bound d : 0 <= inbox_sequence d -> Forall (fun r => 0 < ir_seq r <= inbox_sequence d) (inbox_rows d) ->
  head_of ir_seq (inbox_rows d) <= inbox_sequence d.
Proof.
  intros Hpos Hb. unfold head_of. destruct (last (inbox_rows d)) as [r|] eqn:E; simpl; [|done].
  apply last_Some_elem_of in E. rewrite Forall_forall in Hb. specialize (Hb r E). lia.
Qed.

(** A step of the call at [k]: its row, if it forms one, is beyond the table,
    and the table grows by that row only. *)
Lemma append_step_serial f d cs c d' c' :
  0 <= inbox_sequence d -> Forall (fun r => 0 < ir_seq r <= inbox_sequence d) (inbox_rows d) ->
  (forall r, formed_row c = Some r -> head_of ir_seq (inbox_rows d) < ir_seq r) ->
  append_step f d cs c = Some (d', c') ->
  busy c = true
  /\ (inbox_rows d' = inbox_rows d \/ exists r, formed_row c = Some r /\ inbox_rows d' = inbox_rows d ++ [r] /\ busy c' = false)
  /\ (forall r, formed_row c' = Some r -> inbox_rows d' = inbox_rows d /\ head_of ir_seq (inbox_rows d) < ir_seq r).
Proof.
  intros Hpos Hb Hf. pose proof (head_bound d Hpos Hb) as Hhead. unfold append_step, insert_row, busy, formed_row in *.
  destruct (ac_place c) as [|r0|r0]; [| |done].
  - destruct (enc_message (ac_message c)) as [payload|e|m];
      [|by intros [= <- <-]; split_and!; [done | by left | done]..].
    destruct f as [|e|e]; [|by intros [= <- <-]; split_and!; [done | by left | done]..].
    destruct (jsonb payload) as [doc|]; [|by intros [= <- <-]; split_and!; [done | by left | done]].
    case_decide; [|by intros [= <- <-]; split_and!; [done | by left | done]].
    case_decide; [by intros [= <- <-]; split_and!; [done | by left | done]|].
    case_decide; [done|]. intros [= <- <-]. split_and!; [done | by left |]. simpl. intros r [= <-]. simpl. split; [done | lia].
  - destruct f as [|e|e]; intros [= <- <-]; split_and!; try done; (by left) || (right; by exists r0).
Qed.

Lemma upto_kept d new cur :
  increasing ir_seq (inbox_rows d ++ new) -> cur <= head_of ir_seq (inbox_rows d) ->
  upto ir_seq cur (inbox_rows d ++ new) = upto ir_seq cur (inbox_rows d).
Proof. apply upto_app. Qed.

Lemma exec_serial f d cs cur seen k c d' c' :
  serial_ok (mkInboxSystem d cs cur seen) -> 0 <= inbox_sequence d ->
  Forall (fun r => 0 < ir_seq r <= inbox_sequence d) (inbox_rows d) -> cs !! k = Some c ->
  append_step f d cs c = Some (d', c') -> serial_ok (mkInboxSystem d' (<[k := c']> cs) cur seen).
Proof.
  intros [Hr Hone Hf Hread Hcur] Hpos Hb Hk Hstep. cbn [is_db is_calls is_cursor is_read] in *.
  destruct (append_step_serial f d cs c d' c' Hpos Hb (fun r => Hf k c r Hk) Hstep) as (Hbusy & Hgrow & Hform).
  assert (forall k' c1, k' <> k -> cs !! k' = Some c1 -> busy c1 = false) as Hidle.
  { intros k' c1 Hne Hk'. destruct (busy c1) eqn:Hb1; [|done]. destruct Hne. exact (Hone k' k c1 c Hk' Hk Hb1 Hbusy). }
  assert (increasing ir_seq (inbox_rows d') /\ head_of ir_seq (inbox_rows d) <= head_of ir_seq (inbox_rows d')
    /\ upto ir_seq cur (inbox_rows d') = upto ir_seq cur (inbox_rows d)) as (Hr' & Hhead & Hup).
  { destruct Hgrow as [->|(r & Hfr & -> & _)]; [split_and!; [done|lia|done]|].
    assert (increasing ir_seq (inbox_rows d ++ [r])) as Hinc.
    { apply increasing_extend; [done|]. constructor; [repeat constructor|]. apply Forall_singleton. exact (Hf k c r Hk Hfr). }
    split_and!; [done | by apply head_of_app | apply upto_kept; [done | lia]]. }
  split; cbn [is_db is_calls is_cursor is_read]; [done | | | by rewrite Hup | lia].
  - intros k1 k2 c1 c2. rewrite !lookup_insert_Some. intros [[<- _]|[Hn1 Hk1]] [[<- _]|[Hn2 Hk2]] Hb1 Hb2; [done | | |].
    + by rewrite (Hidle k2 c2 (not_eq_sym Hn2) Hk2) in Hb2.
    + by rewrite (Hidle k1 c1 (not_eq_sym Hn1) Hk1) in Hb1.
    + exact (Hone k1 k2 c1 c2 Hk1 Hk2 Hb1 Hb2).
  - intros k1 c1 r. rewrite lookup_insert_Some. intros [[<- <-]|[Hn1 Hk1]] Hfr.
    + destruct (Hform r Hfr) as [-> Hlt]. exact Hlt.
    + pose proof (Hidle k1 c1 (not_eq_sym Hn1) Hk1) as Hno. by rewrite (formed_busy _ _ Hfr) in Hno.
Qed.

Lemma scan_row_message r m : scan_inbox_row r = Ok m -> m = row_message r.
Proof.
  unfold scan_inbox_row, row_message. destruct (dec_message zero_Message (ir_message r)); [|done..]. by intros [= <-].
Qed.

Lemma page_serial d cur limit page :
  increasing ir_seq (inbox_rows d) -> scanInbox (selected cur limit d) = Ok page ->
  page = row_message <$> read_page ir_seq cur limit (inbox_rows d).
Proof.
  intros Hr. unfold selected. rewrite order_by_sorted by by apply sorted_filter, increasing_sorted.
  intros Hscan%res_mapM_ok. unfold read_page. induction Hscan as [|r m rs ms Hm _ IH]; [done|].
  rewrite fmap_cons, <-IH. by rewrite (scan_row_message r m Hm).
Qed.

Lemma read_serial d cs cur seen limit page :
  serial_ok (mkInboxSystem d cs cur seen) -> scanInbox (selected cur limit d) = Ok page ->
  serial_ok (mkInboxSystem d cs (default cur (ibx_Seq <$> last page)) (seen ++ page)).
Proof.
  intros [Hr Hone Hf Hread Hcur] Hscan. cbn [is_db is_calls is_cursor is_read] in *.
  rewrite (page_serial d cur limit page Hr Hscan), fmap_last.
  destruct (last (read_page ir_seq cur limit (inbox_rows d))) as [r|] eqn:Hlast.
  - destruct (upto_page _ cur limit (inbox_rows d) _ r Hr eq_refl Hlast) as [Hup Hle].
    split; cbn [is_db is_calls is_cursor is_read]; [done | done | done | |].
    + simpl. by rewrite Hup, fmap_app, Hread.
    + simpl. split; [|done]. assert (r ∈ inbox_rows d) as Hin.
      { apply last_Some_elem_of in Hlast. by apply elem_of_read_page in Hlast as [? _]. }
      pose proof (increasing_positive _ _ _ Hr Hin). lia.
  - apply last_None in Hlast. rewrite Hlast. split; cbn [is_db is_calls is_cursor is_read]; try done. by rewrite app_nil_r.
Qed.

Lemma inbox_step_serial l st st' :
  inbox_sys_ok st -> sequence_ok st -> serial_ok st ->
  (match l with Deliver _ _ => idle st | _ => true end) = true ->
  inbox_step l st = Some st' -> serial_ok st'.
Proof.
  intros Hok Hseq Hser Hidle. destruct st as [d cs cur seen]. cbn [is_calls] in *.
  destruct l as [k msg|k f|k|f limit]; cbn [inbox_step].
  - apply bool_decide_eq_true in Hidle. case_decide as Hk; [|done]. intros [= <-]. destruct Hser as [Hr Hone Hf Hread Hcur].
    split; cbn [is_db is_calls is_cursor is_read] in *; try done.
    + intros k1 k2 c1 c2. rewrite !lookup_insert_Some. intros [[<- _]|[_ Hk1]] [[<- _]|[_ Hk2]] Hb1 Hb2; [done | | |].
      * by rewrite (Hidle k2 c2 Hk2) in Hb2.
      * by rewrite (Hidle k1 c1 Hk1) in Hb1.
      * exact (Hone k1 k2 c1 c2 Hk1 Hk2 Hb1 Hb2).
    + intros k1 c1 r. rewrite lookup_insert_Some. intros [[<- <-]|[_ Hk1]] Hfr; [done | exact (Hf k1 c1 r Hk1 Hfr)].
  - destruct (cs !! k) as [c|] eqn:Hk; [|done].
    destruct (append_step f d cs c) as [[d' c']|] eqn:E; [|done]. intros [= <-].
    exact (exec_serial f d cs cur seen k c d' c' Hser Hseq (io_bound _ Hok) Hk E).
  - case_decide; [done|]. intros [= <-]. destruct Hser as [Hr Hone Hf Hread Hcur].
    split; cbn [is_db is_calls is_cursor is_read] in *; try done.
    + intros k1 k2 c1 c2. rewrite !lookup_delete_Some. intros [_ Hk1] [_ Hk2]. exact (Hone k1 k2 c1 c2 Hk1 Hk2).
    + intros k1 c1 r. rewrite lookup_delete_Some. intros [_ Hk1]. exact (Hf k1 c1 r Hk1).
  - destruct f as [|e|e]; cbn [pg_inbox_ReadAll]; [|by intros [= <-]..].
    destruct (scanInbox (selected cur limit d)) as [page|e|m] eqn:Hscan; [|by intros [= <-]..]. intros [= <-].
    exact (read_serial d cs cur seen limit page Hser Hscan).
Qed.

Lemma new_inbox_serial : serial_ok new_inbox_system.
Proof.
  split; simpl; try (intros *; rewrite lookup_empty; discriminate); try done; try (by repeat constructor).
Qed.

Lemma inbox_run_serial ls st st' :
  inbox_sys_ok st -> sequence_ok st -> serial_ok st -> one_at_a_time ls st = true -> inbox_run ls st = Some st' -> serial_ok st'.
Proof.
  revert st. induction ls as [|l ls IH]; intros st Hok Hseq Hser; cbn [inbox_run one_at_a_time]; [by intros _ [= <-]|].
  destruct (inbox_step l st) as [st1|] eqn:E; [|done]. intros [Hidle Hrest]%andb_true_iff.
  destruct (inbox_step_ok l st st1 Hok Hseq E) as (Hok1 & Hseq1 & _). apply IH; try done.
  exact (inbox_step_serial l st st1 Hok Hseq Hser Hidle E).
Qed.
End inbox.

(** ** What the port gets *)

(** C16: whatever calls of the inbox writers interleave, fail, lose their
    connection or die: an identifier is stored at most once and under its own
    position, every stored row is a message as its column holds it, a call
    answered without error has its message stored, and a reader gets stored
    messages only, each at most once, in Seq order. *)
Theorem pg_inbox_stores_once jsonb ls st :
  inbox_run jsonb ls new_inbox_system = Some st ->
  let rows := inbox_rows (is_db st) in
  NoDup (ir_id <$> rows) /\ NoDup (ir_seq <$> rows)
  /\ (forall r, r ∈ rows -> exists msg, row_of jsonb msg r)
  /\ (forall k c, is_calls st !! k = Some c -> ac_place c = Appended (Ok tt) -> msg_ID (ac_message c) ∈ ir_id <$> rows)
  /\ increasing ibx_Seq (is_read st)
  /\ (forall m, m ∈ is_read st -> exists r, r ∈ rows /\ scan_inbox_row r = Ok m).
Proof.
  intros Hrun. destruct (inbox_run_ok jsonb ls _ st (new_inbox_system_ok jsonb) (Z.le_refl 0) Hrun) as (Hok & Hseq & _).
  assert (read_stored st) as Hst.
  { exact (inbox_run_stored jsonb ls _ st (new_inbox_system_ok jsonb) (Z.le_refl 0) (Forall_nil_2 _) Hrun). }
  pose proof (io_rows _ _ Hok) as Hrows. unfold read_stored in Hst. rewrite Forall_forall in Hst. rewrite Forall_forall in Hrows.
  split_and!; [apply Hok | apply Hok | exact Hrows | exact (io_done _ _ Hok) | apply Hok | exact Hst].
Qed.

(** When the calls come one at a time, a reader that follows its cursor
    has read exactly the inbox up to it. *)
Theorem pg_inbox_serial_reads_all jsonb ls st :
  one_at_a_time jsonb ls new_inbox_system = true -> inbox_run jsonb ls new_inbox_system = Some st ->
  is_read st = row_message <$> upto ir_seq (is_cursor st) (inbox_rows (is_db st)).
Proof.
  intros Hone Hrun.
  apply (inbox_run_serial jsonb ls _ st (new_inbox_system_ok jsonb) (Z.le_refl 0) new_inbox_serial Hone Hrun).
Qed.

(** ** Two writers and a reader *)

Module Sample.
Definition keep (doc : json) : option json := Some doc.
Definition billed : Message := mkMessage "billing.payment/1#1" "o-1" "billing.payment_captured" 1 zero_time (RawJSON (JInt 5)) None.
Definition stocked : Message := mkMessage "inventory.reservation/1#1" "o-1" "inventory.stock_reserved" 1 zero_time (RawJSON (JInt 1)) None.

(** The writer of one topic forms its row first, the other's commits first,
    and the reader reads in between. *)
Definition overtaking : list inbox_label :=
  [Deliver 0 billed; Deliver 1 stocked; Exec 0 Answered; Exec 1 Answered; Exec 1 Answered; Read Answered 0; Exec 0 Answered].
Definition overtaken : inbox_system := default new_inbox_system (inbox_run keep overtaking new_inbox_system).
(** The same with one call at a time. *)
Definition in_turn : list inbox_label :=
  [Deliver 0 billed; Exec 0 Answered; Exec 0 Answered; Read Answered 0; Deliver 1 stocked; Exec 1 Answered; Exec 1 Answered; Read Answered 0].
Definition turned : inbox_system := default new_inbox_system (inbox_run keep in_turn new_inbox_system).
End Sample.
Import Sample.

(** C37: with two writers a stored message can be skipped for good: its call is
    answered Ok and its row is in the table, below the reader's cursor, and no
    continuation of the run ever reads it. *)
Theorem pg_inbox_can_skip :
  exists st r, inbox_run keep overtaking new_inbox_system = Some st
    /\ ac_place <$> is_calls st !! 0%nat = Some (Appended (Ok tt))
    /\ r ∈ inbox_rows (is_db st) /\ ir_id r = msg_ID billed /\ ir_seq r <= is_cursor st
    /\ forall more st', inbox_run keep more st = Some st' ->
          r ∈ inbox_rows (is_db st') /\ forall m, m ∈ is_read st' -> ibx_Seq m <> ir_seq r.
Proof.
  assert (inbox_run keep overtaking new_inbox_system = Some overtaken) as Hrun by reflexivity.
  destruct (inbox_run_ok keep _ _ _ (new_inbox_system_ok keep) (Z.le_refl 0) Hrun) as (Hok & Hseq & _).
  exists overtaken, (mkInboxRow 1 (msg_ID billed) (match enc_message billed with Ok doc => doc | _ => JNull end)).
  split; [exact Hrun|]. split; [reflexivity|].
  assert (mkInboxRow 1 (msg_ID billed) (match enc_message billed with Ok doc => doc | _ => JNull end)
    ∈ inbox_rows (is_db overtaken)) as Hin.
  { apply (list_elem_of_lookup_2 _ 1%nat). reflexivity. }
  split; [exact Hin|]. split; [reflexivity|]. split; [vm_compute; discriminate|].
  intros more st' Hmore. destruct (inbox_run_ok keep _ _ _ Hok Hseq Hmore) as (_ & _ & [new Hnew] & page & Hpage & Hlater).
  split; [rewrite Hnew; apply elem_of_app; by left|]. rewrite Hpage. intros m [Hm|Hm]%elem_of_app.
  - assert (ibx_Seq <$> is_read overtaken = [2]) as Hread by reflexivity.
    apply (list_elem_of_fmap_2 ibx_Seq) in Hm. rewrite Hread in Hm. apply list_elem_of_singleton in Hm. simpl. lia.
  - rewrite Forall_forall in Hlater. specialize (Hlater m Hm).
    assert (is_cursor overtaken = 2) as Hcur by reflexivity. rewrite Hcur in Hlater. simpl. lia.
Qed.

Lemma pg_inbox_stores_once_witness :
  inbox_run keep overtaking new_inbox_system = Some overtaken /\ ir_seq <$> inbox_rows (is_db overtaken) = [2; 1]
  /\ NoDup (ir_id <$> inbox_rows (is_db overtaken)).
Proof.
  split; [reflexivity|]. split; [reflexivity|]. exact (proj1 (pg_inbox_stores_once keep overtaking overtaken eq_refl)).
Defined.

Lemma pg_inbox_serial_reads_all_witness :
  ibx_Seq <$> is_read turned = [1; 2]
  /\ is_read turned = row_message <$> upto ir_seq (is_cursor turned) (inbox_rows (is_db turned)).
Proof.
  split; [reflexivity|]. exact (pg_inbox_serial_reads_all keep in_turn turned eq_refl eq_refl).
Defined.
