(* ===== verification/ReadModel.v ===== *)
(** * gohex-example/ordering/internal: the read-model ports and their Postgres adapters

    ports/ports.go as classes with their contracts, and
    adapters/postgres/summary.go and notifications.go as instances, one round
    trip per method. *)

From S2P Require Import Prelude Tail Errors Utf8 GoTime Json EventStore Postgres PgTables PgStore.

(** ** ports/ports.go *)

Definition ErrOrderNotFound : DomainError := NewDomainError "not_found" "order does not exist".

Definition RankPlaced : Z := 1.
Definition RankPaid : Z := 2.
Definition RankReserved : Z := 3.
Definition RankShipped : Z := 4.
Definition RankPaymentFailed : Z := 10.
Definition RankRejected : Z := 11.
Definition RankRefunded : Z := 12.

Record OrderSummary := mkOrderSummary {
  os_OrderID : string;
  os_CustomerID : string;
  os_Cents : Z;
  os_Currency : string;
  os_Qty : Z;
  os_Status : string;
  os_PlacedAt : Time;
}.

Record PendingNotification := mkPending {
  pn_ID : Z;
  pn_OrderID : string;
  pn_Reason : string;
  pn_Metadata : strmap;
}.

Class SummaryStore (V : Type) := {
  UpsertPlaced : OrderSummary -> V -> res unit * V;
  SetStatus : string -> string -> Z -> V -> res unit * V;
  GetSummary : string -> V -> res OrderSummary * V;
}.

Class NotificationQueue (V : Type) := {
  Enqueue : string -> string -> strmap -> V -> res unit * V;
  Pending : Z -> V -> res (list PendingNotification) * V;
  MarkSent : Z -> V -> res unit * V;
}.

(** *** What the summary port promises

    A row: the columns of the placed order, zero until it is upserted, and the
    status with its rank. *)
Record Base := mkBase {
  b_CustomerID : string; b_Cents : Z; b_Currency : string; b_Qty : Z; b_PlacedAt : option Time;
}.
Definition no_base : Base := mkBase "" 0 "" 0 None.
Definition base_of (s : OrderSummary) : Base :=
  mkBase (os_CustomerID s) (os_Cents s) (os_Currency s) (os_Qty s) (Some (os_PlacedAt s)).

Record SummaryRow := mkSummaryRow { sr_base : Base; sr_status : string; sr_rank : Z }.
Definition no_row : SummaryRow := mkSummaryRow no_base "" 0.

(** Never downgrade. *)
Definition raise_row (status : string) (rank : Z) (r : SummaryRow) : SummaryRow :=
  if decide (sr_rank r >= rank) then r else mkSummaryRow (sr_base r) status rank.

Definition place_row (s : OrderSummary) (r : SummaryRow) : SummaryRow :=
  let r' := raise_row "placed" RankPlaced r in mkSummaryRow (base_of s) (sr_status r') (sr_rank r').

(** A write of the read model, and its effect on the rows. *)
Inductive update :=
  | Placed (s : OrderSummary)
  | Raised (id status : string) (rank : Z).

Definition update_id (u : update) : string := match u with Placed s => os_OrderID s | Raised id _ _ => id end.

Definition update_row (u : update) (r : SummaryRow) : SummaryRow :=
  match u with Placed s => place_row s r | Raised _ status rank => raise_row status rank r end.

Definition apply_update (m : gmap string SummaryRow) (u : update) : gmap string SummaryRow :=
  <[update_id u := update_row u (default no_row (m !! update_id u))]> m.

(** What [Get] answers of a row; [coalesce(placed_at, 'epoch')]. *)
Definition epoch : Time := mkTime 1970 1 1 0 0 0 0 0.
Definition row_summary (id : string) (r : SummaryRow) : OrderSummary :=
  let b := sr_base r in
  mkOrderSummary id (b_CustomerID b) (b_Cents b) (b_Currency b) (b_Qty b) (sr_status r) (default epoch (b_PlacedAt b)).

Class SummarySpec (V : Type) `{SummaryStore V} := {
  summaries : V -> gmap string SummaryRow;
  UpsertPlaced_spec s v r v' :
    UpsertPlaced s v = (r, v') ->
    summaries v' = apply_update (summaries v) (Placed s) \/ (is_ok r = false /\ summaries v' = summaries v);
  SetStatus_spec id status rank v r v' :
    SetStatus id status rank v = (r, v') -> 0 < rank ->
    summaries v' = apply_update (summaries v) (Raised id status rank) \/ (is_ok r = false /\ summaries v' = summaries v);
  GetSummary_spec id v r v' :
    GetSummary id v = (r, v') ->
    summaries v' = summaries v /\ forall s, r = Ok s -> exists row, summaries v !! id = Some row /\ s = row_summary id row;
}.

(** *** What the worklist port promises *)

Record work := mkWork { wk_id : Z; wk_order : string; wk_reason : string; wk_metadata : strmap; wk_sent : bool }.
Definition wk_key (w : work) : string * string := (wk_order w, wk_reason w).

(** Oldest first, and one row per order and reason. *)
Definition worklist_ok (ws : list work) : Prop := increasing wk_id ws /\ NoDup (wk_key <$> ws).

(** [ws'] is [ws] with a row for the order and reason, new if it has none. *)
Definition enqueued (order reason : string) (ws ws' : list work) : Prop :=
  if decide ((order, reason) ∈ wk_key <$> ws) then ws' = ws
  else exists id md, ws' = ws ++ [mkWork id order reason md false].

Definition retire (id : Z) (w : work) : work :=
  if decide (wk_id w = id) then mkWork (wk_id w) (wk_order w) (wk_reason w) (wk_metadata w) true else w.

Definition unsent (ws : list work) : list work := filter (fun w => wk_sent w = false) ws.
Definition pending_of (w : work) : PendingNotification := mkPending (wk_id w) (wk_order w) (wk_reason w) (wk_metadata w).

Class QueueSpec (V : Type) `{NotificationQueue V} := {
  worklist : V -> list work;
  queue_inv : V -> Prop;
  queue_ok v : queue_inv v -> worklist_ok (worklist v);
  Enqueue_spec order reason md v r v' :
    queue_inv v -> Enqueue order reason md v = (r, v') ->
    queue_inv v' /\ (enqueued order reason (worklist v) (worklist v') \/ (is_ok r = false /\ worklist v' = worklist v));
  Pending_spec limit v r v' :
    queue_inv v -> Pending limit v = (r, v') ->
    queue_inv v' /\ worklist v' = worklist v
    /\ forall ps, r = Ok ps -> 0 <= limit -> ps = pending_of <$> take (Z.to_nat limit) (unsent (worklist v));
  MarkSent_spec id v r v' :
    queue_inv v -> MarkSent id v = (r, v') ->
    queue_inv v' /\ (worklist v' = retire id <$> worklist v \/ (is_ok r = false /\ worklist v' = worklist v));
}.

(** One database behind both ports: neither touches the other's rows. *)
Class ReadModelSpec (V : Type) `{SummarySpec V} `{QueueSpec V} := {
  UpsertPlaced_frame s v r v' : UpsertPlaced s v = (r, v') -> queue_inv v -> queue_inv v' /\ worklist v' = worklist v;
  SetStatus_frame id status rank v r v' :
    SetStatus id status rank v = (r, v') -> queue_inv v -> queue_inv v' /\ worklist v' = worklist v;
  Enqueue_frame order reason md v r v' : Enqueue order reason md v = (r, v') -> summaries v' = summaries v;
  GetSummary_frame id v r v' : GetSummary id v = (r, v') -> queue_inv v -> queue_inv v' /\ worklist v' = worklist v;
  Pending_frame limit v r v' : Pending limit v = (r, v') -> summaries v' = summaries v;
  MarkSent_frame id v r v' : MarkSent id v = (r, v') -> summaries v' = summaries v;
}.

(** ** The rows commute

    The rows depend on the set of updates applied, not on their order or
    repetition: what makes the projection's at-least-once, two-source feed
    harmless. *)

Lemma raise_row_rank status rank r : sr_rank (raise_row status rank r) = Z.max (sr_rank r) rank.
Proof. unfold raise_row. case_decide; simpl; lia. Qed.

Definition update_rank (u : update) : Z := match u with Placed _ => RankPlaced | Raised _ _ rank => rank end.
Definition update_status (u : update) : string := match u with Placed _ => "placed" | Raised _ status _ => status end.
Definition update_base (u : update) : option Base := match u with Placed s => Some (base_of s) | Raised _ _ _ => None end.

(** The updates of an order agree: one placement, one status per rank. *)
Definition agree (u1 u2 : update) : Prop :=
  update_id u1 = update_id u2 ->
  0 < update_rank u1
  /\ (update_rank u1 = update_rank u2 -> update_status u1 = update_status u2)
  /\ (forall b1 b2, update_base u1 = Some b1 -> update_base u2 = Some b2 -> b1 = b2).
Definition consistent (us : list update) : Prop := forall u1 u2, u1 ∈ us -> u2 ∈ us -> agree u1 u2.

Definition applied (us : list update) : gmap string SummaryRow := foldl apply_update ∅ us.

(** The row of an order as a function of the set of its updates: the columns of
    its placement, and the highest-ranked status. *)
Definition row_is (us : list update) (id : string) (row : option SummaryRow) : Prop :=
  match row with
  | None => forall u, u ∈ us -> update_id u <> id
  | Some r =>
    (exists u, u ∈ us /\ update_id u = id /\ sr_status r = update_status u /\ sr_rank r = update_rank u)
    /\ (forall u, u ∈ us -> update_id u = id -> update_rank u <= sr_rank r)
    /\ ((exists u, u ∈ us /\ update_id u = id /\ update_base u = Some (sr_base r))
        \/ (sr_base r = no_base /\ forall u, u ∈ us -> update_id u = id -> update_base u = None))
  end.

Lemma update_row_shape u r :
  sr_base (update_row u r) = default (sr_base r) (update_base u)
  /\ sr_rank (update_row u r) = Z.max (sr_rank r) (update_rank u)
  /\ sr_status (update_row u r) = (if decide (sr_rank r >= update_rank u) then sr_status r else update_status u).
Proof.
  destruct u as [s|id status rank]; simpl; unfold place_row; rewrite ?raise_row_rank; unfold raise_row; by case_decide.
Qed.

(** An update of another order leaves the row. *)
Lemma row_is_other us u id row : update_id u <> id -> row_is us id row -> row_is (us ++ [u]) id row.
Proof.
  intros Hid Hrow. assert (forall v, update_id v = id -> (v ∈ us ++ [u] <-> v ∈ us)) as Hin.
  { intros v Hv. rewrite elem_of_app, list_elem_of_singleton. naive_solver. }
  destruct row as [r|]; simpl in *.
  - destruct Hrow as ((v & Hv & Hvid & Hvs) & Hmax & Hb). split_and!.
    + exists v. split; [by apply Hin | done].
    + intros v' Hv' Hid'. apply Hmax; [by apply Hin | done].
    + destruct Hb as [(v' & Hv' & Hid' & Hb)|[Hb Hn]]; [left; exists v'; split; [by apply Hin | done]|right].
      split; [done|]. intros v' Hv' Hid'. apply Hn; [by apply Hin | done].
  - intros v Hv Hvid. apply (Hrow v); [by apply Hin | done].
Qed.

(** An update of the order moves its row. *)
Lemma row_is_same us u row :
  0 < update_rank u -> row_is us (update_id u) row ->
  row_is (us ++ [u]) (update_id u) (Some (update_row u (default no_row row))).
Proof.
  intros Hpos Hrow. destruct (update_row_shape u (default no_row row)) as (Hbase & Hrank & Hstatus).
  assert (forall v, v ∈ us ++ [u] <-> v ∈ us \/ v = u) as Hin by (intros v; by rewrite elem_of_app, list_elem_of_singleton).
  assert (forall v, v ∈ us -> update_id v = update_id u -> exists r, row = Some r) as Hsome.
  { intros v Hv Hvid. destruct row as [r|]; [by exists r|]. by apply Hrow in Hv. }
  set (r' := update_row u (default no_row row)) in *. split_and!.
  - destruct (decide (sr_rank (default no_row row) >= update_rank u)) as [Hge|Hlt].
    + destruct row as [r|]; [|simpl in Hge; lia]. destruct Hrow as ((v & Hv & Hvid & Hs & Hr) & _). simpl in *.
      exists v. rewrite Hin, Hstatus, Hrank. split_and!; [by left | done | done | lia].
    + exists u. rewrite Hin, Hstatus, Hrank. split_and!; [by right | done | done | lia].
  - intros v. rewrite Hin, Hrank. intros [Hv| ->] Hvid; [|lia]. destruct (Hsome v Hv Hvid) as [r ->].
    destruct Hrow as (_ & Hmax & _). specialize (Hmax v Hv Hvid). simpl. lia.
  - rewrite Hbase. destruct (update_base u) as [b|] eqn:E; [left; exists u; rewrite Hin; by split_and!; [right| |]|].
    cbn [default]. destruct row as [r|].
    + destruct Hrow as (_ & _ & [(v & Hv & Hvb)|[Hb Hn]]); [left; exists v; rewrite Hin; by split; [left|]|right].
      split; [done|]. intros v. rewrite Hin. intros [Hv| ->] Hvid; [by apply Hn | done].
    + right. split; [done|]. intros v. rewrite Hin. intros [Hv| ->] Hvid; [by apply Hrow in Hv | done].
Qed.

Lemma applied_rows us id : Forall (fun u => 0 < update_rank u) us -> row_is us id (applied us !! id).
Proof.
  unfold applied. induction us as [|u us IH] using rev_ind; intros Hpos; [simpl; rewrite lookup_empty; intros v Hv; by apply elem_of_nil in Hv|].
  apply Forall_app in Hpos as [Hpos Hu]. apply Forall_inv in Hu. rewrite foldl_app. simpl.
  unfold apply_update. destruct (decide (update_id u = id)) as [<-|Hid].
  - rewrite lookup_insert_eq. by apply row_is_same, IH.
  - rewrite lookup_insert_ne by done. by apply row_is_other, IH.
Qed.

(** A row is determined by the set. *)
Lemma row_is_unique us us' id row row' :
  consistent us -> (forall u, u ∈ us <-> u ∈ us') -> row_is us id row -> row_is us' id row' -> row = row'.
Proof.
  intros Hc Hset Hrow Hrow'. destruct row as [[b s k]|], row' as [[b' s' k']|]; simpl in *; [| | |done].
  - destruct Hrow as ((u & Hu & Hid & -> & ->) & Hmax & Hb), Hrow' as ((u' & Hu' & Hid' & -> & ->) & Hmax' & Hb').
    rewrite <-Hset in Hu'. pose proof (Hmax u' Hu' Hid'). pose proof (Hmax' u ltac:(by apply Hset) Hid).
    destruct (Hc u u' Hu Hu' ltac:(congruence)) as (_ & Hst & _). rewrite Hst by lia.
    assert (update_rank u = update_rank u') as -> by lia. do 2 f_equal.
    destruct Hb as [(v & Hv & Hvid & Hvb)|[-> Hn]], Hb' as [(v' & Hv' & Hvid' & Hvb')|[-> Hn']]; [| | |done].
    + rewrite <-Hset in Hv'. destruct (Hc v v' Hv Hv' ltac:(congruence)) as (_ & _ & Hbase). exact (Hbase _ _ Hvb Hvb').
    + rewrite Hset in Hv. by rewrite (Hn' v Hv Hvid) in Hvb.
    + rewrite <-Hset in Hv'. by rewrite (Hn v' Hv' Hvid') in Hvb'.
  - destruct Hrow as ((u & Hu & Hid & _) & _). apply Hset, Hrow' in Hu. done.
  - destruct Hrow' as ((u & Hu & Hid & _) & _). apply Hset, Hrow in Hu. done.
Qed.

Lemma applied_set us us' :
  consistent us -> (forall u, u ∈ us <-> u ∈ us') -> applied us = applied us'.
Proof.
  intros Hc Hset. apply map_eq. intros id.
  assert (Forall (fun u => 0 < update_rank u) us) as Hpos.
  { rewrite Forall_forall. intros u Hu. by destruct (Hc u u Hu Hu eq_refl). }
  eapply (row_is_unique us us' id); [done | done | by apply applied_rows |]. apply applied_rows.
  rewrite Forall_forall in *. intros u Hu. by apply Hpos, Hset.
Qed.

(** ** The Postgres adapters *)

Record queue_row := mkQueueRow { q_id : Z; q_order : string; q_reason : string; q_metadata : json; q_sent : bool }.

(** The order_summary table, and the pending_notification table with its
    identity sequence. *)
Record Tables := mkTables { t_summary : gmap string SummaryRow; t_work : list queue_row; t_sequence : Z }.

Definition PgReadModel : Type := Pg Tables.

(** The values an [int] column refuses. *)
Definition int4_range : error := EText "is outside of the range of int4".

(** [INSERT INTO order_summary ... ON CONFLICT (order_id) DO UPDATE], the row
    with the placement's columns. *)
Definition upsert_placed (s : OrderSummary) (t : Tables) : res unit * Tables :=
  if decide (in_int32 (os_Qty s)) then
    let row :=
      match t_summary t !! os_OrderID s with
      | None => mkSummaryRow (base_of s) "placed" RankPlaced
      | Some r =>
        mkSummaryRow (base_of s) (if decide (sr_rank r >= RankPlaced) then sr_status r else "placed")
          (Z.max (sr_rank r) RankPlaced)
      end in
    (Ok tt, mkTables (<[os_OrderID s := row]> (t_summary t)) (t_work t) (t_sequence t))
  else (Err int4_range, t).

Definition pg_UpsertPlaced (s : OrderSummary) : PgReadModel -> res unit * PgReadModel :=
  exec ("ordering/postgres: upsert " +:+ os_OrderID s +:+ ": ") (upsert_placed s).

(** The same with only the status columns. *)
Definition set_status (id status : string) (rank : Z) (t : Tables) : res unit * Tables :=
  if decide (in_int32 rank) then
    let row :=
      match t_summary t !! id with
      | None => mkSummaryRow no_base status rank
      | Some r =>
        mkSummaryRow (sr_base r) (if decide (sr_rank r >= rank) then sr_status r else status) (Z.max (sr_rank r) rank)
      end in
    (Ok tt, mkTables (<[id := row]> (t_summary t)) (t_work t) (t_sequence t))
  else (Err int4_range, t).

Definition pg_SetStatus (id status : string) (rank : Z) : PgReadModel -> res unit * PgReadModel :=
  exec ("ordering/postgres: set status " +:+ id +:+ ": ") (set_status id status rank).

(** [SELECT ... WHERE order_id = $1] *)
Definition pg_GetSummary (id : string) (p : PgReadModel) : res OrderSummary * PgReadModel :=
  let '(r, p') := round_trip ("ordering/postgres: get " +:+ id +:+ ": ") (fun t => (t_summary t !! id, t)) p in
  (try row := r in
   match row with
   | Some row => Ok (row_summary id row)
   | None => Err (EWrap "" (EDomain ErrOrderNotFound) (": " +:+ id))
   end, p').

#[export] Instance PgReadModel_summaries : SummaryStore PgReadModel := {
  UpsertPlaced := pg_UpsertPlaced; SetStatus := pg_SetStatus; GetSummary := pg_GetSummary;
}.

Lemma upsert_placed_effect s t :
  t_summary (snd (upsert_placed s t)) = (if decide (in_int32 (os_Qty s)) then apply_update (t_summary t) (Placed s) else t_summary t).
Proof.
  unfold upsert_placed. case_decide; [|done]. simpl. unfold apply_update. simpl. f_equal.
  destruct (t_summary t !! os_OrderID s) as [r|]; simpl; unfold place_row, raise_row; case_decide; simpl;
    try done; f_equal; lia.
Qed.

Lemma set_status_effect id status rank t :
  0 < rank ->
  t_summary (snd (set_status id status rank t)) = (if decide (in_int32 rank) then apply_update (t_summary t) (Raised id status rank) else t_summary t).
Proof.
  intros Hpos. unfold set_status. case_decide; [|done]. simpl. unfold apply_update. simpl. f_equal.
  destruct (t_summary t !! id) as [r|]; simpl; unfold raise_row; case_decide; simpl in *; try lia; try done;
    destruct r; simpl in *; f_equal; lia.
Qed.

#[export] Program Instance PgReadModel_summary_spec : SummarySpec PgReadModel := {
  summaries := fun p => t_summary (table p);
}.
Next Obligation.
  intros s v r v' E. change (pg_UpsertPlaced s v = (r, v')) in E. unfold pg_UpsertPlaced in E.
  pose proof (upsert_placed_effect s (table v)) as Heff.
  apply exec_spec in E as [[-> Ht]|[Hr [Ht|Ht]]]; rewrite Ht, ?Heff; [| by right |].
  - unfold upsert_placed. case_decide; [by left | by right].
  - case_decide; [by left | by right].
Qed.
Next Obligation.
  intros id status rank v r v' E Hpos. change (pg_SetStatus id status rank v = (r, v')) in E. unfold pg_SetStatus in E.
  pose proof (set_status_effect id status rank (table v) Hpos) as Heff.
  apply exec_spec in E as [[-> Ht]|[Hr [Ht|Ht]]]; rewrite Ht, ?Heff; [| by right |].
  - unfold set_status. case_decide; [by left | by right].
  - case_decide; [by left | by right].
Qed.
Next Obligation.
  intros id v r v' E. change (pg_GetSummary id v = (r, v')) in E. unfold pg_GetSummary in E.
  destruct (round_trip _ _ v) as [r1 p1] eqn:Er. injection E as <- <-.
  apply round_trip_spec in Er as [[-> Ht]|[Hr Ht]]; simpl in *.
  - rewrite Ht. split; [done|]. intros s. destruct (t_summary (table v) !! id) as [row|]; [|done]. intros [= <-]. by exists row.
  - assert (table p1 = table v) as -> by tauto. split; [done|]. intros s. by destruct r1.
Qed.

Section queue.
Variable jsonb : json -> option json.

(** [json.Marshal(metadata)], then [INSERT ... ON CONFLICT (order_id, reason)
    DO NOTHING]. *)
Definition enqueue_row (order reason : string) (encoded : json) (t : Tables) : res unit * Tables :=
  match jsonb encoded with
  | Some doc =>
    if decide (t_sequence t < int64_max) then
      if decide ((order, reason) ∈ (fun r => (q_order r, q_reason r)) <$> t_work t)
      then (Ok tt, mkTables (t_summary t) (t_work t) (t_sequence t + 1))
      else (Ok tt, mkTables (t_summary t) (t_work t ++ [mkQueueRow (t_sequence t + 1) order reason doc false]) (t_sequence t + 1))
    else (Err (EText "nextval: reached maximum value of sequence"), t)
  | None => (Err (EText "invalid input syntax for type json"), t)
  end.

Definition pg_Enqueue (order reason : string) (metadata : strmap) : PgReadModel -> res unit * PgReadModel :=
  exec ("ordering/postgres: enqueue " +:+ order +:+ "/" +:+ reason +:+ ": ") (enqueue_row order reason (enc_map metadata)).

Definition scan_pending_row (r : queue_row) : res PendingNotification :=
  try md := res_wrap ("ordering/postgres: decode metadata for " +:+ FormatInt (q_id r) +:+ ": ") "" (dec_map None (q_metadata r)) in
  Ok (mkPending (q_id r) (q_order r) (q_reason r) md).

Definition scanPending (rs : list queue_row) : res (list PendingNotification) := res_mapM scan_pending_row rs.

(** [SELECT ... WHERE sent_at IS NULL ORDER BY id LIMIT $1] *)
Definition select_pending (limit : Z) (t : Tables) : res (list queue_row) * Tables :=
  if decide (limit < 0) then (Err (EText "LIMIT must not be negative"), t) else
  (Ok (take (Z.to_nat limit) (order_by q_id (filter (fun r => q_sent r = false) (t_work t)))), t).

Definition pg_Pending (limit : Z) (p : PgReadModel) : res (list PendingNotification) * PgReadModel :=
  let '(r, p') := exec "ordering/postgres: pending notifications: " (select_pending limit) p in
  (try rs := r in scanPending rs, p').

(** [UPDATE ... SET sent_at = now() WHERE id = $1 AND sent_at IS NULL] *)
Definition mark_sent (id : Z) (t : Tables) : unit * Tables :=
  (tt, mkTables (t_summary t)
         ((fun r => if decide (q_id r = id /\ q_sent r = false)
                    then mkQueueRow (q_id r) (q_order r) (q_reason r) (q_metadata r) true else r) <$> t_work t)
         (t_sequence t)).

Definition pg_MarkSent (id : Z) : PgReadModel -> res unit * PgReadModel :=
  round_trip ("ordering/postgres: mark sent " +:+ FormatInt id +:+ ": ") (mark_sent id).

#[local] Instance PgReadModel_queue : NotificationQueue PgReadModel := {
  Enqueue := pg_Enqueue; Pending := pg_Pending; MarkSent := pg_MarkSent;
}.

(** jsonb keeps the members of an object, and null. *)
Hypotheses (jsonb_members : keeps_members jsonb) (jsonb_null : forall doc, jsonb JNull = Some doc -> doc = JNull).

Lemma metadata_decodes md doc : jsonb (enc_map md) = Some doc -> exists m, dec_map None doc = Ok m.
Proof.
  destruct md as [m|]; cbn [enc_map]; [|intros ->%jsonb_null; by eexists].
  assert (Forall string_member (prod_map sanitize enc_string <$> map_to_list m)) as Hms.
  { apply Forall_fmap. rewrite Forall_forall. intros [k v] _. by eexists. }
  intros (ms' & -> & Hin & _)%jsonb_members; [|done].
  assert (Forall string_member ms') as Hms'.
  { rewrite Forall_forall in *. intros x Hx. by apply Hms, Hin. }
  destruct (dec_map_members ms' Hms') as (kvs & Hk & _). cbn [dec_map]. rewrite Hk. by eexists.
Qed.

Record queue_rows_ok (t : Tables) : Prop := {
  qr_ids : increasing q_id (t_work t);
  qr_bound : Forall (fun r => q_id r <= t_sequence t) (t_work t);
  qr_seq : 0 <= t_sequence t;
  qr_keys : NoDup ((fun r => (q_order r, q_reason r)) <$> t_work t);
  qr_metadata : Forall (fun r => exists m, dec_map None (q_metadata r) = Ok m) (t_work t);
}.

Definition row_work (r : queue_row) : work :=
  mkWork (q_id r) (q_order r) (q_reason r) (match dec_map None (q_metadata r) with Ok m => m | _ => None end) (q_sent r).

Lemma work_ids (rs : list queue_row) : wk_id <$> (row_work <$> rs) = q_id <$> rs.
Proof. by rewrite <-list_fmap_compose. Qed.
Lemma work_keys (rs : list queue_row) : wk_key <$> (row_work <$> rs) = (fun r => (q_order r, q_reason r)) <$> rs.
Proof. by rewrite <-list_fmap_compose. Qed.

Lemma enqueue_row_ok order reason md t :
  queue_rows_ok t ->
  let '(r, t') := enqueue_row order reason (enc_map md) t in
  queue_rows_ok t' /\ (is_ok r = true -> enqueued order reason (row_work <$> t_work t) (row_work <$> t_work t'))
  /\ (is_ok r = false -> t' = t).
Proof.
  intros [Hids Hb Hseq Hkeys Hmd]. unfold enqueue_row. destruct (jsonb (enc_map md)) as [doc|] eqn:Hdoc; [|done].
  case_decide; [|done]. unfold enqueued. rewrite work_keys. case_decide as Hin; (split; [|split; [|done]]).
  - split; simpl; try done; [|lia]. eapply Forall_impl; [exact Hb|]. simpl. lia.
  - done.
  - split; simpl.
    + apply increasing_extend; [done|]. constructor; [repeat constructor|]. constructor; [|constructor].
      assert (head_of q_id (t_work t) <= t_sequence t); [|simpl; lia].
      unfold head_of. destruct (last (t_work t)) as [r|] eqn:E; simpl; [|lia]. apply last_Some_elem_of in E.
      rewrite Forall_forall in Hb. by apply Hb.
    + apply Forall_app. split; [|repeat constructor; simpl; lia]. eapply Forall_impl; [exact Hb|]. simpl. lia.
    + lia.
    + rewrite fmap_app. apply NoDup_app. split_and!; [done| |apply NoDup_singleton].
      intros x Hx Hx'%list_elem_of_singleton. by subst.
    + apply Forall_app. split; [done|]. repeat constructor. by eapply metadata_decodes.
  - intros _. simpl. rewrite fmap_app. by do 2 eexists.
Qed.

Lemma mark_sent_ok id t :
  queue_rows_ok t ->
  let t' := snd (mark_sent id t) in
  queue_rows_ok t' /\ row_work <$> t_work t' = retire id <$> (row_work <$> t_work t).
Proof.
  intros [Hids Hb Hseq Hkeys Hmd]. simpl.
  set (f := fun r => if decide (q_id r = id /\ q_sent r = false) then mkQueueRow (q_id r) (q_order r) (q_reason r) (q_metadata r) true else r).
  assert (forall r, q_id (f r) = q_id r /\ (q_order (f r), q_reason (f r)) = (q_order r, q_reason r) /\ q_metadata (f r) = q_metadata r) as Hf.
  { intros r. unfold f. by case_decide. }
  split.
  - split; simpl; try done.
    + unfold increasing. rewrite <-list_fmap_compose. erewrite list_fmap_ext; [exact Hids|]. intros i r _. apply Hf.
    + rewrite Forall_fmap. eapply Forall_impl; [exact Hb|]. intros r. simpl. by destruct (Hf r) as (-> & _).
    + rewrite <-list_fmap_compose. erewrite list_fmap_ext; [exact Hkeys|]. intros i r _. apply Hf.
    + rewrite Forall_fmap. eapply Forall_impl; [exact Hmd|]. intros r. simpl. by destruct (Hf r) as (_ & _ & ->).
  - rewrite <-!list_fmap_compose. apply list_fmap_ext. intros i r _. unfold f, retire, row_work. simpl.
    destruct r as [k o rs md []]; simpl; repeat case_decide; try done; naive_solver.
Qed.

Lemma pending_answer limit t rs ps :
  queue_rows_ok t -> 0 <= limit -> fst (select_pending limit t) = Ok rs -> scanPending rs = Ok ps ->
  ps = pending_of <$> take (Z.to_nat limit) (unsent (row_work <$> t_work t)).
Proof.
  intros Hok Hlim. unfold select_pending. rewrite decide_False by lia. simpl. intros [= <-].
  rewrite order_by_sorted by by apply sorted_filter, increasing_sorted, Hok. unfold unsent. rewrite filter_map.
  rewrite <-fmap_take, <-list_fmap_compose. intros Hscan%res_mapM_ok.
  assert (Forall2 (fun r p => p = (pending_of ∘ row_work) r) (take (Z.to_nat limit) (filter (fun r => wk_sent (row_work r) = false) (t_work t))) ps) as Hps.
  { eapply Forall2_impl; [exact Hscan|]. intros r p. unfold scan_pending_row, row_work, pending_of. simpl.
    destruct (dec_map None (q_metadata r)); [|done..]. by intros [= <-]. }
  clear Hscan. induction Hps as [|r p l k -> _ IH]; [done|]. by rewrite fmap_cons, IH.
Qed.

#[local] Program Instance PgReadModel_queue_spec : QueueSpec PgReadModel := {
  worklist := fun p => row_work <$> t_work (table p);
  queue_inv := fun p => queue_rows_ok (table p);
}.
Next Obligation.
  intros v Hv. split; [unfold increasing; rewrite work_ids; apply Hv | rewrite work_keys; apply Hv].
Qed.
Next Obligation.
  intros order reason md v r v' Hv E. change (pg_Enqueue order reason md v = (r, v')) in E. unfold pg_Enqueue in E.
  pose proof (enqueue_row_ok order reason md (table v) Hv) as Hrow.
  destruct (enqueue_row _ _ _ _) as [r1 t1] eqn:Er. destruct Hrow as (Hok & Hyes & Hno).
  apply exec_spec in E as [[-> Ht]|[Hr [Ht|Ht]]]; rewrite ?Er in *; simpl in *; rewrite Ht.
  - split; [done|]. destruct r1; [left; by apply Hyes | right; by rewrite Hno..].
  - split; [done | by right].
  - split; [done|]. destruct r1; [left; by apply Hyes | right; by rewrite Hno..].
Qed.
Next Obligation.
  intros limit v r v' Hv E. change (pg_Pending limit v = (r, v')) in E. unfold pg_Pending in E.
  destruct (exec _ _ v) as [r1 p1] eqn:Ex. injection E as <- <-.
  assert (forall t, snd (select_pending limit t) = t) as Hsame by (intros t; unfold select_pending; by case_decide).
  pose proof (exec_spec _ _ _ _ _ Ex) as Hx. rewrite Hsame in Hx.
  assert (table p1 = table v) as -> by tauto. split; [done|]. split; [done|].
  intros ps Hps Hlim. destruct Hx as [[-> _]|[Hr _]]; [|by destruct r1].
  destruct (fst (select_pending limit (table v))) as [rs|e|m] eqn:Hsel; [|done..].
  exact (pending_answer limit (table v) rs ps Hv Hlim Hsel Hps).
Qed.
Next Obligation.
  intros id v r v' Hv E. change (pg_MarkSent id v = (r, v')) in E. unfold pg_MarkSent in E.
  destruct (mark_sent_ok id (table v) Hv) as [Hok Hret].
  apply round_trip_spec in E as [[-> Ht]|[Hr [Ht|Ht]]]; rewrite Ht; [by split; [|left] | by split; [|right] | by split; [|left]].
Qed.

Lemma queue_rows_same t t' :
  t_work t' = t_work t -> t_sequence t' = t_sequence t -> queue_rows_ok t -> queue_rows_ok t'.
Proof. intros Hw Hs []. by split; rewrite ?Hw, ?Hs. Qed.

#[local] Program Instance PgReadModel_spec : ReadModelSpec PgReadModel.
Next Obligation.
  intros s v r v' E Hv. change (pg_UpsertPlaced s v = (r, v')) in E. unfold pg_UpsertPlaced in E.
  assert (t_work (snd (upsert_placed s (table v))) = t_work (table v) /\ t_sequence (snd (upsert_placed s (table v))) = t_sequence (table v)) as [Hw Hs]
    by (unfold upsert_placed; by case_decide).
  apply exec_spec in E as [[-> Ht]|[Hr [Ht|Ht]]]; simpl; rewrite Ht; (split; [|by rewrite ?Hw]); [by eapply queue_rows_same | done | by eapply queue_rows_same].
Qed.
Next Obligation.
  intros id status rank v r v' E Hv. change (pg_SetStatus id status rank v = (r, v')) in E. unfold pg_SetStatus in E.
  assert (t_work (snd (set_status id status rank (table v))) = t_work (table v) /\ t_sequence (snd (set_status id status rank (table v))) = t_sequence (table v)) as [Hw Hs]
    by (unfold set_status; by case_decide).
  apply exec_spec in E as [[-> Ht]|[Hr [Ht|Ht]]]; simpl; rewrite Ht; (split; [|by rewrite ?Hw]); [by eapply queue_rows_same | done | by eapply queue_rows_same].
Qed.
Next Obligation.
  intros order reason md v r v' E. change (pg_Enqueue order reason md v = (r, v')) in E. unfold pg_Enqueue in E.
  assert (t_summary (snd (enqueue_row order reason (enc_map md) (table v))) = t_summary (table v)) as Hs
    by (unfold enqueue_row; destruct (jsonb (enc_map md)); [|reflexivity]; destruct (decide _); [|reflexivity]; destruct (decide _); reflexivity).
  apply exec_spec in E as [[-> Ht]|[Hr [Ht|Ht]]]; simpl; rewrite Ht; [exact Hs | reflexivity | exact Hs].
Qed.
Next Obligation.
  intros id v r v' E Hv. change (pg_GetSummary id v = (r, v')) in E. unfold pg_GetSummary in E.
  destruct (round_trip _ _ v) as [r1 p1] eqn:Er. injection E as <- <-.
  assert (table p1 = table v) as Ht by (apply round_trip_spec in Er as [[_ ?]|[_ ?]]; simpl in *; tauto).
  change (queue_rows_ok (table p1) /\ worklist p1 = worklist v). change (worklist p1) with (row_work <$> t_work (table p1)).
  by rewrite Ht.
Qed.
Next Obligation.
  intros limit v r v' E. change (pg_Pending limit v = (r, v')) in E. unfold pg_Pending in E.
  destruct (exec _ _ v) as [r1 p1] eqn:Ex. injection E as <- <-.
  assert (forall t, snd (select_pending limit t) = t) as Hsame by (intros t; unfold select_pending; by case_decide).
  pose proof (exec_spec _ _ _ _ _ Ex) as Hx. rewrite Hsame in Hx. change (t_summary (table p1) = t_summary (table v)).
  by assert (table p1 = table v) as -> by tauto.
Qed.
Next Obligation.
  intros id v r v' E. change (pg_MarkSent id v = (r, v')) in E. unfold pg_MarkSent in E.
  change (t_summary (table v') = t_summary (table v)). apply round_trip_spec in E as [[_ ->]|[_ [->| ->]]]; done.
Qed.
End queue.
