(* ===== verification/OrderSummary.v ===== *)
(** * gohex-example/ordering/internal/app/projection.go: the order summary

    The projection's handlers over the read-model ports, registered as the code
    registers them, and what they add up to: rows and a worklist that depend on
    the facts alone. *)

From S2P Require Import Prelude Tail Errors Utf8 GoTime Json KernelId Kernel EventStore MemoryStore Registry Checkpoint Repository Broker Envelope Cqrs Consumer Relay Saga Inbox Projection Flat Contracts Services Order Ordering Fulfillment Postgres PgTables PgStore ReadModel.

Definition ForeignTopics : list string := [TopicBillingEvents; TopicInventoryEvents; TopicShippingEvents].

Definition ReasonShipped : string := "shipped".
Definition ReasonPaymentFailed : string := "payment_failed".

Section projection.
Context {V : Type} `{SummaryStore V} `{NotificationQueue V}.

Definition enqueue (orderID reason : string) (msg : Message) : V -> res unit * V := Enqueue orderID reason (msg_Metadata msg).

Definition summarize_placed (_ : Context) (e : OrderPlaced) (m : Meta) : V -> res unit * V :=
  UpsertPlaced (mkOrderSummary (value (placed_ID e)) (value (placed_Customer e)) (cents (placed_Total e))
    (currency (placed_Total e)) (Int (placed_Qty e)) "placed" (meta_OccurredAt m)).

Definition summarize_captured (_ : Context) (e : PaymentCapturedV1) (_ : Message) : V -> res unit * V :=
  SetStatus (pc_OrderID e) "paid" RankPaid.

(** Two writes: the status, then the worklist. *)
Definition status_then_enqueue (orderID status : string) (rank : Z) (reason : string) (msg : Message) (v : V) : res unit * V :=
  match SetStatus orderID status rank v with
  | (Ok _, v') => enqueue orderID reason msg v'
  | (r, v') => (r, v')
  end.

Definition summarize_failed (_ : Context) (e : PaymentFailedV1) (msg : Message) : V -> res unit * V :=
  status_then_enqueue (pf_OrderID e) "payment_failed" RankPaymentFailed ReasonPaymentFailed msg.
Definition summarize_reserved (_ : Context) (e : StockReservedV1) (_ : Message) : V -> res unit * V :=
  SetStatus (sr_OrderID e) "reserved" RankReserved.
Definition summarize_rejected (_ : Context) (e : StockRejectedV1) (_ : Message) : V -> res unit * V :=
  SetStatus (sj_OrderID e) "rejected" RankRejected.
Definition summarize_refunded (_ : Context) (e : PaymentRefundedV1) (_ : Message) : V -> res unit * V :=
  SetStatus (pr_OrderID e) "refunded" RankRefunded.
Definition summarize_dispatched (_ : Context) (e : ShipmentDispatchedV1) (msg : Message) : V -> res unit * V :=
  status_then_enqueue (sd_OrderID e) "shipped" RankShipped ReasonShipped msg.

Definition NewOrderSummaryProjection : res (Projection ordering_event V) :=
  try p := Projection.New "order_summary" in
  try p := On OrderPlaced_type summarize_placed p in
  try p := OnIntegration (mkPaymentCapturedV1 "" 0) summarize_captured p in
  try p := OnIntegration (mkPaymentFailedV1 "" "") summarize_failed p in
  try p := OnIntegration (mkStockReservedV1 "" 0) summarize_reserved p in
  try p := OnIntegration (mkStockRejectedV1 "" "") summarize_rejected p in
  try p := OnIntegration (mkPaymentRefundedV1 "") summarize_refunded p in
  OnIntegration (mkShipmentDispatchedV1 "") summarize_dispatched p.

Definition order_summary : Projection ordering_event V :=
  match NewOrderSummaryProjection with Ok p => p | _ => mkProjection "" ∅ ∅ end.

Lemma NewOrderSummaryProjection_ok : NewOrderSummaryProjection = Ok order_summary.
Proof. reflexivity. Qed.

(** ** Facts and what they write *)

(** What the runners hand the projection: a record of the own store, with the
    event it decodes to, or an inbox message, with the contract it carries. *)
Inductive fact :=
  | F_own (rec : RecordedEvent) (e : ordering_event)
  | F_foreign (m : InboxMessage) (c : contract).

Definition updates_of (f : fact) : list update :=
  match f with
  | F_own rec (other (E_OrderPlaced e)) =>
    [Placed (mkOrderSummary (value (placed_ID e)) (value (placed_Customer e)) (cents (placed_Total e))
       (currency (placed_Total e)) (Int (placed_Qty e)) "placed" (OccurredAt rec))]
  | F_own _ _ => []
  | F_foreign _ c =>
    match c with
    | C_PaymentCaptured e => [Raised (pc_OrderID e) "paid" RankPaid]
    | C_PaymentFailed e => [Raised (pf_OrderID e) "payment_failed" RankPaymentFailed]
    | C_StockReserved e => [Raised (sr_OrderID e) "reserved" RankReserved]
    | C_StockRejected e => [Raised (sj_OrderID e) "rejected" RankRejected]
    | C_PaymentRefunded e => [Raised (pr_OrderID e) "refunded" RankRefunded]
    | C_ShipmentDispatched e => [Raised (sd_OrderID e) "shipped" RankShipped]
    | C_OrderPlaced _ => []
    end
  end.

(** The milestone it queues for the customer. *)
Definition notice_of (f : fact) : option (string * string) :=
  match f with
  | F_foreign _ (C_PaymentFailed e) => Some (pf_OrderID e, ReasonPaymentFailed)
  | F_foreign _ (C_ShipmentDispatched e) => Some (sd_OrderID e, ReasonShipped)
  | _ => None
  end.

Definition fact_ok (reg : Registry ordering_event) (f : fact) : Prop :=
  match f with
  | F_own rec e => Decode rec reg = Ok e /\ rec_EventName rec = EventName e /\ (forall name, e <> other (E_foreign name))
  | F_foreign m c => envelope_of (ibx_Message m) c /\ contract_valid c
  end.

(** One call of the runner's loop body. *)
Definition handle_fact (reg : Registry ordering_event) (c : Config V) (ctx : Context) (f : fact) (v : V) : res unit * V :=
  match f with
  | F_own rec _ => CatchUp_handle order_summary reg c ctx rec v
  | F_foreign m _ => InboxReader_handle order_summary c ctx m v
  end.

Fixpoint handle_facts (reg : Registry ordering_event) (c : Config V) (ctx : Context) (fs : list fact) (v : V)
    : list (res unit) * V :=
  match fs with
  | [] => ([], v)
  | f :: rest =>
    let '(r, v1) := handle_fact reg c ctx f v in
    let '(rs, v2) := handle_facts reg c ctx rest v1 in (r :: rs, v2)
  end.

(** Every fact was handled without error at least once. *)
Definition all_handled (fs : list fact) (rs : list (res unit)) : Prop :=
  forall f, f ∈ fs -> exists i, fs !! i = Some f /\ rs !! i = Some (Ok tt).

(** A fact's writes, when its handler runs. *)
Definition write_fact (f : fact) : V -> res unit * V :=
  match f with
  | F_own rec (other (E_OrderPlaced e)) =>
    summarize_placed background e (mkMeta (Stream rec) (rec_Version rec) (GlobalSeq rec) (OccurredAt rec) (rec_Metadata rec))
  | F_own _ _ => fun v => (Ok tt, v)
  | F_foreign m c =>
    let msg := ibx_Message m in
    match c with
    | C_PaymentCaptured e => summarize_captured background e msg
    | C_PaymentFailed e => summarize_failed background e msg
    | C_StockReserved e => summarize_reserved background e msg
    | C_StockRejected e => summarize_rejected background e msg
    | C_PaymentRefunded e => summarize_refunded background e msg
    | C_ShipmentDispatched e => summarize_dispatched background e msg
    | C_OrderPlaced _ => fun v => (Ok tt, v)
    end
  end.

(** The registered form of an integration handler: decode, then run. *)
Definition decoding {C} `{JsonCodec C} (key : string) (fn : Context -> C -> Message -> V -> res unit * V)
    (ctx : Context) (msg : Message) (v : V) : res unit * V :=
  match res_wrap ("projection order_summary: decoding " +:+ key +:+ " (message " +:+ msg_ID msg +:+ "): ") ""
          (Unmarshal_raw (T := C) (msg_Payload msg)) with
  | Ok e => fn ctx e msg v
  | Err e => (Err e, v)
  | Panic m => (Panic m, v)
  end.

Lemma decoding_decodes {C} `{JsonCodec C} (valid : C -> Prop) `{!JsonRoundtrip C valid}
    key (fn : Context -> C -> Message -> V -> res unit * V) ctx msg (e : C) doc v :
  valid e -> Marshal e = Ok doc -> msg_Payload msg = RawJSON doc -> decoding key fn ctx msg v = fn ctx e msg v.
Proof.
  intros Hv Hm Hp. destruct (json_roundtrip e Hv) as (doc' & Hm' & Hu). rewrite Hm in Hm'. injection Hm' as <-.
  unfold decoding. rewrite Hp. unfold Unmarshal_raw. by rewrite Hu.
Qed.

(** A foreign message runs its contract's handler. *)
Lemma foreign_runs {C} `{JsonCodec C} (valid : C -> Prop) `{!JsonRoundtrip C valid}
    key (fn : Context -> C -> Message -> V -> res unit * V) i b ctx m (e : C) doc v :
  foreignHandlers order_summary !! integrationKey (msg_Type (ibx_Message m)) (msg_Version (ibx_Message m)) = Some (decoding key fn) ->
  valid e -> Marshal e = Ok doc -> msg_Payload (ibx_Message m) = RawJSON doc ->
  exists before, InboxReader_handle order_summary (mkConfig i b None) ctx m v
    = let '(r, v') := fn ctx e (ibx_Message m) v in (res_wrap before "" r, v').
Proof.
  intros Hl Hv Hm Hp. eexists. unfold InboxReader_handle. rewrite Hl. unfold observe. cbn [Observe].
  rewrite (decoding_decodes valid key fn ctx _ e doc v Hv Hm Hp). reflexivity.
Qed.

(** The runners run the fact's writes and wrap their error. *)
Lemma handle_writes reg i b ctx f v :
  fact_ok reg f ->
  exists before, handle_fact reg (mkConfig i b None) ctx f v
    = let '(r, v') := write_fact f v in (res_wrap before "" r, v').
Proof.
  destruct f as [rec e|m c]; cbn [fact_ok handle_fact].
  - intros (Hdec & Hname & Hown). unfold CatchUp_handle. rewrite Hname.
    destruct e as [ev|cr| |[e|e|name]]; try (exists ""; reflexivity); [|by destruct (Hown name)]. eexists.
    assert (domainHandlers order_summary !! EventName (other (E_OrderPlaced e) : ordering_event)
      = Some (fun ctx x m v => match type_assert OrderPlaced_type x with
                               | Some y => summarize_placed ctx y m v
                               | None => (Panic "interface conversion", v)
                               end)) as -> by reflexivity.
    rewrite Hdec. cbn [res_wrap]. unfold observe. cbn [Observe type_assert OrderPlaced_type]. reflexivity.
  - intros [[Ht Hver (doc & Hm & Hp) _] Hv]. destruct c as [e|e|e|e|e|e|e].
    + exists "". unfold InboxReader_handle. rewrite Ht, Hver. reflexivity.
    + apply (foreign_runs (C := PaymentCapturedV1) _ "billing.payment_captured@v1" summarize_captured i b ctx m e doc v);
        [rewrite Ht, Hver; reflexivity | exact Hv | exact Hm | exact Hp].
    + apply (foreign_runs (C := PaymentFailedV1) _ "billing.payment_failed@v1" summarize_failed i b ctx m e doc v);
        [rewrite Ht, Hver; reflexivity | exact Hv | exact Hm | exact Hp].
    + apply (foreign_runs (C := PaymentRefundedV1) _ "billing.payment_refunded@v1" summarize_refunded i b ctx m e doc v);
        [rewrite Ht, Hver; reflexivity | exact Hv | exact Hm | exact Hp].
    + apply (foreign_runs (C := StockReservedV1) _ "inventory.stock_reserved@v1" summarize_reserved i b ctx m e doc v);
        [rewrite Ht, Hver; reflexivity | exact Hv | exact Hm | exact Hp].
    + apply (foreign_runs (C := StockRejectedV1) _ "inventory.stock_rejected@v1" summarize_rejected i b ctx m e doc v);
        [rewrite Ht, Hver; reflexivity | exact Hv | exact Hm | exact Hp].
    + apply (foreign_runs (C := ShipmentDispatchedV1) _ "shipping.shipment_dispatched@v1" summarize_dispatched i b ctx m e doc v);
        [rewrite Ht, Hver; reflexivity | exact Hv | exact Hm | exact Hp].
Qed.
End projection.
#[global] Arguments order_summary : simpl never.

(** ** Their effect *)

Section effect.
Context {V : Type} `{ReadModelSpec V}.
Implicit Types (v : V) (f : fact).

(** The read model moved by a fact, or by a part of it when the call failed. *)
Definition moved f (ok : bool) v v' : Prop :=
  queue_inv v'
  /\ (summaries v' = foldl apply_update (summaries v) (updates_of f) \/ (ok = false /\ summaries v' = summaries v))
  /\ match notice_of f with
     | None => worklist v' = worklist v
     | Some (o, re) => enqueued o re (worklist v) (worklist v') \/ (ok = false /\ worklist v' = worklist v)
     end.

Lemma set_status_moves id status rank v r v' :
  queue_inv v -> 0 < rank -> SetStatus id status rank v = (r, v') ->
  queue_inv v' /\ worklist v' = worklist v
  /\ (summaries v' = apply_update (summaries v) (Raised id status rank) \/ (is_ok r = false /\ summaries v' = summaries v)).
Proof.
  intros Hv Hpos E. destruct (SetStatus_frame _ _ _ _ _ _ E Hv) as [Hq Hw]. split; [done|]. split; [done|].
  exact (SetStatus_spec _ _ _ _ _ _ E Hpos).
Qed.

Lemma status_then_enqueue_moves id status rank reason msg v r v' :
  queue_inv v -> 0 < rank -> status_then_enqueue id status rank reason msg v = (r, v') ->
  queue_inv v'
  /\ (summaries v' = apply_update (summaries v) (Raised id status rank) \/ (is_ok r = false /\ summaries v' = summaries v))
  /\ (enqueued id reason (worklist v) (worklist v') \/ (is_ok r = false /\ worklist v' = worklist v)).
Proof.
  intros Hv Hpos. unfold status_then_enqueue. destruct (SetStatus id status rank v) as [r1 v1] eqn:E.
  destruct (set_status_moves _ _ _ _ _ _ Hv Hpos E) as (Hq & Hw & Hs). destruct r1 as [[]|e|m].
  - intros E2. pose proof (Enqueue_frame _ _ _ _ _ _ E2) as Hfr.
    destruct (Enqueue_spec _ _ _ _ _ _ Hq E2) as [Hq2 Henq]. rewrite Hw in Henq.
    split; [done|]. split; [|done]. rewrite Hfr. destruct Hs as [Hs|[Hno _]]; [by left | discriminate].
  - intros [= <- <-]. split; [done|]. split; [done | by right].
  - intros [= <- <-]. split; [done|]. split; [done | by right].
Qed.

Lemma write_fact_moves f v r v' : queue_inv v -> write_fact f v = (r, v') -> moved f (is_ok r) v v'.
Proof.
  intros Hv. assert (forall g, notice_of g = None -> updates_of g = [] -> (Ok tt, v) = (r, v') -> moved g (is_ok r) v v') as Hnone.
  { intros g Hn Hu [= <- <-]. unfold moved. rewrite Hn, Hu. split; [done|]. split; [by left | done]. }
  destruct f as [rec [ev|cr| |[e|e|name]]|m c]; cbn [write_fact]; try (by apply Hnone).
  - unfold summarize_placed. intros E. destruct (UpsertPlaced_frame _ _ _ _ E Hv) as [Hq Hw].
    split; [done|]. split; [exact (UpsertPlaced_spec _ _ _ _ E) | done].
  - assert (forall id status rank g, notice_of g = None -> updates_of g = [Raised id status rank] -> 0 < rank ->
      SetStatus id status rank v = (r, v') -> moved g (is_ok r) v v') as Hset.
    { intros id status rank g Hn Hu Hpos E. destruct (set_status_moves _ _ _ _ _ _ Hv Hpos E) as (Hq & Hw & Hs).
      unfold moved. rewrite Hn, Hu. by split_and!. }
    destruct c as [e|e|e|e|e|e|e]; intros E; [by apply Hnone | by eapply Hset; [..|exact E] | |
      by eapply Hset; [..|exact E] | by eapply Hset; [..|exact E] | by eapply Hset; [..|exact E] |].
    + assert (0 < RankPaymentFailed) as Hpos by done. exact (status_then_enqueue_moves _ _ _ _ _ _ _ _ Hv Hpos E).
    + assert (0 < RankShipped) as Hpos by done. exact (status_then_enqueue_moves _ _ _ _ _ _ _ _ Hv Hpos E).
Qed.

Lemma handle_fact_moves reg i b ctx f v r v' :
  fact_ok reg f -> queue_inv v -> handle_fact reg (mkConfig i b None) ctx f v = (r, v') -> moved f (is_ok r) v v'.
Proof.
  intros Hf Hv. destruct (handle_writes reg i b ctx f v Hf) as [before ->].
  destruct (write_fact f v) as [r1 v1] eqn:E. intros [= <- <-].
  pose proof (write_fact_moves f v r1 v1 Hv E) as Hm. by destruct r1.
Qed.

Definition keys v : list (string * string) := wk_key <$> worklist v.

Lemma enqueued_keys o re ws ws' k :
  enqueued o re ws ws' -> (k ∈ wk_key <$> ws' <-> k ∈ wk_key <$> ws \/ k = (o, re)).
Proof.
  unfold enqueued. case_decide as Hin; [intros ->; naive_solver|]. intros (id & md & ->).
  rewrite fmap_app, elem_of_app. simpl. by rewrite list_elem_of_singleton.
Qed.

Lemma moved_keys f (ok : bool) v v' k :
  moved f ok v v' ->
  (k ∈ keys v' -> k ∈ keys v \/ notice_of f = Some k) /\ (k ∈ keys v -> k ∈ keys v')
  /\ (ok = true -> notice_of f = Some k -> k ∈ keys v').
Proof.
  intros (_ & _ & Hw). unfold keys. destruct (notice_of f) as [[o re]|].
  - destruct Hw as [Henq|[-> ->]]; [|naive_solver]. rewrite (enqueued_keys _ _ _ _ k Henq). naive_solver.
  - rewrite Hw. naive_solver.
Qed.

(** What a run of calls adds up to. *)
Record run_moved (fs : list fact) (rs : list (res unit)) v v' (eff : list update) : Prop := {
  rm_queue : queue_inv v';
  rm_length : length rs = length fs;
  rm_summaries : summaries v' = foldl apply_update (summaries v) eff;
  rm_from u : u ∈ eff -> exists f, f ∈ fs /\ u ∈ updates_of f;
  rm_done i f u : fs !! i = Some f -> rs !! i = Some (Ok tt) -> u ∈ updates_of f -> u ∈ eff;
  rm_keys k : k ∈ keys v' -> k ∈ keys v \/ exists f, f ∈ fs /\ notice_of f = Some k;
  rm_kept k : k ∈ keys v -> k ∈ keys v';
  rm_queued i f k : fs !! i = Some f -> rs !! i = Some (Ok tt) -> notice_of f = Some k -> k ∈ keys v';
}.

Lemma handle_facts_moves reg i b ctx fs : forall v rs v',
  Forall (fact_ok reg) fs -> queue_inv v -> handle_facts reg (mkConfig i b None) ctx fs v = (rs, v') ->
  exists eff, run_moved fs rs v v' eff.
Proof.
  induction fs as [|f fs IH]; intros v rs v' Hfs Hv; cbn [handle_facts].
  { intros [= <- <-]. exists []. split; try done; try (intros n g k; rewrite lookup_nil; discriminate);
      [intros u Hu; by apply elem_of_nil in Hu | intros k; by left]. }
  apply Forall_cons in Hfs as [Hf Hfs]. destruct (handle_fact _ _ _ f v) as [r v1] eqn:E.
  destruct (handle_facts _ _ _ fs v1) as [rs1 v2] eqn:E2. intros [= <- <-].
  pose proof (handle_fact_moves reg i b ctx f v r v1 Hf Hv E) as Hm. pose proof Hm as (Hq1 & Hs1 & _).
  destruct (IH v1 rs1 v2 Hfs Hq1 E2) as [eff [Hq Hlen Hs Hfrom Hdone Hkeys Hkept Hqd]].
  assert (exists pre, summaries v1 = foldl apply_update (summaries v) pre
    /\ (forall u, u ∈ pre -> u ∈ updates_of f) /\ (is_ok r = true -> pre = updates_of f)) as (pre & Hpre & Hin & Hok).
  { destruct Hs1 as [Hs1|[Hno Hs1]]; [by exists (updates_of f)|]. exists []. split_and!; [done | | congruence].
    intros u Hu. by apply elem_of_nil in Hu. }
  exists (pre ++ eff). split; try done.
  - simpl. by rewrite Hlen.
  - by rewrite foldl_app, <-Hpre.
  - intros u [Hu%Hin|(g & Hg & Hu)%Hfrom]%elem_of_app; [exists f; split; [by left | done] | exists g; split; [by right | done]].
  - intros [|n] g u; simpl; [intros [= ->] [= ->] Hu; apply elem_of_app; left; by rewrite (Hok eq_refl)|].
    intros Hg Hr Hu. apply elem_of_app. right. by eapply Hdone.
  - intros k [Hk|(g & Hg & Hn)]%Hkeys; [|right; exists g; split; [by right | done]].
    destruct (moved_keys f (is_ok r) v v1 k Hm) as (Hnew & _).
    apply Hnew in Hk as [?|Hn]; [by left | right; exists f; split; [by left | done]].
  - intros k Hk. apply Hkept. destruct (moved_keys f (is_ok r) v v1 k Hm) as (_ & Hold & _). by apply Hold.
  - intros [|n] g k; simpl; [intros [= <-] [= ->] Hn | by apply Hqd].
    apply Hkept. destruct (moved_keys f true v v1 k Hm) as (_ & _ & Hnew). by apply Hnew.
Qed.

(** The effective updates of a complete run are those of its facts. *)
Lemma run_complete fs rs v v' eff :
  run_moved fs rs v v' eff -> all_handled fs rs ->
  (forall u, u ∈ eff <-> exists f, f ∈ fs /\ u ∈ updates_of f)
  /\ (forall k, keys v = [] -> k ∈ keys v' <-> exists f, f ∈ fs /\ notice_of f = Some k).
Proof.
  intros [Hq Hlen Hs Hfrom Hdone Hkeys Hkept Hqd] Hall. split.
  - intros u. split; [by apply Hfrom|]. intros (f & Hf & Hu). destruct (Hall f Hf) as (i & Hi & Hr). by eapply Hdone.
  - intros k Hnil. split.
    + intros [Hk|Hk]%Hkeys; [rewrite Hnil in Hk; by apply elem_of_nil in Hk | done].
    + intros (f & Hf & Hn). destruct (Hall f Hf) as (i & Hi & Hr). by eapply Hqd.
Qed.
End effect.

(** The updates of all the facts. *)
Definition all_updates (fs : list fact) : list update := concat (updates_of <$> fs).

Lemma elem_of_all_updates fs u : u ∈ all_updates fs <-> exists f, f ∈ fs /\ u ∈ updates_of f.
Proof.
  unfold all_updates. induction fs as [|f fs IH]; simpl; [|rewrite elem_of_app, IH].
  - split; [intros Hu; by apply elem_of_nil in Hu | intros (f & Hf & _); by apply elem_of_nil in Hf].
  - setoid_rewrite elem_of_cons. naive_solver.
Qed.

(** C17: the order summary depends on the facts alone. Two runs that were handed
    the same facts, each in any order and with any redeliveries, on a database
    whose writes may fail, and that handled each at least once without error,
    end with the same rows and the same customer milestones queued. A row
    carries the columns of its order's placement and the highest-ranked status
    among its facts; a milestone is queued once. *)
Theorem order_summary_converges {V} `{ReadModelSpec V} (reg : Registry ordering_event) i b ctx ctx'
    fs fs' (v0 v0' v v' : V) rs rs' :
  Forall (fact_ok reg) fs -> (forall f, f ∈ fs <-> f ∈ fs') -> consistent (all_updates fs) ->
  queue_inv v0 -> queue_inv v0' -> summaries v0 = ∅ -> summaries v0' = ∅ -> worklist v0 = [] -> worklist v0' = [] ->
  handle_facts reg (mkConfig i b None) ctx fs v0 = (rs, v) -> all_handled fs rs ->
  handle_facts reg (mkConfig i b None) ctx' fs' v0' = (rs', v') -> all_handled fs' rs' ->
  summaries v = summaries v' /\ (forall k, k ∈ wk_key <$> worklist v <-> k ∈ wk_key <$> worklist v')
  /\ (forall id, row_is (all_updates fs) id (summaries v !! id))
  /\ NoDup (wk_key <$> worklist v)
  /\ (forall k, k ∈ wk_key <$> worklist v <-> exists f, f ∈ fs /\ notice_of f = Some k).
Proof.
  intros Hfs Hset Hc Hq0 Hq0' Hs0 Hs0' Hw0 Hw0' Hrun Hall Hrun' Hall'.
  assert (Forall (fact_ok reg) fs') as Hfs' by (rewrite Forall_forall in *; intros f Hf; by apply Hfs, Hset).
  destruct (handle_facts_moves reg i b ctx fs v0 rs v Hfs Hq0 Hrun) as [eff Hm].
  destruct (handle_facts_moves reg i b ctx' fs' v0' rs' v' Hfs' Hq0' Hrun') as [eff' Hm'].
  destruct (run_complete fs rs v0 v eff Hm Hall) as [Heff Hkeys], (run_complete fs' rs' v0' v' eff' Hm' Hall') as [Heff' Hkeys'].
  assert (forall u, u ∈ eff <-> u ∈ all_updates fs) as Heq by (intros u; by rewrite Heff, elem_of_all_updates).
  assert (consistent eff) as Hce by (intros u1 u2 Hu1 Hu2; apply Hc; by apply Heq).
  assert (summaries v = applied eff) as Hv by (rewrite (rm_summaries _ _ _ _ _ Hm), Hs0; done).
  assert (summaries v' = applied eff') as Hv' by (rewrite (rm_summaries _ _ _ _ _ Hm'), Hs0'; done).
  assert (applied eff = applied (all_updates fs)) as Happ by (apply applied_set; done).
  split_and!.
  - rewrite Hv, Hv'. apply applied_set; [done|]. intros u. rewrite Heff, Heff'. by setoid_rewrite Hset.
  - intros k. unfold keys in *. rewrite Hkeys, Hkeys' by (by rewrite ?Hw0, ?Hw0'). by setoid_rewrite Hset.
  - intros id. rewrite Hv, Happ. apply applied_rows. rewrite Forall_forall. intros u Hu. by destruct (Hc u u Hu Hu eq_refl).
  - apply (queue_ok v), Hm.
  - intros k. unfold keys in *. apply Hkeys. by rewrite Hw0.
Qed.

(** C40: an accepted order can stop its projection. The domain takes any
    positive quantity, the read model's column 32 bits of it: for a larger one
    every attempt to handle the placement fails and changes nothing, whatever
    the database. *)
Theorem oversized_order_never_summarized (jsonb : json -> option json) reg i b ctx rec e (p : PgReadModel) :
  let Q := PgReadModel_queue jsonb in
  fact_ok reg (F_own rec (other (E_OrderPlaced e))) -> 2 ^ 31 <= Int (placed_Qty e) ->
  NewQuantity (Int (placed_Qty e)) = Ok (placed_Qty e)
  /\ let '(r, p') := handle_fact reg (mkConfig i b None) ctx (F_own rec (other (E_OrderPlaced e))) p in
     is_ok r = false /\ table p' = table p.
Proof.
  intros Q Hf Hq. split; [apply NewQuantity_ok; split; [lia | by destruct (placed_Qty e)]|].
  destruct (handle_writes reg i b ctx _ p Hf) as [before ->]. cbn [write_fact].
  destruct (summarize_placed _ _ _ p) as [r p'] eqn:E.
  unfold summarize_placed in E. change (UpsertPlaced ?s p) with (pg_UpsertPlaced s p) in E. unfold pg_UpsertPlaced in E.
  assert (forall t, upsert_placed (mkOrderSummary (value (placed_ID e)) (value (placed_Customer e)) (cents (placed_Total e))
    (currency (placed_Total e)) (Int (placed_Qty e)) "placed" (OccurredAt rec)) t = (Err int4_range, t)) as Hup.
  { intros t. unfold upsert_placed. cbn [os_Qty]. rewrite decide_False; [done|]. unfold in_int32. lia. }
  apply exec_spec in E as [[-> Ht]|[Hr Ht]]; rewrite Hup in *; [by rewrite Ht | split; [by destruct r | by destruct Ht]].
Qed.

(** ** A run *)

Module Sample.
Import Consumer.Sample Fulfillment.Sample.

Definition keep (doc : json) : option json := Some doc.
Lemma keep_members : keeps_members keep.
Proof. intros ms doc _ [= <-]. by exists ms. Qed.
Lemma keep_null doc : keep JNull = Some doc -> doc = JNull.
Proof. by intros [= <-]. Qed.
Definition queue : NotificationQueue PgReadModel := PgReadModel_queue keep.
Definition queue_spec : @QueueSpec PgReadModel queue := PgReadModel_queue_spec keep keep_members keep_null.
Definition read_model : @ReadModelSpec PgReadModel _ _ queue queue_spec := PgReadModel_spec keep keep_members keep_null.

Definition order_id : string := Ordering.Sample.text.
Definition record : RecordedEvent :=
  default (mkRecordedEvent 0 (mkStreamID "" "") 0 "" 0 RawNil None zero_time) (head (all Ordering.Sample.placed)).
Definition event : OrderPlaced := mkOrderPlaced (mkID order_id) (mkID order_id) (mkMoney 500 "THB") (mkQuantity 2).
Definition own : fact := F_own record (other (E_OrderPlaced event)).
Definition captured : contract := C_PaymentCaptured (mkPaymentCapturedV1 order_id 500).
Definition shipped : contract := C_ShipmentDispatched (mkShipmentDispatchedV1 order_id).
Definition foreign (n : Z) (id : string) (c : contract) : fact := F_foreign (mkInboxMessage n (envelope id c)) c.

(** The dispatch first, its redelivery failing on the way; and in order. *)
Definition jumbled : list fact := [foreign 2 "m-2" shipped; own; foreign 2 "m-2" shipped; foreign 1 "m-1" captured].
Definition ordered : list fact := [own; foreign 1 "m-1" captured; foreign 2 "m-2" shipped].
Definition empty (fs : list fate) : PgReadModel := mkPg (mkTables ∅ [] 0) fs.
Definition run (fs : list fact) (p : PgReadModel) : list (res unit) * PgReadModel :=
  @handle_facts PgReadModel _ queue Ordering.Sample.registry (mkConfig 0 0 None) background fs p.
Definition flaky : list fate := [Answered; Answered; Answered; Lost (EText "connection reset")].
End Sample.
Import Sample.

Lemma sample_facts : Forall (fact_ok Ordering.Sample.registry) jumbled.
Proof.
  assert (fact_ok Ordering.Sample.registry own) as Hown.
  { split; [vm_compute; reflexivity|]. split; [reflexivity | discriminate]. }
  assert (fact_ok Ordering.Sample.registry (foreign 2 "m-2" shipped)) as Hs.
  { split; [eapply Fulfillment.Sample.envelope_ok; [reflexivity | by vm_compute | by vm_compute | vm_compute; split; discriminate] | by vm_compute]. }
  assert (fact_ok Ordering.Sample.registry (foreign 1 "m-1" captured)) as Hc.
  { split; [eapply Fulfillment.Sample.envelope_ok; [reflexivity | by vm_compute | by vm_compute | vm_compute; split; discriminate]|].
    split; [by vm_compute | vm_compute; split; discriminate]. }
  repeat (apply Forall_cons; split; [assumption|]). constructor.
Qed.

Lemma sample_consistent : consistent (all_updates jumbled).
Proof.
  assert (forall u, u ∈ all_updates jumbled ->
    u = Raised order_id "shipped" 4 \/ u = Raised order_id "paid" 2
    \/ u = Placed (mkOrderSummary order_id order_id 500 "THB" 2 "placed" (OccurredAt record))) as Hin.
  { intros u Hu. cbn in Hu. repeat (apply elem_of_cons in Hu as [->|Hu]; [auto|]). by apply elem_of_nil in Hu. }
  intros u1 u2 [->|[->| ->]]%Hin [->|[->| ->]]%Hin _; (split_and!; [done | try done | intros b1 b2; cbn; congruence]).
Qed.

Lemma order_summary_converges_witness :
  summaries (snd (run jumbled (empty flaky))) = summaries (snd (run ordered (empty [])))
  /\ (sr_status <$> summaries (snd (run jumbled (empty flaky))) !! order_id) = Some "shipped"
  /\ wk_key <$> worklist (QueueSpec := queue_spec) (snd (run jumbled (empty flaky))) = [(order_id, "shipped")].
Proof.
  assert (forall fs, queue_rows_ok (table (empty fs))) as Hq.
  { intros fs. split; [repeat constructor | constructor | done | constructor | constructor]. }
  split; [|split; reflexivity].
  refine (proj1 (order_summary_converges (H3 := read_model) Ordering.Sample.registry 0 0 background background
    jumbled ordered (empty flaky) (empty []) _ _ _ _ sample_facts _ sample_consistent (Hq flaky) (Hq []) eq_refl eq_refl eq_refl eq_refl
    (surjective_pairing (run jumbled (empty flaky))) _ (surjective_pairing (run ordered (empty []))) _)).
  - intros f. unfold jumbled, ordered. rewrite !elem_of_cons. naive_solver.
  - intros f Hf. repeat (apply elem_of_cons in Hf as [->|Hf]); [exists 0%nat | exists 1%nat | exists 0%nat | exists 3%nat | by apply elem_of_nil in Hf];
      split; reflexivity.
  - intros f Hf. repeat (apply elem_of_cons in Hf as [->|Hf]); [exists 0%nat | exists 1%nat | exists 2%nat | by apply elem_of_nil in Hf];
      split; reflexivity.
Defined.

Lemma oversized_order_never_summarized_witness :
  let Q := PgReadModel_queue keep in
  let e := mkOrderPlaced (mkID order_id) (mkID order_id) (mkMoney 500 "THB") (mkQuantity (2 ^ 31)) in
  let rec := mkRecordedEvent 1 (mkStreamID "order" order_id) 1 "ordering.order_placed" 1
    (match enc_placed e with Ok doc => RawJSON doc | _ => RawNil end) None zero_time in
  let '(r, p') := handle_fact Ordering.Sample.registry (mkConfig 0 0 None) background (F_own rec (other (E_OrderPlaced e))) (empty []) in
  is_ok r = false /\ table p' = table (empty []).
Proof.
  intros Q e rec. assert (fact_ok Ordering.Sample.registry (F_own rec (other (E_OrderPlaced e)))) as Hf.
  { split; [vm_compute; reflexivity|]. split; [reflexivity | discriminate]. }
  assert (2 ^ 31 <= Int (placed_Qty e)) as Hq by apply Z.le_refl.
  exact (proj2 (oversized_order_never_summarized keep Ordering.Sample.registry 0 0 background rec e (empty []) Hf Hq)).
Defined.
