(* ===== verification/Views.v ===== *)
(** * What the ordering service shows of the system

    The order summary among the four services of System.v: its two runners
    hand the projection records of the service's own log and messages of the
    foreign topics, in any order and any number of times, on a database that
    may fail, while everything else goes on. What [GET /orders/{id}] answers
    and what the notifier finds to do is true of the services' logs, and the
    outcome of an order, once applied, stays. *)

From S2P Require Import Prelude Tail Errors Utf8 GoTime Json KernelId Kernel EventStore MemoryStore Registry Checkpoint Repository Broker Envelope Cqrs Consumer Relay Saga Inbox Projection Flat Contracts Services Postgres PgTables PgStore ReadModel Order Ordering Fulfillment OrderSummary Wiring Causality System Choreography Billing Inventory Shipping.

(** ** Items of the runners *)

(** A record for [CatchUp], a stored message for [InboxReader]. *)
Inductive item :=
  | own_item (rec : RecordedEvent)
  | foreign_item (m : InboxMessage).

(** The status and the order a contract speaks of. *)
Definition announces (c : contract) : string * string :=
  match c with
  | C_OrderPlaced e => (op_OrderID e, "placed")
  | C_PaymentCaptured e => (pc_OrderID e, "paid")
  | C_PaymentFailed e => (pf_OrderID e, "payment_failed")
  | C_PaymentRefunded e => (pr_OrderID e, "refunded")
  | C_StockReserved e => (sr_OrderID e, "reserved")
  | C_StockRejected e => (sj_OrderID e, "rejected")
  | C_ShipmentDispatched e => (sd_OrderID e, "shipped")
  end.

Definition status_rank (c : contract) : Z :=
  match c with
  | C_OrderPlaced _ => RankPlaced
  | C_PaymentCaptured _ => RankPaid
  | C_PaymentFailed _ => RankPaymentFailed
  | C_PaymentRefunded _ => RankRefunded
  | C_StockReserved _ => RankReserved
  | C_StockRejected _ => RankRejected
  | C_ShipmentDispatched _ => RankShipped
  end.

(** The facts nothing follows. *)
Definition is_outcome (c : contract) : bool :=
  match c with C_PaymentFailed _ | C_PaymentRefunded _ | C_ShipmentDispatched _ => true | _ => false end.

Lemma ordering_registry u os : ordering_run u = Ok os -> repo_registry (orders (os_handlers os)) = os_registry os.
Proof. by intros (reg & Hreg & (r0 & Hr0 & (r & Hr & (def & Hdef & [= <-])%res_bind_ok)%res_bind_ok)%res_bind_ok)%res_bind_ok. Qed.

(** What round-trips is marshalled injectively. *)
Lemma roundtrip_inj {T} `{JsonCodec T} (valid : T -> Prop) `{!JsonRoundtrip T valid} (a b : T) doc :
  valid a -> valid b -> Marshal a = Ok doc -> Marshal b = Ok doc -> a = b.
Proof.
  intros Ha Hb Hma Hmb. destruct (json_roundtrip a Ha) as (d & Hd & Hua), (json_roundtrip b Hb) as (d' & Hd' & Hub).
  rewrite Hma in Hd. rewrite Hmb in Hd'. injection Hd as <-. injection Hd' as <-. rewrite Hua in Hub. by injection Hub.
Qed.

(** A message carries one contract. *)
Lemma envelope_inj msg c c' :
  envelope_of msg c -> envelope_of msg c' -> contract_valid c -> contract_valid c' -> c = c'.
Proof.
  intros [Ht _ (doc & Hm & Hp) _] [Ht' _ (doc' & Hm' & Hp') _] Hv Hv'. rewrite Hp in Hp'. injection Hp' as <-.
  rewrite Ht in Ht'. destruct c as [e|e|e|e|e|e|e], c' as [e'|e'|e'|e'|e'|e'|e']; try discriminate Ht'; f_equal;
    apply (roundtrip_inj _ e e' doc); first [exact Hv | exact Hv' | exact Hm | exact Hm'].
Qed.

(** What the placement of an order writes of it. *)
Definition placed_summary (rec : RecordedEvent) (p : OrderPlaced) : OrderSummary :=
  mkOrderSummary (value (placed_ID p)) (value (placed_Customer p)) (cents (placed_Total p)) (currency (placed_Total p))
    (Order.Int (placed_Qty p)) "placed" (OccurredAt rec).

Section views.
Context {W : Type} `{StoreSpec W} `{Clock (W * heap)} {V : Type} `{ReadModelSpec V}.
Variable u : N -> N.
Variables (os : OrderingService) (bs : CommandService payment_event Billing.Handlers)
  (ns : CommandService stock_event Inventory.Handlers) (ss : CommandService shipment_event Shipping.Handlers).
Variable x : Extractor.
(** The runners' intervals and batch sizes. *)
Variables interval batch : Z.
Implicit Types (s : system W) (v : V) (it : item) (L : ledger) (c : contract).

Definition handle_item (ctx : Context) it v : res unit * V :=
  match it with
  | own_item rec => CatchUp_handle order_summary (os_registry os) (mkConfig interval batch None) ctx rec v
  | foreign_item m => InboxReader_handle order_summary (mkConfig interval batch None) ctx m v
  end.

(** In the service's store, or published on a topic it writes to its inbox. *)
Definition available s it : Prop :=
  match it with
  | own_item rec => rec ∈ log_of (store (sys_ordering s))
  | foreign_item m => exists topic, topic ∈ ForeignTopics /\ (topic, ibx_Message m) ∈ channel s
  end.

Inductive view_step : system W * V -> system W * V -> Prop :=
  | system_moves s s' v : system_step u os bs ns ss x s s' -> view_step (s, v) (s', v)
  | projects s ctx it v r v' : available s it -> handle_item ctx it v = (r, v') -> view_step (s, v) (s, v')
  | shows s order v r v' : GetSummary order v = (r, v') -> view_step (s, v) (s, v')
  | polls s limit v r v' : Pending limit v = (r, v') -> view_step (s, v) (s, v')
  | retires s id v r v' : MarkSent id v = (r, v') -> view_step (s, v) (s, v').

(** Some service's log says so. *)
Definition happened L (order status : string) : Prop :=
  exists c, fact os bs ns ss L c /\ announces c = (order, status).

(** The columns of a placement of the order on the service's log. *)
Definition placed_columns L (order : string) (o : OrderSummary) : Prop :=
  exists rec p, rec ∈ l_orders L /\ Decode rec (os_registry os) = Ok (other (E_OrderPlaced p))
    /\ value (placed_ID p) = order
    /\ o = mkOrderSummary order (value (placed_Customer p)) (cents (placed_Total p)) (currency (placed_Total p))
             (Order.Int (placed_Qty p)) (os_Status o) (OccurredAt rec).

(** A summary that is true of the logs: its status is something that happened;
    its columns are those of the order's placement, or blank. *)
Definition summary_true L (order : string) (o : OrderSummary) : Prop :=
  happened L order (os_Status o)
  /\ (o = mkOrderSummary order "" 0 "" 0 (os_Status o) epoch \/ placed_columns L order o).

(** What the customer is told of: that the payment failed, or that the shipment
    left, when it did. *)
Definition milestone L (order reason : string) : Prop :=
  (reason = ReasonPaymentFailed /\ exists e, fact os bs ns ss L (C_PaymentFailed e) /\ pf_OrderID e = order)
  \/ (reason = ReasonShipped /\ exists e, fact os bs ns ss L (C_ShipmentDispatched e) /\ sd_OrderID e = order).

(** ** Facts among the items *)

Hypothesis (u_ascii : forall r, (r < 128)%N -> u r = ascii_lower_rune r)
  (u_other : forall r, (128 <= r)%N -> (128 <= u r)%N \/ u r = 105%N \/ u r = 107%N).
Hypothesis Hwired : wired u os bs ns ss.
Hypothesis x_valid : forall ctx, optional_map_valid (MetadataFromContext x ctx).

Abbreviation system_inv := (system_inv os bs ns ss).
Abbreviation ledger_le := (ledger_le os bs ns ss).
Abbreviation contract_fact := (Causality.fact os bs ns ss).

Definition fact_true L (f : OrderSummary.fact) : Prop :=
  match f with
  | F_own rec e => rec ∈ l_orders L /\ Decode rec (os_registry os) = Ok e
      /\ forall p, e = other (E_OrderPlaced p) -> contract_fact L (C_OrderPlaced (placed_contract p))
  | F_foreign _ c => contract_fact L c
  end.

Lemma one_registry :
  repo_registry (orders_repo os) = os_registry os /\ repo_registry (sagas_repo os) = os_registry os
  /\ ordering_ok u (os_handlers os).
Proof.
  pose proof (wired_ordering _ _ _ _ _ Hwired) as Hrun.
  destruct (ordering_run_ok _ _ Hrun) as (Hok & _ & Hful & _).
  assert (repo_registry (orders_repo os) = os_registry os) as Ho by exact (ordering_registry _ _ Hrun).
  split_and!; [done| |done]. unfold sagas_repo. rewrite Hful. exact Ho.
Qed.

Lemma placed_decodes rec e :
  rec_EventName rec = "ordering.order_placed" -> Decode rec (os_registry os) = Ok e -> exists p, e = other (E_OrderPlaced p).
Proof.
  destruct one_registry as (Hreg & _ & Hok). intros Hname. unfold Decode. rewrite Hname, <-Hreg.
  destruct (ook_placed _ _ Hok) as [ups Hent]. unfold orders_repo.
  change (EventName (to_interface OrderPlaced_type (zero_value OrderPlaced_type))) with "ordering.order_placed" in Hent.
  rewrite Hent. case_decide; [done|]. intros (pl & _ & (p & _ & [= <-])%res_bind_ok)%res_bind_ok. by exists p.
Qed.

(** A placement on the log is the order's. *)
Lemma own_placed s rec p :
  system_inv s -> rec ∈ log_of (store (sys_ordering s)) -> Decode rec (os_registry os) = Ok (other (E_OrderPlaced p)) ->
  contract_fact (ledger_of s) (C_OrderPlaced (placed_contract p)).
Proof.
  intros [Ho _ _ _ _] Hin Hdec. destruct (node_ok_store _ _ Ho) as [_ (Hord & Hsag & Hcats)].
  destruct one_registry as (Hreg & Hsreg & _). rewrite Forall_forall in Hcats. destruct (Hcats _ Hin) as [Hcat|Hcat].
  - destruct (stored_record _ _ _ _ Hord Hin Hcat) as (evs & e & Hh & Hlife & Hd & He).
    rewrite Hreg, Hdec in Hd. injection Hd as <-.
    destruct Hlife as [->|(cu & t & q & rs & Hevs & _ & _ & Hpv)]; [by apply elem_of_nil in He|]. pose proof He as Hp.
    rewrite Hevs in He. apply elem_of_cons in He as [He|(y & Hy & _)%list_elem_of_fmap]; [|discriminate Hy]. injection He as ->.
    eexists. split; [exact Hpv|]. split; [done|]. by exists evs.
  - destruct (stored_record _ _ _ _ Hsag Hin Hcat) as (evs & e & Hh & (f & Hhist) & Hd & He).
    rewrite Hsreg, Hdec in Hd. injection Hd as <-. by destruct (history_events _ _ _ _ _ _ _ _ _ Hhist He) as [_ Hno]; destruct (Hno (E_OrderPlaced p)).
Qed.

Lemma own_unhandled name : name <> "ordering.order_placed" -> domainHandlers (V := V) order_summary !! name = None.
Proof.
  intros Hne. assert (exists h, domainHandlers (V := V) order_summary = <["ordering.order_placed" := h]> ∅) as [h ->].
  { eexists. unfold order_summary. reflexivity. }
  by rewrite lookup_insert_ne by done.
Qed.

Lemma command_unhandled (cmd : wire_command) :
  foreignHandlers (V := V) order_summary !! integrationKey (CommandName cmd) 1 = None.
Proof. by destruct cmd. Qed.

(** Every record of the log decodes. *)
Lemma log_decodes s rec :
  system_inv s -> rec ∈ log_of (store (sys_ordering s)) -> exists e, Decode rec (os_registry os) = Ok e.
Proof.
  intros [Ho _ _ _ _] Hin. destruct (node_ok_store _ _ Ho) as [_ (Hord & Hsag & Hcats)].
  destruct one_registry as (Hreg & Hsreg & _). rewrite Forall_forall in Hcats. destruct (Hcats _ Hin) as [Hcat|Hcat].
  - destruct (stored_record _ _ _ _ Hord Hin Hcat) as (evs & e & _ & _ & Hd & _). exists e. by rewrite <-Hreg.
  - destruct (stored_record _ _ _ _ Hsag Hin Hcat) as (evs & e & _ & _ & Hd & _). exists e. by rewrite <-Hsreg.
Qed.

(** What a runner is handed is a fact, true of the logs, or passed over. *)
Lemma item_cases s it :
  system_inv s -> available s it ->
  (exists f, fact_ok (os_registry os) f /\ fact_true (ledger_of s) f
     /\ (forall m c, it = foreign_item m -> envelope_of (ibx_Message m) c -> contract_valid c -> f = F_foreign m c)
     /\ (forall rec, it = own_item rec -> exists p, f = F_own rec (other (E_OrderPlaced p)))
     /\ forall ctx v, handle_item ctx it v = handle_fact (os_registry os) (mkConfig interval batch None) ctx f v)
  \/ (forall ctx v, handle_item ctx it v = (Ok tt, v))
     /\ (forall m c, it = foreign_item m -> ~ envelope_of (ibx_Message m) c)
     /\ forall rec, it = own_item rec -> rec_EventName rec <> "ordering.order_placed".
Proof.
  intros Hs Hav. destruct it as [rec|m]; cbn [available] in Hav.
  - destruct (decide (rec_EventName rec = "ordering.order_placed")) as [Hname|Hname].
    + left. destruct (log_decodes s rec Hs Hav) as [e Hd]. destruct (placed_decodes rec e Hname Hd) as [p ->].
      exists (F_own rec (other (E_OrderPlaced p))). split; [by split|].
      split; [|split; [done|]; split; [|done]; intros rec' [= <-]; by exists p]. split; [done|]. split; [done|].
      intros q [= <-]. by eapply own_placed.
    + right. split; [|split; [done | by intros rec' [= <-]]]. intros ctx v. cbn [handle_item]. unfold CatchUp_handle. by rewrite own_unhandled.
  - destruct Hav as (topic & _ & Hin).
    destruct (in_channel _ _ _ _ _ _ _ _ Hs Hin) as [(c & Henv & Hv & Hf)|(order & cmd & _ & _ & Ht & Hver & Hp)].
    + left. exists (F_foreign m c). split_and!; try done. intros m' c' [= <-] Henv' Hv'. f_equal. by eapply envelope_inj.
    + right. split_and!; [| |done].
      * intros ctx v. cbn [handle_item]. unfold InboxReader_handle. by rewrite Ht, Hver, command_unhandled.
      * intros m' c [= <-] Henv. exact (event_not_command _ _ cmd Henv Ht).
Qed.

(** ** The logs grow *)

Lemma settled_grows (P : list RecordedEvent -> Prop) (n : node W) w :
  node_ok P (settled n w) -> log_of (store n) `prefix_of` log_of (store (settled n w)).
Proof. intros Hok. destruct (Hok (store n)) as (_ & _ & Hpre); [right; by left | done]. Qed.

Lemma step_grows s s' :
  system_step u os bs ns ss x s s' -> system_inv s' ->
  ledger_le (ledger_of s) (ledger_of s') /\ forall tm, tm ∈ channel s -> tm ∈ channel s'.
Proof.
  intros Hstep Hs'. pose proof (system_explained _ _ _ _ _ Hs') as [? ? ? ? ?]. destruct Hs' as [Ho Hb Hi Hh _].
  assert (l_orders (ledger_of s) `prefix_of` l_orders (ledger_of s') /\ l_payments (ledger_of s) `prefix_of` l_payments (ledger_of s')
    /\ l_stock (ledger_of s) `prefix_of` l_stock (ledger_of s') /\ l_shipments (ledger_of s) `prefix_of` l_shipments (ledger_of s')
    /\ forall tm, tm ∈ channel s -> tm ∈ channel s') as (? & ? & ? & ? & ?).
  { destruct Hstep; split_and!; try done; try (by eapply settled_grows); try (intros tm; by right). }
  split; [|done]. split; try done; (eapply streams_ok_impl; [|eassumption]); done.
Qed.

(** ** What was applied is true *)

Definition update_true L (up : update) : Prop := exists f, fact_true L f /\ up ∈ updates_of f.

Lemma fact_true_mono L L' f : ledger_le L L' -> fact_true L f -> fact_true L' f.
Proof.
  intros HL. pose proof (fact_mono _ _ _ _ _ _ HL) as Hf. destruct f as [rec e|m c]; [|apply Hf].
  intros (Hin & Hd & Hp). split; [by eapply elem_of_prefix; [|apply HL]|]. split; [done|]. intros p He. by apply Hf, Hp.
Qed.

Lemma update_rank_pos f up : up ∈ updates_of f -> 0 < update_rank up.
Proof.
  destruct f as [rec [ev|cr| |[p|e|n]]|m c]; cbn [updates_of]; try (by intros ?%elem_of_nil); [by intros ->%list_elem_of_singleton|].
  destruct c; try (by intros ?%elem_of_nil); by intros ->%list_elem_of_singleton.
Qed.

Lemma happened_mono L L' order status : ledger_le L L' -> happened L order status -> happened L' order status.
Proof. intros HL (c & Hc & Ha). exists c. split; [|done]. exact (fact_mono _ _ _ _ _ _ HL c Hc). Qed.

(** An update is a contract's, its rank and status included. *)
Lemma update_contract L up :
  update_true L up -> exists c, contract_fact L c /\ announces c = (update_id up, update_status up) /\ status_rank c = update_rank up.
Proof.
  intros (f & Hf & Hin). destruct f as [rec [ev|cr| |[p|e|n]]|m c]; cbn [updates_of] in Hin; try (by apply elem_of_nil in Hin).
  - apply list_elem_of_singleton in Hin as ->. destruct Hf as (_ & _ & Hp). exists (C_OrderPlaced (placed_contract p)).
    split; [by apply Hp | done].
  - exists c. split; [exact Hf|]. destruct c; try (by apply elem_of_nil in Hin); by apply list_elem_of_singleton in Hin as ->.
Qed.

Lemma update_happened L up : update_true L up -> happened L (update_id up) (update_status up).
Proof. intros (c & Hc & Ha & _)%update_contract. by exists c. Qed.

Lemma milestone_mono L L' order reason : ledger_le L L' -> milestone L order reason -> milestone L' order reason.
Proof.
  intros HL. pose proof (fact_mono _ _ _ _ _ _ HL) as Hf.
  intros [(-> & e & He & Ho)|(-> & e & He & Ho)]; [left | right]; (split; [done|]); exists e; split; try done; exact (Hf _ He).
Qed.

Lemma notice_milestone L f k : fact_true L f -> notice_of f = Some k -> milestone L (fst k) (snd k).
Proof.
  intros Hf Hk. destruct f as [rec e|m c]; [done|].
  destruct c as [e|e|e|e|e|e|e]; try discriminate Hk; injection Hk as <-; [left | right]; (split; [done|]); by exists e.
Qed.

(** [must] has been applied. *)
Record view_inv (must : list update) s v : Prop := {
  vi_system : system_inv s;
  vi_queue : queue_inv v;
  vi_rows : exists eff, summaries v = applied eff /\ (forall up, up ∈ eff -> update_true (ledger_of s) up)
    /\ forall up, up ∈ must -> up ∈ eff;
  vi_work : forall k, k ∈ keys v -> milestone (ledger_of s) (fst k) (snd k);
}.

Lemma view_system must s s' v : system_step u os bs ns ss x s s' -> view_inv must s v -> view_inv must s' v.
Proof.
  intros Hstep [Hs Hq (eff & Heff & Htrue & Hmust) Hwork].
  assert (system_inv s') as Hs' by (by eapply step_preserves). destruct (step_grows s s' Hstep Hs') as [HL _]. split; try done.
  - exists eff. split_and!; try done. intros up (f & Hf & Hin)%Htrue. exists f. split; [|done]. by eapply fact_true_mono.
  - intros k Hk. eapply milestone_mono; [done|]. by apply Hwork.
Qed.

Lemma view_applies must s ctx it v r v' :
  available s it -> handle_item ctx it v = (r, v') -> view_inv must s v ->
  view_inv must s v'
  /\ (forall m c, it = foreign_item m -> envelope_of (ibx_Message m) c -> contract_valid c -> r = Ok tt ->
        view_inv (updates_of (F_foreign m c) ++ must) s v')
  /\ forall rec, it = own_item rec -> rec_EventName rec = "ordering.order_placed" -> r = Ok tt ->
       exists p, Decode rec (os_registry os) = Ok (other (E_OrderPlaced p))
         /\ view_inv (updates_of (F_own rec (other (E_OrderPlaced p))) ++ must) s v'.
Proof.
  intros Hav Hrun [Hs Hq (eff & Heff & Htrue & Hmust) Hwork].
  destruct (item_cases s it Hs Hav) as [(f & Hok & Hf & Hfc & Hfo & Hh)|(Hskip & Hno & Hnot)].
  2: { rewrite Hskip in Hrun. injection Hrun as <- <-. split; [by split; [..|exists eff|]|]. split.
       - intros m c -> Henv. by destruct (Hno m c).
       - intros rec Hit Hname. by destruct (Hnot rec Hit). }
  rewrite Hh in Hrun. pose proof (handle_fact_moves _ _ _ _ _ _ _ _ Hok Hq Hrun) as Hm.
  assert (forall must', (forall up, up ∈ must' -> up ∈ must \/ is_ok r = true /\ up ∈ updates_of f) -> view_inv must' s v') as Hall.
  { intros must' Hmust'. pose proof Hm as (Hq' & Hrows & _). split; [done..| |].
    - destruct Hrows as [Hrows|[Hno Hrows]].
      + exists (eff ++ updates_of f). split; [by rewrite Hrows, Heff; unfold applied; rewrite foldl_app|]. split.
        * intros up [?|?]%elem_of_app; [by apply Htrue | by exists f].
        * intros up [?|[_ ?]]%Hmust'; apply elem_of_app; [left; by apply Hmust | by right].
      + exists eff. split; [by rewrite Hrows|]. split; [done|]. intros up [?|[Hyes _]]%Hmust'; [by apply Hmust | congruence].
    - intros k Hk. destruct (moved_keys _ _ _ _ k Hm) as (Hnew & _). destruct (Hnew Hk) as [?|?]; [by apply Hwork|].
      by eapply notice_milestone. }
  split; [apply Hall; by left|]. split.
  - intros m c Hit Henv Hv ->. apply Hall. rewrite <-(Hfc m c Hit Henv Hv).
    intros up [Hin|Hin]%elem_of_app; [right; exact (conj eq_refl Hin) | left; exact Hin].
  - intros rec Hit _ ->. destruct (Hfo rec Hit) as [p ->]. exists p. split; [by apply Hok|]. apply Hall.
    intros up [Hin|Hin]%elem_of_app; [right; exact (conj eq_refl Hin) | left; exact Hin].
Qed.

(** The other users of the tables leave rows and keys alone. *)
Lemma view_same must s v v' :
  view_inv must s v -> queue_inv v' -> summaries v' = summaries v -> keys v' = keys v -> view_inv must s v'.
Proof. intros [Hs Hq Hrows Hwork] Hq' Hsum Hkeys. by split; rewrite ?Hsum, ?Hkeys. Qed.

Lemma retired_keys id (ws : list work) : wk_key <$> (retire id <$> ws) = wk_key <$> ws.
Proof.
  rewrite <-list_fmap_compose. apply list_fmap_ext. intros i w _. unfold compose, retire, wk_key. by case_decide.
Qed.

Lemma view_runs must s v s' v' :
  rtc view_step (s, v) (s', v') -> view_inv must s v -> view_inv must s' v'.
Proof.
  intros Hrun. remember (s, v) as a eqn:Ha. remember (s', v') as b eqn:Hb. revert s v Ha.
  induction Hrun as [|a c b Hstep _ IH]; intros s v ->; [by injection Hb as -> ->|].
  inversion Hstep as [s1 s2 v1 Hmove | s1 ctx it v1 r v2 Hav Hh | s1 order v1 r v2 Hg | s1 limit v1 r v2 Hg | s1 id v1 r v2 Hg];
    subst; intros Hinv; (eapply IH; [done..|]); pose proof (vi_queue _ _ _ Hinv) as Hq.
  - by eapply view_system.
  - by destruct (view_applies _ _ _ _ _ _ _ Hav Hh Hinv).
  - destruct (GetSummary_spec _ _ _ _ Hg) as [Hrows _], (GetSummary_frame _ _ _ _ Hg Hq) as [Hq' Hw].
    apply (view_same must s v); [done..|]. unfold keys. by rewrite Hw.
  - destruct (Pending_spec _ _ _ _ Hq Hg) as (Hq' & Hw & _). apply (view_same must s v); [done | done | by eapply Pending_frame|].
    unfold keys. by rewrite Hw.
  - destruct (MarkSent_spec _ _ _ _ Hq Hg) as (Hq' & Hw). apply (view_same must s v); [done | done | by eapply MarkSent_frame|].
    unfold keys. destruct Hw as [Hw|[_ Hw]]; rewrite Hw; [by rewrite retired_keys | done].
Qed.

Lemma view_starts s v :
  system_starts s -> queue_inv v -> summaries v = ∅ -> worklist v = [] -> view_inv [] s v.
Proof.
  intros Hs Hq Hrows Hwork. split; [by apply start_inv | done | |].
  - exists []. split; [done|]. split; intros up Hup; by apply elem_of_nil in Hup.
  - unfold keys. rewrite Hwork. intros k Hk. by apply elem_of_nil in Hk.
Qed.

Lemma view_base L eff order row :
  (forall up, up ∈ eff -> update_true L up) -> row_is eff order (Some row) ->
  placed_columns L order (row_summary order row)
  \/ sr_base row = no_base /\ forall up, up ∈ eff -> update_id up = order -> update_base up = None.
Proof.
  intros Htrue (_ & _ & [(up' & Hup' & Hid' & Hb)|?]); [left | by right].
  destruct (Htrue up' Hup') as (f & Hf & Hin). destruct up' as [os'|]; [|done].
  destruct f as [rec [ev|cr| |[p|e|n]]|m c]; cbn [updates_of] in Hin; try (by apply elem_of_nil in Hin).
  - apply list_elem_of_singleton in Hin. injection Hin as ->. destruct Hf as (Hin & Hd & _). exists rec, p.
    split_and!; try done. injection Hb as Hb. unfold row_summary. rewrite <-Hb. done.
  - destruct c; try (by apply elem_of_nil in Hin); by apply list_elem_of_singleton in Hin.
Qed.

Lemma view_row must s v order row :
  view_inv must s v -> summaries v !! order = Some row ->
  summary_true (ledger_of s) order (row_summary order row)
  /\ ((exists o, Placed o ∈ must /\ os_OrderID o = order) -> placed_columns (ledger_of s) order (row_summary order row)).
Proof.
  intros [Hs _ (eff & Heff & Htrue & Hmust) _] Hrow.
  assert (row_is eff order (Some row)) as Hr.
  { rewrite <-Hrow, Heff. apply applied_rows. rewrite Forall_forall. intros up (f & Hf & Hin)%Htrue. by eapply update_rank_pos. }
  pose proof Hr as ((up & Hup & Hid & Hst & _) & _ & _). split; [split; cbn [row_summary os_Status]|].
  - rewrite Hst, <-Hid. by apply update_happened, Htrue.
  - destruct (view_base _ _ _ _ Htrue Hr) as [?|[Hb _]]; [by right | left; unfold row_summary; by rewrite Hb].
  - intros (o & Ho & Hoid). destruct (view_base _ _ _ _ Htrue Hr) as [?|[_ Hnone]]; [done|].
    by pose proof (Hnone (Placed o) (Hmust _ Ho) Hoid).
Qed.

(** ** Outcomes *)

(** A payment has one verdict. *)
Lemma captured_or_failed order pevs n reason :
  payment_life order pevs -> captured order n ∈ pevs -> E_PaymentFailed (mkPaymentFailed order reason) ∉ pevs.
Proof.
  intros Hlife Hcap Hfail.
  destruct Hlife as [->|[->|(k & _ & [->| ->])]]; rewrite ?elem_of_cons, ?elem_of_nil in Hcap, Hfail;
    repeat destruct Hcap as [Hcap|Hcap]; repeat destruct Hfail as [Hfail|Hfail];
    first [contradiction | discriminate Hcap | discriminate Hfail].
Qed.

Lemma refunded_or_failed order pevs reason :
  payment_life order pevs -> refunded order ∈ pevs -> E_PaymentFailed (mkPaymentFailed order reason) ∉ pevs.
Proof.
  intros Hlife Href. assert (exists n, captured order n ∈ pevs) as [n Hn]; [|by eapply captured_or_failed].
  destruct Hlife as [->|[->|(k & _ & [->| ->])]]; rewrite ?elem_of_cons, ?elem_of_nil in Href;
    repeat destruct Href as [Href|Href]; try discriminate Href; try contradiction.
  exists k. by left.
Qed.

(** No fact of an order outranks its outcome. *)
Lemma outcome_outranks L c c' :
  explained os bs ns ss L -> contract_fact L c -> contract_fact L c' -> is_outcome c = true ->
  fst (announces c') = fst (announces c) -> status_rank c <= status_rank c' -> snd (announces c') = snd (announces c).
Proof.
  intros Hex Hc Hc' Hout Hid. set (order := fst (announces c)) in *.
  destruct (ex_orders _ _ _ _ _ Hex order) as (oevs & Ho & _), (ex_payments _ _ _ _ _ Hex order) as (pevs & Hp & Hpl),
    (ex_stock _ _ _ _ _ Hex order) as (revs & Hr & Hrl), (ex_shipments _ _ _ _ _ Hex order) as (sevs & Hs & Hsl).
  pose proof (explained_causal _ _ _ _ _ Hex order oevs pevs revs sevs Ho Hp Hpl Hr Hrl Hsl) as [_ Hstock Hship Href].
  pose proof (fun n r => captured_or_failed order pevs n r (proj1 Hpl)) as Hcf.
  pose proof (fun r => refunded_or_failed order pevs r (proj1 Hpl)) as Hrf.
  destruct c as [e|e|e|e|e|e|e]; try discriminate Hout; destruct c' as [e'|e'|e'|e'|e'|e'|e']; try done; intros _;
    subst order; cbn [announces fst snd Causality.fact] in *; exfalso; rewrite Hid in Hc'.
  - exact (Hrf _ (stored_in_evs _ _ _ _ _ Hc' Hp) (stored_in_evs _ _ _ _ _ Hc Hp)).
  - pose proof (stored_in_evs _ _ _ _ _ Hc' Hr) as Hin. destruct Hstock as (p & _ & _ & Hcap & _); [by intros ->; apply elem_of_nil in Hin|].
    exact (Hcf _ _ Hcap (stored_in_evs _ _ _ _ _ Hc Hp)).
  - pose proof (stored_in_evs _ _ _ _ _ Hc Hs) as Hin. destruct Hship as (p & _ & _ & Hpe & _); [by intros ->; apply elem_of_nil in Hin|].
    pose proof (stored_in_evs _ _ _ _ _ Hc' Hp) as Hf. rewrite Hpe in Hf. by apply list_elem_of_singleton in Hf.
  - pose proof (stored_in_evs _ _ _ _ _ Hc Hs) as Hin. destruct Hship as (p & _ & _ & Hpe & _); [by intros ->; apply elem_of_nil in Hin|].
    pose proof (stored_in_evs _ _ _ _ _ Hc' Hp) as Hf. rewrite Hpe in Hf. by apply list_elem_of_singleton in Hf.
  - pose proof (stored_in_evs _ _ _ _ _ Hc Hs) as Hin. destruct Hship as (p & _ & _ & _ & Hre & _); [by intros ->; apply elem_of_nil in Hin|].
    pose proof (stored_in_evs _ _ _ _ _ Hc' Hr) as Hf. rewrite Hre in Hf. by apply list_elem_of_singleton in Hf.
Qed.

Lemma outcome_row s v m c :
  view_inv (updates_of (F_foreign m c) ++ []) s v -> is_outcome c = true ->
  exists row, summaries v !! fst (announces c) = Some row /\ sr_status row = snd (announces c).
Proof.
  intros [Hs _ (eff & Heff & Htrue & Hmust) _] Hout.
  assert (exists up, up ∈ eff /\ (update_id up, update_status up) = announces c /\ update_rank up = status_rank c)
    as (up & Hup & Hann & Hrank).
  { destruct c as [e|e|e|e|e|e|e]; try discriminate Hout; eexists; (split; [apply Hmust; by left | done]). }
  destruct (update_contract _ _ (Htrue up Hup)) as (c0 & Hc0 & Ha0 & Hr0). rewrite Hann in Ha0. rewrite Hrank in Hr0.
  assert (update_id up = fst (announces c)) as Hid by (by rewrite <-Hann).
  assert (row_is eff (fst (announces c)) (summaries v !! fst (announces c))) as Hr.
  { rewrite Heff. apply applied_rows. rewrite Forall_forall. intros up' (f & _ & Hin)%Htrue. by eapply update_rank_pos. }
  destruct (summaries v !! _) as [row|]; [|by destruct (Hr up Hup)]. exists row. split; [done|].
  destruct Hr as ((up' & Hup' & Hid' & Hst & Hrk) & Hmax & _). specialize (Hmax up Hup Hid). rewrite Hrk, Hrank in Hmax.
  destruct (update_contract _ _ (Htrue up' Hup')) as (c' & Hc' & Ha & Hrank'). rewrite Hst, <-Ha0.
  transitivity (snd (announces c')); [by rewrite Ha|].
  apply (outcome_outranks (ledger_of s)); try done; [by apply system_explained | | by rewrite Ha, Ha0, Hid' | by rewrite Hrank', Hr0].
  by destruct c, c0.
Qed.
End views.

(** C3: What the ordering service shows is true. In every run of the four
    services and of the order summary among them - whatever is published,
    read or redelivered when, and however the database fails - a summary that
    [GET /orders/{id}] can answer has a status that some service's log bears
    out, and the columns of the order's placement, or blank ones; from when
    the order's placement was projected without error they are the
    placement's, never blank. And every row of the notifier's worklist says
    that the order's payment failed, when it did, or that the order shipped,
    when it did. *)
Theorem shown_is_true {W} `{StoreSpec W} `{Clock (W * heap)} {V} `{ReadModelSpec V} (u : N -> N) (os : OrderingService)
    (bs : CommandService payment_event Billing.Handlers) (ns : CommandService stock_event Inventory.Handlers)
    (ss : CommandService shipment_event Shipping.Handlers) (x : Extractor) (interval batch : Z) (s0 s : system W) (v0 v : V)
    (u_ascii : forall r, (r < 128)%N -> u r = ascii_lower_rune r)
    (u_other : forall r, (128 <= r)%N -> (128 <= u r)%N \/ u r = 105%N \/ u r = 107%N)
    (Hwired : wired u os bs ns ss) (x_valid : forall ctx, optional_map_valid (MetadataFromContext x ctx))
    (Hstart : system_starts s0) (Hqueue : queue_inv v0) (Hrows : summaries v0 = ∅) (Hwork : worklist v0 = [])
    (Hrun : rtc (view_step u os bs ns ss x interval batch) (s0, v0) (s, v)) :
  (forall order o v', GetSummary order v = (Ok o, v') -> summary_true os bs ns ss (ledger_of s) order o)
  /\ (forall limit ps row v', 0 <= limit -> Pending limit v = (Ok ps, v') -> row ∈ ps ->
       milestone os bs ns ss (ledger_of s) (pn_OrderID row) (pn_Reason row))
  /\ (forall ctx rec v1 s2 v2, available s (own_item rec) -> rec_EventName rec = "ordering.order_placed" ->
       handle_item os interval batch ctx (own_item rec) v = (Ok tt, v1) ->
       rtc (view_step u os bs ns ss x interval batch) (s, v1) (s2, v2) ->
       exists p, Decode rec (os_registry os) = Ok (other (E_OrderPlaced p))
         /\ forall o v', GetSummary (value (placed_ID p)) v2 = (Ok o, v') -> placed_columns os (ledger_of s2) (value (placed_ID p)) o).
Proof.
  pose proof (view_runs _ _ _ _ _ _ _ _ u_ascii u_other Hwired x_valid _ _ _ _ _ Hrun
    (view_starts _ _ _ _ s0 v0 Hstart Hqueue Hrows Hwork)) as Hinv. split_and!.
  - intros order o v' Hget. destruct (GetSummary_spec _ _ _ _ Hget) as [_ Hs]. destruct (Hs o eq_refl) as (row & Hrow & ->).
    by eapply view_row.
  - intros limit ps row v' Hlim Hpend Hin. destruct (Pending_spec _ _ _ _ (vi_queue _ _ _ _ _ _ _ Hinv) Hpend) as (_ & _ & Hps).
    rewrite (Hps ps eq_refl Hlim) in Hin. apply list_elem_of_fmap in Hin as (w & -> & Hw).
    apply (vi_work _ _ _ _ _ _ _ Hinv (wk_key w)). apply list_elem_of_fmap. exists w. split; [done|].
    apply elem_of_take in Hw as (i & Hw%list_elem_of_lookup_2 & _). by apply list_elem_of_filter in Hw as [_ ?].
  - intros ctx rec v1 s2 v2 Hav Hname Happly Hafter.
    destruct (view_applies _ _ _ _ _ _ _ Hwired _ _ _ _ _ _ _ Hav Happly Hinv) as (_ & _ & Hdone).
    destruct (Hdone rec eq_refl Hname eq_refl) as (p & Hd & Hinv1). exists p. split; [done|].
    pose proof (view_runs _ _ _ _ _ _ _ _ u_ascii u_other Hwired x_valid _ _ _ _ _ Hafter Hinv1) as Hinv2.
    intros o v' Hget. destruct (GetSummary_spec _ _ _ _ Hget) as [_ Hs]. destruct (Hs o eq_refl) as (row & Hrow & ->).
    eapply view_row; [exact Hinv2 | exact Hrow|]. eexists. split; [by left | done].
Qed.

(** C4: Once the message of an order's outcome - payment failed, refunded, or
    shipped - was applied without error, the summary shows that outcome, and
    shows it from then on: no other fact that comes to be true of the order,
    however late or often it is delivered, takes its place. *)
Theorem outcome_stays_shown {W} `{StoreSpec W} `{Clock (W * heap)} {V} `{ReadModelSpec V} (u : N -> N) (os : OrderingService)
    (bs : CommandService payment_event Billing.Handlers) (ns : CommandService stock_event Inventory.Handlers)
    (ss : CommandService shipment_event Shipping.Handlers) (x : Extractor) (interval batch : Z) (s0 s1 s : system W) (v0 v1 v2 v : V)
    (ctx : Context) (m : InboxMessage) (c : contract)
    (u_ascii : forall r, (r < 128)%N -> u r = ascii_lower_rune r)
    (u_other : forall r, (128 <= r)%N -> (128 <= u r)%N \/ u r = 105%N \/ u r = 107%N)
    (Hwired : wired u os bs ns ss) (x_valid : forall ctx, optional_map_valid (MetadataFromContext x ctx))
    (Hstart : system_starts s0) (Hqueue : queue_inv v0) (Hrows : summaries v0 = ∅) (Hwork : worklist v0 = [])
    (Hbefore : rtc (view_step u os bs ns ss x interval batch) (s0, v0) (s1, v1))
    (Hmsg : available s1 (foreign_item m)) (Henv : envelope_of (ibx_Message m) c) (Hvalid : contract_valid c)
    (Hout : is_outcome c = true) (Happly : handle_item os interval batch ctx (foreign_item m) v1 = (Ok tt, v2))
    (Hafter : rtc (view_step u os bs ns ss x interval batch) (s1, v2) (s, v)) :
  (exists row, summaries v !! fst (announces c) = Some row /\ sr_status row = snd (announces c))
  /\ forall o v', GetSummary (fst (announces c)) v = (Ok o, v') -> os_Status o = snd (announces c).
Proof.
  pose proof (view_runs _ _ _ _ _ _ _ _ u_ascii u_other Hwired x_valid _ _ _ _ _ Hbefore
    (view_starts _ _ _ _ s0 v0 Hstart Hqueue Hrows Hwork)) as Hinv.
  destruct (view_applies _ _ _ _ _ _ _ Hwired _ _ _ _ _ _ _ Hmsg Happly Hinv) as (_ & Hdone & _).
  pose proof (view_runs _ _ _ _ _ _ _ _ u_ascii u_other Hwired x_valid _ _ _ _ _ Hafter (Hdone m c eq_refl Henv Hvalid eq_refl)) as Hinv2.
  destruct (outcome_row _ _ _ _ _ _ _ _ Hinv2 Hout) as (row & Hrow & Hst). split; [exact (ex_intro _ row (conj Hrow Hst))|].
  intros o v' Hget. destruct (GetSummary_spec _ _ _ _ Hget) as [_ Hs]. destruct (Hs o eq_refl) as (row' & Hrow' & ->).
  rewrite Hrow in Hrow'. injection Hrow' as <-. exact Hst.
Qed.

(** ** A run of it *)

Section schedule.
Context {W : Type} `{StoreSpec W} `{Clock (W * heap)} {V : Type} `{ReadModelSpec V}.
Variables (u : N -> N) (os : OrderingService) (bs : CommandService payment_event Billing.Handlers)
  (ns : CommandService stock_event Inventory.Handlers) (ss : CommandService shipment_event Shipping.Handlers) (x : Extractor).

(** The items handled in turn. *)
Definition project (its : list item) (v : V) : V := foldl (fun v it => snd (handle_item os 0 0 background it v)) v its.

Lemma project_steps (s : system W) its : forall v,
  Forall (available s) its -> rtc (view_step u os bs ns ss x 0 0) (s, v) (s, project its v).
Proof.
  induction its as [|it its IH]; intros v Hits; [done|]. apply Forall_cons in Hits as [Hit Hits].
  eapply rtc_l; [|exact (IH _ Hits)]. eapply projects; [exact Hit|]. apply surjective_pairing.
Qed.

Lemma system_runs (s s' : system W) (v : V) :
  rtc (system_step u os bs ns ss x) s s' -> rtc (view_step u os bs ns ss x 0 0) (s, v) (s', v).
Proof. induction 1 as [|s s1 s2 Hstep _ IH]; [done|]. eapply rtc_l; [by apply system_moves | exact IH]. Qed.
End schedule.

Module Sample.
Import Choreography.Sample.
#[local] Existing Instances OrderSummary.Sample.queue OrderSummary.Sample.queue_spec OrderSummary.Sample.read_model.

Definition said (i : nat) : string * Message := default nothing_said (channel finish !! i).
Definition own : item := own_item (default OrderSummary.Sample.record (log_of (store (sys_ordering finish)) !! 0%nat)).
Definition shipped : item := foreign_item (mkInboxMessage 2 (snd (said 0))).
Definition paid : item := foreign_item (mkInboxMessage 1 (snd (said 4))).
Definition dispatched : contract := C_ShipmentDispatched (mkShipmentDispatchedV1 order).

(** On a database that drops a connection. *)
Definition empty : PgReadModel := OrderSummary.Sample.empty OrderSummary.Sample.flaky.
(** The shipment first, its redelivery failing on the way; the payment last. *)
Definition before : PgReadModel := project os [own] empty.
Definition applied_once : PgReadModel := project os [shipped] before.
Definition after : PgReadModel := project os [shipped; paid] applied_once.

Lemma said_available i m :
  ibx_Message m = snd (said i) -> bool_decide (fst (said i) ∈ ForeignTopics) = true -> (i < length (channel finish))%nat ->
  available finish (foreign_item m).
Proof.
  intros Hm Ht%bool_decide_eq_true Hi. exists (fst (said i)). split; [exact Ht|]. rewrite Hm, <-surjective_pairing.
  apply list_elem_of_lookup_2 with (i := i). unfold said. by destruct (lookup_lt_is_Some_2 _ _ Hi) as [tm ->].
Qed.

Lemma shipped_available : available finish shipped.
Proof. apply (said_available 0); [reflexivity | vm_compute; reflexivity | vm_compute; lia]. Qed.
Lemma paid_available : available finish paid.
Proof. apply (said_available 4); [reflexivity | vm_compute; reflexivity | vm_compute; lia]. Qed.
Lemma own_available : available finish own.
Proof. apply list_elem_of_lookup_2 with (i := 0%nat). vm_compute. reflexivity. Qed.

Lemma dispatched_envelope : envelope_of (snd (said 0)) dispatched.
Proof.
  split; [vm_compute; reflexivity | vm_compute; reflexivity | eexists; split; vm_compute; reflexivity|].
  apply message_validb_ok. vm_compute. reflexivity.
Qed.

Lemma runs_before : rtc (view_step lower os bs ns ss None 0 0) (start, empty) (finish, before).
Proof.
  etransitivity; [exact (system_runs lower os bs ns ss None start finish empty runs)|].
  apply project_steps. apply Forall_singleton, own_available.
Qed.
Lemma runs_after : rtc (view_step lower os bs ns ss None 0 0) (finish, applied_once) (finish, after).
Proof. apply project_steps. apply Forall_cons. split; [exact shipped_available | apply Forall_singleton, paid_available]. Qed.
Lemma runs_from_before : rtc (view_step lower os bs ns ss None 0 0) (finish, before) (finish, after).
Proof. etransitivity; [|exact runs_after]. apply project_steps. apply Forall_singleton, shipped_available. Qed.
Lemma runs_to_after : rtc (view_step lower os bs ns ss None 0 0) (start, empty) (finish, after).
Proof. etransitivity; [exact runs_before | exact runs_from_before]. Qed.
Lemma empty_ok : queue_inv empty.
Proof. change (queue_rows_ok (table empty)). split; [repeat constructor | constructor | done | constructor | constructor]. Qed.
End Sample.
Import Sample.

Lemma shown_is_true_witness :
  (exists o v', GetSummary Choreography.Sample.order after = (Ok o, v') /\ os_Status o = "shipped"
    /\ summary_true Choreography.Sample.os Choreography.Sample.bs Choreography.Sample.ns Choreography.Sample.ss
         (ledger_of Choreography.Sample.finish) Choreography.Sample.order o
    /\ placed_columns Choreography.Sample.os (ledger_of Choreography.Sample.finish) Choreography.Sample.order o)
  /\ exists row v', Pending (NotificationQueue := OrderSummary.Sample.queue) 5 after = (Ok [row], v') /\ pn_Reason row = ReasonShipped
    /\ milestone Choreography.Sample.os Choreography.Sample.bs Choreography.Sample.ns Choreography.Sample.ss
         (ledger_of Choreography.Sample.finish) (pn_OrderID row) (pn_Reason row).
Proof.
  pose proof (fun v => shown_is_true (H1 := Choreography.Sample.prompt) (H6 := OrderSummary.Sample.read_model) Choreography.Sample.lower Choreography.Sample.os
    Choreography.Sample.bs Choreography.Sample.ns Choreography.Sample.ss
    None 0 0 Choreography.Sample.start Choreography.Sample.finish empty v sample_ToLower_ascii sample_ToLower_other
    Choreography.Sample.services_wired (fun _ => I) Choreography.Sample.starts empty_ok eq_refl eq_refl) as Hok.
  destruct (Hok after runs_to_after) as (Hshown & Htold & _).
  destruct (Hok empty (system_runs _ _ _ _ _ _ _ _ _ Choreography.Sample.runs)) as (_ & _ & Hplaced).
  destruct (Hplaced background _ before _ _ own_available ltac:(vm_compute; reflexivity) ltac:(vm_compute; reflexivity) runs_from_before)
    as (p & Hp & Hcols).
  assert (value (placed_ID p) = Choreography.Sample.order) as Hid.
  { assert (match Decode (default OrderSummary.Sample.record (log_of (store (sys_ordering Choreography.Sample.finish)) !! 0%nat))
                 (os_registry Choreography.Sample.os) with
            | Ok (other (E_OrderPlaced q)) => value (placed_ID q) | _ => EmptyString end = Choreography.Sample.order) as Hq by (vm_compute; reflexivity).
    rewrite Hp in Hq. exact Hq. }
  rewrite Hid in Hcols. split.
  - destruct (GetSummary Choreography.Sample.order after) as [r v'] eqn:Hget.
    assert (fmap os_Status (match r with Ok o => Some o | _ => None end) = Some "shipped") as Hr.
    { rewrite <-(f_equal fst Hget : fst _ = r). vm_compute. reflexivity. }
    destruct r as [o|e|m]; [|discriminate Hr..]. exists o, v'. split; [reflexivity|]. injection Hr as Hr. split; [exact Hr|].
    split; [exact (Hshown _ _ _ Hget) | exact (Hcols _ _ eq_refl)].
  - destruct (Pending (NotificationQueue := OrderSummary.Sample.queue) 5 after) as [r v'] eqn:Hpend.
    assert (match r with Ok ps => pn_Reason <$> ps | _ => [] end = [ReasonShipped]) as Hr.
    { rewrite <-(f_equal fst Hpend : fst _ = r). vm_compute. reflexivity. }
    destruct r as [ps|e|m]; [|discriminate Hr..]. destruct ps as [|row [|]]; [discriminate Hr| |discriminate Hr].
    exists row, v'. split; [reflexivity|]. split; [by injection Hr|].
    exact (Htold 5 [row] row v' ltac:(lia) Hpend (list_elem_of_here row [])).
Defined.

Lemma outcome_stays_shown_witness :
  exists row, summaries (SummarySpec := PgReadModel_summary_spec) after !! Choreography.Sample.order = Some row /\ sr_status row = "shipped".
Proof.
  refine (proj1 (outcome_stays_shown (H6 := OrderSummary.Sample.read_model) Choreography.Sample.lower Choreography.Sample.os
    Choreography.Sample.bs Choreography.Sample.ns Choreography.Sample.ss
    None 0 0 Choreography.Sample.start Choreography.Sample.finish Choreography.Sample.finish empty before applied_once after
    background (mkInboxMessage 2 (snd (said 0))) dispatched sample_ToLower_ascii sample_ToLower_other
    Choreography.Sample.services_wired (fun _ => I) Choreography.Sample.starts empty_ok eq_refl eq_refl runs_before
    shipped_available dispatched_envelope _ eq_refl _ runs_after)).
  - vm_compute. reflexivity.
  - vm_compute. reflexivity.
Defined.
