(* ===== verification/Tracing.v ===== *)
(** * o11y/o11y.go, worker.go, broker.go, cqrs.go and projection.go: one trace

    How a trace context travels: injected into stored metadata, extracted on
    delivery, linked at a durable hand-off. OpenTelemetry itself is a
    parameter: the parser of its headers and the identity of the spans its SDK
    starts. *)

From S2P Require Import Prelude Errors Json KernelId Kernel EventStore MemoryStore Registry Checkpoint Repository Broker Inbox Cqrs Projection.

Definition IsValid (sc : SpanContext) : bool := negb (bool_decide (traceparent sc = "")).

Definition OriginTraceparentKey : string := "gohex.origin.traceparent".
Definition OriginTracestateKey : string := "gohex.origin.tracestate".

(** [meta[key]]: the empty string when absent. *)
Definition entry (meta : strmap) (key : string) : string := default "" (meta ≫= fun m => m !! key).
Definition no_entries (meta : strmap) : bool := match meta with Some m => bool_decide (m = ∅) | None => true end.

(** [m[key] = value], on a map allocated if nil. *)
Definition set_entry (key value : string) (meta : strmap) : strmap := Some (<[key := value]> (default ∅ meta)).
(** [if value != "" { m[key] = value }] *)
Definition set_nonempty (key value : string) (meta : strmap) : strmap :=
  if decide (value = "") then meta else set_entry key value meta.

(** ** Spans

    What a span is started with, and what is recorded on it. *)
Inductive span_kind := Internal | Producer | Consumer.

Record Span := mkSpan {
  sp_name : string;
  sp_context : SpanContext;
  sp_parent : SpanContext;
  sp_kind : span_kind;
  sp_links : list SpanContext;
  sp_error : option error; (* RecordError and SetStatus(codes.Error) *)
  sp_rejection : option string; (* gohex.rejection_code *)
  sp_ended : bool;
}.

(** The spans started so far; a span is its index. *)
Abbreviation Tracer := (list Span).

Record span_start := mkStart { ss_new_root : bool; ss_kind : span_kind; ss_links : list SpanContext }.

Definition record_error (err : error) (s : Span) : Span :=
  mkSpan (sp_name s) (sp_context s) (sp_parent s) (sp_kind s) (sp_links s) (Some err) (sp_rejection s) (sp_ended s).
Definition record_rejection (code : string) (s : Span) : Span :=
  mkSpan (sp_name s) (sp_context s) (sp_parent s) (sp_kind s) (sp_links s) (sp_error s) (Some code) (sp_ended s).
Definition end_span (s : Span) : Span :=
  mkSpan (sp_name s) (sp_context s) (sp_parent s) (sp_kind s) (sp_links s) (sp_error s) (sp_rejection s) true.

Definition with_span (sc : SpanContext) (ctx : Context) : Context :=
  mkContext (ctx_position ctx) sc (ctx_baggage ctx) (ctx_origin ctx).
Definition with_baggage (b : string) (ctx : Context) : Context :=
  mkContext (ctx_position ctx) (ctx_span ctx) b (ctx_origin ctx).

(** Worlds that hold a tracer. *)
Class Traced (W : Type) := {
  tracer_of : W -> Tracer;
  set_tracer : Tracer -> W -> W;
  tracer_set t w : tracer_of (set_tracer t w) = t;
}.

Section tracing.
(** The propagator's reading of the traceparent and tracestate headers (no
    span when they are malformed), of the baggage header (empty when it is
    malformed), and the context of the n-th span started under a parent. *)
Variables (parse_span : string -> string -> SpanContext) (parse_baggage : string -> string)
  (fresh : nat -> SpanContext -> SpanContext).

(** [otel.Tracer(scope).Start]. *)
Definition start (ctx : Context) (name : string) (o : span_start) (t : Tracer) : Context * nat * Tracer :=
  let parent := if ss_new_root o then no_span else ctx_span ctx in
  let sc := fresh (length t) parent in
  (with_span sc ctx, length t, t ++ [mkSpan name sc parent (ss_kind o) (ss_links o) None None false]).

(** ** o11y.go *)

Definition Inject (ctx : Context) (meta : strmap) : strmap :=
  if negb (IsValid (ctx_span ctx)) then meta else
  set_nonempty "baggage" (ctx_baggage ctx)
    (set_nonempty "tracestate" (tracestate (ctx_span ctx))
       (set_entry "traceparent" (traceparent (ctx_span ctx)) meta)).

Definition Extract (ctx : Context) (meta : strmap) : Context :=
  if no_entries meta then ctx else
  let sc := parse_span (entry meta "traceparent") (entry meta "tracestate") in
  let ctx1 := if IsValid sc then with_span sc ctx else ctx in
  let b := parse_baggage (entry meta "baggage") in
  if decide (b = "") then ctx1 else with_baggage b ctx1.

(** ** worker.go *)

Definition liveSpanContextFrom (meta : strmap) : SpanContext :=
  if decide (entry meta "traceparent" = "") then no_span else
  let carrier := set_nonempty "tracestate" (entry meta "tracestate") (set_entry "traceparent" (entry meta "traceparent") None) in
  ctx_span (Extract background carrier).

Definition spanContextFrom (meta : strmap) : SpanContext :=
  let sc := liveSpanContextFrom meta in
  if IsValid sc then sc else
  if no_entries meta then no_span else
  if decide (entry meta OriginTraceparentKey = "") then no_span else
  let carrier := set_nonempty "tracestate" (entry meta OriginTracestateKey)
                   (set_entry "traceparent" (entry meta OriginTraceparentKey) None) in
  ctx_span (Extract background carrier).

(** The zero [Link] links nowhere. *)
Definition LinkFrom (meta : strmap) : SpanContext :=
  let sc := spanContextFrom meta in if IsValid sc then sc else no_span.

Definition OriginMetadata (meta : strmap) : strmap :=
  if no_entries meta then None else
  if decide (entry meta OriginTraceparentKey <> "") then
    set_nonempty OriginTracestateKey (entry meta OriginTracestateKey)
      (set_entry OriginTraceparentKey (entry meta OriginTraceparentKey) None)
  else if decide (entry meta "traceparent" <> "") then
    set_nonempty OriginTracestateKey (entry meta "tracestate")
      (set_entry OriginTraceparentKey (entry meta "traceparent") None)
  else None.

Definition WithOrigin (ctx : Context) (meta : strmap) : Context :=
  match OriginMetadata meta with
  | None => ctx
  | Some o => mkContext (ctx_position ctx) (ctx_span ctx) (ctx_baggage ctx) (Some o)
  end.

Definition originFromContext (ctx : Context) : strmap :=
  if no_entries (ctx_origin ctx) then None else ctx_origin ctx.

(** The hook [Init] installs with [SetContextMetadata]. *)
Definition event_metadata (ctx : Context) : strmap := Inject ctx (originFromContext ctx).

Definition StartLinked (ctx : Context) (name : string) (meta : strmap) (t : Tracer) : Context * nat * Tracer :=
  let origin := spanContextFrom meta in
  let batch := ctx_span ctx in
  let links := (if IsValid origin then [origin] else []) ++ (if IsValid batch then [batch] else []) in
  let '(ctx', span, t') := start ctx name (mkStart true Consumer links) t in
  (WithOrigin ctx' meta, span, t').

Definition StartBatch (ctx : Context) (name : string) (t : Tracer) : Context * nat * Tracer :=
  start ctx name (mkStart true Consumer []) t.

(** [span.RecordError(err); span.SetStatus(codes.Error, ...)] when there is an
    error, and [span.End()]. *)
Definition finish (span : nat) (r : res unit) (t : Tracer) : Tracer :=
  alter end_span span (match r with Err e => alter (record_error e) span t | _ => t end).

(** ** broker.go: publishing *)

Definition publishLinkCap : nat := 8.

Section publish.
(** The identifiers a traceparent holds. *)
Variables (trace_id span_id : SpanContext -> string).

Definition identity (sc : SpanContext) : string * string := (trace_id sc, span_id sc).

(** The loop of [creationContexts], with what it has seen and found so far. *)
Fixpoint creation_loop (caller : SpanContext) (msgs : list Message) (seen : list (string * string))
    (out : list SpanContext) (carried : nat) : list SpanContext * nat :=
  match msgs with
  | [] => (out, carried)
  | m :: rest =>
    let sc := liveSpanContextFrom (msg_Metadata m) in
    if negb (IsValid sc) then creation_loop caller rest seen out carried else
    if decide (identity sc = identity caller \/ identity sc ∈ seen)
    then creation_loop caller rest seen out (S carried)
    else creation_loop caller rest (identity sc :: seen) (out ++ [sc]) (S carried)
  end.

Definition creationContexts (msgs : list Message) (caller : SpanContext) : list SpanContext * nat :=
  creation_loop caller msgs [] [] 0.

Definition publishSpanStart (ctx : Context) (msgs : list Message) : Context * span_start :=
  let caller := ctx_span ctx in
  let '(creation, carried) := creationContexts msgs caller in
  match creation with
  | [sc] =>
    if negb (IsValid caller) && bool_decide (carried = length msgs)
    then (with_span sc ctx, mkStart false Producer [])
    else (ctx, mkStart false Producer [sc])
  | _ => (ctx, mkStart false Producer (take publishLinkCap creation))
  end.

Definition with_metadata (md : strmap) (m : Message) : Message :=
  mkMessage (msg_ID m) (msg_Key m) (msg_Type m) (msg_Version m) (msg_OccurredAt m) (msg_Payload m) md.

(** Inject if absent. *)
Definition inject_absent (ctx : Context) (m : Message) : Message :=
  if decide (entry (msg_Metadata m) "traceparent" = "") then with_metadata (Inject ctx (msg_Metadata m)) m else m.

(** [tracingPublisher.Publish], around any publisher. *)
Definition traced_Publish {P} `{Publisher P} (ctx : Context) (topic : string) (msgs : list Message) (p : P) (t : Tracer)
    : res unit * P * Tracer :=
  let '(ctx1, o) := publishSpanStart ctx msgs in
  let '(ctx2, span, t1) := start ctx1 ("publish " +:+ topic) o t in
  let '(r, p') := Publish topic (inject_absent ctx2 <$> msgs) p in
  (r, p', finish span r t1).
End publish.

(** ** broker.go: consuming *)

Definition consumeSpanName (topic group messageType : string) : string :=
  if decide (group <> "" /\ messageType <> "") then "consume " +:+ group +:+ " " +:+ messageType
  else if decide (group <> "") then "consume " +:+ group
  else "consume " +:+ topic.

Section world.
Context {W : Type} `{Traced W}.

(** [tracer().Start] and the end of a span in a world. *)
Definition start_in (ctx : Context) (name : string) (o : span_start) (w : W) : Context * nat * W :=
  let '(ctx', span, t) := start ctx name o (tracer_of w) in (ctx', span, set_tracer t w).
Definition finish_in (span : nat) (r : res unit) (w : W) : W := set_tracer (finish span r (tracer_of w)) w.

(** The handler [tracingSubscriber] subscribes with. *)
Definition traced_handler (topic group : string) (handler : Context -> Message -> W -> res unit * W)
    (ctx : Context) (msg : Message) (w : W) : res unit * W :=
  let ctx0 := Extract ctx (msg_Metadata msg) in
  let '(ctx1, span, w1) := start_in ctx0 (consumeSpanName topic group (msg_Type msg)) (mkStart false Consumer []) w in
  let '(r, w2) := handler ctx1 msg w1 in (r, finish_in span r w2).

(** ** cqrs.go *)

Section middleware.
Context {Cmd : Type} `{Command Cmd}.

(** A rejection is recorded as its code, not as an error of the span. *)
Definition CommandMiddleware (next : HandlerFunc Cmd W) : HandlerFunc Cmd W :=
  fun ctx cmd w =>
    let '(ctx1, span, w1) := start_in ctx ("command " +:+ CommandName cmd) (mkStart false Internal []) w in
    let '(r, w2) := next ctx1 cmd w1 in
    let t := tracer_of w2 in
    let t' :=
      match r with
      | Err e =>
        match AsDomainError e with
        | Some de => alter (record_rejection (Code de)) span t
        | None => alter (record_error e) span t
        end
      | _ => t
      end in
    (r, set_tracer (alter end_span span t') w2).

(** It passes every command on, and touches the tracer alone. *)
Lemma command_middleware_passes : passes (fun w w' => exists t, w' = set_tracer t w) CommandMiddleware.
Proof.
  intros next ctx cmd w. unfold CommandMiddleware, start_in.
  destruct (start _ _ _ _) as [[ctx1 span] t]. exists ctx1, (set_tracer t w). split; [by exists t|].
  destruct (next ctx1 cmd (set_tracer t w)) as [r w2]. eexists. split; [reflexivity | by eexists].
Qed.
End middleware.

Section query.
Context {Q V : Type} `{Query Q}.

Definition QueryMiddleware (next : QueryHandlerFunc Q V W) : QueryHandlerFunc Q V W :=
  fun ctx q w =>
    let '(ctx1, span, w1) := start_in ctx ("query " +:+ QueryName q) (mkStart false Internal []) w in
    let '(r, w2) := next ctx1 q w1 in
    (r, finish_in span (match r with Ok _ => Ok tt | Err e => Err e | Panic m => Panic m end) w2).
End query.
End world.

(** ** projection.go *)

Definition projectSpanName (item : Item) : string :=
  if decide (item_Name item = "") then "project " +:+ item_Projection item
  else "project " +:+ item_Projection item +:+ " " +:+ item_Name item.

Definition ProjectionHook {V} `{Traced V} (continueTrace : bool) : Observer V :=
  fun ctx item v =>
    let name := projectSpanName item in
    let '(ctx1, span, t) :=
      if continueTrace then start (Extract ctx (item_Metadata item)) name (mkStart false Consumer []) (tracer_of v)
      else StartLinked ctx name (item_Metadata item) (tracer_of v) in
    (ctx1, Some (fun r v' => finish_in span r v'), set_tracer t v).

(** ** Facts *)

Lemma entry_set key value meta k : entry (set_entry key value meta) k = (if decide (k = key) then value else entry meta k).
Proof. clear parse_span parse_baggage fresh.
  unfold entry, set_entry. simpl. case_decide as Hk; [subst; by rewrite lookup_insert_eq|].
  rewrite lookup_insert_ne by done. by destruct meta; [|simpl; rewrite lookup_empty].
Qed.

Lemma entry_nonempty key value meta k :
  entry (set_nonempty key value meta) k = (if decide (k = key /\ value <> "") then value else entry meta k).
Proof. clear parse_span parse_baggage fresh.
  unfold set_nonempty. case_decide as Hv.
  - by rewrite decide_False by naive_solver.
  - rewrite entry_set. repeat case_decide; naive_solver.
Qed.

Lemma entry_some meta k : entry meta k <> "" -> no_entries meta = false.
Proof. clear parse_span parse_baggage fresh.
  unfold entry, no_entries. destruct meta as [m|]; [|done]. intros Hk. apply bool_decide_eq_false. intros ->. apply Hk. simpl.
  by rewrite lookup_empty.
Qed.

Lemma IsValid_nonempty sc : IsValid sc = true <-> traceparent sc <> "".
Proof. clear parse_span parse_baggage fresh. unfold IsValid. rewrite negb_true_iff, bool_decide_eq_false. done. Qed.

(** What [Inject] leaves under the live keys and under any other. *)
Lemma entry_Inject ctx meta k :
  k <> "tracestate" -> k <> "baggage" ->
  entry (Inject ctx meta) k
  = (if decide (k = "traceparent" /\ IsValid (ctx_span ctx) = true) then traceparent (ctx_span ctx) else entry meta k).
Proof. clear parse_span parse_baggage fresh.
  intros Hs Hb. unfold Inject. destruct (IsValid (ctx_span ctx)) eqn:Hv; cbn [negb].
  - rewrite !entry_nonempty, entry_set. repeat case_decide; naive_solver.
  - rewrite decide_False by naive_solver. done.
Qed.

Lemma entry_Inject_state ctx :
  IsValid (ctx_span ctx) = true -> forall meta, entry meta "tracestate" = "" ->
  entry (Inject ctx meta) "tracestate" = tracestate (ctx_span ctx).
Proof. clear parse_span parse_baggage fresh.
  intros Hv meta Hm. unfold Inject. rewrite Hv. cbn [negb]. rewrite !entry_nonempty, entry_set, Hm.
  rewrite (decide_False (P := "tracestate" = "baggage" /\ _)) by (intros [? _]; discriminate).
  destruct (decide (tracestate (ctx_span ctx) = "")) as [->|Hne]; [by rewrite !decide_False by naive_solver | by rewrite decide_True].
Qed.

Lemma OriginMetadata_origin meta :
  entry meta OriginTraceparentKey <> "" ->
  OriginMetadata meta = set_nonempty OriginTracestateKey (entry meta OriginTracestateKey)
    (set_entry OriginTraceparentKey (entry meta OriginTraceparentKey) None).
Proof. clear parse_span parse_baggage fresh.
  intros Hk. unfold OriginMetadata. rewrite (entry_some _ _ Hk). by rewrite decide_True.
Qed.

(** A stamp read back under its keys is itself. *)
Lemma OriginMetadata_entries meta o :
  OriginMetadata meta = Some o ->
  entry (Some o) OriginTraceparentKey <> "" /\ entry (Some o) "traceparent" = "" /\ entry (Some o) "tracestate" = ""
  /\ forall meta', entry meta' OriginTraceparentKey = entry (Some o) OriginTraceparentKey ->
       entry meta' OriginTracestateKey = entry (Some o) OriginTracestateKey -> OriginMetadata meta' = Some o.
Proof. clear parse_span parse_baggage fresh.
  assert (forall tp ts, tp <> "" -> forall o, set_nonempty OriginTracestateKey ts (set_entry OriginTraceparentKey tp None) = Some o ->
    entry (Some o) OriginTraceparentKey <> "" /\ entry (Some o) "traceparent" = "" /\ entry (Some o) "tracestate" = ""
    /\ forall meta', entry meta' OriginTraceparentKey = entry (Some o) OriginTraceparentKey ->
       entry meta' OriginTracestateKey = entry (Some o) OriginTracestateKey -> OriginMetadata meta' = Some o) as Hgen.
  { intros tp ts Htp o' <-. rewrite !entry_nonempty, !entry_set. repeat (rewrite decide_False by (vm_compute; naive_solver)).
    rewrite decide_True by done. split_and!; try done. intros meta' H1 H2.
    assert (entry meta' OriginTracestateKey = ts) as H2'.
    { rewrite H2. case_decide as Hd; [done|]. cbn. destruct (decide (ts = "")); naive_solver. }
    rewrite OriginMetadata_origin by congruence. by rewrite H1, H2'. }
  unfold OriginMetadata. destruct (no_entries meta); [done|]. case_decide as H1; [by apply Hgen|].
  case_decide as H2; [by apply Hgen | done].
Qed.

(** ** Publishing *)

Section creation.
Variables (trace_id span_id : SpanContext -> string).
#[local] Abbreviation ident := (identity trace_id span_id).

(** The live contexts the messages carry. *)
Definition carried_contexts (msgs : list Message) : list SpanContext :=
  filter (fun sc => IsValid sc = true) ((fun m => liveSpanContextFrom (msg_Metadata m)) <$> msgs).

Lemma creation_loop_spec caller msgs : forall seen out carried,
  NoDup (ident <$> out) -> (forall i, i ∈ seen <-> i ∈ ident <$> out) -> ident caller ∉ ident <$> out ->
  let '(out', carried') := creation_loop trace_id span_id caller msgs seen out carried in
  NoDup (ident <$> out') /\ ident caller ∉ ident <$> out'
  /\ (exists k, out' = out ++ k /\ forall sc, sc ∈ k -> sc ∈ carried_contexts msgs)
  /\ (forall sc, sc ∈ carried_contexts msgs -> ident sc = ident caller \/ ident sc ∈ ident <$> out')
  /\ carried' = (carried + length (carried_contexts msgs))%nat.
Proof. clear fresh.
  induction msgs as [|m msgs IH]; intros seen out carried Hnd Hseen Hcaller; cbn [creation_loop].
  { split; [done|]. split; [done|]. unfold carried_contexts. simpl.
    split; [exists []; rewrite app_nil_r; split; [done|]; intros sc Hsc; by apply elem_of_nil in Hsc|].
    split; [intros sc Hsc; by apply elem_of_nil in Hsc | lia]. }
  unfold carried_contexts. rewrite fmap_cons, filter_cons. fold (carried_contexts msgs).
  set (sc := liveSpanContextFrom (msg_Metadata m)). destruct (IsValid sc) eqn:Hv; cbn [negb].
  2: { rewrite !(decide_False (P := false = true)) by done. by apply IH. }
  rewrite !(decide_True (P := true = true)) by done. case_decide as Hknown.
  - specialize (IH seen out (S carried) Hnd Hseen Hcaller).
    destruct (creation_loop _ _ _ _ _ _ _) as [out' carried']. destruct IH as (H1 & H2 & (k & Hk & Hin) & Hall & Hc).
    split_and!; try done.
    + exists k. split; [done|]. intros x Hx. right. by apply Hin.
    + intros x [->|Hx]%elem_of_cons; [|by apply Hall]. destruct Hknown as [?|Hs]; [by left | right].
      rewrite Hk, fmap_app. apply elem_of_app. left. by apply Hseen.
    + simpl. lia.
  - assert (ident sc <> ident caller /\ ident sc ∉ seen) as [Hnc Hns] by tauto.
    assert (NoDup (ident <$> (out ++ [sc]))) as Hnd'.
    { rewrite fmap_app. apply NoDup_app. split_and!; [done| |apply NoDup_singleton].
      intros x Hx Hx'%list_elem_of_singleton. apply Hns, Hseen. by rewrite <-Hx'. }
    specialize (IH (ident sc :: seen) (out ++ [sc]) (S carried) Hnd').
    destruct (creation_loop _ _ _ _ _ _ _) as [out' carried']. destruct IH as (H1 & H2 & (k & Hk & Hin) & Hall & Hc).
    + intros x. rewrite fmap_app, elem_of_app, elem_of_cons, Hseen. simpl. rewrite list_elem_of_singleton. tauto.
    + rewrite fmap_app, elem_of_app. simpl. rewrite list_elem_of_singleton. intros [?|?]; [done | congruence].
    + split_and!; try done.
      * exists (sc :: k). rewrite Hk, <-app_assoc. split; [done|]. intros x [->|Hx]%elem_of_cons; [by left | right; by apply Hin].
      * intros x [->|Hx]%elem_of_cons; [right | by apply Hall].
        rewrite Hk, fmap_app, elem_of_app. left. rewrite fmap_app, elem_of_app. right. by left.
      * simpl. lia.
Qed.

Lemma creationContexts_spec caller msgs :
  let '(out, carried) := creationContexts trace_id span_id msgs caller in
  NoDup (ident <$> out) /\ ident caller ∉ ident <$> out
  /\ (forall sc, sc ∈ out -> sc ∈ carried_contexts msgs)
  /\ (forall sc, sc ∈ carried_contexts msgs -> ident sc = ident caller \/ ident sc ∈ ident <$> out)
  /\ carried = length (carried_contexts msgs).
Proof.
  unfold creationContexts.
  pose proof (creation_loop_spec caller msgs [] [] 0 NoDup_nil_2) as Hloop.
  destruct (creation_loop _ _ _ _ _ _ _) as [out carried].
  destruct Hloop as (? & ? & (k & -> & Hin) & ? & ?); [done | intros Hn; by apply elem_of_nil in Hn | done].
Qed.

(** Every message carries a live context. *)
Lemma all_carried msgs :
  length (carried_contexts msgs) = length msgs ->
  forall m, m ∈ msgs -> IsValid (liveSpanContextFrom (msg_Metadata m)) = true.
Proof. clear fresh.
  unfold carried_contexts. induction msgs as [|m msgs IH]; [intros _ m Hm; by apply elem_of_nil in Hm|].
  rewrite fmap_cons, filter_cons. intros Hlen.
  pose proof (length_filter (fun sc => IsValid sc = true) ((fun m => liveSpanContextFrom (msg_Metadata m)) <$> msgs)) as Hle.
  rewrite length_fmap in Hle. case_decide as Hv; simpl in Hlen; [|lia].
  intros m' [->|Hm']%elem_of_cons; [done|]. apply IH; [lia | done].
Qed.

Lemma carried_all msgs :
  (forall m, m ∈ msgs -> IsValid (liveSpanContextFrom (msg_Metadata m)) = true) ->
  carried_contexts msgs = (fun m => liveSpanContextFrom (msg_Metadata m)) <$> msgs.
Proof. clear fresh.
  intros Hall. unfold carried_contexts. apply filter_all. rewrite Forall_fmap, Forall_forall. exact Hall.
Qed.
End creation.

(** ** The origin stamp *)

(** A context whose origin is a stamp [WithOrigin] put there, or none. *)
Definition stamped (ctx : Context) : Prop := ctx_origin ctx = None \/ exists meta, ctx_origin ctx = OriginMetadata meta.

Lemma stamped_none_state ctx : stamped ctx -> entry (originFromContext ctx) "tracestate" = "".
Proof. clear fresh.
  unfold originFromContext. intros Hs. destruct (no_entries (ctx_origin ctx)); [done|].
  destruct Hs as [Hn|(meta & Hm)]; [by rewrite Hn|]. rewrite Hm.
  destruct (OriginMetadata meta) as [o|] eqn:Ho; [|done]. by apply OriginMetadata_entries in Ho as (_ & _ & ? & _).
Qed.

Lemma WithOrigin_origin ctx meta o : OriginMetadata meta = Some o -> originFromContext (WithOrigin ctx meta) = Some o.
Proof. clear fresh.
  intros Ho. unfold originFromContext, WithOrigin. rewrite Ho. simpl.
  apply OriginMetadata_entries in Ho as (Hk & _). apply entry_some in Hk. simpl in Hk. by rewrite Hk.
Qed.

(** Metadata stamped under a context with an origin hands that origin on. *)
Lemma event_metadata_origin ctx meta o :
  OriginMetadata meta = Some o -> OriginMetadata (event_metadata (WithOrigin ctx meta)) = Some o.
Proof. clear fresh.
  intros Ho. pose proof (OriginMetadata_entries _ _ Ho) as (Hk & _ & _ & Hread). apply Hread;
    unfold event_metadata; rewrite (WithOrigin_origin _ _ _ Ho), entry_Inject by (vm_compute; discriminate);
    rewrite decide_False; try done; intros [Heq _]; vm_compute in Heq; discriminate.
Qed.

(** Metadata stamped under a span that can be read back gives that span. *)
Lemma live_event_metadata ctx :
  stamped ctx -> IsValid (ctx_span ctx) = true ->
  parse_span (traceparent (ctx_span ctx)) (tracestate (ctx_span ctx)) = ctx_span ctx ->
  entry (event_metadata ctx) "traceparent" = traceparent (ctx_span ctx)
  /\ entry (event_metadata ctx) "tracestate" = tracestate (ctx_span ctx).
Proof. clear fresh.
  intros Hst Hv Hp. unfold event_metadata. split.
  - rewrite entry_Inject by discriminate. by rewrite decide_True.
  - apply entry_Inject_state; [done | by apply stamped_none_state].
Qed.

(** What a carrier with the two live headers is read as. *)
Lemma Extract_carrier tp ts :
  tp <> "" ->
  ctx_span (Extract background (set_nonempty "tracestate" ts (set_entry "traceparent" tp None)))
  = (if IsValid (parse_span tp ts) then parse_span tp ts else no_span).
Proof. clear fresh.
  intros Htp. unfold Extract.
  assert (entry (set_nonempty "tracestate" ts (set_entry "traceparent" tp None)) "traceparent" = tp) as E1.
  { rewrite entry_nonempty, entry_set, decide_False by (intros [? _]; discriminate). done. }
  assert (entry (set_nonempty "tracestate" ts (set_entry "traceparent" tp None)) "tracestate" = ts) as E2.
  { rewrite entry_nonempty, entry_set. destruct (decide (ts = "")) as [->|]; [done | by rewrite decide_True]. }
  rewrite (entry_some _ "traceparent") by congruence. rewrite E1, E2.
  by destruct (IsValid (parse_span tp ts)); case_decide.
Qed.

Lemma live_readable meta sc :
  IsValid sc = true -> parse_span (traceparent sc) (tracestate sc) = sc ->
  entry meta "traceparent" = traceparent sc -> entry meta "tracestate" = tracestate sc ->
  liveSpanContextFrom meta = sc /\ spanContextFrom meta = sc /\ forall ctx, ctx_span (Extract ctx meta) = sc.
Proof. clear fresh.
  intros Hv Hp H1 H2. pose proof (proj1 (IsValid_nonempty sc) Hv) as Hne.
  assert (liveSpanContextFrom meta = sc) as Hl.
  { unfold liveSpanContextFrom. rewrite H1, H2, decide_False by done. rewrite Extract_carrier, Hp, Hv by done. done. }
  split; [done|]. split; [unfold spanContextFrom; by rewrite Hl, Hv|].
  intros ctx. unfold Extract. rewrite (entry_some _ "traceparent") by congruence. rewrite H1, H2, Hp, Hv.
  by case_decide.
Qed.
End tracing.
