(* ===== verification/Traces.v ===== *)
(** * One trace across processes: what the tracing wrappers of o11y guarantee

    The theorems on [Tracing]: a trace survives the hand-over from the event
    that was stored to the handler that consumes it, a durable hand-off links
    instead of parenting and keeps its first origin, and the wrappers change
    nothing but the tracer and the metadata. *)

From S2P Require Import Prelude Errors GoTime Json KernelId Kernel EventStore MemoryStore Registry Checkpoint Repository Broker Inbox Cqrs Projection Tracing.

(** What the code relies on of OpenTelemetry: the SDK starts spans with valid
    contexts, of their parent's trace when they have one; a context written
    by the propagator is read back; two contexts one of which is invalid do
    not have the same identifiers. *)
Record sdk_laws (parse_span : string -> string -> SpanContext) (fresh : nat -> SpanContext -> SpanContext)
    (trace_id span_id : SpanContext -> string) : Prop := {
  fresh_valid n p : IsValid (fresh n p) = true;
  fresh_read n p : parse_span (traceparent (fresh n p)) (tracestate (fresh n p)) = fresh n p;
  fresh_trace n p : IsValid p = true -> trace_id (fresh n p) = trace_id p;
  identity_valid a b : IsValid a = true -> IsValid b = false ->
    identity trace_id span_id a <> identity trace_id span_id b;
}.

(** One durable hand-off after another: a worker starts its span from the
    metadata of a row and its events are stamped with its context. *)
Fixpoint hand_offs parse_span parse_baggage fresh (meta : strmap) (workers : list (Context * string)) (t : Tracer)
    : strmap * Tracer :=
  match workers with
  | [] => (meta, t)
  | (ctx, name) :: rest =>
    let '(ctx', _, t') := StartLinked parse_span parse_baggage fresh ctx name meta t in
    hand_offs parse_span parse_baggage fresh (event_metadata ctx') rest t'
  end.

(** Each span is a new root linked to the one before it. *)
Fixpoint linked_chain (prev : SpanContext) (spans : list Span) : Prop :=
  match spans with
  | [] => True
  | s :: rest => sp_parent s = no_span /\ prev ∈ sp_links s /\ linked_chain (sp_context s) rest
  end.

(** A message the publisher handed on: only an absent traceparent is filled. *)
Definition handed_on (sc : SpanContext) (m m' : Message) : Prop :=
  (exists md, m' = with_metadata md m)
  /\ entry (msg_Metadata m') "traceparent"
     = (if decide (entry (msg_Metadata m) "traceparent" = "") then traceparent sc else entry (msg_Metadata m) "traceparent").

Section traces.
Context (parse_span : string -> string -> SpanContext) (parse_baggage : string -> string)
  (fresh : nat -> SpanContext -> SpanContext) (trace_id span_id : SpanContext -> string).
#[local] Abbreviation ident := (identity trace_id span_id).
#[local] Abbreviation live := (liveSpanContextFrom parse_span parse_baggage).

Lemma inject_absent_present ctx m :
  entry (msg_Metadata m) "traceparent" <> "" -> inject_absent ctx m = m.
Proof. intros Hm. unfold inject_absent. by rewrite decide_False. Qed.

Lemma inject_absent_handed_on ctx m : IsValid (ctx_span ctx) = true -> handed_on (ctx_span ctx) m (inject_absent ctx m).
Proof.
  intros Hv. unfold handed_on, inject_absent. case_decide as Hd; simpl.
  - split; [by eexists|]. rewrite entry_Inject by discriminate. by rewrite decide_True.
  - split; [exists (msg_Metadata m); destruct m; reflexivity | reflexivity].
Qed.

(** C25: A trace is not broken by the durable hand-over. Metadata stamped when
    an event is stored under a valid span that can be read back (and under an
    origin stamp or none) keeps its headers through any tracing publisher,
    and the subscriber's handler then runs under a started span that is a
    child of the original one, in its trace. *)
Theorem trace_survives_hand_over
    (Hsdk : sdk_laws parse_span fresh trace_id span_id) {W} `{Traced W}
    (ctx pctx cctx : Context) (m : Message) (topic group : string)
    (handler : Context -> Message -> W -> res unit * W) (w : W)
    (Hst : stamped ctx) (Hv : IsValid (ctx_span ctx) = true)
    (Hread : parse_span (traceparent (ctx_span ctx)) (tracestate (ctx_span ctx)) = ctx_span ctx)
    (Hm : msg_Metadata m = event_metadata ctx) :
  let m' := inject_absent pctx m in
  m' = m
  /\ exists s ctx', sp_parent s = ctx_span ctx /\ sp_context s = ctx_span ctx'
     /\ trace_id (ctx_span ctx') = trace_id (ctx_span ctx) /\ IsValid (ctx_span ctx') = true
     /\ traced_handler parse_span parse_baggage fresh topic group handler cctx m' w
        = (let '(r, w') := handler ctx' m' (set_tracer (tracer_of w ++ [s]) w) in
           (r, finish_in (length (tracer_of w)) r w')).
Proof.
  intros m'. destruct (live_event_metadata parse_span ctx Hst Hv Hread) as [Htp Hts].
  assert (m' = m) as -> by (apply inject_absent_present; rewrite Hm, Htp; by apply IsValid_nonempty).
  split; [done|]. rewrite <-Hm in Htp, Hts.
  destruct (live_readable parse_span parse_baggage _ _ Hv Hread Htp Hts) as (_ & _ & Hext).
  unfold traced_handler, start_in, start. cbn [ss_new_root]. rewrite Hext.
  exists (mkSpan (consumeSpanName topic group (msg_Type m)) (fresh (length (tracer_of w)) (ctx_span ctx)) (ctx_span ctx)
            Consumer [] None None false),
    (with_span (fresh (length (tracer_of w)) (ctx_span ctx)) (Extract parse_span parse_baggage cctx (msg_Metadata m))).
  split_and!; [reflexivity | reflexivity | by apply Hsdk | by apply Hsdk | reflexivity].
Qed.

Lemma StartLinked_spec (Hsdk : sdk_laws parse_span fresh trace_id span_id) ctx name meta t o :
  stamped ctx -> OriginMetadata meta = Some o ->
  let origin := spanContextFrom parse_span parse_baggage meta in
  exists s ctx', StartLinked parse_span parse_baggage fresh ctx name meta t = (ctx', length t, t ++ [s])
    /\ sp_parent s = no_span /\ (IsValid origin = true -> origin ∈ sp_links s)
    /\ OriginMetadata (event_metadata ctx') = Some o
    /\ spanContextFrom parse_span parse_baggage (event_metadata ctx') = sp_context s
    /\ IsValid (sp_context s) = true.
Proof.
  intros Hst Ho origin. unfold StartLinked, start. cbn [ss_new_root]. fold origin.
  set (sc := fresh (length t) no_span). set (c := with_span sc ctx).
  assert (stamped (WithOrigin c meta)) as Hst'.
  { right. exists meta. unfold WithOrigin. rewrite Ho. done. }
  assert (ctx_span (WithOrigin c meta) = sc) as Hsc by (unfold WithOrigin; by rewrite Ho).
  assert (IsValid sc = true) as Hv by apply Hsdk.
  destruct (live_event_metadata parse_span _ Hst') as [Htp Hts]; [by rewrite Hsc | rewrite Hsc; apply Hsdk|].
  rewrite Hsc in Htp, Hts.
  eexists _, _. split; [reflexivity|]. simpl. split_and!.
  - done.
  - intros ->. apply elem_of_app. left. by left.
  - by apply event_metadata_origin.
  - by apply (live_readable parse_span parse_baggage _ sc); [|apply Hsdk| |].
  - done.
Qed.

(** Durable hand-offs keep their first origin. However many workers pick up
    each other's rows, each starting its span from the metadata of the row:
    the last row still carries the origin stamp of the first, every span
    started is a new root, never a child of the work that caused it, and each
    is linked to the one before it. *)
Theorem first_origin_survives
    (Hsdk : sdk_laws parse_span fresh trace_id span_id)
    (workers : list (Context * string)) (meta o : strmap) (t : Tracer)
    (Hst : Forall (fun w => stamped w.1) workers) (Ho : OriginMetadata meta = o) (Hsome : o <> None)
    (Hv : IsValid (spanContextFrom parse_span parse_baggage meta) = true) :
  let '(meta', t') := hand_offs parse_span parse_baggage fresh meta workers t in
  OriginMetadata meta' = o
  /\ exists spans, t' = t ++ spans /\ length spans = length workers
     /\ linked_chain (spanContextFrom parse_span parse_baggage meta) spans.
Proof.
  destruct o as [o|]; [|done]. clear Hsome. revert meta t Ho Hv.
  induction Hst as [|[ctx name] workers Hctx _ IH]; intros meta t Ho Hv; cbn [hand_offs].
  { split; [done|]. exists []. by rewrite app_nil_r. }
  destruct (StartLinked_spec Hsdk ctx name meta t o Hctx Ho) as (s & ctx' & -> & Hp & Hl & Ho' & Hsc & Hv').
  specialize (IH (event_metadata ctx') (t ++ [s]) Ho'). rewrite Hsc in IH. specialize (IH Hv').
  destruct (hand_offs _ _ _ _ _ _) as [meta' t']. destruct IH as (Hm & spans & -> & Hlen & Hchain).
  split; [done|]. exists (s :: spans). split; [by rewrite <-app_assoc|]. split; [simpl; lia|]. simpl. auto.
Qed.

(** ** Publishing *)

(** The whole batch belongs to one creation context. *)
Definition one_trace (msgs : list Message) : Prop :=
  msgs <> [] /\ exists i, Forall (fun m => IsValid (live (msg_Metadata m)) = true /\ ident (live (msg_Metadata m)) = i) msgs.

Lemma carried_elem sc msgs :
  sc ∈ carried_contexts parse_span parse_baggage msgs
  <-> IsValid sc = true /\ exists m, m ∈ msgs /\ sc = live (msg_Metadata m).
Proof.
  unfold carried_contexts. rewrite list_elem_of_filter, list_elem_of_fmap. naive_solver.
Qed.

Lemma NoDup_all_equal {A} (i : A) l : NoDup l -> Forall (eq i) l -> l <> [] -> l = [i].
Proof.
  intros Hnd Hall Hne. destruct l as [|x [|y l]]; [done|by inversion Hall; subst|].
  inversion Hall as [|? ? <- Hall']; subst. inversion Hall' as [|? ? <- _]; subst.
  inversion Hnd as [|? ? Hx _]; subst. exfalso. apply Hx. by left.
Qed.

(** Without a span of the caller's, a batch has exactly one creation context
    that every message carries iff it is of one trace. *)
Lemma creationContexts_single (Hsdk : sdk_laws parse_span fresh trace_id span_id) msgs caller :
  IsValid caller = false ->
  (exists sc, creationContexts parse_span parse_baggage trace_id span_id msgs caller = ([sc], length msgs)) <-> one_trace msgs.
Proof.
  intros Hcaller. pose proof (creationContexts_spec parse_span parse_baggage trace_id span_id caller msgs) as Hspec.
  destruct (creationContexts _ _ _ _ _ _) as [out carried]. destruct Hspec as (Hnd & _ & Hin & Hall & ->). split.
  - intros (sc & [= -> Hlen]). pose proof (all_carried parse_span parse_baggage _ Hlen) as Hv.
    assert (sc ∈ carried_contexts parse_span parse_baggage msgs) as Hsc by (apply Hin; by left).
    apply carried_elem in Hsc as (_ & m0 & Hm0 & _). split; [by intros ->; apply elem_of_nil in Hm0|].
    exists (ident sc). apply Forall_forall. intros m Hm. specialize (Hv m Hm). split; [done|].
    destruct (Hall (live (msg_Metadata m))) as [He|He]; [apply carried_elem; eauto | |].
    + by apply (identity_valid _ _ _ _ Hsdk _ caller) in He.
    + by apply list_elem_of_singleton in He.
  - intros (Hne & i & Hi). rewrite Forall_forall in Hi.
    assert (carried_contexts parse_span parse_baggage msgs = (fun m => live (msg_Metadata m)) <$> msgs) as Hc.
    { apply carried_all. intros m Hm. by apply Hi. }
    assert (ident <$> out = [i]) as Hone.
    { apply NoDup_all_equal; [done| |].
      - apply Forall_forall. intros j (sc & -> & Hsc)%list_elem_of_fmap.
        apply Hin, carried_elem in Hsc as (_ & m & Hm & ->). symmetry. by apply Hi.
      - destruct msgs as [|m msgs]; [done|]. destruct (Hi m ltac:(left)) as [Hv _].
        destruct (Hall (live (msg_Metadata m))) as [He|He]; [apply carried_elem; split; [done | exists m; split; [left | done]]| |].
        + by apply (identity_valid _ _ _ _ Hsdk _ caller) in He.
        + intros Hnil. rewrite Hnil in He. by apply elem_of_nil in He. }
    destruct out as [|sc [|? ?]]; [done| |done]. exists sc. by rewrite Hc, length_fmap.
Qed.

Lemma finish_snoc (t : Tracer) s r :
  finish (length t) r (t ++ [s]) = t ++ [end_span (match r with Err e => record_error e s | _ => s end)].
Proof. unfold finish. destruct r; by rewrite ?alter_app_r_alt, ?Nat.sub_diag by lia. Qed.

(** What [publishSpanStart] chooses. *)
Lemma publishSpanStart_spec (Hsdk : sdk_laws parse_span fresh trace_id span_id) ctx msgs :
  let '(ctx1, o) := publishSpanStart parse_span parse_baggage trace_id span_id ctx msgs in
  ss_new_root o = false
  /\ (IsValid (ctx_span ctx) = true -> ctx1 = ctx)
  /\ (IsValid (ctx_span ctx) = false ->
       IsValid (ctx_span ctx1) = true <-> one_trace msgs)
  /\ (ctx1 = ctx \/ ctx_span ctx1 ∈ carried_contexts parse_span parse_baggage msgs /\ ss_links o = [])
  /\ NoDup (ident <$> ss_links o) /\ ident (ctx_span ctx) ∉ ident <$> ss_links o
  /\ (length (ss_links o) <= 8)%nat
  /\ forall sc, sc ∈ ss_links o -> sc ∈ carried_contexts parse_span parse_baggage msgs.
Proof.
  unfold publishSpanStart. pose proof (creationContexts_single Hsdk msgs (ctx_span ctx)) as Hone.
  pose proof (creationContexts_spec parse_span parse_baggage trace_id span_id (ctx_span ctx) msgs) as Hspec.
  destruct (creationContexts _ _ _ _ _ _) as [out carried]. destruct Hspec as (Hnd & Hself & Hin & _ & Hcar).
  assert (forall l, l `prefix_of` out -> NoDup (ident <$> l) /\ ident (ctx_span ctx) ∉ ident <$> l
            /\ forall sc, sc ∈ l -> sc ∈ carried_contexts parse_span parse_baggage msgs) as Hpre.
  { intros l [k Hk]. rewrite Hk, fmap_app in Hnd, Hself. apply NoDup_app in Hnd as [? _]. rewrite elem_of_app in Hself.
    split_and!; [done | tauto | intros sc Hsc; apply Hin; rewrite Hk; apply elem_of_app; by left]. }
  destruct (Hpre (take publishLinkCap out)) as (Hnd' & Hself' & Hin'); [apply prefix_take|].
  assert (length (take publishLinkCap out) <= 8)%nat as Hlen by (rewrite length_take; unfold publishLinkCap; lia).
  destruct (IsValid (ctx_span ctx)) eqn:Hv; simpl.
  { assert (forall l : list SpanContext, match l with [sc] => (ctx, mkStart false Producer [sc]) | _ => (ctx, mkStart false Producer (take publishLinkCap l)) end
              = (ctx, mkStart false Producer (take publishLinkCap l))) as Hl by (by intros [|? [|? ?]]).
    rewrite Hl. simpl. split_and!; try done. by left. }
  destruct out as [|sc [|sc' out]].
  - simpl. specialize (Hone eq_refl). split_and!; try done; [|by left].
    intros _. rewrite <-Hone, Hv. split; [done | by intros (? & [=])].
  - case_bool_decide as Hc; simpl.
    + subst carried. destruct (Hpre []) as (? & ? & ?); [apply prefix_nil|]. split_and!; try done.
      * intros _. rewrite <-(Hone eq_refl), Hc. split; [by eexists|]. intros _. apply (carried_elem _ msgs), Hin. by left.
      * right. split; [apply Hin; by left | done].
      * lia.
    + split_and!; try done; [|by left]. intros _. rewrite <-(Hone eq_refl), Hv. split; [done|]. by intros (? & [= _ ?]).
  - split_and!; try done; [|by left]. intros _. rewrite <-(Hone eq_refl), Hv. split; [done | by intros (? & [=])].
Qed.

(** Tracing a publish changes nothing but headers that were absent. For any
    publisher: the wrapped publisher is called with the batch in order, each
    message only gaining a traceparent if it had none, and its result is
    returned. One span is recorded and ended, in error exactly when the publish
    was; it is a child of the caller's span, or, when the caller has none,
    of the batch's creation context exactly when the whole batch belongs to
    one. Its links are at most eight, to distinct contexts the batch carries,
    never to the caller's own span. *)
Theorem traced_publish_is_transparent
    (Hsdk : sdk_laws parse_span fresh trace_id span_id) {P} `{Publisher P}
    (ctx : Context) (topic : string) (msgs : list Message) (p : P) (t : Tracer) :
  let '(r, p', t') := traced_Publish parse_span parse_baggage fresh trace_id span_id ctx topic msgs p t in
  exists s msgs',
    Publish topic msgs' p = (r, p') /\ Forall2 (handed_on (sp_context s)) msgs msgs'
    /\ t' = t ++ [s] /\ sp_ended s = true /\ (forall e, sp_error s = Some e <-> r = Err e)
    /\ (IsValid (ctx_span ctx) = true -> sp_parent s = ctx_span ctx)
    /\ (IsValid (ctx_span ctx) = false ->
         (IsValid (sp_parent s) = true <-> one_trace msgs)
         /\ (IsValid (sp_parent s) = true -> sp_parent s ∈ carried_contexts parse_span parse_baggage msgs /\ sp_links s = []))
    /\ NoDup (ident <$> sp_links s) /\ ident (ctx_span ctx) ∉ ident <$> sp_links s
    /\ (length (sp_links s) <= 8)%nat
    /\ (forall sc, sc ∈ sp_links s -> sc ∈ carried_contexts parse_span parse_baggage msgs).
Proof.
  unfold traced_Publish. pose proof (publishSpanStart_spec Hsdk ctx msgs) as Hspec.
  destruct (publishSpanStart _ _ _ _ _ _) as [ctx1 o]. destruct Hspec as (Hroot & Hcaller & Hnone & Hctx & Hlinks).
  unfold start. rewrite Hroot. set (sc := fresh (length t) (ctx_span ctx1)).
  destruct (Publish topic (inject_absent (with_span sc ctx1) <$> msgs) p) as [r p'] eqn:Hpub.
  rewrite finish_snoc.
  set (s := end_span (match r with Err e => record_error e _ | _ => _ end)).
  assert (sp_context s = sc /\ sp_parent s = ctx_span ctx1 /\ sp_links s = ss_links o /\ sp_ended s = true
          /\ (forall e, sp_error s = Some e <-> r = Err e)) as (Hsc & Hpar & Hl & Hend & Herr)
    by (unfold s; destruct r; simpl; naive_solver).
  exists s, (inject_absent (with_span sc ctx1) <$> msgs). rewrite Hsc, Hpar, Hl. split; [exact Hpub|].
  split; [apply Forall2_fmap_r, Forall_Forall2_diag, Forall_forall; intros m _;
          apply (inject_absent_handed_on (with_span sc ctx1)); by apply Hsdk|].
  split_and!; try done; [intros Hv; by rewrite (Hcaller Hv) | | | by apply Hlinks..].
  - intros Hv. split; [by apply Hnone|]. destruct Hctx as [->|Hctx]; [by rewrite Hv | by intros _].
  - by apply Hlinks.
Qed.
End traces.

(** ** Commands *)

(** A rejection is not a failure of the span. The tracing middleware runs the
    handler once under a started child span and returns its result; on that
    span (left unmarked by the handler) it records the code of a domain error
    and nothing else for one, the error for any other failure, neither for a
    success, and ends it; the spans of others are as the handler left them. *)
Theorem rejections_are_not_span_errors
    {W} `{Traced W} {Cmd} `{Command Cmd} (fresh : nat -> SpanContext -> SpanContext)
    (next : HandlerFunc Cmd W) (ctx : Context) (cmd : Cmd) (w w2 : W) (r : res unit) (s : Span) :
  let n := length (tracer_of w) in
  let sc := fresh n (ctx_span ctx) in
  next (with_span sc ctx) cmd
    (set_tracer (tracer_of w ++ [mkSpan ("command " +:+ CommandName cmd) sc (ctx_span ctx) Internal [] None None false]) w)
    = (r, w2) ->
  tracer_of w2 !! n = Some s -> sp_error s = None -> sp_rejection s = None ->
  exists w' s', CommandMiddleware fresh next ctx cmd w = (r, w')
    /\ tracer_of w' !! n = Some s' /\ sp_ended s' = true
    /\ (forall e, sp_error s' = Some e <-> r = Err e /\ AsDomainError e = None)
    /\ (forall code, sp_rejection s' = Some code <-> exists e de, r = Err e /\ AsDomainError e = Some de /\ Code de = code)
    /\ forall i, i <> n -> tracer_of w' !! i = tracer_of w2 !! i.
Proof.
  intros n sc Hnext Hs He Hr. unfold CommandMiddleware, start_in, start. cbn [ss_new_root ss_kind ss_links].
  fold n. fold sc. rewrite Hnext.
  set (mark := fun s => match r with
                        | Err e => match AsDomainError e with Some de => record_rejection (Code de) s | None => record_error e s end
                        | _ => s end).
  eexists _, (end_span (mark s)). split; [reflexivity|].
  rewrite tracer_set. split_and!.
  - rewrite list_lookup_alter_eq. unfold mark.
    destruct r as [|e|]; rewrite ?Hs; [done| |done]. by destruct (AsDomainError e); rewrite list_lookup_alter_eq, Hs.
  - done.
  - intros e. unfold mark. destruct r as [|e'|]; simpl; try naive_solver.
    destruct (AsDomainError e') eqn:Hd; simpl; naive_solver.
  - intros code. unfold mark. destruct r as [|e'|]; simpl; try naive_solver.
    destruct (AsDomainError e') eqn:Hd; simpl; naive_solver.
  - intros i Hi. rewrite list_lookup_alter_ne by done.
    destruct r as [|e|]; [done| |done]. by destruct (AsDomainError e); rewrite list_lookup_alter_ne.
Qed.

(** ** A tracer to run the theorems on *)

Module Sample.
#[export] Instance Tracer_traced : Traced Tracer := {| tracer_of t := t; set_tracer t _ := t; tracer_set _ _ := eq_refl |}.

(** Headers that hold a span identifier and, in the trace state, a trace identifier. *)
Definition parse_span : string -> string -> SpanContext := mkSpanContext.
Definition fresh (n : nat) (p : SpanContext) : SpanContext :=
  let id := "0" +:+ pretty (N.of_nat n) in mkSpanContext id (if IsValid p then tracestate p else id).

Lemma sdk_ok : sdk_laws parse_span fresh tracestate traceparent.
Proof.
  split; try done.
  - intros n p Hp. unfold fresh. by rewrite Hp.
  - intros a b Ha Hb [= _ Heq]. apply IsValid_nonempty in Ha. apply Ha. rewrite Heq.
    unfold IsValid in Hb. by apply negb_false_iff, bool_decide_eq_true in Hb.
Qed.

Definition root : SpanContext := fresh 7 no_span.
Definition ctx : Context := with_span root background.
Definition stored : strmap := event_metadata ctx.
Definition message : Message := mkMessage "m-1" "o-1" "ordering.OrderPlaced" 1 zero_time RawNil stored.

Inductive Ping := ping.
#[export] Instance Ping_command : Command Ping := fun _ => "Ping".
End Sample.
Import Sample.

Lemma trace_survives_hand_over_witness :
  exists s ctx', sp_parent s = Sample.root /\ sp_context s = ctx_span ctx'
    /\ tracestate (ctx_span ctx') = tracestate Sample.root
    /\ traced_handler Sample.parse_span (fun _ => "") Sample.fresh "t" "g" (fun _ _ w => (Ok tt, w)) background Sample.message []
       = (Ok tt, finish_in 0 (Ok tt) [s]).
Proof.
  destruct (trace_survives_hand_over Sample.parse_span (fun _ => "") Sample.fresh tracestate traceparent Sample.sdk_ok
    Sample.ctx background background Sample.message "t" "g" (fun _ _ w => (Ok tt, w)) ([] : Tracer)
    (or_introl eq_refl) eq_refl eq_refl eq_refl) as (_ & s & ctx' & Hp & Hc & Ht & _ & Hrun).
  exists s, ctx'. split; [exact Hp|]. split; [exact Hc|]. split; [exact Ht|]. exact Hrun.
Defined.

Lemma first_origin_survives_witness :
  let '(meta', t') := hand_offs Sample.parse_span (fun _ => "") Sample.fresh Sample.stored [(background, "a"); (background, "b")] [] in
  OriginMetadata meta' = OriginMetadata Sample.stored /\ length t' = 2%nat.
Proof.
  pose proof (first_origin_survives Sample.parse_span (fun _ => "") Sample.fresh tracestate traceparent Sample.sdk_ok
    [(background, "a"); (background, "b")] Sample.stored (OriginMetadata Sample.stored) []
    ltac:(repeat constructor) eq_refl ltac:(vm_compute; discriminate) eq_refl) as Hok.
  destruct (hand_offs _ _ _ _ _ _) as [meta' t']. destruct Hok as (Ho & spans & Ht & Hlen & _).
  split; [exact Ho | rewrite Ht; exact Hlen].
Defined.

Lemma traced_publish_is_transparent_witness :
  let '(r, _, t') := traced_Publish Sample.parse_span (fun _ => "") Sample.fresh tracestate traceparent
                       background "t" [Sample.message; Sample.message] NewMemoryBroker [] in
  r = Ok tt /\ exists s, t' = [s] /\ IsValid (sp_parent s) = true.
Proof.
  pose proof (traced_publish_is_transparent Sample.parse_span (fun _ => "") Sample.fresh tracestate traceparent Sample.sdk_ok
    background "t" [Sample.message; Sample.message] NewMemoryBroker []) as Hok.
  destruct (traced_Publish _ _ _ _ _ _ _ _ _ _) as [[r p'] t'].
  destruct Hok as (s & msgs' & Hpub & _ & Ht & _ & _ & _ & Hnone & _).
  split; [by injection Hpub|]. exists s. split; [exact Ht|]. destruct (Hnone eq_refl) as [Hiff _]. apply Hiff.
  split; [discriminate|]. eexists. repeat constructor.
Defined.

Lemma rejections_are_not_span_errors_witness :
  let refuse : HandlerFunc Sample.Ping Tracer := fun _ _ t => (Err (EDomain (mkDomainError "no" "refused")), t) in
  exists w' s', CommandMiddleware Sample.fresh refuse background Sample.ping [] = (Err (EDomain (mkDomainError "no" "refused")), w')
    /\ w' !! 0%nat = Some s' /\ sp_error s' = None /\ sp_rejection s' = Some "no".
Proof.
  intros refuse.
  destruct (rejections_are_not_span_errors (H := Sample.Tracer_traced) (H0 := Sample.Ping_command) Sample.fresh refuse background Sample.ping ([] : Tracer) _
    (Err (EDomain (mkDomainError "no" "refused"))) _ eq_refl eq_refl eq_refl eq_refl) as (w' & s' & Hrun & Hs & _ & He & Hr & _).
  exists w', s'. split; [exact Hrun|]. split; [exact Hs|]. split.
  - destruct (sp_error s') as [e|] eqn:Heq; [|reflexivity]. destruct (proj1 (He e) eq_refl) as [[= <-] Hd]. discriminate Hd.
  - apply Hr. eexists _, _. split; [reflexivity|]. split; reflexivity.
Defined.
