(* ===== verification/Telemetry.v ===== *)
(** * o11y/log.go and o11y/o11y.go: log handlers, set-up and shutdown

    The slog handlers, and [Init] with the shutdown it returns. The JSON and
    OTLP handlers, the exporters and the providers of the OpenTelemetry SDK
    are parameters. *)

From S2P Require Import Prelude Errors Json Checkpoint KernelId Kernel EventStore MemoryStore Registry Repository Broker Inbox Cqrs Projection Tracing.

(** ** errors.Join

    Nil when there is nothing to join. *)

Fixpoint join_from (e : error) (es : list error) : error :=
  match es with [] => e | e' :: rest => EJoin e (join_from e' rest) end.

Definition errors_Join (errs : list error) : res unit :=
  match errs with [] => Ok tt | e :: es => Err (join_from e es) end.

Lemma join_from_Is e es t : errors_Is (join_from e es) t = existsb (fun e => errors_Is e t) (e :: es).
Proof.
  revert e. induction es as [|e' es IH]; intros e; cbn [join_from existsb]; [by rewrite orb_false_r|].
  rewrite errors_Is_join. f_equal. exact (IH e').
Qed.

(** ** log.go *)

Record log_record := mkLogRecord { lr_Level : Z; lr_Message : string; lr_Attrs : list (string * string) }.

Definition AddAttrs (attrs : list (string * string)) (r : log_record) : log_record :=
  mkLogRecord (lr_Level r) (lr_Message r) (lr_Attrs r ++ attrs).

(** The handlers of the package, over those of others ([B]). *)
Inductive Handler (B : Type) :=
  | base (b : B)
  | logHandler (inner : Handler B)
  | fanout (hs : list (Handler B)).
Arguments base {B} _.
Arguments logHandler {B} _.
Arguments fanout {B} _.

Section handlers.
Context {B W : Type}.
Variables (base_Enabled : B -> Context -> Z -> bool) (base_Handle : B -> Context -> log_record -> W -> res unit * W)
  (base_WithAttrs : list (string * string) -> B -> B) (base_WithGroup : string -> B -> B).
(** The identifiers of a span, as text. *)
Variables (trace_id span_id : SpanContext -> string).
Implicit Types (h : Handler B) (r : log_record).

Definition NewLogHandler (inner : Handler B) : Handler B := logHandler inner.
Definition Fanout (hs : list (Handler B)) : Handler B := fanout hs.

Fixpoint Enabled h (ctx : Context) (level : Z) : bool :=
  match h with
  | base b => base_Enabled b ctx level
  | logHandler inner => Enabled inner ctx level
  | fanout hs => existsb (fun h => Enabled h ctx level) hs
  end.

(** [rec.AddAttrs], on the handler's own copy. *)
Definition correlated (ctx : Context) r : log_record :=
  if IsValid (ctx_span ctx) then AddAttrs [("trace_id", trace_id (ctx_span ctx)); ("span_id", span_id (ctx_span ctx))] r else r.

(** The loop of [fanout.Handle], with the errors so far. *)
Definition fanout_loop (handle : Handler B -> Context -> log_record -> W -> res unit * W) (ctx : Context) r :=
  fix loop (hs : list (Handler B)) (errs : list error) (w : W) : res unit * W :=
    match hs with
    | [] => (errors_Join errs, w)
    | h :: rest =>
      if negb (Enabled h ctx (lr_Level r)) then loop rest errs w else
      match handle h ctx r w with
      | (Ok _, w1) => loop rest errs w1
      | (Err e, w1) => loop rest (errs ++ [e]) w1
      | (Panic m, w1) => (Panic m, w1)
      end
    end.

Fixpoint Handle h (ctx : Context) r (w : W) : res unit * W :=
  match h with
  | base b => base_Handle b ctx r w
  | logHandler inner => Handle inner ctx (correlated ctx r) w
  | fanout hs => fanout_loop (fun h => Handle h) ctx r hs [] w
  end.

Fixpoint WithAttrs (attrs : list (string * string)) h : Handler B :=
  match h with
  | base b => base (base_WithAttrs attrs b)
  | logHandler inner => logHandler (WithAttrs attrs inner)
  | fanout hs => fanout (map (WithAttrs attrs) hs)
  end.

Fixpoint WithGroup (name : string) h : Handler B :=
  match h with
  | base b => base (base_WithGroup name b)
  | logHandler inner => logHandler (WithGroup name inner)
  | fanout hs => fanout (map (WithGroup name) hs)
  end.

(** [json] is [slog.NewJSONHandler] on the writer, [otlp] otelslog's handler
    of a name and a provider. *)
Definition NewSlogHandler {Provider} (json : B) (otlp : string -> Provider -> B) (name : string) (provider : option Provider) : Handler B :=
  let stdout := NewLogHandler (base json) in
  match provider with
  | None => stdout
  | Some p => Fanout [stdout; base (otlp name p)]
  end.

(** ** What a record reaches *)

(** The foreign handlers a record is for, each with the record it gets. *)
Fixpoint sinks h (ctx : Context) r : list (B * log_record) :=
  match h with
  | base b => [(b, r)]
  | logHandler inner => sinks inner ctx (correlated ctx r)
  | fanout hs => flat_map (fun h => if Enabled h ctx (lr_Level r) then sinks h ctx r else []) hs
  end.

(** Every sink called in order, whatever the others answer. *)
Fixpoint call_all (ctx : Context) (l : list (B * log_record)) (w : W) : list error * W :=
  match l with
  | [] => ([], w)
  | (b, r) :: rest =>
    let '(res, w1) := base_Handle b ctx r w in
    let '(errs, w2) := call_all ctx rest w1 in
    (match res with Err e => e :: errs | _ => errs end, w2)
  end.

Lemma call_all_app ctx l k w :
  call_all ctx (l ++ k) w = (fst (call_all ctx l w) ++ fst (call_all ctx k (snd (call_all ctx l w))), snd (call_all ctx k (snd (call_all ctx l w)))).
Proof.
  revert w. induction l as [|[b r] l IH]; intros w; cbn [app call_all fst snd]; [by destruct (call_all ctx k w)|].
  destruct (base_Handle b ctx r w) as [res w1]. rewrite IH. destruct (call_all ctx l w1) as [errs w2]. cbn [fst snd].
  by destruct res.
Qed.

(** Nested lists need an induction principle of their own. *)
Lemma Handler_nested_ind (P : Handler B -> Prop) :
  (forall b, P (base b)) -> (forall h, P h -> P (logHandler h)) -> (forall hs, Forall P hs -> P (fanout hs)) -> forall h, P h.
Proof.
  intros Hb Hl Hf. fix IH 1. intros [b|h|hs]; [apply Hb | apply Hl, IH | apply Hf].
  induction hs as [|h hs IHs]; constructor; [apply IH | exact IHs].
Qed.

(** The errors a handler reports, as one. *)
Definition reports (errs : list error) (res : res unit) : Prop :=
  match errs with
  | [] => res = Ok tt
  | _ => exists e, res = Err e /\ forall t, errors_Is e t = existsb (fun e => errors_Is e t) errs
  end.

Lemma reports_join errs : reports errs (errors_Join errs).
Proof. destruct errs as [|e es]; [done|]. exists (join_from e es). split; [done|]. apply join_from_Is. Qed.

Hypothesis no_panic : forall b ctx r w m, fst (base_Handle b ctx r w) <> Panic m.

Lemma reports_ext errs errs' res :
  (errs = [] <-> errs' = []) -> (forall t, existsb (fun e => errors_Is e t) errs = existsb (fun e => errors_Is e t) errs') ->
  reports errs res -> reports errs' res.
Proof.
  intros Hn He Hr. unfold reports in *. destruct errs as [|e es].
  - by rewrite (proj1 Hn eq_refl).
  - destruct errs' as [|e' es']; [discriminate (proj2 Hn eq_refl)|]. destruct Hr as (x & -> & Hx).
    exists x. split; [done|]. intros t. by rewrite Hx, He.
Qed.

(** A handled record reaches every sink. *)
Lemma Handle_reaches h : forall ctx r w,
  snd (Handle h ctx r w) = snd (call_all ctx (sinks h ctx r) w)
  /\ reports (fst (call_all ctx (sinks h ctx r) w)) (fst (Handle h ctx r w)).
Proof.
  induction h as [b|h IH|hs IH] using Handler_nested_ind; intros ctx r w; cbn [Handle sinks].
  - cbn [call_all]. pose proof (no_panic b ctx r w) as Hp. destruct (base_Handle b ctx r w) as [[[]|e|m] w1]; cbn [fst snd reports] in *.
    + done.
    + split; [done|]. exists e. split; [done|]. intros t. cbn [existsb]. by rewrite orb_false_r.
    + by destruct (Hp m).
  - apply IH.
  - enough (forall errs, snd (fanout_loop (fun h => Handle h) ctx r hs errs w)
        = snd (call_all ctx (flat_map (fun h => if Enabled h ctx (lr_Level r) then sinks h ctx r else []) hs) w)
      /\ reports (errs ++ fst (call_all ctx (flat_map (fun h => if Enabled h ctx (lr_Level r) then sinks h ctx r else []) hs) w))
           (fst (fanout_loop (fun h => Handle h) ctx r hs errs w))) as Hloop by exact (Hloop []).
    revert w. induction IH as [|h hs Hh _ IHs]; intros w errs.
    { cbn. rewrite app_nil_r. split; [done | apply reports_join]. }
    cbn [flat_map fanout_loop]. destruct (Enabled h ctx (lr_Level r)); cbn [negb app]; [|apply IHs].
    rewrite call_all_app. cbn [fst snd]. destruct (Hh ctx r w) as [Hw Hrep]. set (L := call_all ctx (sinks h ctx r) w) in *.
    destruct (Handle h ctx r w) as [[[]|e|m] w1]; cbn [fst snd] in *; subst w1.
    + assert (fst L = []) as -> by (destruct (fst L); [done | by destruct Hrep as (? & ? & _)]). apply IHs.
    + destruct (IHs (snd L) (errs ++ [e])) as [Hs Hr]. split; [exact Hs|]. eapply reports_ext; [| |exact Hr].
      * destruct (fst L); [by discriminate Hrep|]. split; intros Hx; by destruct errs.
      * intros t. rewrite !existsb_app. rewrite <-orb_assoc. f_equal. cbn [existsb]. rewrite orb_false_r.
        destruct (fst L) as [|e0 es]; [by discriminate Hrep|]. destruct Hrep as (x & [= <-] & Hx). by rewrite Hx.
    + destruct (fst L); [discriminate Hrep | by destruct Hrep as (? & ? & _)].
Qed.
End handlers.

(** ** o11y.go: Init and its shutdown *)

Record Config := mkConfig { ServiceName : string; OTLPEndpoint : string; WithoutExporter : bool }.

Inductive signal := Traces | Logs | Metrics.

(** The process-wide settings [Init] installs. *)
Record globals (Provider H : Type) := mkGlobals {
  g_metadata : Extractor; (* eventstore.SetContextMetadata *)
  g_logger : option H; (* slog.SetDefault *)
  g_providers : signal -> option Provider; (* otel.SetTracerProvider, ... *)
}.
Arguments mkGlobals {Provider H} _ _ _.
Arguments g_metadata {Provider H} _.
Arguments g_logger {Provider H} _.
Arguments g_providers {Provider H} _.

#[export] Instance signal_eq_dec : EqDecision signal.
Proof. solve_decision. Defined.

Section init.
Context {Resource Exporter Provider B W : Type}.
(** The SDK: merging a service's resource, an exporter of a signal for an
    optional endpoint, a provider over it, a provider's [Shutdown]. *)
Variables (resource_Merge : string -> W -> res Resource * W)
  (exporter_New : signal -> option string -> Context -> W -> res Exporter * W)
  (NewProvider : signal -> Exporter -> Resource -> W -> Provider * W)
  (Shutdown : Provider -> Context -> W -> res unit * W)
  (json : B) (otlp : string -> Provider -> B).

Definition settings : Type := globals Provider (Handler B) * W.
Implicit Types (cfg : Config) (s : settings).

(** [otlpTraceOptions], [otlpLogOptions] and [otlpMetricOptions]: an explicit
    endpoint means plain HTTP to that host. *)
Definition otlpOptions cfg : option string := if decide (OTLPEndpoint cfg = "") then None else Some (OTLPEndpoint cfg).

Definition set_logger (h : Handler B) (g : globals Provider (Handler B)) := mkGlobals (g_metadata g) (Some h) (g_providers g).
Definition set_provider (k : signal) (p : Provider) (g : globals Provider (Handler B)) :=
  mkGlobals (g_metadata g) (g_logger g) (fun k' => if decide (k' = k) then Some p else g_providers g k').

(** The loop over the shutdowns. *)
Fixpoint flush_loop (shutdowns : list Provider) (errs : list error) (ctx : Context) (w : W) : res unit * W :=
  match shutdowns with
  | [] => (res_wrap "o11y: shutdown: " "" (errors_Join errs), w)
  | p :: rest =>
    match Shutdown p ctx w with
    | (Ok _, w1) => flush_loop rest errs ctx w1
    | (Err e, w1) => flush_loop rest (errs ++ [e]) ctx w1
    | (Panic m, w1) => (Panic m, w1)
    end
  end.
Definition flushAll (ctx : Context) (shutdowns : list Provider) (w : W) : res unit * W := flush_loop shutdowns [] ctx w.

Definition noShutdown (_ : Context) (w : W) : res unit * W := (Ok tt, w).

(** [fail]: what was built is shut down, and its errors are dropped. *)
Definition fail {A} (ctx : Context) (shutdowns : list Provider) (what : string) (e : error) s : res A * settings :=
  let '(r, w) := flushAll ctx shutdowns (snd s) in
  (match r with Panic m => Panic m | _ => Err (EWrap ("o11y: " +:+ what +:+ ": ") e "") end, (fst s, w)).

(** One signal: its exporter, its provider, the provider registered. *)
Definition build (ctx : Context) cfg (resource : Resource) (k : signal) (what : string) (shutdowns : list Provider)
    (next : Provider -> settings -> res (Context -> W -> res unit * W) * settings) s
    : res (Context -> W -> res unit * W) * settings :=
  match exporter_New k (otlpOptions cfg) ctx (snd s) with
  | (Ok exporter, w) => let '(p, w) := NewProvider k exporter resource w in next p (set_provider k p (fst s), w)
  | (Err e, w) => fail ctx shutdowns what e (fst s, w)
  | (Panic m, w) => (Panic m, (fst s, w))
  end.

Definition Init (ctx : Context) cfg s : res (Context -> W -> res unit * W) * settings :=
  let g := mkGlobals (SetContextMetadata event_metadata (g_metadata (fst s)))
             (Some (NewSlogHandler json otlp (ServiceName cfg) None)) (g_providers (fst s)) in
  if WithoutExporter cfg then (Ok noShutdown, (g, snd s)) else
  match resource_Merge (ServiceName cfg) (snd s) with
  | (Err e, w) => (Err (EWrap "o11y: resource: " e ""), (g, w))
  | (Panic m, w) => (Panic m, (g, w))
  | (Ok resource, w) =>
    build ctx cfg resource Traces "trace exporter" [] (fun tracerProvider =>
    build ctx cfg resource Logs "log exporter" [tracerProvider] (fun loggerProvider s =>
    build ctx cfg resource Metrics "metric exporter" [tracerProvider; loggerProvider] (fun meterProvider s =>
      (Ok (fun ctx => flushAll ctx [tracerProvider; loggerProvider; meterProvider]), s))
      (set_logger (NewSlogHandler json otlp (ServiceName cfg) (Some loggerProvider)) (fst s), snd s))) (g, w)
  end.

(** ** What runs *)

(** The SDK's promises: making an exporter starts nothing, a provider runs
    from its making to its shutdown - whatever the shutdown answers - and
    nothing here panics. *)
Context `{Countable Provider}.
Variable running : W -> gset Provider.
Record sdk_ok : Prop := {
  sdk_resource name w r w' : resource_Merge name w = (r, w') -> running w' = running w /\ forall m, r <> Panic m;
  sdk_exporter k o ctx w r w' : exporter_New k o ctx w = (r, w') -> running w' = running w /\ forall m, r <> Panic m;
  sdk_provider k e r w p w' : NewProvider k e r w = (p, w') -> p ∉ running w /\ running w' = {[p]} ∪ running w;
  sdk_shutdown p ctx w r w' : Shutdown p ctx w = (r, w') -> running w' = running w ∖ {[p]} /\ forall m, r <> Panic m;
}.
Hypothesis Hsdk : sdk_ok.

(** Every provider is shut down, even if an early one fails. *)
Lemma flush_loop_stops ps : forall errs ctx w,
  running (snd (flush_loop ps errs ctx w)) = running w ∖ list_to_set ps
  /\ forall m, fst (flush_loop ps errs ctx w) <> Panic m.
Proof.
  induction ps as [|p ps IH]; intros errs ctx w; cbn [flush_loop].
  { split; [cbn [snd list_to_set]; set_solver|]. intros m. cbn [fst]. by destruct errs. }
  destruct (Shutdown p ctx w) as [r w1] eqn:E. destruct (sdk_shutdown Hsdk _ _ _ _ _ E) as [Hr Hp].
  destruct r as [[]|e|m]; [| |by destruct (Hp m)].
  - destruct (IH errs ctx w1) as [-> ?]. split; [|done]. rewrite Hr. cbn [list_to_set]. set_solver.
  - destruct (IH (errs ++ [e]) ctx w1) as [-> ?]. split; [|done]. rewrite Hr. cbn [list_to_set]. set_solver.
Qed.

(** What a set-up leaves running: its shutdown leaves nothing more than there
    was; a failed set-up left nothing itself. *)
Definition leaves_nothing (before : gset Provider) (out : res (Context -> W -> res unit * W) * settings) : Prop :=
  match fst out with
  | Ok shutdown => before ⊆ running (snd (snd out))
      /\ forall ctx w, running w = running (snd (snd out)) ->
           running (snd (shutdown ctx w)) = before /\ forall m, fst (shutdown ctx w) <> Panic m
  | Err _ => running (snd (snd out)) = before
  | Panic _ => False
  end.

Lemma build_leaves_nothing ctx cfg resource k what ps next s before :
  running (snd s) = before ∪ list_to_set ps -> list_to_set ps ## before ->
  (forall p s', p ∉ running (snd s) -> running (snd s') = before ∪ list_to_set (ps ++ [p]) -> list_to_set (ps ++ [p]) ## before ->
     leaves_nothing before (next p s')) ->
  leaves_nothing before (build ctx cfg resource k what ps next s).
Proof.
  clear otlp json.
  intros Hs Hd Hnext. unfold build. destruct (exporter_New _ _ _ _) as [r w] eqn:E.
  destruct (sdk_exporter Hsdk _ _ _ _ _ _ E) as [Hw Hp]. destruct r as [exporter|e|m]; [| |by destruct (Hp m)].
  - destruct (NewProvider _ _ _ _) as [p w'] eqn:En. destruct (sdk_provider Hsdk _ _ _ _ _ _ En) as [Hnew Hrun].
    rewrite Hw in Hnew, Hrun. apply Hnext; [done|..]; rewrite ?list_to_set_app_L; cbn [snd list_to_set]; [rewrite Hrun, Hs; set_solver|].
    rewrite Hs in Hnew. set_solver.
  - unfold fail, flushAll, leaves_nothing. cbn [fst snd]. destruct (flush_loop_stops ps [] ctx w) as [Hstop Hno].
    destruct (flush_loop ps [] ctx w) as [r w']. cbn [fst snd] in *.
    destruct r as [u|e'|m]; [..|by destruct (Hno m)]; cbn [fst snd]; rewrite Hstop, Hw, Hs; set_solver.
Qed.
Lemma Init_leaves_nothing ctx cfg s : leaves_nothing (running (snd s)) (Init ctx cfg s).
Proof.
  unfold Init. destruct (WithoutExporter cfg).
  { split; [done|]. cbn [fst snd]. intros ctx' w' Hw'. by split. }
  destruct (resource_Merge _ (snd s)) as [res w1] eqn:E. destruct (sdk_resource Hsdk _ _ _ _ E) as [Hw Hp].
  destruct res as [resource|e|m]; [|exact Hw|by destruct (Hp m)].
  eapply build_leaves_nothing; [cbn [snd list_to_set]; set_solver | cbn [list_to_set]; set_solver |].
  intros p1 s1 _ Hs1 Hd1. eapply build_leaves_nothing; [exact Hs1 | exact Hd1 |].
  intros p2 s2 _ Hs2 Hd2. eapply build_leaves_nothing; [exact Hs2 | exact Hd2 |].
  intros p3 s3 _ Hs3 Hd3. cbn [app] in *. unfold leaves_nothing. cbn [fst snd]. split; [rewrite Hs3; set_solver|].
  intros ctx' w' Hw'. destruct (flush_loop_stops [p1; p2; p3] [] ctx' w') as [Hstop Hno]. unfold flushAll.
  split; [|exact Hno]. rewrite Hstop, Hw', Hs3. set_solver.
Qed.

(** What failed is named. *)
Definition o11y_error (e : error) : Prop := exists what inner, e = EWrap ("o11y: " +:+ what +:+ ": ") inner "".

Lemma build_error ctx cfg resource k what ps next s e :
  (forall p s' e, fst (next p s') = Err e -> o11y_error e) ->
  fst (build ctx cfg resource k what ps next s) = Err e -> o11y_error e.
Proof.
  intros Hnext. unfold build. destruct (exporter_New _ _ _ _) as [[exporter|e'|m] w]; [| |done].
  - destruct (NewProvider _ _ _ _) as [p w']. apply Hnext.
  - unfold fail. destruct (flushAll _ _ _) as [[u|e2|m] w']; cbn [fst]; try done; intros [= <-]; by exists what, e'.
Qed.

Lemma Init_error ctx cfg s e : fst (Init ctx cfg s) = Err e -> o11y_error e.
Proof.
  unfold Init. destruct (WithoutExporter cfg); [done|]. destruct (resource_Merge _ _) as [[resource|e'|m] w]; [| |done].
  - apply build_error. intros p1 s1 e1. apply build_error. intros p2 s2 e2. apply build_error. done.
  - intros [= <-]. by exists "resource", e'.
Qed.

(** Standard output and the metadata hook, in whatever came out. *)
Definition installed (name : string) (g : globals Provider (Handler B)) : Prop :=
  g_metadata g = Some event_metadata
  /\ exists provider, g_logger g = Some (NewSlogHandler json otlp name provider).

Lemma build_installed name ctx cfg resource k what ps next s :
  installed name (fst s) -> (forall p s', installed name (fst s') -> installed name (fst (snd (next p s')))) ->
  installed name (fst (snd (build ctx cfg resource k what ps next s))).
Proof.
  intros Hs Hnext. unfold build. destruct (exporter_New _ _ _ _) as [[exporter|e|m] w]; [| |done].
  - destruct (NewProvider _ _ _ _) as [p w']. by apply Hnext.
  - unfold fail. cbn [snd]. by destruct (flushAll ctx ps w).
Qed.
End init.

(** ** Properties *)

(** A broken log sink never costs another its record. Handling a record
    calls every foreign handler it is for, once and in order, whatever the
    ones before answer, and the error returned is nil when all accepted and
    otherwise matches exactly what one of their errors matches. Of the
    handler Init installs, standard output gets the record with the span's
    trace_id and span_id added and the OTLP side the record as it was
    logged. *)
Theorem log_record_reaches_every_sink {B W Provider} (base_Enabled : B -> Context -> Z -> bool)
    (base_Handle : B -> Context -> log_record -> W -> res unit * W) (trace_id span_id : SpanContext -> string)
    (json : B) (otlp : string -> Provider -> B) (name : string) (p : Provider)
    (h : Handler B) (ctx : Context) (r : log_record) (w : W)
    (Hnp : forall b ctx r w m, fst (base_Handle b ctx r w) <> Panic m) :
  let handle := Handle base_Enabled base_Handle trace_id span_id in
  let reached h := sinks base_Enabled trace_id span_id h ctx r in
  snd (handle h ctx r w) = snd (call_all base_Handle ctx (reached h) w)
  /\ reports (fst (call_all base_Handle ctx (reached h) w)) (fst (handle h ctx r w))
  /\ reached (NewSlogHandler json otlp name None) = [(json, correlated trace_id span_id ctx r)]
  /\ (base_Enabled json ctx (lr_Level r) = true -> base_Enabled (otlp name p) ctx (lr_Level r) = true ->
      reached (NewSlogHandler json otlp name (Some p)) = [(json, correlated trace_id span_id ctx r); (otlp name p, r)]).
Proof.
  cbv zeta. destruct (Handle_reaches base_Enabled base_Handle trace_id span_id Hnp h ctx r w) as [Hw Hr].
  split; [exact Hw|]. split; [exact Hr|]. split; [done|]. intros Hj Ho.
  unfold NewSlogHandler, NewLogHandler, Fanout. cbn [sinks flat_map Enabled]. by rewrite Hj, Ho.
Qed.

(** Set-up leaks nothing. Init either returns a shutdown or an error:
    when a step fails, every provider built before it has been shut down and
    none is left running that was not before; when it succeeds, its shutdown
    stops every provider it started, whatever their own shutdowns answer. In
    every case standard output logging and the metadata hook are installed. *)
Theorem init_leaves_nothing_running {Resource Exporter Provider B W} `{Countable Provider}
    (resource_Merge : string -> W -> res Resource * W) (exporter_New : signal -> option string -> Context -> W -> res Exporter * W)
    (NewProvider : signal -> Exporter -> Resource -> W -> Provider * W) (Shutdown : Provider -> Context -> W -> res unit * W)
    (json : B) (otlp : string -> Provider -> B) (running : W -> gset Provider)
    (ctx : Context) (cfg : Config) (g : globals Provider (Handler B)) (w : W)
    (Hsdk : sdk_ok resource_Merge exporter_New NewProvider Shutdown running) :
  let out := Init resource_Merge exporter_New NewProvider Shutdown json otlp ctx cfg (g, w) in
  leaves_nothing running (running w) out
  /\ installed json otlp (ServiceName cfg) (fst (snd out)).
Proof.
  cbv zeta. split.
  - by eapply (Init_leaves_nothing _ _ _ _ json otlp running Hsdk ctx cfg (g, w)).
  - unfold Init. set (g1 := mkGlobals _ _ _). assert (installed json otlp (ServiceName cfg) g1) as Hg1 by (split; [done | by exists None]).
    destruct (WithoutExporter cfg); [done|]. cbn [fst snd]. destruct (resource_Merge _ w) as [[resource|e|m] w1]; [|done..].
    apply build_installed; [done|]. intros p1 s1 H1. apply build_installed; [done|]. intros p2 s2 [H2 _].
    apply build_installed; [split; [exact H2 | by exists (Some p2)]|]. intros p3 s3 H3. exact H3.
Qed.

(** ** Samples *)

Module Sample.
(** Sinks by name; the world is what each was given. The first is broken. *)
Definition sink_enabled (_ : string) (_ : Context) (level : Z) : bool := bool_decide (0 <= level).
Definition broken : error := EText "disk full".
Definition sink_handle (b : string) (_ : Context) (r : log_record) (w : list (string * log_record)) : res unit * list (string * log_record) :=
  (if bool_decide (b = "stdout") then Err broken else Ok tt, w ++ [(b, r)]).
Definition in_span : Context := mkContext None (mkSpanContext "00-abc-def-01" "") "" None.
Definition line : log_record := mkLogRecord 0 "order placed" [].
Definition both : Handler string := NewSlogHandler "stdout" (fun name (_ : unit) => name) "ordering" (Some tt).

(** An SDK whose metric exporter cannot be made and whose providers fail to
    shut down; the world is what runs. *)
Definition resource (name : string) (w : gset nat) : res string * gset nat := (Ok name, w).
Definition exporter (k : signal) (_ : option string) (_ : Context) (w : gset nat) : res unit * gset nat :=
  (match k with Metrics => Err (EText "bad endpoint") | _ => Ok tt end, w).
Definition provider (_ : signal) (_ : unit) (_ : string) (w : gset nat) : nat * gset nat := let p := fresh w in (p, {[p]} ∪ w).
Definition stop (p : nat) (_ : Context) (w : gset nat) : res unit * gset nat := (Err (EText "export failed"), w ∖ {[p]}).
Definition config : Config := mkConfig "ordering" "" false.
Definition settings0 : globals nat (Handler string) := mkGlobals None None (fun _ => None).

Lemma sample_sdk : sdk_ok resource exporter provider stop (fun w => w).
Proof.
  split.
  - intros name w r w' [= <- <-]. done.
  - intros k o ctx w r w' [= <- <-]. split; [done|]. by destruct k.
  - intros k e r w p w' [= <- <-]. split; [apply is_fresh | done].
  - intros p ctx w r w' [= <- <-]. done.
Qed.
End Sample.
Import Sample.

Lemma log_record_reaches_every_sink_witness :
  let stamped := mkLogRecord 0 "order placed" [("trace_id", "00-abc-def-01"); ("span_id", "")] in
  Handle sink_enabled sink_handle traceparent tracestate both in_span line []
    = (Err broken, [("stdout", stamped); ("ordering", line)])
  /\ sinks sink_enabled traceparent tracestate both in_span line = [("stdout", stamped); ("ordering", line)].
Proof.
  cbv zeta. split; [vm_compute; reflexivity|].
  destruct (log_record_reaches_every_sink sink_enabled sink_handle traceparent tracestate "stdout" (fun name (_ : unit) => name)
    "ordering" tt both in_span line []) as (_ & _ & _ & Hboth).
  - intros b ctx r w m. unfold sink_handle. cbn [fst]. case_bool_decide; discriminate.
  - apply Hboth; vm_compute; reflexivity.
Defined.

Lemma init_leaves_nothing_running_witness :
  let out := Init resource exporter provider stop "stdout" (fun name _ => name) background config (settings0, ∅) in
  is_ok (fst out) = false /\ snd (snd out) = ∅ /\ g_metadata (fst (snd out)) = Some event_metadata.
Proof.
  cbv zeta. split; [vm_compute; reflexivity|].
  destruct (init_leaves_nothing_running resource exporter provider stop "stdout" (fun name _ => name) (fun w => w)
    background config settings0 ∅ sample_sdk) as [Hleft [Hmeta _]].
  split; [exact Hleft | exact Hmeta].
Defined.
