(* ===== verification/Notifier.v ===== *)
(** * gohex-example/ordering/internal/app/notifier.go: the worklist worker

    Every tick claims a batch of the oldest pending notifications and dispatches
    a command for each, under a trace of its own linked to the one that queued
    the row. The worker is a machine of one call per step, interleaved with the
    projection that fills the list, with cancellations and with restarts; the
    worklist is any implementation of its port, the bus any bus. *)

From S2P Require Import Prelude Tail Errors GoTime Json KernelId Kernel EventStore MemoryStore Registry Checkpoint Repository Cqrs Order Ordering Postgres PgTables PgStore ReadModel OrderSummary Tracing.

(** ** The worker *)

Record NotifierConfig := mkNotifierConfig { Interval : Z; BatchSize : Z }.

Definition withDefaults (c : NotifierConfig) : NotifierConfig :=
  {| Interval := if decide (Interval c <= 0) then 5000 * Millisecond else Interval c;
     BatchSize := if decide (BatchSize c <= 0) then 50 else BatchSize c |}.

Section worker.
Context {V W : Type} `{NotificationQueue V} `{Traced W} `{Clock W}.
Variables (parse_span : string -> string -> SpanContext) (parse_baggage : string -> string)
  (fresh : nat -> SpanContext -> SpanContext).

Record Notifier := mkNotifier { nt_bus : Bus local_command W; nt_cfg : NotifierConfig }.

Definition NewNotifier (bus : Bus local_command W) (cfg : NotifierConfig) : Notifier := mkNotifier bus (withDefaults cfg).

(** A row's dispatch that returned, as an observer sees it. *)
Record attempt := mkAttempt { at_row : PendingNotification; at_result : res unit }.

(** Where [Run] is: at the head of its loop, about to read the list, in a tick
    with the rows left of its batch, asleep, returned. *)
Inductive notifier_pc :=
  | Polling
  | Fetching
  | Working (batchCtx : Context) (batch : nat) (rows : list PendingNotification)
  | Asleep
  | Ended (r : res unit).

Record notifier_state := mkNotifierState {
  ns_queue : V; ns_world : W; ns_cancelled : bool; ns_pc : notifier_pc; ns_attempts : list attempt;
}.

(** [n.bus.Dispatch(ctx, NotifyCustomer{...})] for a row. *)
Definition dispatch_row (bus : Bus local_command W) (ctx : Context) (row : PendingNotification) (w : W) : res unit * W :=
  Dispatch bus ctx (L_NotifyCustomer (mkNotifyCustomer (pn_OrderID row) (pn_Reason row))) w.

(** [send]: one row's work under its own linked trace. Errors are logged. *)
Definition send (n : Notifier) (batchCtx : Context) (row : PendingNotification) (q : V) (w : W)
    : res unit * attempt * V * W :=
  let '(ctx, span, t) := StartLinked parse_span parse_baggage fresh batchCtx "notify customer" (pn_Metadata row) (tracer_of w) in
  let '(r, w1) := dispatch_row (nt_bus n) ctx row (set_tracer t w) in
  let ended w := finish_in span (Ok tt) w in
  match r with
  | Err _ => (Ok tt, mkAttempt row r, q, ended w1)
  | Panic m => (Panic m, mkAttempt row r, q, ended w1)
  | Ok _ =>
    let '(m, q') := MarkSent (pn_ID row) q in
    (match m with Panic msg => Panic msg | _ => Ok tt end, mkAttempt row r, q', ended w1)
  end.

(** One step of [Run(ctx)]. [timer] says that the timer of the wait wins over a
    context that is done, and, after a failed read, that the context is not
    done yet. *)
Definition notifier_step (n : Notifier) (ctx : Context) (timer : bool) (s : notifier_state) : notifier_state :=
  let goto pc := mkNotifierState (ns_queue s) (ns_world s) (ns_cancelled s) pc (ns_attempts s) in
  match ns_pc s with
  | Polling => goto (if ns_cancelled s then Ended (Ok tt) else Fetching)
  | Fetching =>
    let '(g, q) := Pending (BatchSize (nt_cfg n)) (ns_queue s) in
    match g with
    | Panic m => mkNotifierState q (ns_world s) (ns_cancelled s) (Ended (Panic m)) (ns_attempts s)
    | Err _ =>
      mkNotifierState q (ns_world s) (ns_cancelled s)
        (if ns_cancelled s && negb timer then Ended (Ok tt) else Asleep) (ns_attempts s)
    | Ok [] => mkNotifierState q (ns_world s) (ns_cancelled s) Asleep (ns_attempts s)
    | Ok rows =>
      let '(batchCtx, batch, t) := StartBatch fresh ctx "notify batch" (tracer_of (ns_world s)) in
      mkNotifierState q (set_tracer t (ns_world s)) (ns_cancelled s) (Working batchCtx batch rows) (ns_attempts s)
    end
  | Working batchCtx batch [] =>
    mkNotifierState (ns_queue s) (finish_in batch (Ok tt) (ns_world s)) (ns_cancelled s) Asleep (ns_attempts s)
  | Working batchCtx batch (row :: rest) =>
    let '(r, a, q, w) := send n batchCtx row (ns_queue s) (ns_world s) in
    match r with
    | Panic m => mkNotifierState q (finish_in batch (Ok tt) w) (ns_cancelled s) (Ended (Panic m)) (ns_attempts s ++ [a])
    | _ => mkNotifierState q w (ns_cancelled s) (Working batchCtx batch rest) (ns_attempts s ++ [a])
    end
  | Asleep => goto (if negb (ns_cancelled s) || timer then Polling else Ended (Ok tt))
  | Ended _ => s
  end.

(** The worker among the rest of the service: its own steps; the projection
    queueing a milestone; other work on the bus's world; a cancelled context;
    a crash or a deployment, after which [Run] is called anew. *)
Inductive service_step (n : Notifier) (ctx : Context) : notifier_state -> notifier_state -> Prop :=
  | step_own timer s : service_step n ctx s (notifier_step n ctx timer s)
  | step_enqueue order reason md s r q :
      Enqueue order reason md (ns_queue s) = (r, q) ->
      service_step n ctx s (mkNotifierState q (ns_world s) (ns_cancelled s) (ns_pc s) (ns_attempts s))
  | step_others w s :
      service_step n ctx s (mkNotifierState (ns_queue s) w (ns_cancelled s) (ns_pc s) (ns_attempts s))
  | step_cancel s :
      service_step n ctx s (mkNotifierState (ns_queue s) (ns_world s) true (ns_pc s) (ns_attempts s))
  | step_restart s :
      service_step n ctx s (mkNotifierState (ns_queue s) (ns_world s) false Polling (ns_attempts s)).

Definition service_runs n ctx : notifier_state -> notifier_state -> Prop := rtc (service_step n ctx).
End worker.
Arguments Notifier : clear implicits.
Arguments notifier_state : clear implicits.

Lemma own_steps {V W} `{NotificationQueue V} `{Traced W} `{Clock W} parse_span parse_baggage fresh (n : Notifier W) ctx timer k :
  forall s : notifier_state V W,
  service_runs parse_span parse_baggage fresh n ctx s (Nat.iter k (notifier_step parse_span parse_baggage fresh n ctx timer) s).
Proof. induction k as [|k IH]; intros s; [apply rtc_refl|]. rewrite Nat.iter_succ. eapply rtc_r; [apply IH | constructor]. Qed.

(** ** Rows *)

Implicit Types (ws : list work).

(** The row of the worklist a claimed notification is. *)
Definition listed (ws : list work) (row : PendingNotification) : Prop := exists w, w ∈ ws /\ pending_of w = row.

Lemma pending_of_retire id w : pending_of (retire id w) = pending_of w.
Proof. unfold retire. by case_decide. Qed.

Lemma listed_retire id ws row : listed ws row -> listed (retire id <$> ws) row.
Proof.
  intros (w & Hw & Hp). exists (retire id w). split; [by apply list_elem_of_fmap_2 | by rewrite pending_of_retire].
Qed.

Lemma enqueued_extends order reason ws ws' :
  enqueued order reason ws ws' -> exists k, ws' = ws ++ k /\ forall w, w ∈ k -> wk_sent w = false.
Proof.
  unfold enqueued. case_decide; [intros ->; exists []; rewrite app_nil_r; split; [done | by intros w Hw%elem_of_nil]|].
  intros (id & md & ->). eexists. split; [reflexivity|]. by intros w ->%list_elem_of_singleton.
Qed.

Lemma listed_app ws k row : listed ws row -> listed (ws ++ k) row.
Proof. intros (w & Hw & Hp). exists w. split; [apply elem_of_app; by left | done]. Qed.

Lemma increasing_inj {A} (seq : A -> Z) (l : list A) x y : increasing seq l -> x ∈ l -> y ∈ l -> seq x = seq y -> x = y.
Proof.
  intros Hinc%increasing_sorted. induction l as [|z l IH]; [by intros Hx%elem_of_nil|].
  apply StronglySorted_cons in Hinc as [Hz Hl].
  assert (forall v, v ∈ l -> seq z < seq v) as Hlt.
  { intros v Hv. rewrite Forall_forall in Hz. apply Hz. by apply list_elem_of_fmap_2. }
  intros [->|Hx]%elem_of_cons [->|Hy]%elem_of_cons Heq; [done | | |by apply IH].
  - specialize (Hlt y Hy). lia.
  - specialize (Hlt x Hx). lia.
Qed.

(** The claimed rows are rows of the list. *)
Lemma claimed_listed ws limit ps row : ps = pending_of <$> take limit (unsent ws) -> row ∈ ps -> listed ws row.
Proof.
  intros -> (w & -> & Hw)%list_elem_of_fmap. exists w. split; [|done].
  apply elem_of_take in Hw as (i & Hw%list_elem_of_lookup_2 & _). by apply list_elem_of_filter in Hw as [_ ?].
Qed.

(** Retiring a listed row's identifier changes that row alone. *)
Lemma retired_row ws row x : worklist_ok ws -> listed ws row -> x ∈ retire (pn_ID row) <$> ws -> x ∈ ws \/ pending_of x = row.
Proof.
  intros [Hinc _] (w & Hw & <-) (y & -> & Hy)%list_elem_of_fmap. rewrite pending_of_retire.
  destruct (decide (wk_id y = wk_id w)) as [Heq|Hne].
  - right. by rewrite (increasing_inj _ _ _ _ Hinc Hy Hw Heq).
  - left. unfold retire. simpl. by rewrite decide_False.
Qed.

(** ** Safety *)

Section safety.
Context {V W : Type} `{QueueSpec V} `{Traced W} `{Clock W}.
Variables (parse_span : string -> string -> SpanContext) (parse_baggage : string -> string)
  (fresh : nat -> SpanContext -> SpanContext) (n : Notifier W) (ctx : Context).
Hypothesis batch_nonneg : 0 <= BatchSize (nt_cfg n).
#[local] Abbreviation state := (notifier_state V W).
#[local] Abbreviation runs := (service_runs parse_span parse_baggage fresh n ctx).

(** Some attempt at the row succeeded. *)
Definition accepted (s : state) (row : PendingNotification) : Prop := mkAttempt row (Ok tt) ∈ ns_attempts s.

(** The sent rows of the list are those sent at the start and those whose
    dispatch succeeded since. *)
Record retired_ok (start s : state) : Prop := {
  ro_inv : queue_inv (ns_queue s);
  ro_kept row : listed (worklist (ns_queue start)) row -> listed (worklist (ns_queue s)) row;
  ro_sent w : w ∈ worklist (ns_queue s) -> wk_sent w = true ->
    w ∈ worklist (ns_queue start) \/ accepted s (pending_of w);
  ro_claimed batchCtx batch rows row : ns_pc s = Working batchCtx batch rows -> row ∈ rows -> listed (worklist (ns_queue s)) row;
  ro_attempted a : a ∈ ns_attempts s -> a ∈ ns_attempts start \/ listed (worklist (ns_queue s)) (at_row a);
}.

(** What [send] does to the worklist and what it reports. *)
Lemma send_spec batchCtx row q w r a q' w' :
  queue_inv q -> send parse_span parse_baggage fresh n batchCtx row q w = (r, a, q', w') ->
  queue_inv q' /\ at_row a = row
  /\ (worklist q' = worklist q \/ a = mkAttempt row (Ok tt) /\ worklist q' = retire (pn_ID row) <$> worklist q).
Proof.
  intros Hq. unfold send. destruct (StartLinked _ _ _ _ _ _ _) as [[c span] t].
  destruct (dispatch_row _ _ _ _) as [[[]|e|m] w1]; [|intros [= <- <- <- <-]; auto..].
  destruct (MarkSent (pn_ID row) q) as [g q1] eqn:E. apply MarkSent_spec in E as (Hq1 & Hw); [|done].
  intros [= <- <- <- <-]. split; [done|]. split; [done|]. destruct Hw as [Hw|[_ Hw]]; [by right | by left].
Qed.

Lemma retired_ok_extends start s q w cancelled pc attempts :
  retired_ok start s -> queue_inv q ->
  (forall row, listed (worklist (ns_queue s)) row -> listed (worklist q) row) ->
  (forall x, x ∈ worklist q -> wk_sent x = true ->
     x ∈ worklist (ns_queue s) \/ mkAttempt (pending_of x) (Ok tt) ∈ attempts) ->
  (forall a, a ∈ ns_attempts s -> a ∈ attempts) ->
  (forall a, a ∈ attempts -> a ∈ ns_attempts s \/ listed (worklist q) (at_row a)) ->
  (forall c b rows row, pc = Working c b rows -> row ∈ rows -> listed (worklist q) row) ->
  retired_ok start (mkNotifierState q w cancelled pc attempts).
Proof.
  intros [Hinv Hkept Hsent Hclaimed Hatt] Hq Hl Hx Hmono Ha Hpc. split; simpl; try done.
  - intros row Hrow. by apply Hl, Hkept.
  - intros x Hin Hs. destruct (Hx x Hin Hs) as [Hold|?]; [|by right].
    destruct (Hsent x Hold Hs) as [?|?]; [by left | right; by apply Hmono].
  - intros a Hin. destruct (Ha a Hin) as [Hold|?]; [|by right]. destruct (Hatt a Hold) as [?|?]; [by left | right; by apply Hl].
Qed.

(** A step that leaves the list, the attempts and the batch alone. *)
Lemma retired_ok_same start s q w cancelled pc :
  retired_ok start s -> queue_inv q -> worklist q = worklist (ns_queue s) ->
  (forall c b rows row, pc = Working c b rows -> row ∈ rows -> listed (worklist q) row) ->
  retired_ok start (mkNotifierState q w cancelled pc (ns_attempts s)).
Proof. intros Hok Hq Heq Hpc. eapply retired_ok_extends; [exact Hok | exact Hq | rewrite ?Heq; auto..|exact Hpc]. Qed.

Lemma step_retired start timer s :
  retired_ok start s -> retired_ok start (notifier_step parse_span parse_baggage fresh n ctx timer s).
Proof.
  intros Hok. pose proof (ro_inv _ _ Hok) as Hinv. unfold notifier_step.
  assert (forall q w cancelled pc, queue_inv q -> worklist q = worklist (ns_queue s) ->
            (forall c b rows row, pc = Working c b rows -> row ∈ rows -> listed (worklist q) row) ->
            retired_ok start (mkNotifierState q w cancelled pc (ns_attempts s))) as Hsame.
  { intros. by apply retired_ok_same. }
  destruct (ns_pc s) as [| |c b [|row rest]| |r] eqn:Hpc; [| | | | |done].
  - by destruct (ns_cancelled s); apply Hsame.
  - destruct (Pending _ _) as [g q] eqn:E. apply Pending_spec in E as (Hq & Hw & Hg); [|done].
    destruct g as [[|row rest]|e|m]; [by apply Hsame| |by destruct (ns_cancelled s && negb timer); apply Hsame | by apply Hsame].
    destruct (StartBatch _ _ _ _) as [[c b] t]. apply Hsame; [done | done|].
    intros c' b' rows row' [= -> -> <-] Hin. rewrite Hw. eapply claimed_listed; [by apply Hg | done].
  - by apply Hsame.
  - destruct (send _ _ _ _ _ _ _ _) as [[[r a] q] w] eqn:E. apply send_spec in E as (Hq & Ha & Hw); [|done].
    pose proof (ro_claimed _ _ Hok _ _ _ row Hpc ltac:(left)) as Hrow.
    assert (forall row', listed (worklist (ns_queue s)) row' -> listed (worklist q) row') as Hl.
    { intros row' Hr. destruct Hw as [->|[_ ->]]; [done | by apply listed_retire]. }
    assert (forall w' pc, (forall c b rows row', pc = Working c b rows -> row' ∈ rows -> row' ∈ rest) ->
              retired_ok start (mkNotifierState q w' (ns_cancelled s) pc (ns_attempts s ++ [a]))) as Hdone.
    { intros w' pc Hrows. eapply retired_ok_extends; [exact Hok | exact Hq | exact Hl | | | |].
      - intros x Hx Hs. destruct Hw as [Hw|[-> Hw]]; rewrite Hw in Hx; [by left|].
        destruct (retired_row _ _ _ (queue_ok _ Hinv) Hrow Hx) as [?|Hp]; [by left | right].
        rewrite Hp. apply elem_of_app. right. by left.
      - intros x Hx. apply elem_of_app. by left.
      - intros x Hx. apply elem_of_app in Hx as [Hx|Hx%list_elem_of_singleton]; [by left | right; subst x; rewrite Ha; by apply Hl].
      - intros c' b' rows row' Hc Hin. apply Hl. eapply (ro_claimed _ _ Hok _ _ _ row' Hpc). right. by eapply Hrows. }
    destruct r; apply Hdone; intros c' b' rows row'; [by intros [= -> -> ->]..|done].
  - by destruct (negb (ns_cancelled s) || timer); apply Hsame.
Qed.

Lemma service_step_retired start s s' :
  service_step parse_span parse_baggage fresh n ctx s s' -> retired_ok start s -> retired_ok start s'.
Proof.
  intros Hstep Hok. destruct Hstep as [timer s|order reason md s r q E|w s|s|s].
  - by apply step_retired.
  - apply Enqueue_spec in E as (Hq & Hw); [|by destruct Hok].
    assert (exists k, worklist q = worklist (ns_queue s) ++ k /\ forall w, w ∈ k -> wk_sent w = false) as (k & Hk & Hns).
    { destruct Hw as [Hw|[_ ->]]; [by eapply enqueued_extends | exists []; rewrite app_nil_r; split; [done | by intros w Hw%elem_of_nil]]. }
    eapply retired_ok_extends; [exact Hok | exact Hq | | | done | by left|].
    + intros row Hr. rewrite Hk. by apply listed_app.
    + intros x Hx Hs. rewrite Hk in Hx. apply elem_of_app in Hx as [Hx|Hx]; [by left|]. rewrite Hns in Hs by done. done.
    + intros c b rows row Hc Hin. rewrite Hk. by eapply listed_app, ro_claimed.
  - apply retired_ok_same; [done | by destruct Hok | done | by destruct Hok].
  - apply retired_ok_same; [done | by destruct Hok | done | by destruct Hok].
  - apply retired_ok_same; [done | by destruct Hok | done | done].
Qed.

Lemma service_runs_retired start s s' : runs s s' -> retired_ok start s -> retired_ok start s'.
Proof. intros Hr. induction Hr as [|s1 s2 s3 Hs _ IH]; [done|]. intros Hok. by eapply IH, service_step_retired. Qed.
End safety.

(** C18: No customer milestone is lost. Whatever the projection queues meanwhile
    and however often the worker fails, is cancelled or starts anew: every row
    ever listed stays listed, a row is marked sent only if a dispatch of its
    command succeeded, and a command is only ever dispatched for a listed row. *)
Theorem notification_retired_only_when_sent {V W} `{QueueSpec V} `{Traced W} `{Clock W}
    parse_span parse_baggage fresh (bus : Bus local_command W) (cfg : NotifierConfig) (ctx : Context)
    (q0 : V) (w0 : W) (s : notifier_state V W) :
  let n := NewNotifier bus cfg in
  queue_inv q0 ->
  service_runs parse_span parse_baggage fresh n ctx (mkNotifierState q0 w0 false Polling []) s ->
  (forall row, listed (worklist q0) row -> listed (worklist (ns_queue s)) row)
  /\ (forall x, x ∈ worklist (ns_queue s) -> wk_sent x = true -> x ∈ worklist q0 \/ accepted s (pending_of x))
  /\ (forall a, a ∈ ns_attempts s -> listed (worklist (ns_queue s)) (at_row a)).
Proof.
  intros n Hinv Hruns.
  assert (0 <= BatchSize (nt_cfg n)) as Hcfg by (simpl; case_decide; lia).
  assert (retired_ok (mkNotifierState q0 w0 false Polling []) (mkNotifierState q0 w0 false Polling [])) as Hstart.
  { split; simpl; try done; [by left | intros a Ha%elem_of_nil; done]. }
  destruct (service_runs_retired _ _ _ _ _ Hcfg _ _ _ Hruns Hstart) as [Hq Hkept Hsent _ Hatt].
  split; [done|]. split; [done|]. intros a Ha. destruct (Hatt a Ha) as [Hin|?]; [by apply elem_of_nil in Hin | done].
Qed.

(** ** Liveness *)

Lemma ids_retire id ws : wk_id <$> (retire id <$> ws) = wk_id <$> ws.
Proof. rewrite <-list_fmap_compose. apply list_fmap_ext. intros i x _. simpl. unfold retire. by case_decide. Qed.

Lemma increasing_ids ws ws' : wk_id <$> ws = wk_id <$> ws' -> increasing wk_id ws -> increasing wk_id ws'.
Proof. unfold increasing. by intros ->. Qed.

Lemma retire_others id ws : id ∉ wk_id <$> ws -> retire id <$> ws = ws.
Proof.
  intros Hid. rewrite <-(list_fmap_id ws) at 2. apply list_fmap_ext. intros i x Hx. unfold retire.
  rewrite decide_False; [done|]. intros <-. apply Hid, list_elem_of_fmap_2. by eapply list_elem_of_lookup_2.
Qed.

(** Retiring the oldest unsent row. *)
Lemma unsent_retire ws x rest : increasing wk_id ws -> unsent ws = x :: rest -> unsent (retire (wk_id x) <$> ws) = rest.
Proof.
  intros Hinc%increasing_sorted. unfold unsent. induction ws as [|y ws IH]; [done|].
  apply StronglySorted_cons in Hinc as [Hy Hws]. rewrite fmap_cons, !filter_cons.
  destruct (wk_sent y) eqn:Hs.
  - rewrite decide_False by done. intros Hx. rewrite decide_False; [by apply IH|]. unfold retire. by case_decide; simpl; rewrite ?Hs.
  - rewrite decide_True by done. intros [= -> <-]. assert (wk_sent (retire (wk_id x) x) = true) as Hx by (unfold retire; by case_decide).
    rewrite decide_False by congruence. rewrite retire_others; [done|]. intros Hin. rewrite Forall_forall in Hy. specialize (Hy _ Hin). lia.
Qed.

Definition retire_rows (rows : list PendingNotification) (ws : list work) : list work :=
  foldl (fun ws row => retire (pn_ID row) <$> ws) ws rows.

Lemma unsent_retire_rows xs : forall ws rest,
  increasing wk_id ws -> unsent ws = xs ++ rest -> unsent (retire_rows (pending_of <$> xs) ws) = rest.
Proof.
  induction xs as [|x xs IH]; intros ws rest Hinc Hun; [done|]. simpl. apply IH.
  - by eapply increasing_ids; [symmetry; apply ids_retire|].
  - by apply unsent_retire.
Qed.

Section liveness.
Context {V W : Type} `{QueueSpec V} `{Traced W} `{Clock W}.
Variables (parse_span : string -> string -> SpanContext) (parse_baggage : string -> string)
  (fresh : nat -> SpanContext -> SpanContext) (n : Notifier W) (ctx : Context).
Hypothesis batch_positive : 0 < BatchSize (nt_cfg n).
(** A database that answers, and a bus whose handlers accept the rows in [ok]. *)
Variables (up : V -> Prop) (ready : W -> Prop) (ok : PendingNotification -> Prop).
Hypothesis up_inv : forall v, up v -> queue_inv v.
Hypothesis up_pending : forall limit v, 0 <= limit -> up v -> exists ps v', Pending limit v = (Ok ps, v') /\ up v'.
Hypothesis up_marks : forall id v, up v -> exists v', MarkSent id v = (Ok tt, v') /\ up v'.
Hypothesis ready_tracer : forall t w, ready w -> ready (set_tracer t w).
Hypothesis ready_accepts : forall c row w, ready w -> ok row -> exists w', dispatch_row (nt_bus n) c row w = (Ok tt, w') /\ ready w'.
#[local] Abbreviation step := (notifier_step parse_span parse_baggage fresh n ctx true).

Definition leads_to (s s' : notifier_state V W) : Prop := exists k, Nat.iter k step s = s'.

Lemma leads_to_step s s' : leads_to (step s) s' -> leads_to s s'.
Proof. intros [k <-]. exists (S k). by rewrite Nat.iter_succ_r. Qed.

Lemma leads_to_trans s1 s2 s3 : leads_to s1 s2 -> leads_to s2 s3 -> leads_to s1 s3.
Proof. intros [j <-] [k <-]. exists (k + j)%nat. by rewrite Nat.iter_add. Qed.

Definition done_with (rows : list PendingNotification) : list attempt := (fun row => mkAttempt row (Ok tt)) <$> rows.

Lemma MarkSent_retires id v v' : up v -> MarkSent id v = (Ok tt, v') -> worklist v' = retire id <$> worklist v.
Proof. intros Hv E. by apply MarkSent_spec in E as (_ & [?|[? _]]); [| |by apply up_inv]. Qed.

Lemma tick_leads_to c b rows : forall q w atts,
  up q -> ready w -> (forall row, row ∈ rows -> ok row) ->
  exists q' w', leads_to (mkNotifierState q w false (Working c b rows) atts)
                        (mkNotifierState q' w' false Asleep (atts ++ done_with rows))
    /\ up q' /\ ready w' /\ worklist q' = retire_rows rows (worklist q).
Proof.
  induction rows as [|row rows IH]; intros q w atts Hq Hw Hok.
  { exists q, (finish_in b (Ok tt) w). split; [exists 1%nat; simpl; by rewrite app_nil_r|]. split; [done|].
    split; [by apply ready_tracer | done]. }
  destruct (StartLinked parse_span parse_baggage fresh c "notify customer" (pn_Metadata row) (tracer_of w)) as [[c' span] t] eqn:Hst.
  destruct (ready_accepts c' row (set_tracer t w)) as (w1 & Hd & Hw1); [by apply ready_tracer | apply Hok; by left|].
  destruct (up_marks (pn_ID row) q Hq) as (q1 & Hm & Hq1).
  destruct (IH q1 (finish_in span (Ok tt) w1) (atts ++ [mkAttempt row (Ok tt)])) as (q' & w' & Hl & Hq' & Hw' & Hwl);
    [done | by apply ready_tracer | intros r Hr; apply Hok; by right|].
  exists q', w'. split; [|split; [done|]; split; [done|]; rewrite Hwl; simpl; by rewrite (MarkSent_retires _ _ _ Hq Hm)].
  apply leads_to_step. unfold notifier_step. simpl. unfold send. rewrite Hst, Hd, Hm. simpl.
  rewrite <-app_assoc in Hl. exact Hl.
Qed.

Lemma drains_within m : forall q w atts,
  (length (unsent (worklist q)) <= m)%nat -> up q -> ready w -> (forall x, x ∈ unsent (worklist q) -> ok (pending_of x)) ->
  exists q' w', leads_to (mkNotifierState q w false Polling atts)
                  (mkNotifierState q' w' false Polling (atts ++ done_with (pending_of <$> unsent (worklist q))))
    /\ unsent (worklist q') = [].
Proof.
  induction m as [m IH] using lt_wf_ind. intros q w atts Hm Hq Hw Hok.
  destruct (unsent (worklist q)) as [|x rest] eqn:Hun; [exists q, w; split; [exists 0%nat; simpl; by rewrite app_nil_r | done]|].
  destruct (up_pending (BatchSize (nt_cfg n)) q ltac:(lia) Hq) as (ps & q1 & Hp & Hq1).
  pose proof (Pending_spec _ _ _ _ (up_inv _ Hq) Hp) as (_ & Hwl & Hps). specialize (Hps ps eq_refl ltac:(lia)).
  rewrite Hun in Hps. set (k := Z.to_nat (BatchSize (nt_cfg n))) in *.
  assert (exists k', k = S k') as (k' & Hk) by (exists (pred k); lia).
  destruct (StartBatch fresh ctx "notify batch" (tracer_of w)) as [[c b] t] eqn:Hst.
  destruct (tick_leads_to c b ps q1 (set_tracer t w) atts Hq1 (ready_tracer _ _ Hw)) as (q2 & w2 & Hl & Hq2 & Hw2 & Hwl2).
  { intros row Hrow. rewrite Hps in Hrow. apply list_elem_of_fmap in Hrow as (y & -> & Hy).
    apply Hok. apply elem_of_take in Hy as (i & Hy%list_elem_of_lookup_2 & _). done. }
  assert (unsent (worklist q2) = drop k (x :: rest)) as Hun2.
  { rewrite Hwl2, Hwl, Hps. apply unsent_retire_rows; [by apply queue_ok, up_inv|]. by rewrite take_drop. }
  destruct (IH (m - 1)%nat ltac:(simpl in Hm; lia) q2 w2 (atts ++ done_with ps)) as (q' & w' & Hl' & Hdone).
  - rewrite Hun2, Hk. simpl. rewrite length_drop. simpl in Hm. lia.
  - done.
  - done.
  - intros y Hy. rewrite Hun2 in Hy. apply Hok. rewrite <-(take_drop k (x :: rest)). apply elem_of_app. by right.
  - exists q', w'. split; [|done].
    assert (done_with (pending_of <$> x :: rest) = done_with ps ++ done_with (pending_of <$> unsent (worklist q2))) as ->.
    { rewrite Hun2, Hps. unfold done_with. by rewrite <-!fmap_app, take_drop. }
    rewrite app_assoc. eapply leads_to_trans; [|exact Hl'].
    apply leads_to_step, leads_to_step. apply (leads_to_trans _ (mkNotifierState q2 w2 false Asleep (atts ++ done_with ps))); [|by exists 1%nat].
    destruct ps as [|row ps']; [by rewrite Hk in Hps|].
    assert (step (mkNotifierState q w false Fetching atts)
            = mkNotifierState q1 (set_tracer t w) false (Working c b (row :: ps')) atts) as Hf
      by (unfold notifier_step; simpl; rewrite Hp; by injection Hst as <- <- <-).
    change (step (mkNotifierState q w false Polling atts)) with (mkNotifierState q w false Fetching atts). by rewrite Hf.
Qed.
End liveness.

(** C32: A healthy worker works its list. On a database that answers and with
    handlers that accept the pending rows, [Run] left alone goes back to the
    head of its loop with nothing pending, having dispatched every row exactly
    once, oldest first, whatever the batch size configured. *)
Theorem notifier_drains_worklist {V W} `{QueueSpec V} `{Traced W} `{Clock W}
    parse_span parse_baggage fresh (bus : Bus local_command W) (cfg : NotifierConfig) (ctx : Context)
    (up : V -> Prop) (ready : W -> Prop) (ok : PendingNotification -> Prop) (q : V) (w : W) :
  let n := NewNotifier bus cfg in
  (forall v, up v -> queue_inv v) ->
  (forall limit v, 0 <= limit -> up v -> exists ps v', Pending limit v = (Ok ps, v') /\ up v') ->
  (forall id v, up v -> exists v', MarkSent id v = (Ok tt, v') /\ up v') ->
  (forall t w, ready w -> ready (set_tracer t w)) ->
  (forall c row w, ready w -> ok row -> exists w', dispatch_row bus c row w = (Ok tt, w') /\ ready w') ->
  up q -> ready w -> (forall x, x ∈ unsent (worklist q) -> ok (pending_of x)) ->
  exists k q' w',
    Nat.iter k (notifier_step parse_span parse_baggage fresh n ctx true) (mkNotifierState q w false Polling [])
    = mkNotifierState q' w' false Polling (done_with (pending_of <$> unsent (worklist q)))
    /\ unsent (worklist q') = [].
Proof.
  intros n Hup Hp Hm Ht Hd Hq Hw Hok.
  assert (0 < BatchSize (nt_cfg n)) as Hcfg by (simpl; case_decide; lia).
  destruct (drains_within parse_span parse_baggage fresh n ctx Hcfg up ready ok Hup Hp Hm Ht Hd
              (length (unsent (worklist q))) q w [] ltac:(lia) Hq Hw Hok) as (q' & w' & [k Hk] & Hdone).
  by exists k, q', w'.
Qed.

(** ** Starvation *)

Section starvation.
Context {V W : Type} `{QueueSpec V} `{Traced W} `{Clock W}.
Variables (parse_span : string -> string -> SpanContext) (parse_baggage : string -> string)
  (fresh : nat -> SpanContext -> SpanContext) (n : Notifier W) (ctx : Context) (ps : list work).
Hypothesis full_batch : Z.of_nat (length ps) = BatchSize (nt_cfg n).
Hypothesis refused : forall c x w, x ∈ ps -> exists e w', dispatch_row (nt_bus n) c (pending_of x) w = (Err e, w').

(** The refused rows are the oldest pending ones, and nothing else was tried. *)
Record starved (rest : list work) (s : notifier_state V W) : Prop := {
  sv_inv : queue_inv (ns_queue s);
  sv_pending : exists more, unsent (worklist (ns_queue s)) = ps ++ rest ++ more;
  sv_claimed c b rows row : ns_pc s = Working c b rows -> row ∈ rows -> row ∈ pending_of <$> ps;
  sv_attempts a : a ∈ ns_attempts s -> at_row a ∈ pending_of <$> ps /\ is_ok (at_result a) = false;
}.

Lemma send_refused c row q w :
  row ∈ pending_of <$> ps -> exists e w', send parse_span parse_baggage fresh n c row q w = (Ok tt, mkAttempt row (Err e), q, w').
Proof.
  intros (x & -> & Hx)%list_elem_of_fmap. unfold send. destruct (StartLinked _ _ _ _ _ _ _) as [[c' span] t].
  destruct (refused c' x (set_tracer t w) Hx) as (e & w' & ->). eauto.
Qed.

Lemma step_starved rest timer s :
  starved rest s -> starved rest (notifier_step parse_span parse_baggage fresh n ctx timer s).
Proof.
  intros Hs. pose proof Hs as [Hinv [more Hun] Hclaimed Hatt].
  assert (forall q w cancelled pc, queue_inv q -> worklist q = worklist (ns_queue s) ->
            (forall c b rows row, pc = Working c b rows -> row ∈ rows -> row ∈ pending_of <$> ps) ->
            starved rest (mkNotifierState q w cancelled pc (ns_attempts s))) as Hsame.
  { intros q w cancelled pc Hq Hwl Hpc. split; simpl; [done | exists more; by rewrite Hwl | exact Hpc | exact Hatt]. }
  unfold notifier_step. destruct (ns_pc s) as [| |c b [|row rows]| |r] eqn:Hpc; [| | | | |done].
  - by destruct (ns_cancelled s); apply Hsame.
  - destruct (Pending _ _) as [g q] eqn:E. apply Pending_spec in E as (Hq & Hw & Hg); [|done].
    destruct g as [[|row rows]|e|m]; [by apply Hsame| |by destruct (ns_cancelled s && negb timer); apply Hsame | by apply Hsame].
    destruct (StartBatch _ _ _ _) as [[c b] t]. apply Hsame; [done | done|].
    intros c' b' rows' row' [= -> -> <-] Hin. specialize (Hg _ eq_refl ltac:(lia)).
    rewrite Hg, Hun, <-full_batch, Nat2Z.id, take_app_length in Hin. done.
  - by apply Hsame.
  - pose proof (Hclaimed c b (row :: rows) row eq_refl ltac:(left)) as Hrow.
    destruct (send_refused c row (ns_queue s) (ns_world s) Hrow) as (e & w & ->).
    split; simpl; [done | by exists more | |].
    + intros c' b' rows' row' [= -> -> <-] Hin. apply (Hclaimed c' b' (row :: rows) row' eq_refl). by right.
    + intros a Ha. apply elem_of_app in Ha as [Ha|Ha%list_elem_of_singleton]; [by apply Hatt | by subst a].
  - by destruct (negb (ns_cancelled s) || timer); apply Hsame.
Qed.

Lemma service_step_starved rest s s' :
  service_step parse_span parse_baggage fresh n ctx s s' -> starved rest s -> starved rest s'.
Proof.
  intros Hstep Hs. destruct Hstep as [timer s|order reason md s r q E|w s|s|s]; [by apply step_starved| | | |].
  - destruct Hs as [Hinv [more Hun] Hclaimed Hatt]. apply Enqueue_spec in E as (Hq & Hw); [|done].
    split; simpl; try done. destruct Hw as [Hw|[_ Hw]]; [|exists more; by rewrite Hw].
    apply enqueued_extends in Hw as (k & Hk & _). exists (more ++ unsent k).
    unfold unsent in *. by rewrite Hk, filter_app, Hun, !app_assoc.
  - by destruct Hs.
  - by destruct Hs.
  - destruct Hs. by split.
Qed.

Lemma service_runs_starved rest s s' :
  service_runs parse_span parse_baggage fresh n ctx s s' -> starved rest s -> starved rest s'.
Proof. intros Hr. induction Hr as [|s1 s2 s3 Hs _ IH]; [done|]. intros Hsv. by eapply IH, service_step_starved. Qed.

#[local] Abbreviation step := (notifier_step parse_span parse_baggage fresh n ctx true).

(** A tick sends every row of its batch and sleeps. *)
Lemma sends_refused c b rows : forall q w atts,
  rows ⊆ pending_of <$> ps -> exists w' atts',
    Nat.iter (length rows + 1) step (mkNotifierState q w false (Working c b rows) atts)
    = mkNotifierState q w' false Asleep (atts ++ atts') /\ at_row <$> atts' = rows.
Proof.
  induction rows as [|row rows IH]; intros q w atts Hin.
  { eexists _, []. split; [simpl; rewrite app_nil_r; reflexivity | done]. }
  destruct (send_refused c row q w) as (e & w1 & Hsend); [apply Hin; by left|].
  destruct (IH q w1 (atts ++ [mkAttempt row (Err e)])) as (w' & atts' & Hi & Hrows); [intros y Hy; apply Hin; by right|].
  exists w', (mkAttempt row (Err e) :: atts'). split; [|by rewrite fmap_cons, Hrows].
  cbn [length Nat.add]. rewrite Nat.iter_succ_r. unfold notifier_step at 2.
  cbn [ns_pc ns_queue ns_world ns_cancelled ns_attempts]. rewrite Hsend, Hi, <-app_assoc. done.
Qed.

(** A healthy worklist: it answers, and goes on answering. *)
Variable up : V -> Prop.
Hypothesis up_inv : forall v, up v -> queue_inv v.
Hypothesis up_pending : forall limit v, 0 <= limit -> up v -> exists rows v', Pending limit v = (Ok rows, v') /\ up v'.
Hypothesis batch_positive : 0 < BatchSize (nt_cfg n).

(** Once around the loop. *)
Definition round : nat := length ps + 4.

Lemma round_refused rest s :
  starved rest s -> up (ns_queue s) -> ns_pc s = Polling -> ns_cancelled s = false ->
  let s' := Nat.iter round step s in
  starved rest s' /\ up (ns_queue s') /\ ns_pc s' = Polling /\ ns_cancelled s' = false
  /\ at_row <$> ns_attempts s' = (at_row <$> ns_attempts s) ++ (pending_of <$> ps).
Proof.
  intros Hsv Hup Hpc Hc. destruct s as [q w cancelled pc atts]. simpl in *. subst.
  pose proof (sv_pending _ _ Hsv) as [more Hun]. simpl in Hun.
  destruct (up_pending (BatchSize (nt_cfg n)) q ltac:(lia) Hup) as (rows & q1 & Hp & Hq1).
  pose proof (Pending_spec _ _ _ _ (up_inv _ Hup) Hp) as (_ & _ & Hrows). specialize (Hrows rows eq_refl ltac:(lia)).
  rewrite Hun, <-full_batch, Nat2Z.id, take_app_length in Hrows.
  destruct (StartBatch fresh ctx "notify batch" (tracer_of w)) as [[c b] t] eqn:Hst.
  destruct (sends_refused c b rows q1 (set_tracer t w) atts ltac:(by rewrite Hrows)) as (w' & atts' & Hi & Ha).
  assert (Nat.iter round step (mkNotifierState q w false Polling atts)
          = mkNotifierState q1 w' false Polling (atts ++ atts')) as Hround.
  { replace round with (1 + ((length rows + 1) + 2))%nat by (unfold round; rewrite Hrows, length_fmap; lia).
    rewrite Nat.iter_add, (Nat.iter_add (length rows + 1)).
    assert (Nat.iter 2 step (mkNotifierState q w false Polling atts)
            = mkNotifierState q1 (set_tracer t w) false (Working c b rows) atts) as ->; [|by rewrite Hi].
    simpl. unfold notifier_step at 1. simpl. rewrite Hp. destruct rows as [|row rows'].
    - destruct ps; [simpl in full_batch; lia | done].
    - injection Hst as <- <- <-. reflexivity. }
  assert (starved rest (Nat.iter round step (mkNotifierState q w false Polling atts))) as Hsv'.
  { eapply service_runs_starved, Hsv. apply own_steps. }
  cbn zeta. rewrite Hround in *. simpl. split_and!; [done..|]. by rewrite fmap_app, Ha, Hrows.
Qed.

Lemma rounds_refused rest k : forall s,
  starved rest s -> up (ns_queue s) -> ns_pc s = Polling -> ns_cancelled s = false ->
  let s' := Nat.iter (k * round) step s in
  ns_pc s' = Polling
  /\ at_row <$> ns_attempts s' = (at_row <$> ns_attempts s) ++ concat (replicate k (pending_of <$> ps)).
Proof.
  induction k as [|k IH]; intros s Hsv Hup Hpc Hc; [simpl; by rewrite app_nil_r|].
  destruct (round_refused rest s Hsv Hup Hpc Hc) as (Hsv' & Hup' & Hpc' & Hc' & Ha).
  destruct (IH _ Hsv' Hup' Hpc' Hc') as [Hp Hk]. cbn zeta.
  replace (S k * round)%nat with (k * round + round)%nat by lia. rewrite Nat.iter_add.
  split; [exact Hp|]. rewrite Hk, Ha. simpl. by rewrite app_assoc.
Qed.
End starvation.

(** C38: Rows that are always refused can stop all the others. When as many as a
    batch holds are the oldest pending ones, the worker never tries any other
    row, however long it runs, is restarted, and whatever is queued behind
    them; and wherever it has got to, as long as the list answers and nobody
    cancels it, each round of its loop tries exactly these rows again, in
    order, and comes back to poll. *)
Theorem refused_rows_starve_the_rest {V W} `{QueueSpec V} `{Traced W} `{Clock W}
    parse_span parse_baggage fresh (bus : Bus local_command W) (cfg : NotifierConfig) (ctx : Context)
    (ps rest : list work) (q0 : V) (w0 : W) (s : notifier_state V W) :
  let n := NewNotifier bus cfg in
  Z.of_nat (length ps) = BatchSize (nt_cfg n) ->
  (forall c x w, x ∈ ps -> exists e w', dispatch_row bus c (pending_of x) w = (Err e, w')) ->
  queue_inv q0 -> unsent (worklist q0) = ps ++ rest ->
  service_runs parse_span parse_baggage fresh n ctx (mkNotifierState q0 w0 false Polling []) s ->
  (forall a, a ∈ ns_attempts s -> at_row a ∈ pending_of <$> ps /\ is_ok (at_result a) = false)
  /\ (exists more, unsent (worklist (ns_queue s)) = ps ++ rest ++ more)
  /\ forall up : V -> Prop, (forall v, up v -> queue_inv v) ->
     (forall limit v, 0 <= limit -> up v -> exists rows v', Pending limit v = (Ok rows, v') /\ up v') ->
     up (ns_queue s) -> ns_pc s = Polling -> ns_cancelled s = false ->
     forall k, let s' := Nat.iter (k * (length ps + 4)) (notifier_step parse_span parse_baggage fresh n ctx true) s in
       ns_pc s' = Polling
       /\ at_row <$> ns_attempts s' = (at_row <$> ns_attempts s) ++ concat (replicate k (pending_of <$> ps)).
Proof.
  intros n Hfull Href Hinv Hun Hruns.
  assert (0 < BatchSize (nt_cfg n)) as Hcfg by (simpl; case_decide; lia).
  assert (starved ps rest (mkNotifierState q0 w0 false Polling [])) as Hstart.
  { split; simpl; [done | exists []; by rewrite app_nil_r | done | intros a Ha; by apply elem_of_nil in Ha]. }
  assert (starved ps rest s) as Hs by (by eapply (service_runs_starved _ _ _ n ctx ps Hfull Href)).
  split; [exact (sv_attempts _ _ _ Hs)|]. split; [exact (sv_pending _ _ _ Hs)|].
  intros up Hup Hanswers Hq Hpc Hc k.
  exact (rounds_refused _ _ _ n ctx ps Hfull Href up Hup Hanswers Hcfg rest k s Hs Hq Hpc Hc).
Qed.

(** ** On Postgres, with the ordering service's handlers *)

(** A database that answers. *)
Definition answering (p : PgReadModel) : Prop := fates p = [] /\ queue_rows_ok (table p).

Lemma scanPending_total rs :
  Forall (fun r => exists m, dec_map None (q_metadata r) = Ok m) rs -> exists ps, scanPending rs = Ok ps.
Proof.
  unfold scanPending. induction 1 as [|r rs [m Hm] _ [ps IH]]; [by exists []|].
  exists (mkPending (q_id r) (q_order r) (q_reason r) m :: ps). simpl. unfold scan_pending_row at 1. rewrite Hm. simpl. by rewrite IH.
Qed.

Lemma pg_pending_answers limit p :
  0 <= limit -> answering p -> exists ps p', pg_Pending limit p = (Ok ps, p') /\ answering p'.
Proof.
  intros Hl [Hf Hok]. unfold pg_Pending, exec, round_trip, select_pending. rewrite decide_False by lia. simpl. rewrite Hf. simpl.
  assert (Forall (fun r => exists m, dec_map None (q_metadata r) = Ok m)
            (take (Z.to_nat limit) (order_by q_id (filter (fun r => q_sent r = false) (t_work (table p)))))) as Hmd.
  { rewrite order_by_sorted by by apply sorted_filter, increasing_sorted, Hok.
    apply Forall_take. apply Forall_forall. intros r [_ Hr]%list_elem_of_filter.
    pose proof (qr_metadata _ Hok) as Hall. rewrite Forall_forall in Hall. by apply Hall. }
  destruct (scanPending_total _ Hmd) as [ps Hps]. rewrite Hps. eexists _, _. split; [reflexivity|]. split; [done | by destruct p].
Qed.

Lemma pg_marks id p : answering p -> exists p', pg_MarkSent id p = (Ok tt, p') /\ answering p'.
Proof.
  intros [Hf Hok]. unfold pg_MarkSent, round_trip, mark_sent. rewrite Hf. eexists. split; [reflexivity|]. split; [done|].
  by apply (mark_sent_ok id (table p)).
Qed.

(** A milestone for an order whose identifier does not parse is refused by the
    command's handler in every state. *)
Lemma unparsable_order_is_refused (u : N -> N) {W} `{Store W} now x others h ctx order reason w e :
  @ParseID u OrderMarker order = Err e ->
  NotifyCustomer_handler (W := W) u now x others h ctx (mkNotifyCustomer order reason) w = (Err e, w).
Proof. intros Hp. unfold NotifyCustomer_handler. simpl. by rewrite Hp. Qed.

Module Sample.
Import OrderSummary.Sample.

(** The world of the ordering service's bus: store, tracer, captured positions. *)
Abbreviation world := ((MemoryStore * Tracer) * heap)%type.
Definition at_store {A} (op : MemoryStore -> A * MemoryStore) (w : MemoryStore * Tracer) : A * (MemoryStore * Tracer) :=
  let '(a, m) := op (fst w) in (a, (m, snd w)).
#[export] Instance world_store : Store (MemoryStore * Tracer) := {
  Append now s v es := at_store (Append now s v es); Load s after := at_store (Load s after);
  ReadAll after limit := at_store (ReadAll after limit); Head := at_store Head;
}.
#[export] Instance world_traced : Traced world :=
  {| tracer_of w := snd (fst w); set_tracer t w := ((fst (fst w), t), snd w); tracer_set t w := eq_refl |}.
#[export] Instance world_clock : Clock world := fun _ _ w => (true, w).

Definition start : world := ((NewMemoryStore, []), []).
Definition bus : Bus local_command world :=
  match Ordering.Register Ordering.Sample.lower (fun _ => zero_time) None (fun w => w) Ordering.Sample.service (NewBus []) with
  | Ok b => b
  | _ => NewBus []
  end.
(** A bus whose handler accepts everything. *)
Definition accepting : Bus local_command world :=
  match Handle NotifyCustomer_type (fun _ _ w => (Ok tt, w)) (NewBus []) with Ok b => b | _ => NewBus [] end.

(** The worklist after two milestones, the first for no order. *)
Definition listing : PgReadModel :=
  snd (pg_Enqueue keep order_id ReasonShipped None (snd (pg_Enqueue keep "nowhere" ReasonShipped None (empty [])))).
Lemma listing_ok : queue_rows_ok (table listing).
Proof.
  split; vm_compute.
  - repeat constructor.
  - repeat constructor; discriminate.
  - discriminate.
  - apply NoDup_cons. split; [intros Hin%list_elem_of_singleton; discriminate | apply NoDup_singleton].
  - repeat constructor; eexists; reflexivity.
Qed.
Definition nowhere : work := mkWork 1 "nowhere" ReasonShipped None false.
Definition waiting : work := mkWork 2 order_id ReasonShipped None false.
Lemma listing_unsent : unsent (row_work <$> t_work (table listing)) = [nowhere; waiting].
Proof. vm_compute. reflexivity. Qed.
Lemma bus_refuses c w : dispatch_row bus c (pending_of nowhere) w = (Err (invalid_id "nowhere"), w).
Proof. reflexivity. Qed.
Definition parse_span : string -> string -> SpanContext := mkSpanContext.
Definition fresh (n : nat) (_ : SpanContext) : SpanContext := mkSpanContext ("0" +:+ pretty (N.of_nat n)) "".
End Sample.
Import Sample.

#[local] Existing Instance OrderSummary.Sample.queue.
#[local] Existing Instance OrderSummary.Sample.queue_spec.

Lemma notifier_drains_worklist_witness :
  exists k q' w',
    Nat.iter k (notifier_step parse_span (fun _ => "") fresh (NewNotifier accepting (mkNotifierConfig 0 1)) background true)
      (mkNotifierState listing start false Polling [])
    = mkNotifierState q' w' false Polling (done_with (pending_of <$> unsent (worklist listing)))
    /\ unsent (worklist q') = [].
Proof.
  refine (notifier_drains_worklist parse_span (fun _ => "") fresh accepting (mkNotifierConfig 0 1) background
    answering (fun _ => True) (fun _ => True) listing start _ _ _ _ _ _ _ _).
  - intros v Hv. exact (proj2 Hv).
  - exact pg_pending_answers.
  - exact pg_marks.
  - intros t w _. exact I.
  - intros c row w _ _. exists w. split; [reflexivity | exact I].
  - exact (conj eq_refl listing_ok).
  - exact I.
  - intros x _. exact I.
Defined.

(** The worker after two ticks, the only row it ever tried being the refused one. *)
Definition two_ticks : notifier_state PgReadModel world :=
  Nat.iter 10 (notifier_step parse_span (fun _ => "") fresh (NewNotifier bus (mkNotifierConfig 0 1)) background true)
    (mkNotifierState listing start false Polling []).

Lemma refused_rows_starve_the_rest_witness :
  (forall a, a ∈ ns_attempts two_ticks -> at_row a ∈ pending_of <$> [nowhere] /\ is_ok (at_result a) = false)
  /\ (exists more, unsent (worklist (ns_queue two_ticks)) = [nowhere] ++ [waiting] ++ more)
  /\ (at_row <$> ns_attempts (Nat.iter 15 (notifier_step parse_span (fun _ => "") fresh
         (NewNotifier bus (mkNotifierConfig 0 1)) background true) two_ticks)
       = replicate 5 (pending_of nowhere)).
Proof.
  destruct (refused_rows_starve_the_rest (V := PgReadModel) (H := OrderSummary.Sample.queue) (H0 := OrderSummary.Sample.queue_spec) parse_span (fun _ => "") fresh bus (mkNotifierConfig 0 1) background
    [nowhere] [waiting] listing start two_ticks eq_refl) as (Ha & Hu & Hk).
  - intros c x w Hx. apply list_elem_of_singleton in Hx. rewrite Hx. exists (invalid_id "nowhere"), w. apply bus_refuses.
  - exact listing_ok.
  - exact listing_unsent.
  - apply own_steps.
  - split; [exact Ha|]. split; [exact Hu|].
    destruct (Hk answering) with (k := 3%nat) as [_ Hrows].
    + intros v Hv. exact (proj2 Hv).
    + exact pg_pending_answers.
    + split; [vm_compute; reflexivity|]. split; vm_compute.
      * repeat constructor.
      * repeat constructor; discriminate.
      * discriminate.
      * apply NoDup_cons. split; [intros Hin%list_elem_of_singleton; discriminate | apply NoDup_singleton].
      * repeat constructor; eexists; reflexivity.
    + vm_compute. reflexivity.
    + vm_compute. reflexivity.
    + change (3 * (length [nowhere] + 4))%nat with 15%nat in Hrows. rewrite Hrows. vm_compute. reflexivity.
Defined.

Lemma notification_retired_only_when_sent_witness :
  listed (worklist (ns_queue (Nat.iter 9 (notifier_step parse_span (fun _ => "") fresh (NewNotifier accepting (mkNotifierConfig 0 1)) background true)
    (mkNotifierState listing start false Polling [])))) (pending_of waiting).
Proof.
  refine (proj1 (notification_retired_only_when_sent (V := PgReadModel) (H := OrderSummary.Sample.queue)
    (H0 := OrderSummary.Sample.queue_spec) parse_span (fun _ => "") fresh accepting (mkNotifierConfig 0 1) background
    listing start _ listing_ok _) (pending_of waiting) _).
  - apply own_steps.
  - exists waiting. split; [|reflexivity]. apply list_elem_of_lookup. exists 1%nat. vm_compute. reflexivity.
Defined.
