(* ===== verification/SagaRun.v ===== *)
(** * saga/runner.go: [Runner.Run], one subscription per topic

    [Run] subscribes to each topic in a goroutine of its own, with a context of
    its own that the first failure ends, and waits for all of them. What the
    subscriptions answer, and in which order, is the broker's: events. Sending
    an error and ending the context are one step. *)

From S2P Require Import Prelude Errors.

(** The goroutines, one per topic: whether [Subscribe] has returned; their
    context; the channel of capacity [len(topics)]. *)
Record subscriptions := mkSubscriptions {
  sub_topics : list (string * bool);
  sub_cancelled : bool;
  sub_errc : list error;
}.

(** A subscription returns, with an error or nil; the caller's context ends. *)
Inductive run_event := SubscribeReturns (i : nat) (err : option error) | ParentEnds.

Section run.
Variable name : string.

Definition topic_failed (topic : string) (e : error) : error := EWrap ("saga " +:+ name +:+ ": topic " +:+ topic +:+ ": ") e "".

(** Up to [wg.Wait()]. *)
Definition Run_start (topics : list string) : res subscriptions :=
  if decide (topics = []) then Err (EText ("saga " +:+ name +:+ ": no topics to consume"))
  else Ok (mkSubscriptions ((fun topic => (topic, false)) <$> topics) false []).

Definition Run_step (ev : run_event) (s : subscriptions) : subscriptions :=
  match ev with
  | ParentEnds => mkSubscriptions (sub_topics s) true (sub_errc s)
  | SubscribeReturns i err =>
    match sub_topics s !! i with
    | Some (topic, false) =>
      let topics := <[i := (topic, true)]> (sub_topics s) in
      match err with
      | Some e => mkSubscriptions topics true (sub_errc s ++ [topic_failed topic e])
      | None => mkSubscriptions topics (sub_cancelled s) (sub_errc s)
      end
    | _ => s
    end
  end.

(** [wg.Wait(); close(errc); return <-errc] *)
Definition Run_result (s : subscriptions) : option (res unit) :=
  if forallb snd (sub_topics s) then Some (match sub_errc s with [] => Ok tt | e :: _ => Err e end) else None.

Definition run_events (evs : list run_event) (s : subscriptions) : subscriptions := foldl (flip Run_step) s evs.

Definition ended (s : subscriptions) : nat := length (filter (fun t => snd t = true) (sub_topics s)).

(** The errors are those of subscriptions that ended, their context is over,
    and the channel has room for the rest. *)
Record run_inv (topics : list string) (s : subscriptions) : Prop := {
  ri_topics : fst <$> sub_topics s = topics;
  ri_room : (length (sub_errc s) <= ended s)%nat;
  ri_cancelled : sub_errc s <> [] -> sub_cancelled s = true;
  ri_errors : Forall (fun err => exists topic e, topic ∈ topics /\ err = topic_failed topic e) (sub_errc s);
}.

Lemma ended_insert i topic (l : list (string * bool)) :
  l !! i = Some (topic, false) ->
  length (filter (fun t => snd t = true) (<[i := (topic, true)]> l)) = S (length (filter (fun t => snd t = true) l)).
Proof.
  intros Hi. rewrite <-(take_drop_middle l i _ Hi) at 2. rewrite insert_take_drop by (by eapply lookup_lt_Some).
  rewrite !filter_app, !length_app, !filter_cons. cbn. rewrite decide_True, decide_False by done. cbn. lia.
Qed.

Lemma Run_step_inv topics ev s : run_inv topics s -> run_inv topics (Run_step ev s).
Proof.
  intros [Ht Hroom Hc He]. destruct ev as [i err|]; cbn [Run_step]; [|by split].
  destruct (sub_topics s !! i) as [[topic []]|] eqn:Hi; [by split | | by split].
  assert (fst <$> <[i := (topic, true)]> (sub_topics s) = topics) as Ht'.
  { rewrite list_fmap_insert, Ht. apply list_insert_id. by rewrite <-Ht, list_lookup_fmap, Hi. }
  pose proof (ended_insert _ _ _ Hi) as Hend. unfold ended in Hroom.
  destruct err as [e|]; split; unfold ended; cbn [sub_topics sub_errc sub_cancelled]; rewrite ?Hend, ?length_app; cbn; try done; try lia.
  apply Forall_app. split; [done|]. apply Forall_singleton. exists topic, e. split; [|done].
  rewrite <-Ht. apply list_elem_of_fmap. exists (topic, false). split; [done | by eapply list_elem_of_lookup_2].
Qed.

Lemma run_events_inv topics evs s : run_inv topics s -> run_inv topics (run_events evs s).
Proof.
  unfold run_events. revert s. induction evs as [|ev evs IH]; intros s Hs; [done|]. by apply IH, Run_step_inv.
Qed.

(** The errors sent before stay, in order. *)
Lemma run_events_errors evs s : sub_errc s `prefix_of` sub_errc (run_events evs s).
Proof.
  unfold run_events. revert s. induction evs as [|ev evs IH]; intros s; [done|]. etransitivity; [|apply IH]. cbn [flip].
  destruct ev as [i [e|]|]; cbn; [| |done]; destruct (sub_topics s !! i) as [[t []]|]; cbn; try done. by apply prefix_app_r.
Qed.

(** Whatever the subscriptions answer and in which order: an answer of [Run]
    is the first error any of them sent, wrapped with its topic, and nil when
    none failed; the channel never blocks a sender; a failure ends the others'
    context at once; and when every subscription has returned, [Run] does. *)
Theorem run_answers_first_failure (topics : list string) (evs : list run_event) (s0 : subscriptions)
    (Hstart : Run_start topics = Ok s0) :
  let s := run_events evs s0 in
  (length (sub_errc s) <= length topics)%nat
  /\ (sub_errc s <> [] -> sub_cancelled s = true)
  /\ (forall r, Run_result s = Some r ->
        (r = Ok tt <-> sub_errc s = [])
        /\ forall e, r = Err e -> head (sub_errc s) = Some e /\ exists topic inner, topic ∈ topics /\ e = topic_failed topic inner)
  /\ (Forall (fun t => snd t = true) (sub_topics s) -> is_Some (Run_result s))
  /\ forall more, sub_errc s <> [] -> head (sub_errc (run_events more s)) = head (sub_errc s).
Proof.
  cbv zeta. unfold Run_start in Hstart. case_decide; [done|]. injection Hstart as <-.
  assert (run_inv topics (mkSubscriptions ((fun topic => (topic, false)) <$> topics) false [])) as Hinv.
  { split; cbn [sub_topics sub_errc sub_cancelled]; [|cbn; lia|done|constructor].
    rewrite <-list_fmap_compose. apply list_fmap_id. }
  apply (run_events_inv _ evs) in Hinv. generalize dependent (run_events evs (mkSubscriptions ((fun topic => (topic, false)) <$> topics) false [])).
  intros s [Ht Hroom Hc He]. split_and!.
  - unfold ended in Hroom. pose proof (length_filter (fun t : string * bool => snd t = true) (sub_topics s)). rewrite <-Ht, length_fmap. lia.
  - exact Hc.
  - unfold Run_result. intros r. case_match; [|done]. intros [= <-]. destruct (sub_errc s) as [|e0 errs]; [by split|].
    split; [by split|]. intros e [= <-]. split; [done|]. by apply Forall_cons_1 in He as [He _].
  - unfold Run_result. clear. intros Hall. assert (forallb snd (sub_topics s) = true) as ->; [|by eexists].
    induction Hall as [|t l Ht _ IH]; [done|]. cbn. by rewrite Ht, IH.
  - intros more Hne. destruct (run_events_errors more s) as [l ->]. by destruct (sub_errc s).
Qed.
End run.

(** ** Witness *)

Lemma run_answers_first_failure_witness :
  let s0 := mkSubscriptions [("a", false); ("b", false)] false [] in
  let s := run_events "flow" [SubscribeReturns 1 (Some (EText "gone")); SubscribeReturns 0 None] s0 in
  Run_start "flow" ["a"; "b"] = Ok s0
  /\ Run_result s = Some (Err (topic_failed "flow" "b" (EText "gone"))) /\ sub_cancelled s = true.
Proof.
  cbv zeta. split; [reflexivity|]. split; [reflexivity|].
  refine (proj1 (proj2 (run_answers_first_failure "flow" ["a"; "b"] [SubscribeReturns 1 (Some (EText "gone")); SubscribeReturns 0 None] _ eq_refl)) _).
  discriminate.
Defined.
