(* ===== verification/Goroutines.v ===== *)
(** * gohex-example/<service>/cmd/<service>/main.go: the goroutines of a service

    The errgroup of [run]: one goroutine per worker, that of the saga with one
    more per topic, in any order of their steps. What matters here is what a
    goroutine takes and gives back: a subscription of the Kafka adapter
    (broker-kafka/broker.go) opens a client of its own and closes it when it
    returns; the other workers only use what is open. What a worker's loop
    answers, and when, is the broker's, the database's and the context's: the
    events say it. *)

From S2P Require Import Prelude Errors SagaRun.

(** What [run] starts. *)
Inductive worker :=
  | RelayRun (name topic : string)
  | ConsumerRun (topic group : string)
  | SagaRun (name group : string) (topics : list string)
  | CatchUpRun
  | InboxReaderRun
  | NotifierRun
  | InboxWriterRun (topic consumer : string)
  | ServeHTTP (port : string)
  | ServeHealth (port : string).

Section goroutines.
(** The process [P], and the client library acting on it. *)
Context {Client P : Type}.
Variables (kgo_NewClient : list string -> P -> res Client * P) (client_Close : Client -> P -> P).

(** Where a worker's call is: in a loop that takes nothing; in [Subscribe],
    before its client is opened, polling with it, and at the deferred [Close];
    about to return. A panic in a goroutine ends the process. *)
Inductive activity :=
  | Working
  | Subscribing (topic group : string)
  | Consuming (client : Client)
  | Unsubscribing (client : Client) (answer : option error)
  | Ended (answer : option error)
  | Panicked (v : string).

Definition subscribe_failed (topic group : string) (e : error) : error :=
  EWrap ("kafkabroker: subscribe " +:+ topic +:+ "/" +:+ group +:+ ": ") e "".

Definition activity_step (seeds : list string) (answer : option error) (a : activity) (p : P) : activity * P :=
  match a with
  | Working => (Ended answer, p)
  | Subscribing topic group =>
    match kgo_NewClient seeds p with
    | (Ok client, p') => (Consuming client, p')
    | (Err e, p') => (Ended (Some (subscribe_failed topic group e)), p')
    | (Panic v, p') => (Panicked v, p')
    end
  | Consuming client => (Unsubscribing client answer, p)
  | Unsubscribing client answer => (Ended answer, client_Close client p)
  | _ => (a, p)
  end.

(** A goroutine of the group; the saga's waits for its own, of which
    [SagaRun] keeps the account. *)
Inductive routine :=
  | Call (a : activity)
  | Saga (name : string) (subs : list activity) (account : subscriptions)
  | Returned (answer : option error).

(** [g.Go] *)
Definition go (w : worker) : routine :=
  match w with
  | ConsumerRun topic group | InboxWriterRun topic group => Call (Subscribing topic group)
  | SagaRun name group topics =>
    match Run_start name topics with
    | Ok account => Saga name ((fun topic => Subscribing topic group) <$> topics) account
    | Err e => Call (Ended (Some e))
    | Panic v => Call (Panicked v)
    end
  | _ => Call Working
  end.

Definition failure (r : res unit) : option error := match r with Err e => Some e | _ => None end.

(** A step of a goroutine; of the saga's, a step of its [j]th subscription. *)
Definition routine_step (seeds : list string) (j : nat) (answer : option error) (r : routine) (p : P) : routine * P :=
  match r with
  | Call (Ended a) => (Returned a, p)
  | Call a => let '(a', p') := activity_step seeds answer a p in (Call a', p')
  | Saga name subs account =>
    match Run_result account with
    | Some result => (Returned (failure result), p)
    | None =>
      match subs !! j with
      | Some (Ended a) => (Saga name subs (Run_step name (SubscribeReturns j a) account), p)
      | Some a => let '(a', p') := activity_step seeds answer a p in (Saga name (<[j := a']> subs) account, p')
      | None => (r, p)
      end
    end
  | Returned _ => (r, p)
  end.

(** golang.org/x/sync/errgroup, as its documentation says: [Wait] blocks until
    every call of [Go] has returned, and answers the first non-nil error. *)
Record group := mkGroup { routines : list routine; group_err : option error }.

Definition start (workers : list worker) : group := mkGroup (go <$> workers) None.

Definition kept (r r' : routine) (err : option error) : option error :=
  match r, r' with
  | Returned _, _ => err
  | _, Returned (Some e) => Some (default e err)
  | _, _ => err
  end.

(** What happens: a goroutine uses what is open, or the [i]th takes a step. *)
Inductive event := Uses (f : P -> P) | Turn (i j : nat) (answer : option error).

Definition group_step (seeds : list string) (s : group * P) (ev : event) : group * P :=
  let '(g, p) := s in
  match ev with
  | Uses f => (g, f p)
  | Turn i j answer =>
    match routines g !! i with
    | Some r =>
      let '(r', p') := routine_step seeds j answer r p in
      (mkGroup (<[i := r']> (routines g)) (kept r r' (group_err g)), p')
    | None => s
    end
  end.

Definition play (seeds : list string) (evs : list event) (s : group * P) : group * P := foldl (group_step seeds) s evs.

Definition is_returned (r : routine) : bool := match r with Returned _ => true | _ => false end.

(** [g.Wait()] after these events; None while a goroutine has not returned. *)
Definition Wait (seeds : list string) (evs : list event) (workers : list worker) (p : P) : option (res unit * P) :=
  let '(g, p') := play seeds evs (start workers, p) in
  if forallb is_returned (routines g)
  then Some (match group_err g with Some e => Err e | None => Ok tt end, p')
  else None.
End goroutines.
Arguments activity : clear implicits.
Arguments routine : clear implicits.
Arguments group : clear implicits.
Arguments event : clear implicits.

(** ** Replacing one of a list *)

Section replacing.
Context {A B : Type} (f : A -> list B) (size : A -> nat).

Lemma taken_replaced l i x y :
  l !! i = Some x -> (l ≫= f) ≡ₚ f x ++ (delete i l ≫= f) /\ (<[i := y]> l ≫= f) ≡ₚ f y ++ (delete i l ≫= f).
Proof.
  intros Hi. pose proof (lookup_lt_Some _ _ _ Hi) as Hlt.
  rewrite <-(take_drop_middle l i x Hi) at 1. rewrite insert_take_drop, delete_take_drop by done.
  rewrite !bind_app, !bind_cons. split; apply Permutation_app_swap_app.
Qed.

Lemma size_replaced l i x y :
  l !! i = Some x -> (sum_list_with size (<[i := y]> l) + size x = sum_list_with size l + size y)%nat.
Proof.
  intros Hi. pose proof (lookup_lt_Some _ _ _ Hi) as Hlt.
  rewrite <-(take_drop_middle l i x Hi) at 2. rewrite insert_take_drop by done.
  rewrite !sum_list_with_app. simpl. lia.
Qed.

Lemma taken_none l : Forall (fun x => f x = []) l -> l ≫= f = [].
Proof. induction 1 as [|x l Hx _ IH]; [done|]. by rewrite bind_cons, Hx, IH. Qed.
End replacing.

(** ** What the goroutines hold *)

Section holding.
Context {Client P O : Type} `{Countable Client}.
Variables (kgo_NewClient : list string -> P -> res Client * P) (client_Close : Client -> P -> P).
(** The clients open in the process, and what else is held in it. *)
Variables (clients : P -> gset Client) (others : P -> O).

(** The client library opens and closes what it says, and nothing else. *)
Record library_ok : Prop := {
  lib_new seeds p r p' : kgo_NewClient seeds p = (r, p') ->
    others p' = others p
    /\ match r with Ok c => c ∉ clients p /\ clients p' = {[c]} ∪ clients p | Err _ => clients p' = clients p | Panic _ => False end;
  lib_close c p : others (client_Close c p) = others p /\ clients (client_Close c p) = clients p ∖ {[c]};
}.
Hypothesis Hlib : library_ok.

(** The clients that a call, a goroutine, the group opened and has not closed. *)
Definition act_taken (a : activity Client) : list Client :=
  match a with Consuming c | Unsubscribing c _ => [c] | _ => [] end.
Definition routine_taken (r : routine Client) : list Client :=
  match r with Call a => act_taken a | Saga _ subs _ => subs ≫= act_taken | Returned _ => [] end.
Definition group_taken (g : group Client) : list Client := routines g ≫= routine_taken.

(** The open clients are those of before and the ones taken. *)
Definition owns (base : gset Client) (l : list Client) (p : P) : Prop :=
  NoDup l /\ (forall c, c ∈ l -> c ∉ base) /\ clients p = base ∪ list_to_set l.

Lemma owns_perm base l l' p : l ≡ₚ l' -> owns base l p -> owns base l' p.
Proof.
  intros Hp (Hn & Hb & Hc). split_and!; [by rewrite <-Hp | intros c Hin; apply Hb; by rewrite Hp|].
  rewrite Hc. f_equal. apply leibniz_equiv. by rewrite Hp.
Qed.

Lemma activity_step_owns seeds answer base l a p a' p' :
  owns base (act_taken a ++ l) p -> activity_step kgo_NewClient client_Close seeds answer a p = (a', p') ->
  owns base (act_taken a' ++ l) p' /\ others p' = others p /\ ((forall v, a <> Panicked v) -> forall v, a' <> Panicked v).
Proof.
  intros Ho Hstep. destruct a as [|topic group|c|c ans|ans|v]; simpl in Hstep; try (injection Hstep as <- <-; done).
  - destruct (kgo_NewClient seeds p) as [r q] eqn:E. apply (lib_new Hlib) in E as [Hother Hr]. simpl in Ho.
    destruct Ho as (Hn & Hb & Hc). destruct r as [c|e|v]; [| |done]; injection Hstep as <- <-; split; simpl; try done.
    + destruct Hr as [Hnew Hq]. rewrite Hc in Hnew. split_and!.
      * apply NoDup_cons. split; [set_solver | done].
      * intros d [->|Hd]%elem_of_cons; [set_solver | by apply Hb].
      * rewrite Hq, Hc. simpl. set_solver.
    + split_and!; [done..|]. by rewrite Hr.
  - injection Hstep as <- <-. destruct (lib_close Hlib c p) as [Hother Hq]. split; [|done]. simpl in *.
    destruct Ho as ([Hc Hn]%NoDup_cons & Hb & Hcl). split_and!; [done | intros d Hd; apply Hb; by right|].
    rewrite Hq, Hcl. simpl. assert (c ∉ base) by (apply Hb; by left). set_solver.
Qed.

(** The account of a saga's goroutine: a subscription has returned when its
    call has ended; nothing panicked. *)
Definition calm (a : activity Client) : Prop := forall v, a <> Panicked v.
Definition routine_ok (r : routine Client) : Prop :=
  match r with
  | Call a => calm a
  | Saga _ subs account =>
    Forall calm subs /\ length (sub_topics account) = length subs
    /\ forall j topic, sub_topics account !! j = Some (topic, true) -> exists a, subs !! j = Some (Ended a)
  | Returned _ => True
  end.

Lemma go_ok w : routine_ok (go w) /\ routine_taken (go w) = [].
Proof.
  destruct w; simpl; try (by split). unfold Run_start. case_decide; simpl; [by split|]. split.
  - split_and!; [by apply Forall_fmap, Forall_true | by rewrite !length_fmap|].
    intros j topic. rewrite list_lookup_fmap. by destruct (topics !! j).
  - apply taken_none, Forall_fmap, Forall_true. done.
Qed.

Lemma account_settled name subs account result :
  routine_ok (Saga name subs account) -> Run_result account = Some result -> subs ≫= act_taken = [].
Proof.
  intros (_ & Hlen & Hend). unfold Run_result. destruct (forallb snd (sub_topics account)) eqn:Hall; [|done]. intros _.
  apply taken_none, Forall_lookup. intros j a Hj.
  destruct (lookup_lt_is_Some_2 (sub_topics account) j) as [[topic b] Ht]; [rewrite Hlen; by eapply lookup_lt_Some|].
  rewrite forallb_forall in Hall.
  assert (b = true) as -> by exact (Hall _ (proj1 (list_elem_of_In _ _) (list_elem_of_lookup_2 _ _ _ Ht))).
  destruct (Hend j topic Ht) as [ans Hans]. rewrite Hj in Hans. by injection Hans as ->.
Qed.

Lemma Run_step_topics name i answer account :
  sub_topics (Run_step name (SubscribeReturns i answer) account)
  = match sub_topics account !! i with Some (topic, false) => <[i := (topic, true)]> (sub_topics account) | _ => sub_topics account end.
Proof. simpl. destruct (sub_topics account !! i) as [[topic []]|]; [done | by destruct answer | done]. Qed.

Lemma account_returns name subs account j ans :
  routine_ok (Saga name subs account) -> subs !! j = Some (Ended ans) ->
  routine_ok (Saga name subs (Run_step name (SubscribeReturns j ans) account)).
Proof.
  intros (Hc & Hlen & Hend) Hj. split; [done|]. rewrite Run_step_topics.
  destruct (sub_topics account !! j) as [[topic []]|] eqn:Ht; [done | | done].
  split; [by rewrite length_insert|]. intros k t. destruct (decide (k = j)) as [->|Hne]; [intros _; by eexists|].
  rewrite list_lookup_insert_ne by done. apply Hend.
Qed.

Lemma sub_steps name subs account j a a' :
  routine_ok (Saga name subs account) -> subs !! j = Some a -> (forall ans, a <> Ended ans) -> calm a' ->
  routine_ok (Saga name (<[j := a']> subs) account).
Proof.
  intros (Hc & Hlen & Hend) Hj Hne Ha. split; [by apply Forall_insert|]. rewrite length_insert. split; [done|].
  intros k t Hk. destruct (Hend k t Hk) as [ans Hans]. exists ans. rewrite list_lookup_insert_ne; [done|].
  intros ->. rewrite Hj in Hans. injection Hans as Hans. by destruct (Hne ans).
Qed.

Lemma routine_step_owns seeds j answer base l r p r' p' :
  routine_ok r -> owns base (routine_taken r ++ l) p ->
  routine_step kgo_NewClient client_Close seeds j answer r p = (r', p') ->
  owns base (routine_taken r' ++ l) p' /\ others p' = others p /\ routine_ok r'.
Proof.
  intros Hok Ho Hstep. destruct r as [a|name subs account|ans]; cbn [routine_step] in Hstep.
  - destruct a as [|topic group|c|c ans|ans|v].
    all: try (injection Hstep as <- <-; by split_and!).
    all: destruct (activity_step kgo_NewClient client_Close seeds answer _ p) as [a1 p1] eqn:E; injection Hstep as <- <-;
      destruct (activity_step_owns _ _ _ _ _ _ _ _ Ho E) as (? & ? & Hcalm); split_and!; [done..|]; exact (Hcalm Hok).
  - destruct (Run_result account) as [result|] eqn:Hr.
    { injection Hstep as <- <-. simpl in *. by rewrite (account_settled name _ _ _ Hok Hr) in Ho. }
    destruct (subs !! j) as [a|] eqn:Hj; [|by injection Hstep as <- <-].
    destruct (taken_replaced act_taken subs j a a Hj) as [Hp _].
    assert (forall a1 p1, activity_step kgo_NewClient client_Close seeds answer a p = (a1, p1) -> (forall ans, a <> Ended ans) ->
      owns base (routine_taken (Saga name (<[j:=a1]> subs) account) ++ l) p1 /\ others p1 = others p
      /\ routine_ok (Saga name (<[j:=a1]> subs) account)) as Hsub.
    { intros a1 p1 E Hne. apply (owns_perm _ _ ((act_taken a) ++ (delete j subs ≫= act_taken) ++ l)) in Ho;
        [|by rewrite app_assoc, <-Hp].
      destruct (activity_step_owns _ _ _ _ _ _ _ _ Ho E) as (Ho1 & Hp1 & Hcalm). split_and!; [|done|].
      - eapply owns_perm; [|exact Ho1]. destruct (taken_replaced act_taken subs j a a1 Hj) as [_ Hq]. simpl. by rewrite Hq, app_assoc.
      - assert (calm a) as Ha by (destruct Hok as (Hc & _ & _); rewrite Forall_lookup in Hc; by eapply Hc).
        exact (sub_steps name subs account j a a1 Hok Hj Hne (Hcalm Ha)). }
    destruct a as [|topic group|c|c ans|ans|v].
    5: { injection Hstep as <- <-. split_and!; [exact Ho | done | by apply account_returns]. }
    all: destruct (activity_step kgo_NewClient client_Close seeds answer _ p) as [a1 p1] eqn:E; injection Hstep as <- <-; by apply Hsub.
  - by injection Hstep as <- <-.
Qed.

(** A use of what is open opens and closes nothing. *)
Definition keeps (f : P -> P) : Prop := forall p, clients (f p) = clients p /\ others (f p) = others p.
Definition mere_use (ev : event P) : Prop := match ev with Uses f => keeps f | _ => True end.

(** At any moment what is held is what was held before and what the goroutines
    took, [p0] being the process as it was. *)
Record holding (p0 : P) (s : group Client * P) : Prop := {
  hd_owns : owns (clients p0) (group_taken (fst s)) (snd s);
  hd_others : others (snd s) = others p0;
  hd_ok : Forall routine_ok (routines (fst s));
}.

#[local] Abbreviation group_steps := (group_step kgo_NewClient client_Close).
#[local] Abbreviation plays := (play kgo_NewClient client_Close).

Lemma group_step_holding p0 seeds s ev : holding p0 s -> mere_use ev -> holding p0 (group_steps seeds s ev).
Proof.
  intros [Ho Hp Hok] Hev. destruct s as [g p]. cbn [fst snd] in *. destruct ev as [f|i j answer]; cbn [group_step].
  - destruct (Hev p) as [Hc Hs]. split; cbn [fst snd]; [|congruence|done].
    destruct Ho as (? & ? & Ho). split_and!; [done..|congruence].
  - destruct (routines g !! i) as [r|] eqn:Hi; [|by split].
    destruct (routine_step _ _ seeds j answer r p) as [r' p'] eqn:E.
    destruct (taken_replaced routine_taken (routines g) i r r' Hi) as [Hbefore Hafter].
    unfold group_taken in Ho. apply (owns_perm _ _ _ _ Hbefore) in Ho.
    assert (routine_ok r) as Hr by (rewrite Forall_lookup in Hok; by eapply Hok).
    destruct (routine_step_owns _ _ _ _ _ _ _ _ _ Hr Ho E) as (Ho' & Hp' & Hr').
    split; cbn [fst snd]; [|congruence|by apply Forall_insert].
    eapply owns_perm; [|exact Ho']. unfold group_taken. cbn [routines]. by rewrite Hafter.
Qed.

Lemma play_holding p0 seeds evs s : holding p0 s -> Forall mere_use evs -> holding p0 (plays seeds evs s).
Proof.
  unfold play. intros Hs Hevs. revert s Hs. induction Hevs as [|ev evs Hev _ IH]; intros s Hs; [done|].
  by apply IH, group_step_holding.
Qed.

Lemma start_holding workers p : holding p (start workers, p).
Proof.
  assert (group_taken (start workers) = []) as Hn.
  { apply taken_none, Forall_fmap, Forall_true. intros w. apply go_ok. }
  split; cbn [fst snd]; [|done|apply Forall_fmap, Forall_true; intros w; apply go_ok].
  rewrite Hn. split_and!; [constructor | by intros c Hc%elem_of_nil | simpl; set_solver].
Qed.

(** When the group's [Wait] returns, all is given back; it answers nil or an
    error, and does not panic. *)
Lemma Wait_gives_back seeds evs workers p r p' :
  Forall mere_use evs -> Wait kgo_NewClient client_Close seeds evs workers p = Some (r, p') ->
  clients p' = clients p /\ others p' = others p /\ forall v, r <> Panic v.
Proof.
  intros Hevs. unfold Wait. pose proof (play_holding p seeds evs _ (start_holding workers p) Hevs) as [Ho Hs _].
  destruct (play _ _ _ _ _) as [g q]. cbn [fst snd] in *. destruct (forallb is_returned (routines g)) eqn:Hall; [|done].
  intros [= <- <-]. assert (group_taken g = []) as Hn.
  { apply taken_none, Forall_forall. intros r Hr%list_elem_of_In. rewrite forallb_forall in Hall. specialize (Hall _ Hr).
    by destruct r. }
  rewrite Hn in Ho. destruct Ho as (_ & _ & Ho). split_and!; [rewrite Ho; simpl; set_solver | done | by destruct (group_err g)].
Qed.

(** ** They can all return

    From any moment on, the steps that are left of a goroutine. *)
Definition act_left (a : activity Client) : nat :=
  match a with Subscribing _ _ => 4 | Consuming _ => 3 | Working | Unsubscribing _ _ => 2 | Ended _ | Panicked _ => 1 end.
Definition running (account : subscriptions) : nat := length (sub_topics account) - ended account.
Definition routine_left (r : routine Client) : nat :=
  match r with
  | Call a => act_left a
  | Saga _ subs account => 1 + sum_list_with act_left subs + running account
  | Returned _ => 0
  end.
Definition group_left (g : group Client) : nat := sum_list_with routine_left (routines g).

Lemma activity_advances seeds answer a p :
  calm a -> (forall ans, a <> Ended ans) -> (act_left (fst (activity_step kgo_NewClient client_Close seeds answer a p)) < act_left a)%nat.
Proof.
  intros Hc Hne. destruct a as [|topic group|c|c ans|ans|v]; simpl; try lia.
  - by destruct (kgo_NewClient seeds p) as [[c|e|v] q]; simpl; lia.
  - by destruct (Hne ans).
  - by destruct (Hc v).
Qed.

Lemma routine_advances r :
  routine_ok r -> (0 < routine_left r)%nat ->
  exists j, forall seeds answer p, (routine_left (fst (routine_step kgo_NewClient client_Close seeds j answer r p)) < routine_left r)%nat.
Proof.
  intros Hok Hleft. destruct r as [a|name subs account|ans]; [| |simpl in Hleft; lia].
  - exists 0%nat. intros seeds answer p. cbn [routine_step].
    assert (forall ans, a <> Ended ans -> True) by done.
    destruct a as [|topic group|c|c ans|ans|v]; try (simpl; lia); try (by destruct (Hok v)).
    all: match goal with |- context [activity_step _ _ _ _ ?a _] =>
           pose proof (activity_advances seeds answer a p Hok ltac:(done)) as Hlt end.
    all: destruct (activity_step _ _ _ _ _ _) as [a' p']; exact Hlt.
  - destruct (Run_result account) as [result|] eqn:Hr; [exists 0%nat; intros seeds answer p; cbn [routine_step]; rewrite Hr; simpl; lia|].
    pose proof Hok as (Hc & Hlen & Hend).
    assert (exists j topic, sub_topics account !! j = Some (topic, false)) as (j & topic & Hj).
    { unfold Run_result in Hr. destruct (forallb snd (sub_topics account)) eqn:Hall; [done|]. clear -Hall.
      induction (sub_topics account) as [|[topic []] l IH]; [done | | by exists 0%nat, topic].
      destruct IH as (j & t & Hj); [done|]. by exists (S j), t. }
    destruct (lookup_lt_is_Some_2 subs j) as [a Ha]; [rewrite <-Hlen; by eapply lookup_lt_Some|].
    exists j. intros seeds answer p. cbn [routine_step]. rewrite Hr, Ha.
    assert (calm a) as Hca by (rewrite Forall_lookup in Hc; by eapply Hc).
    assert ((forall ans, a <> Ended ans) ->
      (routine_left (fst (let '(a', p') := activity_step kgo_NewClient client_Close seeds answer a p in
        (Saga name (<[j:=a']> subs) account, p'))) < routine_left (Saga name subs account))%nat) as Hsub.
    { intros Hne. pose proof (activity_advances seeds answer a p Hca Hne) as Hlt.
      destruct (activity_step _ _ _ _ _ _) as [a' p']. cbn [fst routine_left] in *.
      pose proof (size_replaced act_left subs j a a' Ha). lia. }
    destruct a as [|topic' group|c|c ans|ans|v]; try (by apply Hsub).
    cbn [fst routine_left]. unfold running. pose proof (ended_insert _ _ _ Hj) as Hended.
    pose proof (length_filter (fun t : string * bool => snd t = true) (<[j:=(topic, true)]> (sub_topics account))) as Hle.
    unfold ended in *. rewrite Run_step_topics, Hj. rewrite length_insert in *. lia.
Qed.

Lemma play_app seeds evs evs' s : plays seeds (evs ++ evs') s = plays seeds evs' (plays seeds evs s).
Proof. unfold play. apply foldl_app. Qed.

Lemma group_finishes p0 seeds n : forall s,
  (group_left (fst s) <= n)%nat -> holding p0 s ->
  exists more, Forall mere_use more /\ forallb is_returned (routines (fst (plays seeds more s))) = true.
Proof.
  induction n as [n IH] using lt_wf_ind. intros s Hn Hs.
  destruct (forallb is_returned (routines (fst s))) eqn:Hall; [by exists []|].
  assert (exists i r, routines (fst s) !! i = Some r /\ (0 < routine_left r)%nat) as (i & r & Hi & Hr).
  { clear -Hall. induction (routines (fst s)) as [|r l IHl]; [done|]. simpl in Hall.
    destruct (is_returned r) eqn:Hr; [destruct IHl as (i & r' & Hi & Hl); [done|]; by exists (S i), r'|].
    exists 0%nat, r. split; [done|]. destruct r as [a| |]; [destruct a | | done]; simpl; lia. }
  assert (routine_ok r) as Hok by (pose proof (hd_ok _ _ Hs) as Hall'; rewrite Forall_lookup in Hall'; by eapply Hall').
  destruct (routine_advances r Hok Hr) as [j Hj].
  pose proof (group_step_holding p0 seeds s (Turn i j None) Hs I) as Hs'.
  assert (group_left (fst (group_steps seeds s (Turn i j None))) < group_left (fst s))%nat as Hlt.
  { destruct s as [g p]. cbn [group_step fst] in *. rewrite Hi. specialize (Hj seeds None p).
    destruct (routine_step _ _ seeds j None r p) as [r' p']. cbn [fst] in *. unfold group_left. cbn [routines].
    pose proof (size_replaced routine_left (routines g) i r r' Hi). lia. }
  destruct (IH (group_left (fst (group_steps seeds s (Turn i j None)))) ltac:(lia) _ ltac:(done) Hs') as (more & Hm & Hd).
  exists (Turn i j None :: more). split; [by constructor | exact Hd].
Qed.

(** Whatever has happened, the group can still return. *)
Lemma Wait_can_return seeds evs workers p :
  Forall mere_use evs ->
  exists more, Forall mere_use more /\ is_Some (Wait kgo_NewClient client_Close seeds (evs ++ more) workers p).
Proof.
  intros Hevs. pose proof (play_holding p seeds evs _ (start_holding workers p) Hevs) as Hs.
  destruct (group_finishes p seeds _ _ (le_n _) Hs) as (more & Hm & Hd). exists more. split; [done|].
  unfold Wait. rewrite play_app. destruct (plays seeds more _) as [g q]. cbn [fst] in Hd. rewrite Hd. by eexists.
Qed.
End holding.

(** ** What [Wait] answers *)

Section answers.
Context {Client P : Type}.
Variables (kgo_NewClient : list string -> P -> res Client * P) (client_Close : Client -> P -> P).

(** The error kept is one a goroutine returned; none is kept only when none was. *)
Definition answered (g : group Client) : Prop :=
  match group_err g with
  | Some e => Returned (Some e) ∈ routines g
  | None => forall e, Returned (Some e) ∉ routines g
  end.

Lemma routine_step_returned seeds j answer a p :
  routine_step kgo_NewClient client_Close seeds j answer (Returned a) p = (Returned a, p).
Proof. done. Qed.

Lemma group_step_answered seeds s ev :
  answered (fst s) -> answered (fst (group_step kgo_NewClient client_Close seeds s ev)).
Proof.
  destruct s as [g p]. destruct ev as [f|i j answer]; [done|]. cbn [group_step fst]. intros Ha.
  destruct (routines g !! i) as [r|] eqn:Hi; [|done].
  destruct (routine_step _ _ seeds j answer r p) as [r' p'] eqn:E. unfold answered in *. cbn [fst group_err routines].
  assert (is_returned r = true -> r' = r) as Hstays by (destruct r; [done..|]; intros _; by injection E as <- <-).
  assert (forall x, x ∈ routines g -> x = r \/ x ∈ <[i:=r']> (routines g)) as Hkeeps.
  { intros x (k & Hk)%list_elem_of_lookup. destruct (decide (k = i)) as [->|Hne]; [left; congruence|].
    right. apply list_elem_of_lookup. exists k. by rewrite list_lookup_insert_ne. }
  assert (forall x, x ∈ <[i:=r']> (routines g) -> x = r' \/ x ∈ routines g) as Hnew.
  { intros x (k & Hk)%list_elem_of_lookup. destruct (decide (k = i)) as [->|Hne].
    - left. rewrite list_lookup_insert_eq in Hk by (by eapply lookup_lt_Some). by injection Hk.
    - right. rewrite list_lookup_insert_ne in Hk by done. by eapply list_elem_of_lookup_2. }
  assert (r' ∈ <[i:=r']> (routines g)) as Hin.
  { apply list_elem_of_lookup. exists i. apply list_lookup_insert_eq. by eapply lookup_lt_Some. }
  destruct (is_returned r) eqn:Hr.
  { rewrite (Hstays eq_refl), list_insert_id by done. by destruct r. }
  destruct (kept r r' (group_err g)) as [e|] eqn:Hk.
  - assert (group_err g = Some e \/ r' = Returned (Some e) /\ group_err g = None) as [He|[-> _]].
    { destruct r, r' as [| |[e'|]]; simpl in Hk; auto; try done; destruct (group_err g); injection Hk as <-; auto. }
    + rewrite He in Ha. destruct (Hkeeps _ Ha) as [<-|?]; [done | done].
    + done.
  - assert (group_err g = None /\ forall e, r' <> Returned (Some e)) as [He Hne].
    { destruct r, r' as [| |[e'|]]; simpl in Hk; try done; split; try done; naive_solver. }
    rewrite He in Ha. intros e [Heq|Hold]%Hnew; [by destruct (Hne e) | by destruct (Ha e)].
Qed.

(** [Wait] answers nil when every goroutine returned nil, and otherwise an
    error one of them returned. *)
Lemma Wait_answers seeds evs workers p r p' :
  Wait kgo_NewClient client_Close seeds evs workers p = Some (r, p') ->
  let g := fst (play kgo_NewClient client_Close seeds evs (start workers, p)) in
  match r with
  | Ok _ => Forall (fun r => r = Returned None) (routines g)
  | Err e => Returned (Some e) ∈ routines g
  | Panic _ => False
  end.
Proof.
  unfold Wait. assert (answered (fst (play kgo_NewClient client_Close seeds evs (start workers, p)))) as Ha.
  { assert (answered (start (Client := Client) workers)) as Hstart.
    { unfold answered. simpl. intros e (w & Hw & _)%list_elem_of_fmap. destruct w; try done. simpl in Hw. by destruct (Run_start _ _). }
    revert Hstart. change (start workers) with (fst (start (Client := Client) workers, p)) at 1. unfold play. generalize (start (Client := Client) workers, p). induction evs as [|ev evs IH]; intros s Hs; [done|].
    by apply IH, group_step_answered. }
  destruct (play _ _ _ _ _) as [g q]. cbn [fst] in *. destruct (forallb is_returned (routines g)) eqn:Hall; [|done].
  unfold answered in Ha. intros [= <- <-]. destruct (group_err g) as [e|]; [exact Ha|].
  apply Forall_forall. intros x Hx. rewrite forallb_forall in Hall.
  specialize (Hall x (proj1 (list_elem_of_In _ _) Hx)). destruct x as [| |[e|]]; [done | done | by destruct (Ha e) | done].
Qed.
End answers.
