(* ===== verification/HttpApi.v ===== *)
(** * gohex-example/ordering/internal/adapters/httpapi/server.go: the REST edge

    The handlers of the two routes and the error mapping, and the query behind
    the second ([GetOrder] of app.go). The request's body and path value are
    arguments; routing and the response writer are net/http's. *)

From S2P Require Import Prelude Errors Utf8 GoTime Json KernelId Kernel EventStore MemoryStore Registry Checkpoint Repository Broker Envelope Cqrs Consumer Relay Saga Contracts Services Order Ordering Postgres PgTables PgStore ReadModel Tracing.

(** ** The query (app.go) *)

Inductive local_query := Q_GetOrder (OrderID : string).
#[export] Instance local_query_name : Query local_query := fun _ => "ordering.get_order".
Definition GetOrder_type : GoType local_query :=
  mkGoType _ string "" Q_GetOrder (fun q => match q with Q_GetOrder id => Some id end).

(** What the service's queries answer. *)
Inductive local_answer := A_OrderSummary (s : OrderSummary).
Definition OrderSummary_type : GoType local_answer :=
  mkGoType _ OrderSummary (mkOrderSummary "" "" 0 "" 0 "" zero_time) A_OrderSummary
    (fun a => match a with A_OrderSummary s => Some s end).

Definition GetOrder_handler {V} `{SummaryStore V} (_ : Context) (id : string) (v : V) : res OrderSummary * V := GetSummary id v.

(** [Register], the query. *)
Definition RegisterQueries {V} `{SummaryStore V} (b : QueryBus local_query local_answer V) : res (QueryBus local_query local_answer V) :=
  HandleQuery GetOrder_type OrderSummary_type GetOrder_handler b.

(** ** Responses *)

(** A status with the JSON value of the body; nothing when it has no JSON. *)
Record response := mkResponse { status : Z; body : option json }.

Definition StatusOK : Z := 200.
Definition StatusAccepted : Z := 202.
Definition StatusBadRequest : Z := 400.
Definition StatusNotFound : Z := 404.
Definition StatusUnprocessableEntity : Z := 422.
Definition StatusInternalServerError : Z := 500.

(** The encoder's error is ignored: the header is sent by then. *)
Definition writeJSON (status : Z) (v : res json) : response :=
  mkResponse status (match v with Ok doc => Some doc | _ => None end).

Definition code_message (code message : string) : res json := Ok (JObj [("code", enc_string code); ("message", enc_string message)]).

Definition writeError (err : error) : response :=
  match AsDomainError err with
  | Some de =>
    let status :=
      if errors_Is err (EDomain ErrOrderNotFound) || errors_Is err (EDomain ErrNotFound)
      then StatusNotFound else StatusUnprocessableEntity in
    writeJSON status (code_message (Code de) (Errors.Message de))
  | None => writeJSON StatusInternalServerError (code_message "internal" "internal error")
  end.

(** ** POST /orders *)

Record placeOrderRequest := mkRequest { rq_CustomerID : string; rq_Cents : Z; rq_Currency : string; rq_Qty : Z }.
Definition zero_request : placeOrderRequest := mkRequest "" 0 "" 0.

Definition set_request (key : string) (v : json) (r : placeOrderRequest) : res placeOrderRequest :=
  on_field "customer_id" (dec_string (rq_CustomerID r)) (fun x => mkRequest x (rq_Cents r) (rq_Currency r) (rq_Qty r)) key v
  (on_field "cents" (dec_int (rq_Cents r)) (fun x => mkRequest (rq_CustomerID r) x (rq_Currency r) (rq_Qty r)) key v
  (on_field "currency" (dec_string (rq_Currency r)) (fun x => mkRequest (rq_CustomerID r) (rq_Cents r) x (rq_Qty r)) key v
  (on_field "qty" (dec_int (rq_Qty r)) (fun x => mkRequest (rq_CustomerID r) (rq_Cents r) (rq_Currency r) x) key v
  (Ok r)))).

(** [json.NewDecoder(r.Body).Decode(&req)]: the body's first JSON value, or why
    there is none. *)
Definition decode_request (body : res json) : res placeOrderRequest :=
  try doc := body in dec_struct set_request zero_request doc.

Section post.
(** [unicode.ToLower], which [ParseID] uses. *)
Variable u : N -> N.
Context {W : Type} `{Clock W}.

(** The customer's identifier is optional. *)
Definition request_customer (req : placeOrderRequest) (random : list Ascii.ascii) : res CustomerID :=
  let customer : CustomerID := NewID random in
  if decide (rq_CustomerID req <> "") then ParseID u (rq_CustomerID req) else Ok customer.

(** The two [NewID] draw their bytes from [random1] and [random2]. *)
Definition placeOrder (bus : Bus local_command W) (ctx : Context) (body : res json) (random1 random2 : list Ascii.ascii) (w : W)
    : res response * W :=
  match decode_request body with
  | Panic m => (Panic m, w)
  | Err err => (Ok (writeJSON StatusBadRequest (code_message "invalid_json" (Error err))), w)
  | Ok req =>
    match request_customer req random1 with
    | Panic m => (Panic m, w)
    | Err err => (Ok (writeError err), w)
    | Ok customer =>
      match NewMoney (rq_Cents req) (rq_Currency req) with
      | Panic m => (Panic m, w)
      | Err err => (Ok (writeError err), w)
      | Ok total =>
        match NewQuantity (rq_Qty req) with
        | Panic m => (Panic m, w)
        | Err err => (Ok (writeError err), w)
        | Ok qty =>
          let id : OrderID := NewID random2 in
          let '(r, w') := Dispatch bus ctx (L_PlaceOrder (mkPlaceOrder id customer total qty)) w in
          match r with
          | Panic m => (Panic m, w')
          | Err err => (Ok (writeError err), w')
          | Ok _ => (Ok (writeJSON StatusAccepted (Ok (JObj [("order_id", enc_string (value id))]))), w')
          end
        end
      end
    end
  end.
End post.

(** ** GET /orders/{id} *)

(** [json.Marshal] of the summary's fields. *)
Definition enc_summary (s : OrderSummary) : res json :=
  try placed_at := enc_time (os_PlacedAt s) in
  Ok (JObj [("order_id", enc_string (os_OrderID s)); ("customer_id", enc_string (os_CustomerID s));
            ("cents", enc_int (os_Cents s)); ("currency", enc_string (os_Currency s)); ("qty", enc_int (os_Qty s));
            ("status", enc_string (os_Status s)); ("placed_at", placed_at)]).

Definition getOrder {V} (queries : QueryBus local_query local_answer V) (ctx : Context) (id : string) (v : V) : res response * V :=
  let '(r, v') := Ask OrderSummary_type (fun _ => "ports.OrderSummary") ctx queries (Q_GetOrder id) v in
  match r with
  | Panic m => (Panic m, v')
  | Err err => (Ok (writeError err), v')
  | Ok summary => (Ok (writeJSON StatusOK (enc_summary summary)), v')
  end.

(** ** Facts *)

#[export] Instance PlaceOrder_type_ok : GoTypeOk PlaceOrder_type.
Proof. split; [by intros [? ? ? ?] | by intros [c|c] x [= <-]]. Qed.
#[export] Instance NotifyCustomer_type_ok : GoTypeOk NotifyCustomer_type.
Proof. split; [by intros [? ?] | by intros [c|c] x [= <-]]. Qed.
#[export] Instance GetOrder_type_ok : GoTypeOk GetOrder_type.
Proof. split; [done | by intros [id] x [= <-]]. Qed.
#[export] Instance OrderSummary_type_ok : GoTypeOk OrderSummary_type.
Proof. split; [done | by intros [s] x [= <-]]. Qed.

(** A decoded request's numbers are in range. *)
Definition request_ok (r : placeOrderRequest) : Prop := in_int64 (rq_Cents r) /\ in_int64 (rq_Qty r).

Lemma dec_int_range old j z : in_int64 old -> dec_int old j = Ok z -> in_int64 z.
Proof. unfold dec_int. destruct j; try done; [by intros ? [= <-]|]. case_decide; [by intros _ [= <-] | done]. Qed.

Lemma set_request_ok key v r r' : request_ok r -> set_request key v r = Ok r' -> request_ok r'.
Proof.
  intros [Hc Hq]. unfold set_request, on_field, request_ok.
  destruct (is_field "customer_id" key). { destruct (dec_string _ v); intros [= <-]; done. }
  destruct (is_field "cents" key).
  { destruct (dec_int (rq_Cents r) v) eqn:E; intros [= <-]. split; [by apply (dec_int_range _ _ _ Hc E) | done]. }
  destruct (is_field "currency" key). { destruct (dec_string _ v); intros [= <-]; done. }
  destruct (is_field "qty" key); [|by intros [= <-]].
  destruct (dec_int (rq_Qty r) v) eqn:E; intros [= <-]. split; [done | by apply (dec_int_range _ _ _ Hq E)].
Qed.

Lemma decode_request_ok body r : decode_request body = Ok r -> request_ok r.
Proof.
  unfold decode_request. destruct body as [doc| |]; simpl; try done. unfold dec_struct.
  assert (request_ok zero_request) as H0 by (split; split; vm_compute; (discriminate || reflexivity)).
  destruct doc as [| | | | | |ms]; simpl; try done; [by intros [= <-]|].
  revert H0. generalize zero_request. induction ms as [|[k v] ms IH]; intros z Hz; simpl; [by intros [= <-]|].
  destruct (set_request k v z) as [z'| |] eqn:E; simpl; try done. apply IH. by eapply set_request_ok.
Qed.

(** What makes a request an order: value objects exist for it. *)
Definition acceptable (u : N -> N) (r : placeOrderRequest) (customer : CustomerID) (random1 : list Ascii.ascii) : Prop :=
  (if decide (rq_CustomerID r = "") then customer = NewID random1 else @ParseID u Customer (rq_CustomerID r) = Ok customer)
  /\ 0 < rq_Cents r /\ String.length (rq_Currency r) = 3%nat /\ 0 < rq_Qty r.

(** ** Placing, on any store and among others *)

Section placing.
Variable u : N -> N.
Hypothesis (u_ascii : forall r, (r < 128)%N -> u r = ascii_lower_rune r)
  (u_other : forall r, (128 <= r)%N -> (128 <= u r)%N \/ u r = 105%N \/ u r = 107%N).
Context {W : Type} `{StoreSpec W} `{Clock (W * heap)}.
Variables (now : W -> Time) (x : Extractor) (others : W -> W) (aside : W * heap -> W * heap -> Prop).
Implicit Types (s : StreamID) (log : list RecordedEvent).

(** What the rest of the world may do to a stream: nothing as long as it is
    empty, append to it once it is not. *)
Definition follows s log log' : Prop :=
  (exists more, stream_of s log' = stream_of s log ++ more) /\ (stream_of s log = [] -> stream_of s log' = []).

(** The world around a request: [Q n] holds while [n] more moves - of others
    before a save, during a wait between tries, or a save of ours - leave the
    store in order, with room for one event. No store error is a domain error. *)
Record surroundings s (Q : nat -> W -> Prop) : Prop := {
  sr_inv n v : Q n v -> store_inv v;
  sr_room n v : Q (S n) v -> last_seq (log_of v) + 1 <= int64_max;
  sr_others n v : Q (S n) v -> Q n (others v) /\ follows s (log_of v) (log_of (others v));
  sr_wait n ctx d v hp : Q (S n) v ->
    let '(_, (v', _)) := after ctx d (v, hp) in Q n v' /\ follows s (log_of v) (log_of v');
  sr_save n v v' : Q (S n) v -> store_inv v' ->
    log_of v' = log_of v \/ (exists d, appended s 0 [d] (log_of v) (log_of v')) -> Q n v';
  sr_aside n p p' : aside p p' -> Q n (fst p) -> Q n (fst p') /\ stream_of s (log_of (fst p')) = stream_of s (log_of (fst p));
  sr_errors n v d e v' : Q n v -> Append (now v) s 0 [d] v = (Err e, v') -> AsDomainError e = None;
}.

(** The store accepts an append to the empty stream. *)
Definition accepts s (Q : nat -> W -> Prop) : Prop :=
  forall n v d, Q (S n) v -> stream_of s (log_of v) = [] -> exists seq v', Append (now v) s 0 [d] v = (Ok seq, v').

Section order.
Variables (h : Handlers) (cmd : PlaceOrder) (Q : nat -> W -> Prop).
#[local] Abbreviation s := (repo_stream (orders h) (value (po_ID cmd))).
#[local] Abbreviation event := (placed_event (po_ID cmd) (po_Customer cmd) (po_Total cmd) (po_Qty cmd)).
Hypothesis (Hh : ordering_ok u h) (Hs : surroundings s Q).
Hypothesis Hvalid : placed_valid (mkOrderPlaced (po_ID cmd) (po_Customer cmd) (po_Total cmd) (po_Qty cmd)).

(** The order's stream begins with the placement. *)
Definition placed log : Prop :=
  exists rec more, stream_of s log = rec :: more /\ Decode rec (repo_registry (orders h)) = Ok event.

Definition nothing_or_placed log : Prop := stream_of s log = [] \/ placed log.

Lemma follows_nothing_or_placed log log' : follows s log log' -> nothing_or_placed log -> nothing_or_placed log'.
Proof.
  intros [[more Hm] Hn] [Hnil|(rec & rest & Hr & Hd)]; [left; by apply Hn | right].
  exists rec, (rest ++ more). split; [by rewrite Hm, Hr | done].
Qed.

Lemma stream_holds_placed log : stream_holds (orders h) (value (po_ID cmd)) log [event] -> placed log.
Proof.
  unfold stream_holds, placed. intros Hd. destruct (stream_of _ log) as [|rec rest] eqn:E; [done|].
  exists rec, rest. split; [done|]. simpl in Hd. by apply res_bind_ok in Hd as (e & He & ([|] & _ & [= ->])%res_bind_ok).
Qed.

(** One run of the command's handler. *)
Lemma place_try ctx n v hp r v' hp' :
  Q (S (S n)) v -> PlaceOrder_handler now x others h ctx cmd (v, hp) = (r, (v', hp')) ->
  Q n v' /\ (nothing_or_placed (log_of v) -> nothing_or_placed (log_of v'))
  /\ match r with
     | Ok _ => stream_holds (orders h) (value (po_ID cmd)) (log_of v') [event]
     | Err e => AsDomainError e = None /\ (accepts s Q -> stream_of s (log_of v) <> [])
     | Panic _ => False
     end.
Proof.
  intros HQ Hrun. destruct (sr_others _ _ Hs _ _ HQ) as [HQ1 Hf].
  pose proof (sr_inv _ _ Hs _ _ HQ1) as Hinv. pose proof (sr_room _ _ Hs _ _ HQ1) as Hroom.
  unfold PlaceOrder_handler, save in Hrun. cbn [fst snd] in Hrun.
  destruct (Place_places u h (po_ID cmd) (po_Customer cmd) (po_Total cmd) (po_Qty cmd) Hh) as (a & Ha & Hr);
    [apply valid_not_zero, Hvalid|]. rewrite Ha in Hrun. pose proof (raise_all_root _ _ _ Hr) as Hroot.
  assert (UncommittedEvents a = [event] /\ Version a = 0) as [Hu Hv] by (unfold UncommittedEvents, Version; by rewrite Hroot).
  assert (Forall (carries (orders h)) [event]) as Hc by (constructor; [by apply (carries_placed u u_ascii u_other) | done]).
  unfold repo_Save in Hrun. rewrite Hu, Hv, decide_False in Hrun by done.
  destruct (encode_pending_carried (orders h) (MetadataFromContext x ctx) _ Hc) as (data & Henc & Hlen & _).
  rewrite Henc in Hrun. destruct data as [|d [|]]; [done | | done].
  destruct (Append _ _ _ _ _) as [g v2] eqn:E.
  pose proof (fun Hsize => Append_spec _ _ _ _ _ _ _ Hinv Hsize E) as Hspec.
  destruct (Hspec Hroom) as [Hinv2 Hpost]. clear Hspec.
  assert (v' = v2 /\ match g with Ok _ => r = Ok tt | Err e => r = Err e | Panic m => r = Panic m end) as [-> Hg]
    by (destruct g; by injection Hrun).
  assert (log_of v2 = log_of (others v) \/ stream_of s (log_of (others v)) = [] /\ appended s 0 [d] (log_of (others v)) (log_of v2)) as Hcase.
  { destruct g as [seq|e|m]; simpl in Hpost; [| |done].
    - right. destruct Hpost as [[? _]|(_ & Hz & ? & _)]; [done|]. split; [by apply zlen_zero | done].
    - destruct (errors_Is e ErrVersionConflict); [by left; destruct Hpost|].
      destruct Hpost as [?|[Hz ?]]; [by left | right]. split; [by apply zlen_zero | done]. }
  assert (appended s 0 [d] (log_of (others v)) (log_of v2) -> stream_of s (log_of (others v)) = [] ->
          stream_holds (orders h) (value (po_ID cmd)) (log_of v2) [event]) as Hstored.
  { intros Happ Hnil. pose proof (stream_holds_appended _ _ (value (po_ID cmd)) _ _ _ _ _ _ [] Hc Henc Happ) as Hnew.
    rewrite decide_True in Hnew by done. apply Hnew. by apply stream_holds_nil. }
  split_and!.
  - apply (sr_save _ _ Hs n (others v)); [done..|]. destruct Hcase as [?|[_ ?]]; [by left | right; by exists d].
  - intros Hp%(follows_nothing_or_placed _ _ Hf). destruct Hcase as [->|[Hnil Happ]]; [done | right].
    by apply stream_holds_placed, Hstored.
  - destruct g as [seq|e|m]; subst r; [| |done].
    + simpl in Hpost. destruct Hpost as [[? _]|(_ & Hz & Happ & _)]; [done|]. apply Hstored; [done | by apply zlen_zero].
    + split; [by apply (sr_errors _ _ Hs _ _ _ _ _ HQ1 E)|]. intros Hacc Hnil.
      destruct (Hacc _ _ d HQ1 (proj2 Hf Hnil)) as (seq & v3 & E'). by rewrite E in E'.
Qed.

(** All the tries of a dispatch. *)
Lemma place_tries ctx backoff left : forall n v hp r v' hp',
  Q (3 * left + 2 + n) v -> nothing_or_placed (log_of v) ->
  retry_loop (Some retry_infrastructure) backoff left (typed_handler PlaceOrder_type (PlaceOrder_handler now x others h))
    ctx (L_PlaceOrder cmd) (v, hp) = (r, (v', hp')) ->
  exists n', Q n' v' /\ nothing_or_placed (log_of v')
  /\ match r with
     | Ok _ => stream_holds (orders h) (value (po_ID cmd)) (log_of v') [event]
     | Err e => AsDomainError e = None /\ (accepts s Q -> stream_of s (log_of v) <> [])
     | Panic _ => False
     end.
Proof.
  induction left as [|left IH]; intros n v hp r v' hp' HQ Hp; cbn [retry_loop];
    change (typed_handler PlaceOrder_type (PlaceOrder_handler now x others h) ctx (L_PlaceOrder cmd) (v, hp))
      with (PlaceOrder_handler now x others h ctx cmd (v, hp));
    destruct (PlaceOrder_handler now x others h ctx cmd (v, hp)) as [g [v1 hp1]] eqn:E.
  - destruct (place_try ctx n v hp g v1 hp1 HQ E) as (HQ1 & Hp1 & Hg). specialize (Hp1 Hp).
    destruct g as [[]|e|m]; [| |done]; intros [= <- <- _]; by exists n.
  - replace (3 * S left + 2 + n)%nat with (S (S (S (3 * left + 2 + n)))) in HQ by lia.
    destruct (place_try ctx _ v hp g v1 hp1 HQ E) as (HQ1 & Hp1 & Hg). specialize (Hp1 Hp).
    destruct g as [[]|e|m]; [intros [= <- <- _]; by eexists | | done].
    assert (retry_infrastructure e = true) as -> by (unfold retry_infrastructure; by rewrite (proj1 Hg)). cbn [negb].
    pose proof (sr_wait _ _ Hs _ ctx backoff v1 hp1 HQ1) as Hw.
    destruct (after ctx backoff (v1, hp1)) as [fired [v2 hp2]]. destruct Hw as [HQ2 Hf].
    pose proof (follows_nothing_or_placed _ _ Hf Hp1) as Hp2.
    destruct fired; [|intros [= <- <- _]; by eexists].
    intros (n' & HQ' & Hp' & Hr)%(IH n); [|done..]. exists n'. split; [done|]. split; [done|].
    destruct r; [done | | done]. split; [by destruct Hr | by destruct Hg].
Qed.
End order.

Lemma aside_runs s Q n p p' :
  surroundings s Q -> rtc aside p p' -> Q n (fst p) -> Q n (fst p') /\ stream_of s (log_of (fst p')) = stream_of s (log_of (fst p)).
Proof.
  intros Hs Hr. induction Hr as [|p1 p2 p3 Ha _ IH]; [done|]. intros HQ.
  destruct (sr_aside _ _ Hs n _ _ Ha HQ) as [HQ2 Hst]. destruct (IH HQ2) as [HQ3 Hst']. split; [done | congruence].
Qed.

(** A dispatch of the command on the service's bus. *)
Lemma dispatch_places h cmd Q mw bus ctx w hp r w' hp' :
  let s := repo_stream (orders h) (value (po_ID cmd)) in
  ordering_ok u h -> surroundings s Q -> Q 8%nat w -> stream_of s (log_of w) = [] ->
  placed_valid (mkOrderPlaced (po_ID cmd) (po_Customer cmd) (po_Total cmd) (po_Qty cmd)) ->
  Forall (passes aside) mw -> Ordering.Register u now x others h (NewBus [WithMiddleware mw]) = Ok bus ->
  Dispatch bus ctx (L_PlaceOrder cmd) (w, hp) = (r, (w', hp')) ->
  store_inv w' /\ nothing_or_placed h cmd (log_of w')
  /\ match r with
     | Ok _ => stream_holds (orders h) (value (po_ID cmd)) (log_of w')
                 [placed_event (po_ID cmd) (po_Customer cmd) (po_Total cmd) (po_Qty cmd)]
     | Err e => AsDomainError e = None /\ ~ accepts s Q
     | Panic _ => False
     end.
Proof.
  intros s Hh Hs HQ Hnil Hvalid Hmw Hreg Hrun. unfold Ordering.Register in Hreg.
  destruct (Handle PlaceOrder_type _ _) as [b1| |] eqn:E1; simpl in Hreg; [|done..].
  apply Handle_lookup in E1 as (Hp & _ & Hr1 & Hm1); [|apply _].
  apply Handle_lookup in Hreg as (_ & Ho & Hr2 & Hm2); [|apply _].
  change (CommandName (to_interface PlaceOrder_type (zero_value PlaceOrder_type))) with (CommandName (L_PlaceOrder cmd)) in Hp.
  rewrite <-(Ho (CommandName (L_PlaceOrder cmd))) in Hp by done.
  assert (middleware bus = mw) as Hbus by (by rewrite Hm2, Hm1). rewrite <-Hbus in Hmw.
  destruct (Dispatch_passes aside _ _ _ _ _ _ _ Hmw Hp Hrun) as (ctx' & p1 & p2 & Hb & Htry & Ha).
  destruct (aside_runs s Q 8 _ _ Hs Hb HQ) as [HQ1 Hst1]. destruct p1 as [v1 hp1], p2 as [v2 hp2]. cbn [fst] in *.
  unfold withRetry in Htry. rewrite Hr2, Hr1 in Htry.
  apply (place_tries h cmd Q Hh Hs Hvalid ctx' _ 2 0 v1 hp1) in Htry as (n & HQ2 & Hp2 & Hr); [|exact HQ1|left; fold s; by rewrite Hst1].
  destruct (aside_runs s Q n _ _ Hs Ha HQ2) as [HQ' Hst']. cbn [fst] in *.
  split; [by apply (sr_inv _ _ Hs n)|]. split; [unfold nothing_or_placed, placed; fold s; by rewrite Hst'|].
  destruct r as [[]|e|m]; [by apply (stream_holds_same _ _ (log_of v2)) | | done].
  split; [by destruct Hr|]. intros Hacc. apply (proj2 Hr Hacc). fold s. by rewrite Hst1.
Qed.
End placing.

(** The refusals of the value objects are 422s. *)
Lemma refusals (u : N -> N)
    (u_ascii : forall r, (r < 128)%N -> u r = ascii_lower_rune r)
    (u_other : forall r, (128 <= r)%N -> (128 <= u r)%N \/ u r = 105%N \/ u r = 107%N) (e : error) :
  (exists s, @ParseID u Customer s = Err e) \/ (exists c cur, NewMoney c cur = Err e) \/ (exists n, NewQuantity n = Err e) ->
  exists de, AsDomainError e = Some de
    /\ writeError e = mkResponse StatusUnprocessableEntity (Some (JObj [("code", enc_string (Code de)); ("message", enc_string (Errors.Message de))])).
Proof.
  intros [(s & Hs)|[(c & cur & Hm)|(n & Hq)]].
  - apply (ParseID_fails u u_ascii u_other) in Hs as [s' ->].
    exists ErrInvalidID. split; reflexivity.
  - unfold NewMoney in Hm. case_decide; [injection Hm as <-; exists ErrInvalidAmount; split; reflexivity|].
    case_decide; [injection Hm as <-; exists ErrInvalidCurrency; split; reflexivity | done].
  - unfold NewQuantity in Hq. case_decide; [|done]. injection Hq as <-. exists ErrInvalidQuantity. split; reflexivity.
Qed.

Definition accepted (id : string) : res response :=
  Ok (mkResponse StatusAccepted (Some (JObj [("order_id", enc_string id)]))).
Definition internal_error : res response :=
  Ok (mkResponse StatusInternalServerError (Some (JObj [("code", JStr "internal"); ("message", JStr "internal error")]))).

(** C23: POST /orders answers what became of the order, on any store that keeps
    the port's contract, errors and lost commits included, with other work
    going on, through the service's bus with any middleware that passes
    commands on. A body that is no request is a 400, a request with a bad
    customer, amount, currency or quantity a 422, and both leave the store
    alone. Any other is a 202 with the order's identifier, and then the order's
    stream holds exactly its placement; or a 500 that says nothing of the
    cause, and then the stream is empty or begins with the placement (a lost
    commit); and it is a 202 whenever the store accepts the append. Nobody
    else writes to the order's stream before it is placed. *)
Theorem post_orders_places_or_refuses (u : N -> N)
    (u_ascii : forall r, (r < 128)%N -> u r = ascii_lower_rune r)
    (u_other : forall r, (128 <= r)%N -> (128 <= u r)%N \/ u r = 105%N \/ u r = 107%N)
    {W} `{StoreSpec W} `{Clock (W * heap)} (h : Handlers) (now : W -> Time) x (others : W -> W)
    (aside : W * heap -> W * heap -> Prop) (Q : nat -> W -> Prop) mw ctx (w : W) (hp : heap) bus body random1 random2 :
  let id : OrderID := NewID random2 in
  let s := repo_stream (orders h) (value id) in
  ordering_ok u h -> Ordering.Register u now x others h (NewBus [WithMiddleware mw]) = Ok bus -> Forall (passes aside) mw ->
  surroundings now others aside s Q -> Q 8%nat w -> stream_of s (log_of w) = [] ->
  length random1 = 16%nat -> length random2 = 16%nat ->
  (forall m, decode_request body <> Panic m) -> (forall r, decode_request body = Ok r -> utf8_valid (rq_Currency r)) ->
  let '(g, (w', hp')) := placeOrder u bus ctx body random1 random2 (w, hp) in
  match decode_request body with
  | Ok r =>
    (exists c, acceptable u r c random1 /\ store_inv w' /\
       let event := placed_event id c (mkMoney (rq_Cents r) (rq_Currency r)) (mkQuantity (rq_Qty r)) in
       ((g = accepted (value id) /\ stream_holds (orders h) (value id) (log_of w') [event])
        \/ (g = internal_error /\ ~ accepts now s Q
            /\ (stream_of s (log_of w') = []
                \/ exists rec more, stream_of s (log_of w') = rec :: more /\ Decode rec (repo_registry (orders h)) = Ok event))))
    \/ ((forall c, ~ acceptable u r c random1) /\ w' = w /\ hp' = hp
        /\ exists code message, g = Ok (mkResponse StatusUnprocessableEntity (Some (JObj [("code", code); ("message", message)]))))
  | _ => w' = w /\ hp' = hp
         /\ exists message, g = Ok (mkResponse StatusBadRequest (Some (JObj [("code", enc_string "invalid_json"); ("message", message)])))
  end.
Proof.
  intros id s Hh Hreg Hmw Hs HQ Hfresh Hr1 Hr2 Hnp Hutf. unfold placeOrder.
  destruct (decode_request body) as [r|e|m] eqn:Hdec; [|split_and!; [done..|by eexists] | by destruct (Hnp m)].
  pose proof (decode_request_ok _ _ Hdec) as [Hcents Hqty]. specialize (Hutf r eq_refl).
  assert (forall c, request_customer u r random1 = Ok c
            <-> (if decide (rq_CustomerID r = "") then c = NewID random1 else @ParseID u Customer (rq_CustomerID r) = Ok c)) as Hcust.
  { intros c. unfold request_customer. case_decide as Ha; case_decide as Hb; try done; naive_solver. }
  assert (forall e, (exists s, @ParseID u Customer s = Err e) \/ (exists c cur, NewMoney c cur = Err e) \/ (exists n, NewQuantity n = Err e) ->
            exists code message, Ok (writeError e) = Ok (mkResponse StatusUnprocessableEntity (Some (JObj [("code", code); ("message", message)])))) as Href.
  { intros e He. destruct (refusals u u_ascii u_other e He) as (de & _ & ->). by do 2 eexists. }
  destruct (request_customer u r random1) as [c|e|m] eqn:Hc.
  2: { cbv beta iota. right. split; [intros c (Hc' & _); by apply Hcust in Hc'|]. split_and!; [done..|]. apply Href. left. clear Hcust. unfold request_customer in Hc. case_decide; [eexists; exact Hc | done]. }
  2: { clear Hcust. unfold request_customer in Hc. case_decide; [by apply (ParseID_fails u u_ascii u_other) in Hc | done]. }
  assert (canonical (value c) = true) as Hcan.
  { specialize (proj1 (Hcust c) eq_refl). case_decide; [intros ->; by apply (NewID_canonical (T := Customer)) | by apply (ParseID_value u u_ascii u_other)]. }
  destruct (NewMoney (rq_Cents r) (rq_Currency r)) as [total|e|m] eqn:Hm.
  2: { cbv beta iota. right. split; [intros c' (_ & Hp & Hl & _)|]; [|split_and!; [done..|]; apply Href; right; left; eauto].
       by rewrite (proj2 (NewMoney_ok _ _ (mkMoney (rq_Cents r) (rq_Currency r)))) in Hm. }
  2: { unfold NewMoney in Hm. by repeat case_decide. }
  destruct (NewQuantity (rq_Qty r)) as [qty|e|m] eqn:Hq.
  2: { cbv beta iota. right. split; [intros c' (_ & _ & _ & Hp)|]; [|split_and!; [done..|]; apply Href; right; right; eauto].
       by rewrite (proj2 (NewQuantity_ok _ (mkQuantity (rq_Qty r)))) in Hq. }
  2: { unfold NewQuantity in Hq. by case_decide. }
  apply NewMoney_ok in Hm as (Hp & Hl & ->). apply NewQuantity_ok in Hq as (Hpq & ->).
  set (cmd := mkPlaceOrder id c (mkMoney (rq_Cents r) (rq_Currency r)) (mkQuantity (rq_Qty r))).
  assert (placed_valid (mkOrderPlaced (po_ID cmd) (po_Customer cmd) (po_Total cmd) (po_Qty cmd))) as Hvalid.
  { unfold in_int64 in *. split; simpl; [by apply (NewID_canonical (T := OrderMarker)) | done | split; simpl; [lia | done | done] | lia]. }
  destruct (Dispatch bus ctx _ (w, hp)) as [g [w' hp']] eqn:Hd.
  destruct (dispatch_places u u_ascii u_other now x others aside h cmd Q mw bus ctx w hp g w' hp' Hh Hs HQ Hfresh Hvalid Hmw Hreg Hd)
    as (Hinv' & Hp' & Hg).
  destruct g as [[]|e|m]; [| |done]; cbv beta iota; left; exists c; (split; [split_and!; [by apply Hcust|done..]|]);
    (split; [done|]); cbv zeta; [by left|right].
  destruct Hg as [He Hacc]. split; [unfold writeError; by rewrite He|]. done.
Qed.

(** GET /orders/{id} tells an absent order from a database that fails. With
    the query registered on a bus without middleware: it changes nothing but
    what a network round trip uses up; when the statement is answered the
    response is a 200 with the order's row, or a 404 with code [not_found] when
    there is none; when it fails, a 500 that says nothing of the cause. *)
Theorem get_orders_reads_row (queries queries' : QueryBus local_query local_answer PgReadModel) ctx id (p : PgReadModel) :
  query_middleware queries = [] -> RegisterQueries queries = Ok queries' ->
  (forall f e, f ∈ fates p -> f = Refused e \/ f = Lost e -> AsDomainError e = None) ->
  let '(g, p') := getOrder queries' ctx id p in
  table p' = table p
  /\ g = Ok match fates p with
         | [] | Answered :: _ =>
           match t_summary (table p) !! id with
           | Some row => writeJSON StatusOK (enc_summary (row_summary id row))
           | None => mkResponse StatusNotFound (Some (JObj [("code", JStr "not_found"); ("message", JStr "order does not exist")]))
           end
         | (Refused e | Lost e) :: _ =>
           mkResponse StatusInternalServerError (Some (JObj [("code", JStr "internal"); ("message", JStr "internal error")]))
         end.
Proof.
  intros Hmw Hreg Hdb. unfold getOrder.
  change (Q_GetOrder id) with (to_interface GetOrder_type id).
  destruct (ask_returns_answer GetOrder_type OrderSummary_type OrderSummary_type (fun _ => "ports.OrderSummary") GetOrder_handler
    queries queries' ctx p id) as [Hask _]; [done..|]. rewrite Hask.
  unfold GetOrder_handler. change (GetSummary id p) with (pg_GetSummary id p). unfold pg_GetSummary, round_trip.
  destruct (fates p) as [|[|e|e] fs]; simpl.
  - destruct (t_summary (table p) !! id); by split.
  - destruct (t_summary (table p) !! id); by split.
  - split; [done|]. unfold writeError. change (AsDomainError (EWrap ?b e ?a)) with (AsDomainError e).
    by rewrite (Hdb (Refused e) e) by first [by left | by left].
  - split; [done|]. unfold writeError. change (AsDomainError (EWrap ?b e ?a)) with (AsDomainError e).
    by rewrite (Hdb (Lost e) e) by first [by left | by right].
Qed.

Module Sample.
Import Ordering.Sample.

(** An in-memory store next to a tracer, whose commits may be lost: stored, but
    answered with an error. *)
Record shaky := mkShaky { sh_store : MemoryStore; sh_spans : Tracer; sh_loses : bool }.
Definition in_store {A} (op : MemoryStore -> A * MemoryStore) (w : shaky) : A * shaky :=
  let '(a, m) := op (sh_store w) in (a, mkShaky m (sh_spans w) (sh_loses w)).
Definition answered (loses : bool) (r : res Z) : res Z :=
  match r with Ok _ => if loses then Err (EText "connection reset") else r | _ => r end.
#[export] Instance shaky_store : Store shaky := {
  Append now s v es w := let '(r, w') := in_store (mem_Append now s v es) w in (answered (sh_loses w) r, w');
  Load s after := in_store (mem_Load s after); ReadAll after limit := in_store (mem_ReadAll after limit); Head := in_store mem_Head;
}.
Definition log (w : shaky) : list RecordedEvent := all (sh_store w).
#[export] Program Instance shaky_spec : StoreSpec shaky := { log_of := log; store_inv w := mem_inv (sh_store w) }.
Next Obligation. intros w Hw. by apply mem_log_ok. Qed.
Next Obligation.
  intros now s v es w r w' Hw Hsize. simpl. unfold in_store.
  destruct (mem_Append now s v es (sh_store w)) as [g m] eqn:E. intros [= <- <-].
  destruct (mem_Append_spec _ _ _ _ _ _ _ Hw Hsize E) as [Hm Hpost]. split; [done|].
  unfold answered. destruct g as [seq| |]; [|done..]. destruct (sh_loses w); [|done].
  destruct Hpost as [(_ & _ & Hl)|(_ & Hv & Ha & _)]; [by left | by right].
Qed.
Next Obligation.
  intros s after w r w' Hw. simpl. unfold in_store. destruct (mem_Load s after (sh_store w)) as [g m] eqn:E. intros [= <- <-].
  exact (Load_spec (W := MemoryStore) _ _ _ _ _ Hw E).
Qed.
Next Obligation.
  intros after limit w r w' Hw. simpl. unfold in_store. destruct (mem_ReadAll after limit (sh_store w)) as [g m] eqn:E. intros [= <- <-].
  exact (ReadAll_spec (W := MemoryStore) _ _ _ _ _ Hw E).
Qed.
Next Obligation.
  intros w r w' Hw. simpl. unfold in_store. destruct (mem_Head (sh_store w)) as [g m] eqn:E. intros [= <- <-].
  exact (Head_spec (W := MemoryStore) _ _ _ Hw E).
Qed.
Abbreviation world := (shaky * heap)%type.
#[export] Instance world_traced : Traced world :=
  {| tracer_of w := sh_spans (fst w);
     set_tracer t w := (mkShaky (sh_store (fst w)) t (sh_loses (fst w)), snd w); tracer_set t w := eq_refl |}.
#[export] Instance prompt : Clock world := fun _ _ w => (true, w).
Definition fresh (n : nat) (_ : SpanContext) : SpanContext := mkSpanContext ("0" +:+ pretty (N.of_nat n)) "".
Definition undisturbed : shaky -> shaky := fun w => w.
Definition clock : shaky -> Time := fun _ => zero_time.
(** The service's middleware. *)
Definition mw : list (Middleware local_command world) := [CommandMiddleware fresh].
Definition traced (w w' : world) : Prop := exists t, w' = set_tracer t w.
Definition bus : Bus local_command world :=
  match Ordering.Register lower clock None undisturbed service (NewBus [WithMiddleware mw]) with Ok b => b | _ => NewBus [] end.
Definition empty (loses : bool) : shaky := mkShaky NewMemoryStore [] loses.
Definition roomy (n : nat) (w : shaky) : Prop := mem_inv (sh_store w) /\ zlen (log w) + Z.of_nat n <= int64_max.

Lemma sample_surroundings s : surroundings clock undisturbed traced s roomy.
Proof.
  split.
  - by intros n v [? _].
  - intros n v [Hv Hn]. change (last_seq (log_of v)) with (last_seq (all (sh_store v))). rewrite mem_last_seq by done.
    unfold log in Hn. lia.
  - intros n v [Hv Hn]. split; [split; [done|]; unfold undisturbed; lia|]. split; [exists []; by rewrite app_nil_r | done].
  - intros n c d v hp [Hv Hn]. simpl. split; [split; [done | lia]|]. split; [exists []; by rewrite app_nil_r | done].
  - intros n v v' [Hv Hn] Hv' Hl. split; [done|]. change (log v') with (log_of v').
    destruct Hl as [->|[d (recs & -> & Hst)]]; [change (log_of v) with (log v); lia|].
    rewrite zlen_app. pose proof (stored_length _ _ _ _ Hst) as Hlen. unfold zlen at 2. rewrite Hlen.
    change (log_of v) with (log v). simpl. lia.
  - intros n p p' [t ->] Hp. by destruct p as [[m t' b] hp].
  - intros n v d e v' [Hv Hn]. simpl. unfold in_store.
    destruct (mem_Append (clock v) s 0 [d] (sh_store v)) as [g m] eqn:E. intros [= Hg _].
    unfold answered in Hg. destruct g as [seq|e'|m']; [destruct (sh_loses v); [by injection Hg as <- | done] | | done].
    injection Hg as <-. unfold mem_Append in E. rewrite decide_False in E by done.
    case_decide; [by injection E as <- _|]. by destruct (last _).
Qed.
Definition random : list Ascii.ascii := replicate 16 (Ascii.ascii_of_N 7).
Definition order_body : res json :=
  Ok (JObj [("cents", JInt 500); ("currency", JStr "THB"); ("Qty", JInt 2)]).
Definition request : placeOrderRequest := mkRequest "" 500 "THB" 2.
Definition queries : QueryBus local_query local_answer PgReadModel :=
  match RegisterQueries (NewQueryBus []) with Ok b => b | _ => NewQueryBus [] end.
End Sample.
Import Sample.

(** On a healthy store a 202; on one that loses the commits a 500, the order
    placed all the same. *)
Lemma post_orders_places_or_refuses_witness :
  let post loses := placeOrder Ordering.Sample.lower bus background order_body random random (empty loses, []) in
  (forall loses, fst (post loses) = accepted (value (NewID random : OrderID))
     \/ fst (post loses) = internal_error /\ ~ accepts clock (repo_stream (orders Ordering.Sample.service) (value (NewID random : OrderID))) roomy)
  /\ fst (post false) = accepted (value (NewID random : OrderID))
  /\ fst (post true) = internal_error /\ length (log (fst (snd (post true)))) = 1%nat.
Proof.
  intros post. split; [|split_and!; vm_compute; reflexivity]. intros loses.
  pose proof (post_orders_places_or_refuses Ordering.Sample.lower sample_ToLower_ascii sample_ToLower_other
    Ordering.Sample.service clock None undisturbed traced roomy mw background (empty loses) [] bus order_body random random
    Ordering.Sample.ordering_service_ok eq_refl ltac:(constructor; [apply command_middleware_passes | constructor])
    (sample_surroundings _) ltac:(split; [exact mem_inv_new | vm_compute; discriminate]) eq_refl eq_refl eq_refl
    ltac:(vm_compute; discriminate) ltac:(intros r [= <-]; vm_compute; reflexivity)) as Hok.
  unfold post. destruct (placeOrder _ _ _ _ _ _ _) as [g [w' hp']].
  change (decode_request order_body) with (Ok request) in Hok. cbv beta iota in Hok.
  destruct Hok as [(c & _ & _ & [[Hg _]|(Hg & Hacc & _)])|(Hno & _)]; [by left | by right |].
  exfalso. apply (Hno (NewID random)). split; [reflexivity|]. split; [reflexivity|]. split; reflexivity.
Defined.

Lemma get_orders_reads_row_witness :
  fst (getOrder queries background "nowhere" (mkPg (mkTables ∅ [] 0) []))
  = Ok (mkResponse StatusNotFound (Some (JObj [("code", JStr "not_found"); ("message", JStr "order does not exist")]))).
Proof.
  pose proof (get_orders_reads_row (NewQueryBus []) queries background "nowhere" (mkPg (mkTables ∅ [] 0) [])
    eq_refl eq_refl ltac:(intros f e Hf; by apply elem_of_nil in Hf)) as Hok.
  destruct (getOrder _ _ _ _) as [g p']. destruct Hok as [_ ->]. reflexivity.
Defined.
