(* ===== verification/Conformance.v ===== *)
(** * eventstore/storetest: the conformance suites of the store ports

    The subtests as programs over a [testing.T]: they call the store under
    test, report, and stop at a fatal report or a panic. A report is the
    format string of its message. *)

From S2P Require Import Prelude Tail Errors GoTime Json EventStore MemoryStore Checkpoint.

(** ** testing.T

    [t.Fatalf] reports and stops the subtest ([Err]), [t.Errorf] reports and
    goes on. The state is the store's and the reports so far. *)

Definition T (W A : Type) : Type := W * list string -> res A * (W * list string).

#[export] Instance T_ret W : MRet (T W) := fun A a s => (Ok a, s).
#[export] Instance T_bind W : MBind (T W) := fun A B f m s =>
  match m s with
  | (Ok a, s') => f a s'
  | (Err e, s') => (Err e, s')
  | (Panic p, s') => (Panic p, s')
  end.

Section testing.
Context {W : Type}.

Definition Fatalf {A} (report : string) : T W A := fun s => (Err (EText "FailNow"), (fst s, report :: snd s)).
Definition Errorf (report : string) : T W unit := fun s => (Ok tt, (fst s, report :: snd s)).
Definition fatal_if (b : bool) (report : string) : T W unit := if b then Fatalf report else mret tt.
Definition error_if (b : bool) (report : string) : T W unit := if b then Errorf report else mret tt.

(** A call of the code under test, with its result and error. *)
Definition call {A} (f : W -> res A * W) : T W (res A) := fun s =>
  match f (fst s) with
  | (Panic m, w) => (Panic m, (w, snd s))
  | (r, w) => (Ok r, (w, snd s))
  end.

(** [if err != nil { t.Fatalf(report) }] *)
Definition must {A} (report : string) (r : res A) : T W A :=
  match r with Ok a => mret a | _ => Fatalf report end.

(** [recs, _ :=] *)
Definition ignoring {A} (zero : A) (r : res A) : A := match r with Ok a => a | _ => zero end.

Definition at_index {A} (l : list A) (i : Z) : T W A := fun s =>
  match (if decide (0 <= i) then l !! Z.to_nat i else None) with
  | Some a => (Ok a, s)
  | None => (Panic "index out of range", s)
  end.

(** [for i, x := range l] *)
Fixpoint range_from {A} (i : Z) (l : list A) (body : Z -> A -> T W unit) : T W unit :=
  match l with
  | [] => mret tt
  | x :: rest => body i x ≫= fun _ => range_from (i + 1) rest body
  end.

(** What [go test] says of a subtest on the store it is given. *)
Definition passed (t : T W unit) (w : W) : bool :=
  match t (w, []) with (Ok _, (_, [])) => true | _ => false end.

Definition suite_passes (suite : list (string * T W unit)) (newStore : W) : bool :=
  forallb (fun nt => passed (snd nt) newStore) suite.
End testing.

(** ** storetest.go *)

Definition stream : StreamID := mkStreamID "order" "42".
Definition other : StreamID := mkStreamID "order" "43".
Definition payload : RawMessage := RawJSON (JObj [("n", JInt 1)]).
(** A payload is a document here, and [text] the bytes the store under test hands
    back for it: the suite compares those with two spellings. *)
Definition compact : string := "{" +:+ Quote "n" +:+ ":1}".
Definition spaced : string := "{" +:+ Quote "n" +:+ ": 1}".
Definition is_payload (text : RawMessage -> string) (p : RawMessage) : bool :=
  bool_decide (text p = compact) || bool_decide (text p = spaced).
Definition ev (name : string) : EventData := mkEventData name 1 payload None.

(** [t.IsZero()]: the instant is January 1, year 1, 00:00:00 UTC. *)
Definition Time_IsZero (t : Time) : bool := bool_decide (UTC t = zero_time).

(** [errors.Is(err, eventstore.ErrVersionConflict)] *)
Definition conflicted {A} (r : res A) : bool :=
  match r with Err e => errors_Is e ErrVersionConflict | _ => false end.

Abbreviation differs x y := (negb (bool_decide (x = y))).

Section store_suite.
Context {W : Type} `{Store W}.
Variable now : Time. (* what the store's clock reads *)
Variable text : RawMessage -> string. (* the bytes of the payloads it answers with *)

Definition mustAppend (s : StreamID) (expected : Z) (events : list EventData) : T W unit :=
  r ← call (Append now s expected events); _ ← must "Append(%s/%s @%d): %v" r; mret tt.

Definition append_then_load : T W unit :=
  r ← call (Append now stream 0 [ev "a"; ev "b"]); _ ← must "Append: %v" r;
  l ← call (Load stream 0); recs ← must "Load: %v" l;
  _ ← fatal_if (differs (zlen recs) 2) "Load len = %d, want 2";
  _ ← range_from 0 recs (fun i rec =>
    _ ← error_if (differs (rec_Version rec) (i + 1)) "recs[%d].Version = %d, want %d";
    _ ← error_if (differs (Stream rec) stream) "recs[%d].Stream = %v";
    error_if (Time_IsZero (OccurredAt rec)) "recs[%d].OccurredAt is zero");
  r0 ← at_index recs 0; r1 ← at_index recs 1;
  _ ← error_if (differs (rec_EventName r0) "a" || differs (rec_EventName r1) "b") "order: got %s, %s";
  _ ← error_if (differs (rec_SchemaVersion r0) 1) "SchemaVersion = %d, want 1";
  error_if (negb (is_payload text (rec_Payload r0))) "Payload = %s".

(** The version is read only of two records; the report reads the last. *)
Definition append_continues_version : T W unit :=
  _ ← mustAppend stream 0 [ev "a"]; _ ← mustAppend stream 1 [ev "b"];
  l ← call (Load stream 0);
  let recs := ignoring [] l in
  wrong ← (if decide (zlen recs <> 2) then mret true else r1 ← at_index recs 1; mret (differs (rec_Version r1) 2));
  if (wrong : bool)
  then _ ← at_index recs (zlen recs - 1); Fatalf "got %d recs, last version %d; want 2 and 2"
  else mret tt.

Definition stale_append_conflicts : T W unit :=
  _ ← mustAppend stream 0 [ev "a"];
  r ← call (Append now stream 0 [ev "b"]);
  _ ← fatal_if (negb (conflicted r)) "stale append = %v, want ErrVersionConflict";
  l ← call (Load stream 0);
  error_if (differs (zlen (ignoring [] l)) 1) "conflicting append must store nothing: len = %d, want 1".

Definition concurrent_create_conflicts : T W unit :=
  _ ← mustAppend stream 0 [ev "a"];
  r ← call (Append now stream 0 [ev "a"]);
  fatal_if (negb (conflicted r)) "second create = %v, want ErrVersionConflict".

Definition future_version_conflicts : T W unit :=
  r ← call (Append now stream 5 [ev "a"]);
  fatal_if (negb (conflicted r)) "future version append = %v, want ErrVersionConflict".

(** [len(recs) != 1 || recs[0].EventName != name] *)
Definition not_just (name : string) (recs : list RecordedEvent) : T W bool :=
  if decide (zlen recs <> 1) then mret true else r0 ← at_index recs 0; mret (differs (rec_EventName r0) name).

Definition load_after_version : T W unit :=
  _ ← mustAppend stream 0 [ev "a"; ev "b"; ev "c"];
  l ← call (Load stream 2); recs ← must "Load: %v" l;
  wrong ← not_just "c" recs; fatal_if wrong "Load(after 2) = %+v, want just c".

Definition missing_stream_loads_empty : T W unit :=
  l ← call (Load (mkStreamID "ghost" "0") 0); recs ← must "Load(missing) error = %v, want nil" l;
  fatal_if (differs (zlen recs) 0) "Load(missing) len = %d, want 0".

Definition streams_are_isolated : T W unit :=
  _ ← mustAppend stream 0 [ev "a"]; _ ← mustAppend other 0 [ev "b"];
  l ← call (Load stream 0);
  wrong ← not_just "a" (ignoring [] l); fatal_if wrong "stream leaked: %+v".

(** The loop over [last]. *)
Fixpoint increasing_check (last : Z) (recs : list RecordedEvent) : T W unit :=
  match recs with
  | [] => mret tt
  | rec :: rest =>
    _ ← fatal_if (bool_decide (GlobalSeq rec <= last)) "GlobalSeq not strictly increasing at %d: %+v";
    increasing_check (GlobalSeq rec) rest
  end.

Definition readall_tails_in_order : T W unit :=
  _ ← mustAppend stream 0 [ev "a"]; _ ← mustAppend other 0 [ev "b"]; _ ← mustAppend stream 1 [ev "c"];
  l ← call (ReadAll 0 0); recs ← must "ReadAll: %v" l;
  _ ← fatal_if (differs (zlen recs) 3) "ReadAll len = %d, want 3";
  _ ← increasing_check 0 recs;
  r0 ← at_index recs 0; r1 ← at_index recs 1; r2 ← at_index recs 2;
  _ ← error_if (differs (rec_EventName r0) "a" || differs (rec_EventName r1) "b" || differs (rec_EventName r2) "c")
        "global order: %s, %s, %s";
  l ← call (ReadAll (GlobalSeq r1) 0); tail ← must "ReadAll(after): %v" l;
  wrong ← not_just "c" tail; fatal_if wrong "ReadAll(after 2nd) = %+v, want just c".

Definition readall_honors_limit : T W unit :=
  _ ← mustAppend stream 0 [ev "a"; ev "b"; ev "c"];
  l ← call (ReadAll 0 2); recs ← must "ReadAll: %v" l;
  fatal_if (differs (zlen recs) 2) "ReadAll(limit 2) len = %d, want 2".

Definition traced : EventData := mkEventData "a" 1 payload (Some {["traceparent" := "00-abc-def-01"]}).

Definition metadata_round_trips : T W unit :=
  _ ← mustAppend stream 0 [traced];
  l ← call (Load stream 0);
  r0 ← at_index (ignoring [] l) 0;
  error_if (differs (default "" (rec_Metadata r0 ≫= fun m => m !! "traceparent")) "00-abc-def-01") "Metadata[traceparent] = %q".

Definition empty_append_is_noop : T W unit :=
  r ← call (Append now stream 0 []); seq ← must "empty Append: %v" r;
  _ ← error_if (differs seq 0) "empty Append seq = %d, want 0";
  l ← call (ReadAll 0 0);
  error_if (differs (zlen (ignoring [] l)) 0) "empty append stored %d events".

Definition append_returns_last_seq : T W unit :=
  r ← call (Append now stream 0 [ev "a"; ev "b"]); seq1 ← must "Append: %v" r;
  r ← call (Append now other 0 [ev "c"]); seq2 ← must "Append: %v" r;
  _ ← error_if (bool_decide (seq2 <= seq1)) "seqs not increasing across appends: %d then %d";
  l ← call (ReadAll 0 0); recs ← must "ReadAll: %v" l;
  r1 ← at_index recs 1; _ ← error_if (differs (GlobalSeq r1) seq1) "first append reported seq %d, ReadAll says %d";
  r2 ← at_index recs 2; error_if (differs (GlobalSeq r2) seq2) "second append reported seq %d, ReadAll says %d".

Definition head_of_empty : T W unit :=
  r ← call Head; head ← must "Head: %v" r;
  error_if (differs head 0) "Head(empty) = %d, want 0".

Definition head_is_last_appended : T W unit :=
  r ← call (Append now stream 0 [ev "a"; ev "b"]); seq ← must "Append: %v" r;
  r ← call Head; head ← must "Head: %v" r;
  _ ← error_if (differs head seq) "Head = %d, want the appended seq %d";
  r ← call (Append now other 0 [ev "c"]); seq ← must "Append: %v" r;
  r ← call Head; head ← must "Head: %v" r;
  error_if (differs head seq) "Head = %d, want the appended seq %d".

Definition head_ends_tailing_read : T W unit :=
  _ ← mustAppend stream 0 [ev "a"; ev "b"]; _ ← mustAppend other 0 [ev "c"];
  r ← call Head; head ← must "Head: %v" r;
  l ← call (ReadAll 0 0); recs ← must "ReadAll: %v" l;
  got ← at_index recs (zlen recs - 1);
  _ ← error_if (differs (GlobalSeq got) head) "Head = %d, last ReadAll seq = %d";
  l ← call (ReadAll head 0); tail ← must "ReadAll(after head): %v" l;
  error_if (differs (zlen tail) 0) "ReadAll(after head) returned %d events, want 0".

Definition failed_append_leaves_head : T W unit :=
  _ ← mustAppend stream 0 [ev "a"];
  r ← call Head; before ← must "Head: %v" r;
  r ← call (Append now stream 0 [ev "b"]);
  _ ← fatal_if (negb (conflicted r)) "stale append = %v, want ErrVersionConflict";
  r ← call Head; after ← must "Head: %v" r;
  error_if (differs after before) "Head moved on a conflicting append: %d then %d".

Definition Run : list (string * T W unit) :=
  [("append then load", append_then_load);
   ("append continues version across calls", append_continues_version);
   ("stale append conflicts", stale_append_conflicts);
   ("concurrent create conflicts", concurrent_create_conflicts);
   ("future expected version conflicts", future_version_conflicts);
   ("load after version", load_after_version);
   ("missing stream loads empty", missing_stream_loads_empty);
   ("streams are isolated", streams_are_isolated);
   ("readall tails in global order", readall_tails_in_order);
   ("readall honors limit", readall_honors_limit);
   ("metadata round trips", metadata_round_trips);
   ("empty append is a no-op", empty_append_is_noop);
   ("append returns the last global seq", append_returns_last_seq);
   ("head of an empty store is zero", head_of_empty);
   ("head is the last appended global seq", head_is_last_appended);
   ("head marks the end of the tailing read", head_ends_tailing_read);
   ("a failed append leaves the head alone", failed_append_leaves_head)].
End store_suite.

(** ** checkpoints.go *)

Section checkpoint_suite.
Context {C : Type} `{CheckpointStore C}.

Definition mustSet (name : string) (seq : Z) : T C unit :=
  r ← call (cp_Set name seq); _ ← must "Set(%s, %d): %v" r; mret tt.

Definition unknown_is_zero : T C unit :=
  r ← call (cp_Get "ghost"); seq ← must "Get: %v" r;
  fatal_if (differs seq 0) "Get(unknown) = %d, want 0".

Definition set_then_get : T C unit :=
  r ← call (cp_Set "relay" 42); _ ← must "Set: %v" r;
  r ← call (cp_Get "relay"); seq ← must "Get: %v" r;
  fatal_if (differs seq 42) "Get = %d, want 42".

Definition set_overwrites : T C unit :=
  _ ← mustSet "relay" 1; _ ← mustSet "relay" 7;
  r ← call (cp_Get "relay"); fatal_if (differs (ignoring 0 r) 7) "Get = %d, want 7".

Definition names_are_independent : T C unit :=
  _ ← mustSet "relay" 3; _ ← mustSet "projection.order_summary" 9;
  r ← call (cp_Get "relay"); _ ← fatal_if (differs (ignoring 0 r) 3) "relay = %d, want 3";
  r ← call (cp_Get "projection.order_summary"); fatal_if (differs (ignoring 0 r) 9) "projection = %d, want 9".

Definition RunCheckpoints : list (string * T C unit) :=
  [("unknown checkpoint is zero", unknown_is_zero); ("set then get", set_then_get);
   ("set overwrites", set_overwrites); ("names are independent", names_are_independent)].
End checkpoint_suite.

(** ** Running a subtest silently

    [wp t w Q]: on [w] the program [t] reports nothing and returns a value and
    a store with [Q]. *)

Definition wp {W A} (t : T W A) (w : W) (Q : A -> W -> Prop) : Prop :=
  exists a w', t (w, []) = (Ok a, (w', [])) /\ Q a w'.

Section rules.
Context {W : Type}.
Implicit Types w : W.

Lemma wp_bind {A B} (t : T W A) (f : A -> T W B) w Q : wp t w (fun a w' => wp (f a) w' Q) -> wp (t ≫= f) w Q.
Proof. intros (a & w1 & Ht & b & w2 & Hf & HQ). exists b, w2. split; [|done]. unfold mbind, T_bind. by rewrite Ht. Qed.
Lemma wp_ret {A} (a : A) w Q : Q a w -> wp (mret a) w Q.
Proof. intros HQ. by exists a, w. Qed.
Lemma wp_fatal_if b report w (Q : unit -> W -> Prop) : b = false -> Q tt w -> wp (fatal_if b report) w Q.
Proof. intros -> HQ. by exists tt, w. Qed.
Lemma wp_error_if b report w (Q : unit -> W -> Prop) : b = false -> Q tt w -> wp (error_if b report) w Q.
Proof. intros -> HQ. by exists tt, w. Qed.
Lemma wp_must {A} report (a : A) w Q : Q a w -> wp (must report (Ok a)) w Q.
Proof. intros HQ. by exists a, w. Qed.
Lemma wp_at_index {A} (l : list A) i a w Q :
  (if decide (0 <= i) then l !! Z.to_nat i else None) = Some a -> Q a w -> wp (at_index l i) w Q.
Proof. intros Hi HQ. exists a, w. unfold at_index. by rewrite Hi. Qed.
Lemma wp_call {A} (f : W -> res A * W) w (Q : res A -> W -> Prop) r w' :
  f w = (r, w') -> (forall m, r <> Panic m) -> Q r w' -> wp (call f) w Q.
Proof. intros Hf Hr HQ. exists r, w'. split; [|done]. unfold call. cbn [fst snd]. rewrite Hf. by destruct r as [| |m]; [..|destruct (Hr m)]. Qed.

Lemma wp_passed (t : T W unit) w : wp t w (fun _ _ => True) -> passed t w = true.
Proof. intros (a & w' & Ht & _). unfold passed. by rewrite Ht. Qed.
End rules.

(** ** A store that honours its port passes *)

Section conforming.
Context {W : Type} `{StoreSpec W}.
Variable now : Time.
Implicit Types (w : W) (s : StreamID) (log recs : list RecordedEvent).

(** The store answers the suite: no failures of its own, sequence numbers left
    for a few more events, and what it stores stamped with a real time. *)
Record answers : Prop := {
  ans_append s v es w r w' :
    store_inv w -> zlen (log_of w) <= 3 -> zlen es <= 3 -> Append now s v es w = (r, w') ->
    (exists seq, r = Ok seq) \/ exists e, r = Err e /\ errors_Is e ErrVersionConflict = true;
  ans_load s v w r w' : store_inv w -> Load s v w = (r, w') -> exists recs, r = Ok recs;
  ans_readall a n w r w' : store_inv w -> ReadAll a n w = (r, w') -> exists recs, r = Ok recs;
  ans_head w r w' : store_inv w -> Head w = (r, w') -> exists seq, r = Ok seq;
  ans_room w : store_inv w -> zlen (log_of w) <= 3 -> last_seq (log_of w) + 3 <= int64_max;
  ans_stamped s v es w r w' recs :
    store_inv w -> Append now s v es w = (r, w') -> log_of w' = log_of w ++ recs ->
    Forall (fun rec => Time_IsZero (OccurredAt rec) = false) recs;
}.
Hypothesis Hans : answers.

Definition on w log : Prop := store_inv w /\ log_of w = log.

Lemma on_increasing w log : on w log -> increasing GlobalSeq log.
Proof. intros [Hinv <-]. apply store_log_ok in Hinv as [? _]. done. Qed.

Lemma wp_append s v es w log (Q : res Z -> W -> Prop) :
  on w log -> zlen log <= 3 -> zlen es <= 3 -> es <> [] -> v = stream_version s log ->
  (forall recs w', stored s v es recs -> Forall (fun rec => Time_IsZero (OccurredAt rec) = false) recs ->
     on w' (log ++ recs) -> Q (Ok (last_seq (log ++ recs))) w') ->
  wp (call (Append now s v es)) w Q.
Proof.
  intros [Hinv Hlog] Hl He Hne Hv HQ. destruct (Append now s v es w) as [r w'] eqn:E. rewrite <-Hlog in Hl, Hv, HQ.
  destruct (Append_spec now s v es w r w' Hinv) as [Hinv' Hpost]; [|done|].
  { pose proof (ans_room Hans w Hinv Hl). lia. }
  destruct (ans_append Hans _ _ _ _ _ _ Hinv Hl He E) as [[seq ->]|(e & -> & Hc)].
  - destruct Hpost as [(? & _)|(_ & _ & (recs & Hrecs & Hst) & ->)]; [done|].
    eapply wp_call; [exact E | done|]. rewrite Hrecs. apply HQ; [done | exact (ans_stamped Hans _ _ _ _ _ _ _ Hinv E Hrecs) | by split].
  - cbn [append_post] in Hpost. rewrite Hc in Hpost. by destruct Hpost as [_ ?].
Qed.

Lemma wp_append_conflict s v es w log (Q : res Z -> W -> Prop) :
  on w log -> zlen log <= 3 -> zlen es <= 3 -> es <> [] -> v <> stream_version s log ->
  (forall e w', errors_Is e ErrVersionConflict = true -> on w' log -> Q (Err e) w') ->
  wp (call (Append now s v es)) w Q.
Proof.
  intros [Hinv Hlog] Hl He Hne Hv HQ. destruct (Append now s v es w) as [r w'] eqn:E. rewrite <-Hlog in Hl, Hv.
  destruct (Append_spec now s v es w r w' Hinv) as [Hinv' Hpost]; [|done|].
  { pose proof (ans_room Hans w Hinv Hl). lia. }
  destruct (ans_append Hans _ _ _ _ _ _ Hinv Hl He E) as [[seq ->]|(e & -> & Hc)].
  - by destruct Hpost as [(? & _)|(_ & ? & _)].
  - cbn [append_post] in Hpost. rewrite Hc in Hpost. destruct Hpost as [Hw _].
    eapply wp_call; [exact E | done|]. apply HQ; [done|]. split; [done|congruence].
Qed.

Lemma wp_append_nothing s w log (Q : res Z -> W -> Prop) :
  on w log -> zlen log <= 3 -> stream_version s log = 0 -> (forall w', on w' log -> Q (Ok 0) w') ->
  wp (call (Append now s 0 [])) w Q.
Proof.
  intros [Hinv Hlog] Hl Hv HQ. destruct (Append now s 0 [] w) as [r w'] eqn:E. rewrite <-Hlog in Hl, Hv.
  destruct (Append_spec now s 0 [] w r w' Hinv) as [Hinv' Hpost]; [|done|].
  { pose proof (ans_room Hans w Hinv Hl). rewrite zlen_nil. lia. }
  assert (zlen ([] : list EventData) <= 3) as Hn by (rewrite zlen_nil; lia).
  destruct (ans_append Hans _ _ _ _ _ _ Hinv Hl Hn E) as [[seq ->]|(e & -> & Hc)].
  - destruct Hpost as [(_ & -> & Hw)|(? & _)]; [|done].
    eapply wp_call; [exact E | done|]. apply HQ. split; [done|congruence].
  - cbn [append_post] in Hpost. rewrite Hc in Hpost. destruct Hpost as [_ Hne]. by rewrite Hv in Hne.
Qed.

Lemma wp_load s a w log (Q : res (list RecordedEvent) -> W -> Prop) :
  on w log -> (forall w', on w' log -> Q (Ok (load_result s a log)) w') -> wp (call (Load s a)) w Q.
Proof.
  intros [Hinv Hlog] HQ. destruct (Load s a w) as [r w'] eqn:E.
  destruct (Load_spec _ _ _ _ _ Hinv E) as (Hinv' & Hw & Hok & _), (ans_load Hans _ _ _ _ _ Hinv E) as [recs ->].
  eapply wp_call; [exact E | done|]. rewrite (Hok _ eq_refl), Hlog. apply HQ. split; [done|congruence].
Qed.

Lemma wp_readall a n w log (Q : res (list RecordedEvent) -> W -> Prop) :
  on w log -> (forall w', on w' log -> Q (Ok (readall_result a n log)) w') -> wp (call (ReadAll a n)) w Q.
Proof.
  intros [Hinv Hlog] HQ. destruct (ReadAll a n w) as [r w'] eqn:E.
  destruct (ReadAll_spec _ _ _ _ _ Hinv E) as (Hinv' & Hw & Hok), (ans_readall Hans _ _ _ _ _ Hinv E) as [recs ->].
  eapply wp_call; [exact E | done|]. rewrite (Hok _ eq_refl), Hlog. apply HQ. split; [done|congruence].
Qed.

Lemma wp_head w log (Q : res Z -> W -> Prop) :
  on w log -> (forall w', on w' log -> Q (Ok (last_seq log)) w') -> wp (call Head) w Q.
Proof.
  intros [Hinv Hlog] HQ. destruct (Head w) as [r w'] eqn:E.
  destruct (Head_spec _ _ _ Hinv E) as (Hinv' & Hw & Hok), (ans_head Hans _ _ _ Hinv E) as [seq ->].
  eapply wp_call; [exact E | done|]. rewrite (Hok _ eq_refl), Hlog. apply HQ. split; [done|congruence].
Qed.

Lemma wp_mustAppend s v es w log (Q : unit -> W -> Prop) :
  on w log -> zlen log <= 3 -> zlen es <= 3 -> es <> [] -> v = stream_version s log ->
  (forall recs w', stored s v es recs -> Forall (fun rec => Time_IsZero (OccurredAt rec) = false) recs ->
     on w' (log ++ recs) -> Q tt w') ->
  wp (mustAppend now s v es) w Q.
Proof.
  intros. unfold mustAppend. apply wp_bind. eapply wp_append; try done. intros. apply wp_bind, wp_must, wp_ret. eauto.
Qed.
End conforming.

(** *** Small logs, record by record *)

Lemma stored_inv_nil s v recs : stored s v [] recs -> recs = [].
Proof. intros (Hd & _). by destruct recs. Qed.

Lemma stored_inv_cons s v e es recs :
  stored s v (e :: es) recs ->
  exists g t recs', recs = mkRecordedEvent g s (v + 1) (ed_EventName e) (ed_SchemaVersion e) (ed_Payload e) (ed_Metadata e) t :: recs'
    /\ stored s (v + 1) es recs'.
Proof.
  destruct recs as [|r recs]; intros (Hd & Hs & Hv); [done|].
  rewrite zlen_cons, seqZ_cons in Hv by (pose proof (zlen_nonneg es); lia).
  injection Hd as <- <-. apply Forall_cons in Hs as [<- Hs]. injection Hv as Hv Hvs.
  exists (GlobalSeq r), (OccurredAt r), recs. split; [by destruct r; simpl in *; subst|]. split_and!; [done..|].
  etransitivity; [exact Hvs|]. f_equal; lia.
Qed.

Lemma readall_all log : increasing GlobalSeq log -> readall_result 0 0 log = log.
Proof.
  intros Hi. unfold readall_result, read_page, limited. rewrite decide_False by lia.
  apply filter_all. rewrite Forall_forall. intros r Hr. by eapply increasing_positive.
Qed.

Lemma readall_after log r rest :
  increasing GlobalSeq (log ++ r :: rest) -> readall_result (GlobalSeq r) 0 (log ++ r :: rest) = rest.
Proof.
  intros Hi. unfold readall_result, read_page, limited, beyond. rewrite decide_False by lia.
  apply increasing_sorted in Hi. rewrite fmap_app, fmap_cons in Hi.
  rewrite filter_app, filter_cons, decide_False by lia.
  rewrite filter_none; [cbn [app]; apply filter_all|].
  - apply StronglySorted_app_1_r, StronglySorted_inv in Hi as [_ Hi]. rewrite Forall_fmap in Hi. exact Hi.
  - rewrite Forall_forall. intros r' Hr'. rewrite StronglySorted_app in Hi. destruct Hi as (Hi & _ & _).
    specialize (Hi (GlobalSeq r') (GlobalSeq r)). apply Z.nlt_ge, Z.lt_le_incl, Hi; [by apply list_elem_of_fmap_2 | by left].
Qed.

Lemma increasing_check_passes {W} (w : W) last recs (Q : unit -> W -> Prop) :
  StronglySorted Z.lt (last :: (GlobalSeq <$> recs)) -> Q tt w -> wp (increasing_check last recs) w Q.
Proof.
  revert last. induction recs as [|r recs IH]; intros last Hs HQ; cbn [increasing_check]; [by apply wp_ret|].
  apply wp_bind, wp_fatal_if.
  - apply bool_decide_eq_false. apply StronglySorted_inv in Hs as [_ Hlt]. apply Forall_cons in Hlt as [? _]. lia.
  - apply IH; [|done]. by apply StronglySorted_inv in Hs as [? _].
Qed.

Section subtests.
Context {W : Type} `{StoreSpec W}.
Variables (now : Time) (text : RawMessage -> string).
Hypothesis Htext : text payload = compact \/ text payload = spaced.
Hypothesis Hans : answers now.
Variable w : W.
Hypothesis Hw : on w [].

(** Name the records an append of a few events stored. *)
Ltac name_records Hst Ht :=
  repeat (let g := fresh "g" in let t := fresh "t" in let recs := fresh "recs" in let Hr := fresh in
          apply stored_inv_cons in Hst as (g & t & recs & Hr & Hst); subst);
  apply stored_inv_nil in Hst; subst; rewrite ?Forall_cons in Ht; cbn [OccurredAt app] in *.
Ltac must_append :=
  apply wp_bind; eapply wp_mustAppend; [done | eassumption | by vm_compute | by vm_compute | done | by vm_compute |];
  let Hst := fresh in let Ht := fresh "Ht" in intros ?recs ?w' Hst Ht ?Hw; name_records Hst Ht.
Ltac appends :=
  apply wp_bind; eapply wp_append; [done | eassumption | by vm_compute | by vm_compute | done | by vm_compute |];
  let Hst := fresh in let Ht := fresh "Ht" in intros ?recs ?w' Hst Ht ?Hw; name_records Hst Ht; apply wp_bind, wp_must.
Ltac conflicts :=
  apply wp_bind; eapply wp_append_conflict; [done | eassumption | by vm_compute | by vm_compute | done | by vm_compute |];
  let Hc := fresh in intros ?e ?w' Hc ?Hw; rewrite <-?Hc; try (apply wp_bind); apply wp_fatal_if; [cbn [conflicted]; by rewrite Hc|].
Ltac loads :=
  apply wp_bind; eapply wp_load; [done | eassumption |]; intros ?w' ?Hw;
  match goal with |- context [load_result ?s ?a ?l] =>
    let l' := eval vm_compute in (load_result s a l) in change (load_result s a l) with l' end.
Ltac reads :=
  apply wp_bind; eapply wp_readall; [done | eassumption |]; intros ?w' ?Hw;
  rewrite ?readall_all by (by eapply on_increasing).
Ltac heads := apply wp_bind; eapply wp_head; [done | eassumption |]; intros ?w' ?Hw; apply wp_bind, wp_must.
Ltac checks := try (apply wp_bind); first [apply wp_fatal_if | apply wp_error_if]; [by vm_compute|].
Ltac musts := apply wp_bind, wp_must.
Ltac indexes := apply wp_bind; eapply wp_at_index; [by vm_compute|].

Lemma append_then_load_passes : passed (append_then_load now text) w = true.
Proof.
  apply wp_passed. unfold append_then_load. appends. loads. musts. checks.
  destruct Ht as (Ht1 & Ht2 & _). apply wp_bind. cbn [range_from].
  repeat (apply wp_bind; checks; checks; apply wp_error_if; [assumption|]). apply wp_ret.
  indexes. indexes. do 2 checks. apply wp_error_if; [|done]. apply negb_false_iff, orb_true_iff.
  destruct Htext; [left | right]; by apply bool_decide_eq_true.
Qed.

Lemma append_continues_version_passes : passed (append_continues_version now) w = true.
Proof.
  apply wp_passed. unfold append_continues_version. do 2 must_append. loads. cbn [ignoring].
  apply wp_bind. rewrite decide_False by (by vm_compute; intros []). indexes. apply wp_ret. vm_compute. by eexists _, _.
Qed.

Lemma stale_append_conflicts_passes : passed (stale_append_conflicts now) w = true.
Proof. apply wp_passed. unfold stale_append_conflicts. must_append. conflicts. loads. by checks. Qed.

Lemma concurrent_create_conflicts_passes : passed (concurrent_create_conflicts now) w = true.
Proof. apply wp_passed. unfold concurrent_create_conflicts. must_append. by conflicts. Qed.

Lemma future_version_conflicts_passes : passed (future_version_conflicts now) w = true.
Proof. apply wp_passed. unfold future_version_conflicts. by conflicts. Qed.

Lemma load_after_version_passes : passed (load_after_version now) w = true.
Proof. apply wp_passed. unfold load_after_version. must_append. loads. musts. vm_compute. by eexists _, _. Qed.

Lemma missing_stream_loads_empty_passes : passed missing_stream_loads_empty w = true.
Proof. apply wp_passed. unfold missing_stream_loads_empty. loads. musts. by checks. Qed.

Lemma streams_are_isolated_passes : passed (streams_are_isolated now) w = true.
Proof. apply wp_passed. unfold streams_are_isolated. do 2 must_append. loads. vm_compute. by eexists _, _. Qed.

Lemma readall_tails_in_order_passes : passed (readall_tails_in_order now) w = true.
Proof.
  apply wp_passed. unfold readall_tails_in_order. do 3 must_append. reads. musts. checks.
  match goal with Hn : on _ _ |- _ => pose proof (on_increasing _ _ Hn) as Hi end.
  apply wp_bind, increasing_check_passes; [exact Hi|]. do 3 indexes. checks.
  apply wp_bind; eapply wp_readall; [done | eassumption |]; intros w4 Hw4.
  match goal with |- context [readall_result ?p _ [?a; ?b; ?c]] =>
    change (readall_result p 0 [a; b; c]) with (readall_result (GlobalSeq b) 0 ([a] ++ [b; c])) end.
  rewrite readall_after by exact Hi. musts. vm_compute. by eexists _, _.
Qed.

Lemma readall_honors_limit_passes : passed (readall_honors_limit now) w = true.
Proof.
  apply wp_passed. unfold readall_honors_limit. must_append.
  apply wp_bind; eapply wp_readall; [done | eassumption |]; intros w2 Hw2. musts.
  pose proof (readall_all _ (on_increasing _ _ Hw2)) as Hall. unfold readall_result, read_page, limited in *.
  rewrite decide_False in Hall by lia. rewrite Hall. by checks.
Qed.

Lemma metadata_round_trips_passes : passed (metadata_round_trips now) w = true.
Proof. apply wp_passed. unfold metadata_round_trips. must_append. loads. indexes. by checks. Qed.

Lemma empty_append_is_noop_passes : passed (empty_append_is_noop now) w = true.
Proof.
  apply wp_passed. unfold empty_append_is_noop.
  apply wp_bind. eapply wp_append_nothing; [done | eassumption | by vm_compute | by vm_compute |]. intros w1 Hw1. musts. checks.
  reads. by checks.
Qed.

Lemma append_returns_last_seq_passes : passed (append_returns_last_seq now) w = true.
Proof.
  apply wp_passed. unfold append_returns_last_seq. do 2 appends.
  match goal with Hn : on _ [_; _; _] |- _ => pose proof (on_increasing _ _ Hn) as Hi end.
  apply wp_bind, wp_error_if.
  { apply bool_decide_eq_false. cbn. unfold increasing in Hi. cbn in Hi. apply StronglySorted_inv in Hi as [Hi _].
    apply StronglySorted_inv in Hi as [Hi _]. apply StronglySorted_inv in Hi as [_ Hlt].
    apply Forall_cons in Hlt as [? _]. lia. }
  reads. musts. do 2 (indexes; try apply wp_bind; apply wp_error_if; [apply negb_false_iff, bool_decide_eq_true; reflexivity|]). done.
Qed.

Lemma head_of_empty_passes : passed head_of_empty w = true.
Proof. apply wp_passed. unfold head_of_empty. heads. by checks. Qed.

Ltac same := try apply wp_bind; apply wp_error_if; [apply negb_false_iff, bool_decide_eq_true; reflexivity|].

Lemma head_is_last_appended_passes : passed (head_is_last_appended now) w = true.
Proof. apply wp_passed. unfold head_is_last_appended. appends. heads. same. appends. heads. by same. Qed.

Lemma head_ends_tailing_read_passes : passed (head_ends_tailing_read now) w = true.
Proof.
  apply wp_passed. unfold head_ends_tailing_read. do 2 must_append. heads. reads. musts. indexes. same.
  apply wp_bind; eapply wp_readall; [done | eassumption |]; intros w5 Hw5. musts.
  match goal with |- context [readall_result ?p _ [?a; ?b; ?c]] =>
    change (readall_result p 0 [a; b; c]) with (readall_result (GlobalSeq c) 0 ([a; b] ++ [c])) end.
  rewrite readall_after by (by eapply on_increasing).
  by checks.
Qed.

Lemma failed_append_leaves_head_passes : passed (failed_append_leaves_head now) w = true.
Proof. apply wp_passed. unfold failed_append_leaves_head. must_append. heads. conflicts. heads. by same. Qed.
End subtests.

#[export] Hint Resolve append_then_load_passes append_continues_version_passes stale_append_conflicts_passes
  concurrent_create_conflicts_passes future_version_conflicts_passes load_after_version_passes
  missing_stream_loads_empty_passes streams_are_isolated_passes readall_tails_in_order_passes
  readall_honors_limit_passes metadata_round_trips_passes empty_append_is_noop_passes append_returns_last_seq_passes
  head_of_empty_passes head_is_last_appended_passes head_ends_tailing_read_passes failed_append_leaves_head_passes : gohex.

(** ** The built-in adapters answer *)

Lemma append_loop_stamps now s v i es w :
  exists recs, all (append_loop now s v i es w) = all w ++ recs /\ length recs = length es
    /\ Forall (fun r => OccurredAt r = now) recs.
Proof.
  revert i w. induction es as [|e es IH]; intros i w; cbn [append_loop]; [exists []; by rewrite app_nil_r|].
  destruct (IH (i + 1)%nat (mkMemoryStore (all w ++ [mem_record w now s v i e])
    (<[s := stream_index w s ++ [length (all w)]]> (streams w)))) as (recs & -> & Hl & Hr).
  exists (mem_record w now s v i e :: recs). cbn [all]. rewrite <-app_assoc. split; [done|].
  split; [simpl; by rewrite Hl | by constructor].
Qed.

(** What [mem_Append] can answer, and what it adds. *)
Lemma mem_Append_answers now s v es w r w' :
  mem_Append now s v es w = (r, w') ->
  ((exists seq, r = Ok seq) \/ exists e, r = Err e /\ errors_Is e ErrVersionConflict = true)
  /\ exists recs, all w' = all w ++ recs /\ Forall (fun r => OccurredAt r = now) recs.
Proof.
  unfold mem_Append. destruct (decide (es = [])) as [->|Hne].
  { intros [= <- <-]. split; [left; by eexists|]. exists []. by rewrite app_nil_r. }
  case_decide as Hv.
  { intros [= <- <-]. split; [right; eexists; split; [done|apply version_conflict_is]|]. exists []. by rewrite app_nil_r. }
  destruct (append_loop_stamps now s v 0 es w) as (recs & Hall & Hl & Hr). rewrite Hall.
  destruct recs as [|rec recs]; [by destruct es|].
  destruct (last (all w ++ rec :: recs)) as [l|] eqn:El.
  2: { apply last_None in El. by destruct (all w). }
  intros [= <- <-]. split; [left; by eexists|]. exists (rec :: recs). by rewrite Hall.
Qed.

Lemma memory_store_answers now : Time_IsZero now = false -> answers (W := MemoryStore) now.
Proof.
  intros Hnow. split.
  - intros s v es w r w' _ _ _ E. by apply mem_Append_answers in E as [? _].
  - intros s v w r w' Hinv E. simpl in E. rewrite mem_Load_spec in E by done. injection E as <- _. by eexists.
  - intros a n w r w' _ E. simpl in E. rewrite mem_ReadAll_spec in E. injection E as <- _. by eexists.
  - intros w r w' _ E. simpl in E. rewrite mem_Head_spec in E. injection E as <- _. by eexists.
  - intros w Hinv Hl. simpl in *. rewrite mem_last_seq by done. unfold int64_max. lia.
  - intros s v es w r w' recs _ E Hrecs. apply mem_Append_answers in E as [_ (recs' & Hall & Hr)].
    simpl in Hrecs. rewrite Hall in Hrecs. apply app_inv_head in Hrecs as <-.
    eapply Forall_impl; [exact Hr|]. by intros ? ->.
Qed.

(** ** Checkpoints *)

Section checkpoints.
Context {C : Type} `{CheckpointSpec C}.
(** The store's calls do not fail. *)
Hypothesis (Hget : forall name (c : C), is_ok (fst (cp_Get name c)) = true)
  (Hset : forall name seq (c : C), is_ok (fst (cp_Set name seq c)) = true).

Lemma wp_get name (c : C) (Q : res Z -> C -> Prop) :
  (forall c', positions_of c' = positions_of c -> Q (Ok (checkpoint_of c name)) c') -> wp (call (cp_Get name)) c Q.
Proof.
  intros HQ. destruct (cp_Get name c) as [r c'] eqn:E. pose proof (Hget name c) as Hok. rewrite E in Hok.
  destruct r as [seq| |]; [|done..]. destruct (cp_Get_spec _ _ _ _ E) as [Hp Hseq].
  eapply wp_call; [exact E | done|]. rewrite (Hseq _ eq_refl). by apply HQ.
Qed.

Lemma wp_set name seq (c : C) (Q : res unit -> C -> Prop) :
  (forall c', positions_of c' = <[name := seq]> (positions_of c) -> Q (Ok tt) c') -> wp (call (cp_Set name seq)) c Q.
Proof.
  intros HQ. destruct (cp_Set name seq c) as [r c'] eqn:E. pose proof (Hset name seq c) as Hok. rewrite E in Hok.
  destruct r as [[]| |]; [|done..]. destruct (cp_Set_spec _ _ _ _ _ E) as [Hp|[Hn _]]; [|done].
  eapply wp_call; [exact E | done|]. by apply HQ.
Qed.

Ltac gets := apply wp_bind; apply wp_get; intros ?c' ?Hp.
Ltac sets := apply wp_bind; first [apply wp_set | unfold mustSet; apply wp_bind, wp_set];
  intros ?c' ?Hp; apply wp_bind, wp_must; try (apply wp_ret).
Ltac position := unfold checkpoint_of; repeat match goal with Hp : positions_of _ = _ |- _ => rewrite Hp; clear Hp end.

Lemma checkpoint_suite_passes (c : C) : positions_of c = ∅ -> suite_passes RunCheckpoints c = true.
Proof.
  intros He. unfold suite_passes, RunCheckpoints. cbn [forallb snd]. rewrite !andb_true_iff. split_and!; [..|done]; apply wp_passed.
  - unfold unknown_is_zero. gets. apply wp_bind, wp_must, wp_fatal_if; [|done]. unfold checkpoint_of. rewrite He. done.
  - unfold set_then_get. sets. gets. apply wp_bind, wp_must, wp_fatal_if; [|done]. unfold checkpoint_of. by rewrite Hp, lookup_insert_eq.
  - unfold set_overwrites. sets. sets. gets. apply wp_fatal_if; [|done]. unfold checkpoint_of. cbn [ignoring].
    by rewrite Hp0, lookup_insert_eq.
  - unfold names_are_independent. sets. sets. gets. apply wp_bind, wp_fatal_if.
    { unfold checkpoint_of. cbn [ignoring]. by rewrite Hp0, Hp, lookup_insert_ne, lookup_insert_eq by done. }
    gets. apply wp_fatal_if; [|done]. unfold checkpoint_of. cbn [ignoring]. by rewrite Hp1, Hp0, lookup_insert_eq.
Qed.
End checkpoints.

(** ** Properties *)

(** C29: The conformance suites accept every adapter that honours its port: a
    store that keeps the contract of [StoreSpec], starts empty, whose calls do
    not fail during the run, that stamps what it stores with a real time and
    hands the payload back in one of the two spellings the suite knows, passes
    every subtest of storetest.Run; a checkpoint store that keeps its contract,
    starts empty and whose calls do not fail passes every subtest of
    storetest.RunCheckpoints: no report, no fatal stop, no index out of range. *)
Theorem conforming_adapters_pass {W C} `{StoreSpec W} `{CheckpointSpec C} (now : Time) (text : RawMessage -> string)
    (newStore : W) (newCheckpoints : C)
    (Hinv : store_inv newStore) (Hempty : log_of newStore = []) (Hans : answers (W := W) now)
    (Htext : text payload = compact \/ text payload = spaced)
    (Hcps : positions_of newCheckpoints = ∅)
    (Hget : forall name (c : C), is_ok (fst (cp_Get name c)) = true)
    (Hset : forall name seq (c : C), is_ok (fst (cp_Set name seq c)) = true) :
  suite_passes (Run now text) newStore = true /\ suite_passes RunCheckpoints newCheckpoints = true.
Proof.
  split; [|by apply checkpoint_suite_passes].
  assert (on newStore []) as Hon by by split. unfold suite_passes, Run. cbn [forallb snd]. rewrite !andb_true_iff.
  split_and!; eauto with gohex.
Qed.

(** *** The suite is not vacuous: it refuses a store that lets stale appends through *)

Module Sample.
Definition noon : Time := mkTime 2026 1 2 12 0 0 0 0.
(** The in-memory store keeps the bytes it was given. *)
Definition verbatim (p : RawMessage) : string :=
  match p with RawJSON (JObj [(k, JInt n)]) => "{" +:+ Quote k +:+ ":" +:+ FormatInt n +:+ "}" | _ => "" end.
(** A store that reformats them otherwise is refused. *)
Example reformatting_store_refused :
  filter (fun nt => passed (snd nt) NewMemoryStore = false) (Run noon (fun _ => compact +:+ " ")) ≫= (fun nt => [fst nt])
  = ["append then load"].
Proof. by vm_compute. Qed.
Definition careless : Type := MemoryStore.
#[local] Instance careless_store : Store careless := {
  Append := fun now s v es (w : MemoryStore) => mem_Append now s (stream_version s (all w)) es w;
  Load := mem_Load; ReadAll := mem_ReadAll; Head := mem_Head;
}.
Definition refused (t : T careless unit) : bool := negb (passed t NewMemoryStore).
Example careless_store_refused :
  filter (fun nt => refused (snd nt) = true) (Run noon verbatim) ≫= (fun nt => [fst nt])
  = ["stale append conflicts"; "concurrent create conflicts"; "future expected version conflicts"; "a failed append leaves the head alone"].
Proof. by vm_compute. Qed.
End Sample.

Lemma conforming_adapters_pass_witness :
  suite_passes (Run Sample.noon Sample.verbatim) NewMemoryStore = true /\ suite_passes RunCheckpoints NewMemoryCheckpointStore = true.
Proof.
  apply (conforming_adapters_pass Sample.noon Sample.verbatim NewMemoryStore NewMemoryCheckpointStore).
  - exact mem_inv_new.
  - reflexivity.
  - apply memory_store_answers. vm_compute. reflexivity.
  - left. vm_compute. reflexivity.
  - reflexivity.
  - reflexivity.
  - reflexivity.
Defined.
