(* ===== verification/Kafka.v ===== *)
(** * broker-kafka/broker.go: the messaging port on Kafka

    The envelope as a record with headers, publishing, and [Subscribe] as a
    machine of one client or handler call per step. The Kafka client is a
    parameter, a class of the calls the adapter makes; the JSON text of the
    metadata header is encoding/json's, as a pair of functions. *)

From S2P Require Import Prelude Errors GoTime Json Broker.

(** ** Records *)

Record KRecord := mkKRecord {
  kr_Topic : string;
  kr_Key : string;
  kr_Value : RawMessage;
  kr_Headers : list (string * string);
}.

Definition headerID : string := "gohex-id".
Definition headerType : string := "gohex-type".
Definition headerVersion : string := "gohex-version".
Definition headerOccurredAt : string := "gohex-occurred-at".
Definition headerMetadata : string := "gohex-metadata".

(** [json.Unmarshal(data, &m)] of a string map with its error ignored: members
    that are no strings leave an empty string, another document nothing. *)
Definition unmarshal_map (old : strmap) (j : json) : strmap :=
  match j with
  | JNull => None
  | JObj ms =>
    Some (foldl (fun m '(k, v) => <[k := match v with JStr s => s | _ => "" end]> m) (default ∅ old) ms)
  | _ => old
  end.

Section wire.
(** The JSON text of a document, the document a text is, and what [time.Parse]
    makes of a text that is not RFC 3339. *)
Variables (json_text : json -> string) (json_read : string -> option json) (lenient_time : string -> option Time).

Definition has_metadata (m : Message) : bool :=
  match msg_Metadata m with Some md => bool_decide (md <> ∅) | None => false end.

Definition toRecord (topic : string) (m : Message) : res KRecord :=
  let headers :=
    [(headerID, msg_ID m); (headerType, msg_Type m); (headerVersion, FormatInt (msg_Version m));
     (headerOccurredAt, FormatRFC3339Nano (UTC (msg_OccurredAt m)))] in
  let headers := if has_metadata m then headers ++ [(headerMetadata, json_text (enc_map (msg_Metadata m)))] else headers in
  Ok (mkKRecord topic (msg_Key m) (msg_Payload m) headers).

Definition time_Parse (s : string) : Time :=
  match ParseRFC3339 s with
  | Some t => t
  | None => default zero_time (lenient_time s)
  end.

(** The [switch] on a header's key. *)
Definition read_header (msg : Message) (h : string * string) : Message :=
  let '(key, v) := h in
  if decide (key = headerID) then
    mkMessage v (msg_Key msg) (msg_Type msg) (msg_Version msg) (msg_OccurredAt msg) (msg_Payload msg) (msg_Metadata msg)
  else if decide (key = headerType) then
    mkMessage (msg_ID msg) (msg_Key msg) v (msg_Version msg) (msg_OccurredAt msg) (msg_Payload msg) (msg_Metadata msg)
  else if decide (key = headerVersion) then
    mkMessage (msg_ID msg) (msg_Key msg) (msg_Type msg) (Atoi v) (msg_OccurredAt msg) (msg_Payload msg) (msg_Metadata msg)
  else if decide (key = headerOccurredAt) then
    mkMessage (msg_ID msg) (msg_Key msg) (msg_Type msg) (msg_Version msg) (time_Parse v) (msg_Payload msg) (msg_Metadata msg)
  else if decide (key = headerMetadata) then
    mkMessage (msg_ID msg) (msg_Key msg) (msg_Type msg) (msg_Version msg) (msg_OccurredAt msg) (msg_Payload msg)
      (match json_read v with Some doc => unmarshal_map (msg_Metadata msg) doc | None => msg_Metadata msg end)
  else msg.

Definition fromRecord (rec : KRecord) : Message :=
  foldl read_header (mkMessage "" (kr_Key rec) "" 0 zero_time (kr_Value rec) None) (kr_Headers rec).

(** ** Publishing *)

(** The producer's [ProduceSync(ctx, records...).FirstErr()]. *)
Class Producer (P : Type) := ProduceSync : list KRecord -> P -> res unit * P.

Definition kafka_Publish {P} `{Producer P} (topic : string) (msgs : list Message) (p : P) : res unit * P :=
  match res_mapM (toRecord topic) msgs with
  | Ok records =>
    let '(r, p') := ProduceSync records p in
    (res_wrap ("kafkabroker: publish to " +:+ topic +:+ ": ") "" r, p')
  | Err e => (Err e, p)
  | Panic m => (Panic m, p)
  end.

(** ** Subscribing *)

Definition retryBackoff : Z := 250 * 1000000.

Record Fetches := mkFetches { IsClientClosed : bool; fetch_errors : list (string * error); fetch_records : list KRecord }.

(** The group client's calls; both take the context, which may be done. *)
Class GroupClient (K : Type) := {
  PollFetches : bool -> K -> Fetches * K;
  CommitRecords : bool -> KRecord -> K -> res unit * K;
}.

(** What an observer sees: a batch handed to [EachRecord], handler calls and
    calls of [CommitRecords] that returned, with their answers. *)
Inductive kafka_event :=
  | E_polled (records : list KRecord)
  | E_handled (rec : KRecord) (r : res unit)
  | E_committed (rec : KRecord) (r : res unit).

(** Where [Subscribe] is: about to poll; with the fetches polled; in
    [EachRecord] with the records left and [failed]; in the handler's retry
    loop for a record, about to call it, asleep after it failed, about to
    commit; returned. *)
Inductive kafka_pc :=
  | K_Poll
  | K_Polled (f : Fetches)
  | K_Each (rest : list KRecord) (failed : option error)
  | K_Handle (rec : KRecord) (rest : list KRecord)
  | K_Backoff (rec : KRecord) (rest : list KRecord)
  | K_Commit (rec : KRecord) (rest : list KRecord)
  | K_Returned (r : res unit).

Context {K : Type} `{GroupClient K}.

Record kafka_state := mkKafkaState { ks_client : K; ks_cancelled : bool; ks_pc : kafka_pc; ks_events : list kafka_event }.

(** One step of [Subscribe(ctx, topic, group, handler)] after the client is
    made. [outcome] is how a handler call returns, [timer] says that the timer
    of the wait wins over a context that is done. *)
Definition kafka_step (topic group : string) (outcome : res unit) (timer : bool) (s : kafka_state) : kafka_state :=
  let goto pc := mkKafkaState (ks_client s) (ks_cancelled s) pc (ks_events s) in
  match ks_pc s with
  | K_Poll => let '(f, k) := PollFetches (ks_cancelled s) (ks_client s) in mkKafkaState k (ks_cancelled s) (K_Polled f) (ks_events s)
  | K_Polled f =>
    if ks_cancelled s then goto (K_Returned (Ok tt)) else
    if IsClientClosed f then goto (K_Returned (Ok tt)) else
    match fetch_errors f with
    | (t, e) :: _ => goto (K_Returned (Err (EWrap ("kafkabroker: fetch " +:+ t +:+ "/" +:+ group +:+ ": ") e "")))
    | [] => mkKafkaState (ks_client s) (ks_cancelled s) (K_Each (fetch_records f) None) (ks_events s ++ [E_polled (fetch_records f)])
    end
  | K_Each [] failed =>
    goto (if ks_cancelled s then K_Returned (Ok tt) else
          match failed with
          | Some e => K_Returned (Err (EWrap ("kafkabroker: commit " +:+ topic +:+ "/" +:+ group +:+ ": ") e ""))
          | None => K_Poll
          end)
  | K_Each (rec :: rest) (Some e) => goto (K_Each rest (Some e))
  | K_Each (rec :: rest) None => goto (K_Handle rec rest)
  | K_Handle rec rest =>
    mkKafkaState (ks_client s) (ks_cancelled s)
      match outcome with Ok _ => K_Commit rec rest | Err _ => K_Backoff rec rest | Panic m => K_Returned (Panic m) end
      (ks_events s ++ [E_handled rec outcome])
  | K_Backoff rec rest =>
    goto (if negb (ks_cancelled s) || timer then K_Handle rec rest
          else K_Each rest None) (* [return] from the callback: on to the next record *)
  | K_Commit rec rest =>
    let '(r, k) := CommitRecords (ks_cancelled s) rec (ks_client s) in
    mkKafkaState k (ks_cancelled s)
      match r with Ok _ => K_Each rest None | Err e => K_Each rest (Some e) | Panic m => K_Returned (Panic m) end
      (ks_events s ++ [E_committed rec r])
  | K_Returned _ => s
  end.

Definition cancel (s : kafka_state) : kafka_state := mkKafkaState (ks_client s) true (ks_pc s) (ks_events s).
End wire.

(** ** The envelope on the wire *)

(** A message as its consumers see it: the instant on a UTC clock, and no
    metadata for empty metadata. *)
Definition on_the_wire (m : Message) : Message :=
  mkMessage (msg_ID m) (msg_Key m) (msg_Type m) (msg_Version m) (UTC (msg_OccurredAt m)) (msg_Payload m)
    (if has_metadata m then msg_Metadata m else None).

Record wire_valid (json_text : json -> string) (json_read : string -> option json) (m : Message) : Prop := {
  wv_version : in_int64 (msg_Version m);
  wv_time : time_valid (msg_OccurredAt m);
  wv_year : 0 <= year (UTC (msg_OccurredAt m)) <= 9999;
  wv_metadata : forall md, msg_Metadata m = Some md -> map_valid md;
  (* json.Unmarshal reads what json.Marshal wrote *)
  wv_json : json_read (json_text (enc_map (msg_Metadata m))) = Some (enc_map (msg_Metadata m));
}.

(** Ignoring the error makes no difference where there is none. *)
Lemma unmarshal_map_ok old j m : dec_map old j = Ok m -> unmarshal_map old j = m.
Proof.
  destruct j as [| | | | | |ms]; simpl; try done; [by intros [= <-]|].
  destruct (res_mapM _ ms) as [kvs| |] eqn:Hk; simpl; try done. intros [= <-]. f_equal. clear -Hk.
  revert kvs Hk. generalize (default ∅ old). induction ms as [|[k v] ms IH]; intros m kvs; simpl; [by intros [= <-]|].
  destruct v; simpl; try done;
    (destruct (res_mapM _ ms) as [rest| |] eqn:Hr; simpl; try done; intros [= <-]; simpl; by apply IH).
Qed.

Section roundtrip.
Variables (json_text : json -> string) (json_read : string -> option json) (lenient_time : string -> option Time).

Lemma read_headers topic m rec :
  wire_valid json_text json_read m -> toRecord json_text topic m = Ok rec ->
  kr_Topic rec = topic /\ fromRecord json_read lenient_time rec = on_the_wire m.
Proof.
  intros [Hver Htime Hyear Hmd Hjson] [= <-]. split; [done|].
  assert (time_Parse lenient_time (FormatRFC3339Nano (UTC (msg_OccurredAt m))) = UTC (msg_OccurredAt m)) as Ht.
  { unfold time_Parse. rewrite Parse_Format; [done|]. by apply UTC_instant. }
  assert (Atoi (FormatInt (msg_Version m)) = msg_Version m) as Hv.
  { apply Atoi_FormatInt. unfold in_int64, int64_min, int64_max in Hver. lia. }
  unfold fromRecord, on_the_wire. simpl kr_Key. simpl kr_Value. simpl kr_Headers.
  destruct (has_metadata m) eqn:Hhas; [|simpl; by rewrite Hv, Ht].
  simpl. rewrite Hv, Ht, Hjson. unfold has_metadata in Hhas.
  destruct (msg_Metadata m) as [md|] eqn:Hm; [|done]. do 2 f_equal.
  apply unmarshal_map_ok, dec_enc_map, Hmd. done.
Qed.
End roundtrip.

(** C24: An envelope survives Kafka. The record of a message, read back, is the
    message: identifier, key, type, version, payload and metadata unchanged,
    the occurrence the same instant to the nanosecond, on a UTC clock (the
    same value when it was one already). The record goes to the topic asked
    for, under the message's key. *)
Theorem kafka_record_roundtrip (json_text : json -> string) (json_read : string -> option json)
    (lenient_time : string -> option Time) (topic : string) (m : Message) :
  wire_valid json_text json_read m ->
  exists rec, toRecord json_text topic m = Ok rec /\ kr_Topic rec = topic /\ kr_Key rec = msg_Key m
  /\ let m' := fromRecord json_read lenient_time rec in
     msg_ID m' = msg_ID m /\ msg_Key m' = msg_Key m /\ msg_Type m' = msg_Type m /\ msg_Version m' = msg_Version m
     /\ msg_Payload m' = msg_Payload m /\ msg_Metadata m' = (if has_metadata m then msg_Metadata m else None)
     /\ instant_minute (msg_OccurredAt m') = instant_minute (msg_OccurredAt m)
     /\ second (msg_OccurredAt m') = second (msg_OccurredAt m) /\ nanosecond (msg_OccurredAt m') = nanosecond (msg_OccurredAt m)
     /\ (offset (msg_OccurredAt m) = 0 -> msg_OccurredAt m' = msg_OccurredAt m).
Proof.
  intros Hm. destruct (toRecord json_text topic m) as [rec| |] eqn:Hrec; [|done..].
  destruct (read_headers json_text json_read lenient_time topic m rec Hm Hrec) as [Ht Hr].
  exists rec. split; [done|]. split; [done|]. split; [by injection Hrec as <-|].
  cbn zeta. rewrite Hr. simpl. destruct (UTC_instant _ (wv_time _ _ _ Hm)) as (Hi & Hs & Hn & _).
  split_and!; try done. apply UTC_id, Hm.
Qed.

(** ** Publishing *)

(** What the adapter relies on of a producer: a call that returns nil has
    stored every record at the end of its partition, in order; a call that
    fails may have stored some of them; the key decides the partition. *)
Class ProducerSpec (P : Type) `{Producer P} := {
  partition_of : string -> string -> nat;
  stored : P -> string -> nat -> list KRecord;
  ProduceSync_spec records p r p' :
    ProduceSync records p = (r, p') ->
    forall topic i, exists part, stored p' topic i = stored p topic i ++ part
      /\ part `sublist_of` filter (fun rec => kr_Topic rec = topic /\ partition_of topic (kr_Key rec) = i) records
      /\ (r = Ok tt -> part = filter (fun rec => kr_Topic rec = topic /\ partition_of topic (kr_Key rec) = i) records);
}.

Lemma filter_of_sublist {A} (Q : A -> Prop) `{!forall x, Decision (Q x)} (l k : list A) :
  l `sublist_of` k -> filter Q l `sublist_of` filter Q k.
Proof.
  induction 1 as [|x l k _ IH|x l k _ IH]; [done| |]; rewrite !filter_cons; case_decide; [by constructor | done | by constructor | done].
Qed.

Section publishing.
Variables (json_text : json -> string) (json_read : string -> option json) (lenient_time : string -> option Time).

(** The messages of a topic with a key, as a consumer of the key's partition
    reads them. *)
Definition readable {P} `{ProducerSpec P} (p : P) (topic key : string) : list Message :=
  fromRecord json_read lenient_time <$> filter (fun rec => kr_Key rec = key) (stored p topic (partition_of topic key)).

(** The records of a batch: one per message, under its key. *)
Lemma records_of_batch topic msgs :
  exists records, res_mapM (toRecord json_text topic) msgs = Ok records
  /\ Forall (fun rec => kr_Topic rec = topic) records
  /\ (Forall (wire_valid json_text json_read) msgs -> forall key,
       fromRecord json_read lenient_time <$> filter (fun rec => kr_Key rec = key) records
       = on_the_wire <$> filter (fun m => msg_Key m = key) msgs).
Proof.
  induction msgs as [|m msgs (records & Hrun & Htop & Hread)]; [by exists []|].
  assert (exists rec, toRecord json_text topic m = Ok rec) as [rec Hrec] by (by eexists).
  exists (rec :: records). split; [cbn [res_mapM]; rewrite Hrec; cbn [res_bind]; by rewrite Hrun|].
  assert (kr_Topic rec = topic /\ kr_Key rec = msg_Key m) as [Ht Hk] by (injection Hrec as <-; split; reflexivity).
  split; [by constructor|]. intros [Hm Hms]%Forall_cons key. rewrite !filter_cons, Hk.
  case_decide; [|by apply Hread]. rewrite !fmap_cons, (Hread Hms). f_equal.
  by apply (read_headers json_text json_read lenient_time topic m rec).
Qed.

Lemma filter_key_partition {P} `{ProducerSpec P} topic key (records : list KRecord) :
  Forall (fun rec => kr_Topic rec = topic) records ->
  filter (fun rec => kr_Key rec = key)
    (filter (fun rec => kr_Topic rec = topic /\ partition_of topic (kr_Key rec) = partition_of topic key) records)
  = filter (fun rec => kr_Key rec = key) records.
Proof.
  induction 1 as [|rec records Ht _ IH]; [done|]. rewrite !filter_cons.
  destruct (decide (kr_Key rec = key)) as [<-|Hk].
  - rewrite decide_True by done. rewrite filter_cons, decide_True by done. by rewrite IH.
  - case_decide; [rewrite filter_cons, decide_False by done|]; exact IH.
Qed.

Lemma toRecord_read_key rec : msg_Key (fromRecord json_read lenient_time rec) = kr_Key rec.
Proof.
  unfold fromRecord. assert (forall hs m, msg_Key (foldl (read_header json_read lenient_time) m hs) = msg_Key m) as H; [|by rewrite H].
  induction hs as [|[k v] hs IH]; intros m; [done|]. simpl. rewrite IH. unfold read_header. by repeat case_decide.
Qed.
End publishing.

(** Publishing to Kafka honours the port, key by key. What the consumers of
    a key's partition read grows only by messages of the batch with that key,
    in the batch's order, as they are on the wire; by all of them when the call
    returns nil; and no other topic is touched. *)
Theorem kafka_publish_keeps_key_order {P} `{ProducerSpec P} (json_text : json -> string) (json_read : string -> option json)
    (lenient_time : string -> option Time) (topic : string) (msgs : list Message) (p p' : P) (r : res unit) :
  Forall (wire_valid json_text json_read) msgs -> kafka_Publish json_text topic msgs p = (r, p') ->
  (forall key, exists part, readable json_read lenient_time p' topic key = readable json_read lenient_time p topic key ++ part
     /\ part `sublist_of` (on_the_wire <$> filter (fun m => msg_Key m = key) msgs)
     /\ (r = Ok tt -> part = on_the_wire <$> filter (fun m => msg_Key m = key) msgs))
  /\ forall t i, t <> topic -> stored p' t i = stored p t i.
Proof.
  intros Hv. unfold kafka_Publish.
  destruct (records_of_batch json_text json_read lenient_time topic msgs) as (records & -> & Htop & Hread).
  destruct (ProduceSync records p) as [r1 p1] eqn:E. intros [= <- <-]. pose proof (ProduceSync_spec _ _ _ _ E) as Hspec. split.
  - intros key. destruct (Hspec topic (partition_of topic key)) as (part & Hst & Hsub & Hall).
    exists (fromRecord json_read lenient_time <$> filter (fun rec => kr_Key rec = key) part).
    unfold readable. rewrite Hst, filter_app, fmap_app. split; [done|].
    rewrite <-(Hread Hv key), <-(filter_key_partition topic key records Htop). split.
    + by apply fmap_sublist, filter_of_sublist.
    + intros Hok. rewrite Hall; [done|]. by destruct r1 as [[]| |].
  - intros t i Ht. destruct (Hspec t i) as (part & Hst & Hsub & _).
    assert (filter (fun rec => kr_Topic rec = t /\ partition_of t (kr_Key rec) = i) records = []) as Hnil.
    { clear -Htop Ht. induction Htop as [|rec records Hr _ IH]; [done|]. rewrite filter_cons, decide_False; [done|]. intros [? _]. congruence. }
    rewrite Hnil in Hsub. apply sublist_nil_r in Hsub. by rewrite Hst, Hsub, app_nil_r.
Qed.

(** ** Subscribing: what the port promises a group

    The consumer's side of the contract: the records of a batch are handled in
    order, a failed one again before any later one, and a record is committed
    once handled, before the next is handled; nothing follows a panic or a
    failed commit. *)
Record progress := mkProgress { pr_todo : list KRecord; pr_awaiting : option KRecord; pr_over : bool }.

Inductive observes : progress -> kafka_event -> progress -> Prop :=
  | obs_batch records : observes (mkProgress [] None false) (E_polled records) (mkProgress records None false)
  | obs_accepted rec rest : observes (mkProgress (rec :: rest) None false) (E_handled rec (Ok tt)) (mkProgress rest (Some rec) false)
  | obs_failed rec rest e : observes (mkProgress (rec :: rest) None false) (E_handled rec (Err e)) (mkProgress (rec :: rest) None false)
  | obs_panicked rec rest m : observes (mkProgress (rec :: rest) None false) (E_handled rec (Panic m)) (mkProgress (rec :: rest) None true)
  | obs_committed rec todo r : observes (mkProgress todo (Some rec) false) (E_committed rec r) (mkProgress todo None (negb (is_ok r))).

Fixpoint observes_all (st : progress) (events : list kafka_event) (st' : progress) : Prop :=
  match events with
  | [] => st = st'
  | e :: rest => exists st1, observes st e st1 /\ observes_all st1 rest st'
  end.

Definition follows : list kafka_event -> progress -> Prop := observes_all (mkProgress [] None false).

Lemma follows_snoc events st e st' : follows events st -> observes st e st' -> follows (events ++ [e]) st'.
Proof.
  unfold follows. generalize (mkProgress [] None false). induction events as [|e1 events IH]; intros st0; simpl.
  - intros -> Ho. by exists st'.
  - intros (st1 & H1 & H2) Ho. exists st1. split; [done | by apply IH].
Qed.

Section subscription.
Context {K : Type} `{GroupClient K}.
Variables (topic group : string).

(** What has been promised so far, by where the call is. *)
Definition in_order (s : kafka_state (K := K)) : Prop :=
  match ks_pc s with
  | K_Poll | K_Polled _ => follows (ks_events s) (mkProgress [] None false)
  | K_Each rest None => follows (ks_events s) (mkProgress rest None false)
  | K_Handle rec rest | K_Backoff rec rest => follows (ks_events s) (mkProgress (rec :: rest) None false)
  | K_Commit rec rest => follows (ks_events s) (mkProgress rest (Some rec) false)
  | K_Each _ (Some _) | K_Returned _ => exists st, follows (ks_events s) st
  end.

Lemma in_order_follows s : in_order s -> exists st, follows (ks_events s) st.
Proof. unfold in_order. destruct (ks_pc s) as [| |? [|]| | | |]; eauto. Qed.

Lemma step_in_order outcome timer s :
  ks_cancelled s = false -> in_order s ->
  ks_cancelled (kafka_step topic group outcome timer s) = false /\ in_order (kafka_step topic group outcome timer s).
Proof.
  intros Hc Hs. pose proof (in_order_follows s Hs) as Hsome. revert Hs. unfold in_order, kafka_step. rewrite Hc.
  destruct (ks_pc s) as [|f|rest failed|rec rest|rec rest|rec rest|r] eqn:Hpc; cbn [negb orb].
  - by destruct (PollFetches _ (ks_client s)) as [f k].
  - intros Hf. destruct (IsClientClosed f); [done|].
    destruct (fetch_errors f) as [|[t e] ?]; [|done]. split; [done|]. exact (follows_snoc _ _ _ _ Hf (obs_batch _)).
  - destruct rest as [|rec rest]; destruct failed as [e|]; done.
  - intros Hf. split; [done|]. destruct outcome as [[]|e|m]; simpl.
    + exact (follows_snoc _ _ _ _ Hf (obs_accepted _ _)).
    + exact (follows_snoc _ _ _ _ Hf (obs_failed _ _ _)).
    + eexists. exact (follows_snoc _ _ _ _ Hf (obs_panicked _ _ _)).
  - done.
  - intros Hf. destruct (CommitRecords _ rec (ks_client s)) as [r k]. split; [done|].
    pose proof (follows_snoc _ _ _ _ Hf (obs_committed rec rest r)) as Hf'. destruct r as [[]|e|m]; simpl in *; eauto.
  - by rewrite Hpc.
Qed.

(** A run of [Subscribe]: its own steps, whatever the handler and the timers
    do, and cancellations when [cancels]. *)
Inductive kafka_move (cancels : bool) : kafka_state (K := K) -> kafka_state (K := K) -> Prop :=
  | move_step outcome timer s : kafka_move cancels s (kafka_step topic group outcome timer s)
  | move_cancel s : cancels = true -> kafka_move cancels s (cancel s).

Lemma move_to cancels outcome timer s s' : kafka_step topic group outcome timer s = s' -> kafka_move cancels s s'.
Proof. intros <-. constructor. Qed.
End subscription.

(** C15: A live Kafka subscription delivers in order and acknowledges what it
    handled. As long as the context is not cancelled, whatever the handler
    returns and the client answers: the records of each polled batch are
    handled in their order, one that failed again before any later one, every
    record that was handled is committed before the next is handled, nothing
    is committed that was not, and no batch is polled before the last is done. *)
Theorem kafka_subscription_in_order {K} `{GroupClient K} (topic group : string) (k : K) s :
  rtc (kafka_move topic group false) (mkKafkaState k false K_Poll []) s -> exists st, follows (ks_events s) st.
Proof.
  intros Hrun. apply in_order_follows.
  assert (ks_cancelled (mkKafkaState k false K_Poll []) = false /\ in_order (mkKafkaState k false K_Poll [])) as Hstart by done.
  induction Hrun as [s|s1 s2 s3 Hmove _ IH]; [apply Hstart|]. apply IH.
  destruct Hstart as [Hc Hi]. destruct Hmove as [outcome timer s|s Hf]; [by apply step_in_order | done].
Qed.

(** C39: A cancelled subscription breaks that order. When the context ends while
    a record waits for its retry, the loop goes on with the next record of the
    batch: it is handled, and the client is asked - with the ended context -
    to commit it, after the failed one and before its redelivery, although both
    may have the same key. The call then returns nil, whatever the client
    answered. *)
Theorem kafka_cancelled_retry_skips_record {K} `{GroupClient K} (topic group : string) (k k' : K) m1 m2 e :
  PollFetches false k = (mkFetches false [] [m1; m2], k') -> m1 <> m2 ->
  (forall m, fst (CommitRecords true m2 k') <> Panic m) ->
  exists s, rtc (kafka_move topic group true) (mkKafkaState k false K_Poll []) s
    /\ ks_pc s = K_Returned (Ok tt)
    /\ ks_events s = [E_polled [m1; m2]; E_handled m1 (Err e); E_handled m2 (Ok tt); E_committed m2 (fst (CommitRecords true m2 k'))]
    /\ ~ exists st, follows (ks_events s) st.
Proof.
  intros Hpoll Hne Hc. destruct (CommitRecords true m2 k') as [r k2] eqn:Hcommit. simpl in Hc.
  set (events := [E_polled [m1; m2]; E_handled m1 (Err e); E_handled m2 (Ok tt); E_committed m2 r]).
  exists (mkKafkaState k2 true (K_Returned (Ok tt)) events). split; [|split; [done|]; split; [done|]].
  - set (polled := [E_polled [m1; m2]]). set (failed := polled ++ [E_handled m1 (Err e)]).
    eapply rtc_l; [apply (move_to _ _ _ (Ok tt) false _ (mkKafkaState k' false (K_Polled (mkFetches false [] [m1; m2])) []));
                   unfold kafka_step; simpl; by rewrite Hpoll|].
    do 2 (eapply rtc_l; [by eapply (move_to _ _ _ (Ok tt) false)|]). cbn.
    eapply rtc_l; [by apply (move_to _ _ _ (Err e) false _ (mkKafkaState k' false (K_Backoff m1 [m2]) failed))|].
    eapply rtc_l; [by apply move_cancel|]. cbn.
    do 3 (eapply rtc_l; [by eapply (move_to _ _ _ (Ok tt) false)|]; cbn).
    eapply rtc_l; [eapply (move_to _ _ _ (Ok tt) false); unfold kafka_step; simpl; rewrite Hcommit; reflexivity|].
    eapply rtc_l; [eapply (move_to _ _ _ (Ok tt) false); unfold kafka_step; simpl; reflexivity|].
    destruct r as [[]|e'|m]; [apply rtc_refl | apply rtc_refl | exfalso; exact (Hc m eq_refl)].
  - intros (st & st1 & H1 & st2 & H2 & st3 & H3 & _). inversion H1; subst. inversion H2; subst.
    by inversion H3; subst.
Qed.

Module Sample.
Definition metadata : strmap := Some {["traceparent" := "00-1"]}.
Definition json_text (j : json) : string := match j with JNull => "null" | _ => "{traceparent:00-1}" end.
Definition json_read (s : string) : option json := if decide (s = "null") then Some JNull else Some (enc_map metadata).

(** Half past midnight, a first of January, in Bangkok. *)
Definition occurred : Time := mkTime 2024 1 1 0 30 15 250 420.
Definition message (id : string) : Message := mkMessage id "o-1" "ordering.order_placed" 1 occurred (RawJSON JNull) metadata.
Lemma message_valid id : wire_valid json_text json_read (message id).
Proof.
  split; [split; vm_compute; discriminate | | | | reflexivity].
  - split; simpl; [lia | reflexivity | lia | lia].
  - vm_compute. split; discriminate.
  - intros md [= <-]. intros k v Hkv. apply lookup_singleton_Some in Hkv as [<- <-]. split; reflexivity.
Qed.

(** A producer that keeps everything, on topics of one partition. *)
Definition log : Type := list KRecord.
#[export] Instance keeping : Producer log := fun records p => (Ok tt, p ++ records).
#[export] Program Instance keeping_spec : ProducerSpec log := {
  partition_of _ _ := 0%nat;
  stored p topic i := filter (fun rec => kr_Topic rec = topic /\ 0%nat = i) p;
}.
Next Obligation.
  intros records p r p' [= <- <-] topic i. eexists. split; [apply filter_app|]. split; [reflexivity | done].
Qed.

(** A client with its batches in advance, whose commits are answered. *)
#[export] Instance batches : GroupClient (list (list KRecord)) := {
  PollFetches _ k := match k with [] => (mkFetches true [] [], []) | rs :: rest => (mkFetches false [] rs, rest) end;
  CommitRecords _ rec k := (Ok tt, k);
}.
Definition record (id : string) : KRecord := mkKRecord "t" "o-1" RawNil [(headerID, id)].
End Sample.
Import Sample.

Lemma kafka_record_roundtrip_witness :
  exists rec, toRecord Sample.json_text "t" (Sample.message "m-1") = Ok rec
  /\ msg_OccurredAt (fromRecord Sample.json_read (fun _ => None) rec) = mkTime 2023 12 31 17 30 15 250 0
  /\ msg_Metadata (fromRecord Sample.json_read (fun _ => None) rec) = Sample.metadata.
Proof.
  destruct (kafka_record_roundtrip Sample.json_text Sample.json_read (fun _ => None) "t" (Sample.message "m-1")
    (Sample.message_valid "m-1")) as (rec & Hrec & _ & _ & Hm).
  exists rec. split; [exact Hrec|]. split; [|exact (proj1 (proj2 (proj2 (proj2 (proj2 (proj2 Hm))))))].
  injection Hrec as <-. vm_compute. reflexivity.
Defined.

Definition publish_two : res unit * Sample.log :=
  kafka_Publish (P := Sample.log) Sample.json_text "t" [Sample.message "m-1"; Sample.message "m-2"] [].

Lemma kafka_publish_keeps_key_order_witness :
  msg_ID <$> readable Sample.json_read (fun _ => None) (snd publish_two) "t" "o-1" = ["m-1"; "m-2"].
Proof.
  assert (Forall (wire_valid Sample.json_text Sample.json_read) [Sample.message "m-1"; Sample.message "m-2"]) as Hv
    by (do 2 (apply Forall_cons_2; [apply Sample.message_valid|]); apply Forall_nil_2).
  destruct (kafka_publish_keeps_key_order (P := Sample.log) (H := Sample.keeping) (H0 := Sample.keeping_spec)
    Sample.json_text Sample.json_read (fun _ => None) "t" [Sample.message "m-1"; Sample.message "m-2"] []
    (snd publish_two) (fst publish_two) Hv (surjective_pairing publish_two)) as [Hkey _].
  destruct (Hkey "o-1") as (part & -> & _ & Hpart). rewrite (Hpart eq_refl). reflexivity.
Defined.

Lemma kafka_subscription_in_order_witness :
  let s := Nat.iter 6 (kafka_step "t" "g" (Ok tt) true) (mkKafkaState [[Sample.record "m-1"]] false K_Poll []) in
  exists st, follows (ks_events s) st.
Proof.
  intros s. apply (kafka_subscription_in_order "t" "g" [[Sample.record "m-1"]] s).
  unfold s. simpl Nat.iter. do 6 (eapply rtc_r; [|constructor]). apply rtc_refl.
Defined.

Lemma kafka_cancelled_retry_skips_record_witness :
  exists s, rtc (kafka_move "t" "g" true) (mkKafkaState [[Sample.record "m-1"; Sample.record "m-2"]] false K_Poll []) s
    /\ ~ exists st, follows (ks_events s) st.
Proof.
  destruct (kafka_cancelled_retry_skips_record (H := Sample.batches) "t" "g" [[Sample.record "m-1"; Sample.record "m-2"]] []
    (Sample.record "m-1") (Sample.record "m-2") (EText "down") eq_refl ltac:(discriminate) ltac:(discriminate))
    as (s & Hrun & _ & _ & Hno).
  exists s. split; [exact Hrun | exact Hno].
Defined.
